(** * CRM incremental loader: validation engine, lookup resolver and pipeline

    A shallow embedding of the Python sources
    [utils/etl.py], [utils/db.py], [models/*.py] and [etl/pipeline.py].

    Python values are dynamically typed, so the embedding keeps a small
    universe of values ([PyVal]) and an exception type ([exn]); code that can
    raise returns a [PyRes].  Behaviour of third-party libraries
    (validators, phonenumbers, dateutil, country_converter) and of the
    float/datetime printers is taken as a parameter, the record [Ext]. *)

From Stdlib Require Import String Ascii List ZArith QArith Bool Lia Arith.
From Stdlib Require Import DecimalString Sorted.
From Stdlib Require OrderedTypeEx.
Import ListNotations.

Local Open Scope string_scope.
Local Open Scope Z_scope.

(** ** Python values and exceptions *)

(** A Python [float]: not-a-number, an infinity, or a finite value (every
    finite double is a rational). *)
Inductive pyfloat : Type :=
| FNan
| FInf (negative : bool)
| FFin (q : Q).

Inductive PyVal : Type :=
| VNone
| VBool (b : bool)
| VInt (z : Z)
| VFloat (f : pyfloat)
| VStr (s : string)
| VDatetime (t : Z) (aware : bool).
(** [VDatetime t aware] is a [datetime] or pandas [Timestamp] denoting the
    instant [t]; [aware] tells whether it carries a time zone (a naive one is
    read as UTC). *)

(** The exception classes the code distinguishes.  All of them derive from
    [Exception]; only [ValueError] is caught by [BaseModel.validate]. *)
Inductive exn : Type :=
| ValueError (msg : string)
| TypeError
| AttributeError
| OverflowError
| KeyError
| IntegrityError
| LibraryError (msg : string).

Inductive PyRes (A : Type) : Type :=
| Ret (a : A)
| Raise (e : exn).
Arguments Ret {A} a.
Arguments Raise {A} e.

Definition bindR {A B} (m : PyRes A) (k : A -> PyRes B) : PyRes B :=
  match m with
  | Ret a => k a
  | Raise e => Raise e
  end.

Notation "x <- m ;; k" := (bindR m (fun x => k))
  (at level 61, m at next level, right associativity).

(** [try: body  except Exception: handler] *)
Definition try_except {A} (body : PyRes A) (handler : exn -> PyRes A) : PyRes A :=
  match body with
  | Ret a => Ret a
  | Raise e => handler e
  end.

(** [try: body  except ValueError as e: handler] — other exceptions escape. *)
Definition try_except_ValueError {A} (body : PyRes A)
    (handler : string -> PyRes A) : PyRes A :=
  match body with
  | Ret a => Ret a
  | Raise (ValueError m) => handler m
  | Raise e => Raise e
  end.

(** ** Python [str] methods on ASCII text

    A string is a list of 8-bit characters.  The methods below are those of
    Python on ASCII text; characters from 128 on have no case and are no
    white space here, which is not how Python treats the rest of Unicode. *)

Definition is_space (c : ascii) : bool :=
  let n := N_of_ascii c in
  ((9 <=? n) && (n <=? 13) || (28 <=? n) && (n <=? 32))%N.

Definition is_digit (c : ascii) : bool :=
  let n := N_of_ascii c in ((48 <=? n) && (n <=? 57))%N.

Definition is_lower (c : ascii) : bool :=
  let n := N_of_ascii c in ((97 <=? n) && (n <=? 122))%N.

Definition is_upper (c : ascii) : bool :=
  let n := N_of_ascii c in ((65 <=? n) && (n <=? 90))%N.

Definition to_upper (c : ascii) : ascii :=
  if is_lower c then ascii_of_N (N_of_ascii c - 32) else c.

Definition to_lower (c : ascii) : ascii :=
  if is_upper c then ascii_of_N (N_of_ascii c + 32) else c.

Fixpoint lstrip (s : string) : string :=
  match s with
  | EmptyString => EmptyString
  | String c s' => if is_space c then lstrip s' else s
  end.

Fixpoint rstrip (s : string) : string :=
  match s with
  | EmptyString => EmptyString
  | String c s' =>
      match rstrip s' with
      | EmptyString => if is_space c then EmptyString else String c EmptyString
      | r => String c r
      end
  end.

(** [s.strip()] *)
Definition strip (s : string) : string := rstrip (lstrip s).

Fixpoint str_map (f : ascii -> ascii) (s : string) : string :=
  match s with
  | EmptyString => EmptyString
  | String c s' => String (f c) (str_map f s')
  end.

(** [s.upper()], [s.lower()] *)
Definition upper : string -> string := str_map to_upper.
Definition lower : string -> string := str_map to_lower.

(** [s.title()]: a cased letter is upper-cased when it follows an uncased
    character (or starts the string) and lower-cased otherwise. *)
Fixpoint title_from (prev_cased : bool) (s : string) : string :=
  match s with
  | EmptyString => EmptyString
  | String c s' =>
      let cased := is_lower c || is_upper c in
      String (if prev_cased then to_lower c else to_upper c) (title_from cased s')
  end.
Definition title : string -> string := title_from false.

(** [ch in s] *)
Fixpoint contains (ch : ascii) (s : string) : bool :=
  match s with
  | EmptyString => false
  | String c s' => Ascii.eqb c ch || contains ch s'
  end.

(** [s.endswith(ch)] for a one-character suffix *)
Fixpoint endswith (ch : ascii) (s : string) : bool :=
  match s with
  | EmptyString => false
  | String c EmptyString => Ascii.eqb c ch
  | String _ s' => endswith ch s'
  end.

(** [s.split(sep)] for a one-character separator: never the empty list. *)
Fixpoint split (sep : ascii) (s : string) : list string :=
  match s with
  | EmptyString => [EmptyString]
  | String c s' =>
      if Ascii.eqb c sep then EmptyString :: split sep s'
      else match split sep s' with
           | h :: t => String c h :: t
           | [] => [String c EmptyString]
           end
  end.

(** [sep.join(parts)] *)
Fixpoint join (sep : string) (parts : list string) : string :=
  match parts with
  | [] => EmptyString
  | [p] => p
  | p :: rest => p ++ sep ++ join sep rest
  end.

(** ** The builtin [int()] *)

Definition digit_value (c : ascii) : Z := Z.of_N (N_of_ascii c) - 48.

(** Digits with single underscores allowed between them. *)
Fixpoint parse_digits (acc : Z) (after_digit : bool) (s : string) : option Z :=
  match s with
  | EmptyString => if after_digit then Some acc else None
  | String c s' =>
      if is_digit c then parse_digits (10 * acc + digit_value c) true s'
      else if Ascii.eqb c "_" then
             (if after_digit then parse_digits acc false s' else None)
      else None
  end.

(** [int(s)] for a string: surrounding white space, an optional sign, then
    decimal digits. *)
Definition int_of_str (s : string) : option Z :=
  match strip s with
  | String "-" d => option_map Z.opp (parse_digits 0 false d)
  | String "+" d => parse_digits 0 false d
  | d => parse_digits 0 false d
  end.

Definition str_of_int (z : Z) : string := NilEmpty.string_of_int (Z.to_int z).

(** Truncation toward zero, as [int(float)] does. *)
Definition trunc (q : Q) : Z := Z.quot (Qnum q) (Z.pos (Qden q)).

(** [int(v)].  A string that is no integer literal and a NaN raise
    [ValueError]; an infinity raises [OverflowError]; [None] and datetimes
    raise [TypeError]. *)
Definition py_int (v : PyVal) : PyRes Z :=
  match v with
  | VInt z => Ret z
  | VBool b => Ret (if b then 1 else 0)
  | VStr s =>
      match int_of_str s with
      | Some z => Ret z
      | None =>
          Raise (ValueError ("invalid literal for int() with base 10: '" ++ s ++ "'"))
      end
  | VFloat FNan => Raise (ValueError "cannot convert float NaN to integer")
  | VFloat (FInf _) => Raise OverflowError
  | VFloat (FFin q) => Ret (trunc q)
  | VNone => Raise TypeError
  | VDatetime _ _ => Raise TypeError
  end.

(** ** Third-party libraries *)

Record Ext : Type := {
  (* validators.email / validators.domain: truthy on a well-formed value *)
  validators_email : string -> bool;
  validators_domain : string -> bool;
  (* country_converter.convert(..., to="ISO2", not_found=404) *)
  cc_convert : string -> option string;
  (* dateutil.parser.parse on a string, as an instant (UTC when naive) *)
  dateutil_parse : string -> PyRes Z;
  (* phonenumbers.parse and phonenumbers.format_number(_, INTERNATIONAL) *)
  PhoneNumber : Type;
  phonenumbers_parse : PyVal -> PyVal -> PyRes PhoneNumber;
  phonenumbers_format_international : PhoneNumber -> PyRes string;
  (* float(str), str(float), str(datetime) *)
  float_of_str : string -> option pyfloat;
  str_of_float : pyfloat -> string;
  str_of_datetime : Z -> string
}.

(** [str(v)], as used by f-strings *)
Definition py_str (E : Ext) (v : PyVal) : string :=
  match v with
  | VNone => "None"
  | VBool true => "True"
  | VBool false => "False"
  | VInt z => str_of_int z
  | VFloat f => str_of_float E f
  | VStr s => s
  | VDatetime t _ => str_of_datetime E t
  end.

(** ** utils/etl.py *)

(** [clean_text(text, lower=False)]: [None] falls through the [if] and the
    function returns [None]; a value without [strip] raises. *)
Definition clean_text (text : PyVal) (lower_case : bool) : PyRes PyVal :=
  match text with
  | VNone => Ret VNone
  | VStr s => Ret (VStr (if lower_case then lower (strip s) else upper (strip s)))
  | _ => Raise AttributeError
  end.

(** [standardize_datetime(datetime_str)] *)
Definition standardize_datetime (E : Ext) (datetime_str : PyVal) : PyRes PyVal :=
  match datetime_str with
  | VDatetime t _ => Ret (VDatetime t true)      (* tz_localize("UTC") when naive *)
  | VStr s => t <- dateutil_parse E s ;; Ret (VDatetime t true)
  | _ => Raise TypeError                         (* parser.parse wants a string *)
  end.

(** [normalize_phone_number(phone_number, region)] *)
Definition normalize_phone_number (E : Ext) (phone_number region : PyVal)
  : PyRes (PyVal * bool) :=
  try_except
    (parsed_phone_number <- phonenumbers_parse E phone_number region ;;
     formatted_phone_number <- phonenumbers_format_international E parsed_phone_number ;;
     Ret (VStr formatted_phone_number, true))
    (fun _ => Ret (phone_number, false)).

(** ** Dictionaries, rows and the store *)

(** A Python [dict] with string keys, in insertion order. *)
Definition Row : Type := list (string * PyVal).

Fixpoint dict_get (d : Row) (k : string) : option PyVal :=
  match d with
  | [] => None
  | (k', v) :: d' => if String.eqb k' k then Some v else dict_get d' k
  end.

(** [d[k] = v]: an existing key keeps its position. *)
Fixpoint dict_set (d : Row) (k : string) (v : PyVal) : Row :=
  match d with
  | [] => [(k, v)]
  | (k', v') :: d' =>
      if String.eqb k' k then (k', v) :: d' else (k', v') :: dict_set d' k v
  end.

Fixpoint dict_remove (d : Row) (k : string) : Row :=
  match d with
  | [] => []
  | (k', v') :: d' =>
      if String.eqb k' k then d' else (k', v') :: dict_remove d' k
  end.

(** [d.pop(k)]: [KeyError] when the key is absent. *)
Definition dict_pop (d : Row) (k : string) : PyRes (PyVal * Row) :=
  match dict_get d k with
  | Some v => Ret (v, dict_remove d k)
  | None => Raise KeyError
  end.

Definition dict_keys (d : Row) : list string := map fst d.

(** [d[k]] read as a record field: a missing field reads as [None]. *)
Definition field (d : Row) (k : string) : PyVal :=
  match dict_get d k with Some v => v | None => VNone end.

Definition pyfloat_eqb (a b : pyfloat) : bool :=
  match a, b with
  | FInf x, FInf y => Bool.eqb x y
  | FFin p, FFin q => Qeq_bool p q
  | _, _ => false                       (* NaN equals nothing *)
  end.

(** Equality of keys, as the store and Python's [==] see it on values of one
    type. *)
Definition val_eqb (a b : PyVal) : bool :=
  match a, b with
  | VNone, VNone => true
  | VBool x, VBool y => Bool.eqb x y
  | VInt x, VInt y => Z.eqb x y
  | VFloat x, VFloat y => pyfloat_eqb x y
  | VStr x, VStr y => String.eqb x y
  | VDatetime x ax, VDatetime y ay => Z.eqb x y && Bool.eqb ax ay
  | _, _ => false
  end.

Definition mem_val (v : PyVal) (l : list PyVal) : bool := existsb (val_eqb v) l.

(** [pandas.unique] / [list(dict.keys())]: first occurrences, in order. *)
Fixpoint unique (l : list PyVal) : list PyVal :=
  match l with
  | [] => []
  | v :: l' => v :: filter (fun w => negb (val_eqb v w)) (unique l')
  end.

Inductive Table : Type :=
| industries | companies | contact_statuses | contacts
| stages | forecast_categories | products | opportunities | activities.

Definition Table_eqb (a b : Table) : bool :=
  match a, b with
  | industries, industries | companies, companies
  | contact_statuses, contact_statuses | contacts, contacts
  | stages, stages | forecast_categories, forecast_categories
  | products, products | opportunities, opportunities
  | activities, activities => true
  | _, _ => false
  end.

(** The committed content of the database: the rows of every table, oldest
    first. *)
Definition Store : Type := Table -> list Row.

Definition empty_store : Store := fun _ => [].

Definition store_add (db : Store) (t : Table) (rows : list Row) : Store :=
  fun t' => if Table_eqb t t' then (db t' ++ rows)%list else db t'.

Definition column_values (rows : list Row) (c : string) : list PyVal :=
  map (fun r => field r c) rows.

(** ** utils/db.py: BaseModel *)

Record Column : Type := {
  col_name : string;
  nullable : bool
}.

(** A model instance: its column attributes and [self.validation_errors]. *)
Record Instance : Type := {
  attrs : Row;
  validation_errors : list string
}.

Definition getattr (self : Instance) (name : string) : PyVal := field (attrs self) name.

Definition setattr (self : Instance) (name : string) (v : PyVal) : Instance :=
  {| attrs := dict_set (attrs self) name v;
     validation_errors := validation_errors self |}.

Definition append_error (self : Instance) (msg : string) : Instance :=
  {| attrs := attrs self;
     validation_errors := (validation_errors self ++ [msg])%list |}.

(** What a validator can observe besides its arguments: the libraries, the
    clock and the committed store. *)
Record Ctx : Type := {
  ext : Ext;
  now : Z;
  db : Store
}.

(** A method [validate_<column>(self, key, value)]. *)
Definition Validator : Type := Ctx -> Instance -> string -> PyVal -> PyRes PyVal.

Record ModelClass : Type := {
  tablename : Table;
  columns : list Column;
  (* hasattr(self, "validate_<name>") / getattr(self, "validate_<name>") *)
  validator_of : string -> option Validator;
  (* columns under a UNIQUE or PRIMARY KEY constraint *)
  unique_columns : list string;
  (* an Integer primary key filled in by the store *)
  autoincrement : bool
}.

Definition column_names (cls : ModelClass) : list string :=
  map col_name (columns cls).

Definition mem_str (s : string) (l : list string) : bool := existsb (String.eqb s) l.

(** [BaseModel.__init__], applied to its keyword arguments *)
Definition BaseModel_init (cls : ModelClass) (kwargs : Row) : Instance :=
  let unknown_columns :=
    filter (fun k => negb (mem_str k (column_names cls))) (dict_keys kwargs) in
  {| attrs := filter (fun kv => mem_str (fst kv) (column_names cls)) kwargs;
     validation_errors :=
       match unknown_columns with
       | [] => []
       | _ => ["Unknown columns: " ++ join ", " unknown_columns]
       end |}.

(** The body of the [try] in [BaseModel.validate] for one column: the null
    check, then the column's validator when the class has one.  [None] as a
    result means that no validator ran and nothing is assigned. *)
Definition check_column (cls : ModelClass) (cx : Ctx) (self : Instance)
    (column : Column) : PyRes (option PyVal) :=
  let value := getattr self (col_name column) in
  match value, nullable column with
  | VNone, false => Raise (ValueError (col_name column ++ " cannot be null."))
  | _, _ =>
      match validator_of cls (col_name column) with
      | Some validator =>
          value' <- validator cx self (col_name column) value ;;
          Ret (Some value')
      | None => Ret None
      end
  end.

(** One iteration of the loop of [validate], with its [except ValueError]. *)
Definition validate_column (cls : ModelClass) (cx : Ctx) (self : Instance)
    (column : Column) : PyRes Instance :=
  try_except_ValueError
    (r <- check_column cls cx self column ;;
     Ret (match r with
          | Some value => setattr self (col_name column) value
          | None => self
          end))
    (fun e => Ret (append_error self e)).

Fixpoint validate_columns (cls : ModelClass) (cx : Ctx) (cols : list Column)
    (self : Instance) : PyRes Instance :=
  match cols with
  | [] => Ret self
  | column :: rest =>
      self' <- validate_column cls cx self column ;;
      validate_columns cls cx rest self'
  end.

Definition is_nil {A} (l : list A) : bool :=
  match l with [] => true | _ => false end.

(** [BaseModel.validate(self)]: the truth value returned and the instance as
    the loop left it. *)
Definition validate (cls : ModelClass) (cx : Ctx) (self : Instance)
  : PyRes (bool * Instance) :=
  self' <- validate_columns cls cx (columns cls) self ;;
  Ret (is_nil (validation_errors self'), self').

(** [BaseModel.as_dict(self)] *)
Definition as_dict (cls : ModelClass) (self : Instance) : Row :=
  map (fun c => (col_name c, getattr self (col_name c))) (columns cls).

(** ** models/*.py *)

Definition col (name : string) (null_ok : bool) : Column :=
  {| col_name := name; nullable := null_ok |}.

(** A method of [str] called on a value: anything but a string has no such
    attribute. *)
Definition as_str (v : PyVal) : PyRes string :=
  match v with
  | VStr s => Ret s
  | _ => Raise AttributeError
  end.

(** [a < b] on datetimes: ordering a datetime against anything else, or an
    aware against a naive one, is a [TypeError]. *)
Definition datetime_lt (a b : PyVal) : PyRes bool :=
  match a, b with
  | VDatetime x ax, VDatetime y ay =>
      if Bool.eqb ax ay then Ret (x <? y) else Raise TypeError
  | _, _ => Raise TypeError
  end.

(** [value > datetime.now(tz=value.tzinfo)] for a standardized [value] *)
Definition in_future (cx : Ctx) (value : PyVal) : PyRes bool :=
  datetime_lt (VDatetime (now cx) true) value.

(** The common opening of the date validators:
    [try: d = standardize_datetime(d)  except Exception: raise ValueError(...)] *)
Definition standardize_or (cx : Ctx) (key : string) (raw : PyVal) (advice : string)
  : PyRes PyVal :=
  try_except (standardize_datetime (ext cx) raw)
    (fun _ => Raise (ValueError
       (key ++ ": " ++ py_str (ext cx) raw ++ " is invalid. " ++ advice))).

Module Industry.
Definition cls : ModelClass :=
    {| tablename := industries;
       columns := [col "id" false; col "name" false];
       validator_of := fun _ => None;
       unique_columns := ["id"; "name"];
       autoincrement := true |}.
End Industry.

Module Company.
Definition validate_name : Validator := fun cx self key name =>
    s <- as_str name ;; Ret (VStr (upper (strip s))).

Definition validate_domain : Validator := fun cx self key domain =>
    s <- as_str domain ;;
    let domain := strip s in
    if validators_domain (ext cx) domain then Ret (VStr domain)
    else Raise (ValueError (key ++ ": " ++ domain ++ " is invalid.")).

Definition validate_size : Validator := fun cx self key size =>
    s <- as_str size ;;
    let size := strip s in
    if contains "+" size && negb (endswith "+" size) then
      Raise (ValueError (key ++ ": " ++ size ++ " is invalid."))
    else
      let parts := split "-" size in
      _ <- (if (length parts =? 2)%nat then
              low <- py_int (VStr (nth 0 parts "")) ;;
              high <- py_int (VStr (nth 1 parts "")) ;;
              if low >? high then
                Raise (ValueError (key ++ ": " ++ size ++ " is invalid."))
              else Ret tt
            else Ret tt) ;;
      if (2 <? length parts)%nat then
        Raise (ValueError (key ++ ": " ++ size ++ " is invalid."))
      else Ret (VStr size).

  (** After the conversion the name [country] holds the library's answer, so
      the message of the failure shows the [not_found] marker. *)
Definition validate_country : Validator := fun cx self key country =>
    s <- as_str country ;;
    match cc_convert (ext cx) (upper (strip s)) with
    | Some iso2 => Ret (VStr iso2)
    | None => Raise (ValueError (key ++ ": " ++ str_of_int 404 ++ " is invalid."))
    end.

Definition validate_created_date : Validator := fun cx self key created_date =>
    created_date <- standardize_or cx key created_date
                      "Please consider ISO 8601 format." ;;
    late <- in_future cx created_date ;;
    if late then
      Raise (ValueError (key ++ ": cannot be in future: " ++ py_str (ext cx) created_date))
    else Ret created_date.

Definition cls : ModelClass :=
    {| tablename := companies;
       columns := [col "id" false; col "industry_id" false; col "name" false;
                   col "domain" false; col "size" false; col "country" false;
                   col "created_date" false; col "is_customer" false;
                   col "annual_revenue" false];
       validator_of := fun name =>
         if String.eqb name "name" then Some validate_name
         else if String.eqb name "domain" then Some validate_domain
         else if String.eqb name "size" then Some validate_size
         else if String.eqb name "country" then Some validate_country
         else if String.eqb name "created_date" then Some validate_created_date
         else None;
       unique_columns := ["id"; "domain"];
       autoincrement := false |}.
End Company.

Module ContactStatus.
Definition cls : ModelClass :=
    {| tablename := contact_statuses;
       columns := [col "id" false; col "name" false; col "description" true];
       validator_of := fun _ => None;
       unique_columns := ["id"; "name"];
       autoincrement := true |}.
End ContactStatus.

Module Contact.
  (** [session.query(exists().where(Contact.email == email)).scalar()] *)
Definition contact_found (cx : Ctx) (email : string) : bool :=
    mem_val (VStr email) (column_values (db cx contacts) "email").

Definition validate_email : Validator := fun cx self key email =>
    s <- as_str email ;;
    let email := strip s in
    if negb (validators_email (ext cx) email) then
      Raise (ValueError (key ++ ": " ++ email ++ " is not a valid email address."))
    else if contact_found cx email then
      Raise (ValueError (key ++ ": A contact already exists with email " ++ email ++ "."))
    else Ret (VStr email).

Definition validate_first_name : Validator := fun cx self key name =>
    s <- as_str name ;; Ret (VStr (title (strip s))).

Definition validate_last_name : Validator := fun cx self key name =>
    s <- as_str name ;; Ret (VStr (title (strip s))).

Definition validate_title : Validator := fun cx self key title =>
    s <- as_str title ;; Ret (VStr (strip s)).

Definition validate_phone : Validator := fun cx self key phone =>
    s <- as_str phone ;;
    r <- normalize_phone_number (ext cx) (VStr (strip s)) VNone ;;
    let '(phone, is_normalized) := r in
    if negb is_normalized then
      Raise (ValueError
        (key ++ ": " ++ py_str (ext cx) phone ++ " is not a valid. "
             ++ "Please provide a valid phone number in international format."))
    else Ret phone.

Definition validate_created_date : Validator := fun cx self key created_date =>
    created_date <- standardize_or cx key created_date "Please use ISO 8601 format." ;;
    late <- in_future cx created_date ;;
    if late then
      Raise (ValueError
        (key ++ ": cannot be in the future " ++ py_str (ext cx) created_date))
    else Ret created_date.

  (** [hasattr(self, "created_date")] holds of every instance: the attribute
      is a column of the class. *)
Definition validate_last_modified : Validator := fun cx self key last_modified =>
    last_modified <- standardize_or cx key last_modified "Please use ISO 8601 format." ;;
    late <- in_future cx last_modified ;;
    if late then
      Raise (ValueError
        (key ++ ": cannot be in the future " ++ py_str (ext cx) last_modified))
    else
      before <- datetime_lt last_modified (getattr self "created_date") ;;
      if before then
        Raise (ValueError (key ++ ": cannot be before `created_date`."))
      else Ret last_modified.

Definition cls : ModelClass :=
    {| tablename := contacts;
       columns := [col "id" false; col "status_id" false; col "company_id" false;
                   col "email" false; col "first_name" false; col "last_name" false;
                   col "title" false; col "phone" true;
                   col "created_date" false; col "last_modified" false];
       validator_of := fun name =>
         if String.eqb name "email" then Some validate_email
         else if String.eqb name "first_name" then Some validate_first_name
         else if String.eqb name "last_name" then Some validate_last_name
         else if String.eqb name "title" then Some validate_title
         else if String.eqb name "phone" then Some validate_phone
         else if String.eqb name "created_date" then Some validate_created_date
         else if String.eqb name "last_modified" then Some validate_last_modified
         else None;
       unique_columns := ["id"; "email"];
       autoincrement := false |}.
End Contact.

(** [float(v)].  An integer is taken at its exact value: the rounding to a
    double, and the [OverflowError] of an integer beyond the doubles, are not
    part of this model. *)
Definition py_float (E : Ext) (v : PyVal) : PyRes pyfloat :=
  match v with
  | VFloat f => Ret f
  | VInt z => Ret (FFin (inject_Z z))
  | VBool b => Ret (FFin (inject_Z (if b then 1 else 0)))
  | VStr s =>
      match float_of_str E s with
      | Some f => Ret f
      | None => Raise (ValueError ("could not convert string to float: '" ++ s ++ "'"))
      end
  | VNone => Raise TypeError
  | VDatetime _ _ => Raise TypeError
  end.

(** [f < 0] *)
Definition float_negative (f : pyfloat) : bool :=
  match f with
  | FNan => false
  | FInf negative => negative
  | FFin q => Qnum q <? 0
  end.

Module Stage.
Definition cls : ModelClass :=
    {| tablename := stages;
       columns := [col "id" false; col "name" false; col "description" true];
       validator_of := fun _ => None;
       unique_columns := ["id"; "name"];
       autoincrement := true |}.
End Stage.

Module ForecastCategory.
Definition cls : ModelClass :=
    {| tablename := forecast_categories;
       columns := [col "id" false; col "name" false; col "description" true];
       validator_of := fun _ => None;
       unique_columns := ["id"; "name"];
       autoincrement := true |}.
End ForecastCategory.

Module Product.
Definition cls : ModelClass :=
    {| tablename := products;
       columns := [col "id" false; col "name" false; col "description" true];
       validator_of := fun _ => None;
       unique_columns := ["id"; "name"];
       autoincrement := true |}.
End Product.

Module Opportunity.
Definition validate_name : Validator := fun cx self key name =>
    s <- as_str name ;; Ret (VStr (title (strip s))).

Definition validate_probability : Validator := fun cx self key probability =>
    p <- try_except_ValueError (py_int probability)
           (fun _ => Raise (ValueError
              (key ++ ": " ++ py_str (ext cx) probability ++ " must be a valid integer."))) ;;
    if negb ((0 <=? p) && (p <=? 100)) then
      Raise (ValueError (key ++ ": " ++ str_of_int p ++ " must be between 0 and 100."))
    else Ret (VInt p).

Definition validate_amount : Validator := fun cx self key amount =>
    a <- try_except_ValueError (py_float (ext cx) amount)
           (fun _ => Raise (ValueError
              (key ++ ": " ++ py_str (ext cx) amount ++ " must be a valid numeric value."))) ;;
    if float_negative a then
      Raise (ValueError (key ++ ": " ++ str_of_float (ext cx) a ++ " cannot be negative."))
    else Ret (VFloat a).

Definition validate_created_date : Validator := fun cx self key created_date =>
    created_date <- standardize_or cx key created_date "Please use ISO 8601 format." ;;
    late <- in_future cx created_date ;;
    if late then
      Raise (ValueError
        (key ++ ": Created date cannot be in the future: "
             ++ py_str (ext cx) created_date))
    else Ret created_date.

Definition validate_close_date : Validator := fun cx self key close_date =>
    standardize_or cx key close_date "Please use ISO 8601 format.".

Definition cls : ModelClass :=
    {| tablename := opportunities;
       columns := [col "id" false; col "name" false; col "contact_id" false;
                   col "company_id" false; col "stage_id" false;
                   col "forecast_category_id" false; col "product_id" false;
                   col "amount" false; col "probability" false;
                   col "created_date" false; col "close_date" false;
                   col "is_closed" false];
       validator_of := fun name =>
         if String.eqb name "name" then Some validate_name
         else if String.eqb name "probability" then Some validate_probability
         else if String.eqb name "amount" then Some validate_amount
         else if String.eqb name "created_date" then Some validate_created_date
         else if String.eqb name "close_date" then Some validate_close_date
         else None;
       unique_columns := ["id"];
       autoincrement := false |}.
End Opportunity.

Module Activity.
Definition validate_type : Validator := fun cx self key activity_type =>
    s <- as_str activity_type ;; Ret (VStr (upper (strip s))).

Definition validate_outcome : Validator := fun cx self key outcome =>
    s <- as_str outcome ;; Ret (VStr (upper (strip s))).

Definition validate_subject : Validator := fun cx self key subject =>
    s <- as_str subject ;; Ret (VStr (lower (strip s))).

Definition validate_timestamp : Validator := fun cx self key timestamp =>
    standardize_or cx key timestamp "Please consider ISO 8601 format.".

  (** [isinstance(duration, int)] holds of integers and of booleans. *)
Definition validate_duration_minutes : Validator := fun cx self key duration =>
    let ok := match duration with
              | VInt z => 0 <=? z
              | VBool _ => true
              | _ => false
              end in
    if ok then Ret duration
    else Raise (ValueError (key ++ ": Duration must be a non-negative integer.")).

Definition cls : ModelClass :=
    {| tablename := activities;
       columns := [col "contact_id" false; col "opportunity_id" true;
                   col "id" false; col "type" false; col "subject" false;
                   col "timestamp" false; col "duration_minutes" false;
                   col "outcome" false; col "notes" true];
       validator_of := fun name =>
         if String.eqb name "type" then Some validate_type
         else if String.eqb name "outcome" then Some validate_outcome
         else if String.eqb name "subject" then Some validate_subject
         else if String.eqb name "timestamp" then Some validate_timestamp
         else if String.eqb name "duration_minutes" then Some validate_duration_minutes
         else None;
       unique_columns := ["id"];
       autoincrement := false |}.
End Activity.

(** ** The world of a run: store, clock, class state, files *)

(** One entry of [Pipeline.validation_errors[...]]. *)
Record ErrorEntry : Type := {
  record : Row;
  errors : list string
}.

(** [Pipeline.validation_errors]: a dict from entity name to a list. *)
Definition ErrorLog : Type := list (string * list ErrorEntry).

(** The data directory as pandas reads it: the rows of each file. *)
Record Inputs : Type := {
  companies_csv : list Row;
  contacts_json : list Row;
  opportunities_csv : list Row;
  activities_json : list Row
}.

(** A file written by [log_errors]. *)
Record Artifact : Type := {
  directory : string;
  stamp : Z;
  content : ErrorLog
}.

Record World : Type := {
  store : Store;                       (* committed rows *)
  clock : Z;                           (* datetime.now(), time.time() *)
  class_validation_errors : ErrorLog;  (* the attribute of class Pipeline *)
  files : string -> Inputs;            (* data directories *)
  written : list Artifact              (* error reports, oldest first *)
}.

Definition with_store (w : World) (s : Store) : World :=
  {| store := s; clock := clock w;
     class_validation_errors := class_validation_errors w;
     files := files w; written := written w |}.

Definition with_errors (w : World) (l : ErrorLog) : World :=
  {| store := store w; clock := clock w;
     class_validation_errors := l;
     files := files w; written := written w |}.

Definition with_written (w : World) (a : list Artifact) : World :=
  {| store := store w; clock := clock w;
     class_validation_errors := class_validation_errors w;
     files := files w; written := a |}.

(** Stateful code that may raise: the world is threaded through, also past
    an exception (what was committed or appended stays). *)
Definition M (A : Type) : Type := World -> PyRes A * World.

Definition ret {A} (a : A) : M A := fun w => (Ret a, w).

Definition bind {A B} (m : M A) (k : A -> M B) : M B :=
  fun w => match m w with
           | (Ret a, w') => k a w'
           | (Raise e, w') => (Raise e, w')
           end.

Definition lift {A} (r : PyRes A) : M A := fun w => (r, w).

Definition get_world : M World := fun w => (Ret w, w).

Notation "x <~ m ;; k" := (bind m (fun x => k))
  (at level 61, m at next level, right associativity).

Fixpoint for_each {A} (l : list A) (body : A -> M unit) : M unit :=
  match l with
  | [] => ret tt
  | x :: l' => _ <~ body x ;; for_each l' body
  end.

Fixpoint map_res {A B} (f : A -> PyRes B) (l : list A) : PyRes (list B) :=
  match l with
  | [] => Ret []
  | x :: l' => y <- f x ;; ys <- map_res f l' ;; Ret (y :: ys)
  end.

(** ** The session: queries and bulk insert *)

Definition is_none (v : PyVal) : bool :=
  match v with VNone => true | _ => false end.

(** [session.query(...).filter(column.in_(values)).all()]: SQL's [IN] never
    matches a NULL. *)
Definition query_in (db : Store) (t : Table) (column : string)
    (values : list PyVal) : list Row :=
  filter (fun r => negb (is_none (field r column)) && mem_val (field r column) values)
         (db t).

Definition int_of_val (v : PyVal) : Z :=
  match v with VInt z => z | _ => 0 end.

(** The next integer primary key: one more than the largest in the table. *)
Definition next_id (rows : list Row) : Z :=
  1 + fold_right Z.max 0 (map (fun r => int_of_val (field r "id")) rows).

Definition violates_not_null (cls : ModelClass) (row : Row) : bool :=
  existsb (fun c => negb (nullable c) && is_none (field row (col_name c)))
          (columns cls).

Definition violates_unique (cls : ModelClass) (rows : list Row) (row : Row) : bool :=
  existsb (fun c => negb (is_none (field row c))
                    && mem_val (field row c) (column_values rows c))
          (unique_columns cls).

(** [pandas.isna] *)
Definition isna (v : PyVal) : bool :=
  match v with
  | VNone | VFloat FNan => true
  | _ => false
  end.

(** A parameter as the driver binds it: a NaN is stored as NULL.  The
    conversions of the column types are not part of this model: a row holds
    a value as it was bound, where the database hands back a number bound to
    a String column as its text, a boolean bound to an Integer column as 0
    or 1, and a datetime bound to a DateTime column without its zone.  The
    statements about what a later query finds are made for texts in String
    columns. *)
Definition bind_param (v : PyVal) : PyVal := if isna v then VNone else v.

(** The INSERTs of one flush, against the rows of the table; a constraint
    violation is an [IntegrityError]. *)
Fixpoint insert_rows (cls : ModelClass) (rows : list Row) (objs : list Instance)
  : PyRes (list Row) :=
  match objs with
  | [] => Ret []
  | obj :: rest =>
      let row0 := map (fun kv => (fst kv, bind_param (snd kv))) (as_dict cls obj) in
      let row := if autoincrement cls && is_none (field row0 "id")
                 then dict_set row0 "id" (VInt (next_id rows)) else row0 in
      if violates_not_null cls row || violates_unique cls rows row then
        Raise IntegrityError
      else
        more <- insert_rows cls (rows ++ [row])%list rest ;;
        Ret (row :: more)
  end.

(** [session.bulk_save_objects(objs); session.commit()].  When the flush
    fails nothing of it is committed and the exception leaves the run. *)
Definition bulk_save_objects (cls : ModelClass) (objs : list Instance) : M unit :=
  fun w =>
    match insert_rows cls (store w (tablename cls)) objs with
    | Ret new_rows => (Ret tt, with_store w (store_add (store w) (tablename cls) new_rows))
    | Raise e => (Raise e, w)
    end.

(** ** etl/pipeline.py *)

Record Pipeline : Type := {
  data_path : string;
  errors_path : string
}.

(** [Pipeline.__init__(self, path, errors_path)] sets the two paths and
    nothing else. *)
Definition Pipeline_init (path errors_dir : string) : M Pipeline :=
  ret {| data_path := path; errors_path := errors_dir |}.

Definition chunk_size : nat := N.to_nat 50000.

(** The class attribute as the module is loaded. *)
Definition initial_validation_errors : ErrorLog :=
  [("companies", []); ("contacts", []); ("opportunities", []); ("activities", [])].

Fixpoint log_append (l : ErrorLog) (key : string) (e : ErrorEntry) : ErrorLog :=
  match l with
  | [] => []
  | (k, es) :: l' =>
      if String.eqb k key then (k, (es ++ [e])%list) :: l'
      else (k, es) :: log_append l' key e
  end.

Definition log_get (l : ErrorLog) (key : string) : list ErrorEntry :=
  match find (fun kv => String.eqb (fst kv) key) l with
  | Some kv => snd kv
  | None => []
  end.

(** [self.validation_errors[key].append(entry)] *)
Definition record_error (key : string) (e : ErrorEntry) : M unit :=
  fun w =>
    if mem_str key (map fst (class_validation_errors w)) then
      (Ret tt, with_errors w (log_append (class_validation_errors w) key e))
    else (Raise KeyError, w).

(** [Pipeline.log_errors(self)].  The report is taken to be written whole:
    [json.dump] refusing a value of a logged record (a pandas [Timestamp])
    is not part of this model. *)
Definition log_errors (self : Pipeline) : M unit :=
  fun w =>
    if negb (is_nil (class_validation_errors w)) then
      (Ret tt,
       with_written w
         (written w ++ [{| directory := errors_path self; stamp := clock w;
                           content := class_validation_errors w |}])%list)
    else (Ret tt, w).

(** A frame built from records has a column when some record has the key. *)
Definition has_column (rows : list Row) (c : string) : bool :=
  existsb (fun r => mem_str c (dict_keys r)) rows.

(** [entities[c]]: a [KeyError] when the frame has no such column. *)
Definition read_column (entities : list Row) (c : string) : M (list PyVal) :=
  if has_column entities c then ret (column_values entities c)
  else lift (Raise KeyError).

(** A dict of name to id, as [process_sub_entities] returns it, as the list
    of its items in the order of the rows it was built from.  A lookup table
    has a UNIQUE constraint on [name], so a name has one row and one item. *)
Definition IdMap : Type := list (PyVal * PyVal).

Fixpoint idmap_get (m : IdMap) (k : PyVal) : PyRes PyVal :=
  match m with
  | [] => Raise KeyError
  | (k', v) :: m' => if val_eqb k' k then Ret v else idmap_get m' k
  end.

(** [Pipeline.process_sub_entities(self, session, sub_entity_class, entities,
    entity_column)].  The query object is built once and run twice: before
    the insert (to find the new names) and after the commit (for the map). *)
Definition process_sub_entities (sub_entity_class : ModelClass)
    (entities : list Row) (entity_column : string) : M IdMap :=
  values <~ read_column entities entity_column ;;
  cleaned <~ lift (map_res (fun v => clean_text v false) values) ;;
  let unique_sub_entity_values := unique cleaned in
  let existing_sub_entities := fun w : World =>
    query_in (store w) (tablename sub_entity_class) "name" unique_sub_entity_values in
  w <~ get_world ;;
  let new_sub_entities :=
    filter (fun v => negb (mem_val v (column_values (existing_sub_entities w) "name")))
           unique_sub_entity_values in
  _ <~ bulk_save_objects sub_entity_class
         (map (fun name => BaseModel_init sub_entity_class [("name", name)])
              new_sub_entities) ;;
  w' <~ get_world ;;
  ret (map (fun r => (field r "name", field r "id")) (existing_sub_entities w')).

(** *** pandas: sorting, duplicates *)

(** What a value is ordered by.  Values order against each other within a
    kind only: numbers, strings, naive datetimes, aware datetimes. *)
Inductive SortKey : Type :=
| KNum (f : pyfloat)
| KStr (s : string)
| KNaive (t : Z)
| KAware (t : Z)
| KNull.

Definition sort_key (v : PyVal) : SortKey :=
  match v with
  | VBool b => KNum (FFin (inject_Z (if b then 1 else 0)))
  | VInt z => KNum (FFin (inject_Z z))
  | VFloat FNan => KNull
  | VFloat f => KNum f
  | VStr s => KStr s
  | VDatetime t false => KNaive t
  | VDatetime t true => KAware t
  | VNone => KNull
  end.

Definition sort_kind (k : SortKey) : nat :=
  match k with
  | KNum _ => 0
  | KStr _ => 1
  | KNaive _ => 2
  | KAware _ => 3
  | KNull => 4
  end.

Definition num_leb (a b : pyfloat) : bool :=
  match a, b with
  | _, FNan => true
  | FNan, _ => false
  | FInf true, _ => true
  | _, FInf false => true
  | FFin p, FFin q => Qle_bool p q
  | _, _ => false
  end.

(** [a <= b] within a kind; across kinds (where Python refuses to order)
    the kinds are compared, which makes the order total. *)
Definition key_leb (a b : SortKey) : bool :=
  match a, b with
  | KNum x, KNum y => num_leb x y
  | KStr x, KStr y => String.leb x y
  | KNaive x, KNaive y => x <=? y
  | KAware x, KAware y => x <=? y
  | KNull, KNull => true
  | _, _ => (sort_kind a <? sort_kind b)%nat
  end.

Definition val_leb (a b : PyVal) : bool := key_leb (sort_key a) (sort_key b).

Fixpoint same_kind (l : list PyVal) : bool :=
  match l with
  | [] => true
  | [_] => true
  | a :: ((b :: _) as l') =>
      (sort_kind (sort_key a) =? sort_kind (sort_key b))%nat && same_kind l'
  end.

Section Sorting.
Variable by_col : string.

  (** Insertion in a list sorted in descending order; among equal keys the
      inserted row goes first. *)
Fixpoint insert_desc (r : Row) (l : list Row) : list Row :=
    match l with
    | [] => [r]
    | r' :: l' =>
        if val_leb (field r' by_col) (field r by_col) then r :: l
        else r' :: insert_desc r l'
    end.

Definition sort_desc (l : list Row) : list Row := fold_right insert_desc [] l.

  (** [df.sort_values(by=by_col, ascending=False)]: the values of the column
      are compared by their own order (texts as texts, numbers as numbers,
      datetimes as instants); missing keys go last; keys that do not order
      against each other are a [TypeError]; a missing column is a [KeyError].
      Rows with equal keys keep their order here (pandas leaves their order
      open). *)
Definition sort_values_desc (rows : list Row) : PyRes (list Row) :=
    if negb (has_column rows by_col) then Raise KeyError
    else
      let present := filter (fun r => negb (isna (field r by_col))) rows in
      let missing := filter (fun r => isna (field r by_col)) rows in
      if same_kind (column_values present by_col) then
        Ret (sort_desc present ++ missing)%list
      else Raise TypeError.
End Sorting.

(** Two keys are duplicates of each other when they are equal or both
    missing. *)
Definition same_key (a b : PyVal) : bool := (isna a && isna b) || val_eqb a b.

Fixpoint keep_first (subset : string) (rows : list Row) : list Row :=
  match rows with
  | [] => []
  | r :: rs =>
      r :: filter (fun r' => negb (same_key (field r subset) (field r' subset)))
                  (keep_first subset rs)
  end.

(** [df.drop_duplicates(subset=subset, keep="first")] *)
Definition drop_duplicates (subset : string) (rows : list Row) : PyRes (list Row) :=
  if negb (has_column rows subset) then Raise KeyError
  else Ret (keep_first subset rows).

(** The first two statements of [process_contacts] after the read. *)
Definition dedup_contacts (contacts_df : list Row) : PyRes (list Row) :=
  sorted <- sort_values_desc "last_modified" contacts_df ;;
  drop_duplicates "email" sorted.

(** *** The loaders *)

Fixpoint kv_set (m : list (PyVal * Row)) (k : PyVal) (r : Row) : list (PyVal * Row) :=
  match m with
  | [] => [(k, r)]
  | (k', r') :: m' =>
      if val_eqb k' k then (k', r) :: m' else (k', r') :: kv_set m' k r
  end.

(** [{rec["id"]: rec for rec in df.to_dict(orient="records")}] *)
Fixpoint records_by_id (acc : list (PyVal * Row)) (records : list Row)
  : PyRes (list (PyVal * Row)) :=
  match records with
  | [] => Ret acc
  | r :: rest =>
      match dict_get r "id" with
      | Some k => records_by_id (kv_set acc k r) rest
      | None => Raise KeyError
      end
  end.

(** [pd.read_csv(..., chunksize=n)] *)
Fixpoint chunks_of (fuel n : nat) (rows : list Row) : list (list Row) :=
  match fuel, rows with
  | S fuel', _ :: _ => firstn n rows :: chunks_of fuel' n (skipn n rows)
  | _, _ => []
  end.

Definition read_chunks (rows : list Row) : list (list Row) :=
  chunks_of (length rows) chunk_size rows.

Fixpoint fold_m {A B} (f : B -> A -> M B) (l : list A) (acc : B) : M B :=
  match l with
  | [] => ret acc
  | x :: l' => acc' <~ f acc x ;; fold_m f l' acc'
  end.

Section Loader.
Variable E : Ext.

Definition ctx_of (w : World) : Ctx :=
    {| ext := E; now := clock w; db := store w |}.

  (** The body of the loop over the new ids: [prepare] is the substitution of
      the lookup columns, [key] names the list of the error log. *)
Definition stage_record (cls : ModelClass) (key : string)
      (prepare : Row -> PyRes Row) (to_create : list Instance) (data : Row)
    : M (list Instance) :=
    data <~ lift (prepare data) ;;
    let obj := BaseModel_init cls data in
    w <~ get_world ;;
    r <~ lift (validate cls (ctx_of w) obj) ;;
    let '(is_valid, obj') := r in
    if negb is_valid then
      _ <~ record_error key {| record := data; errors := validation_errors obj' |} ;;
      ret to_create
    else ret (to_create ++ [obj'])%list.

  (** What the four [process_*] methods do with a batch once the lookup maps
      are known (the source repeats this text in each of them): key the
      records by id, keep the ids the store does not hold, validate, insert
      and commit.  The source walks the new ids as a [set], in no stated
      order; here they are walked in the order of the batch. *)
Definition load_batch (cls : ModelClass) (key : string)
      (prepare : Row -> PyRes Row) (batch : list Row) : M unit :=
    entity_map <~ lift (records_by_id [] batch) ;;
    let ids := map fst entity_map in
    w <~ get_world ;;
    let existing := column_values (query_in (store w) (tablename cls) "id" ids) "id" in
    let new_entries := filter (fun kv => negb (mem_val (fst kv) existing)) entity_map in
    to_create <~ fold_m (stage_record cls key prepare) (map snd new_entries) [] ;;
    bulk_save_objects cls to_create.

  (** [data[target] = ids_map[clean_text(data.pop(source))]] *)
Definition substitute (ids_map : IdMap) (source target : string) (data : Row)
    : PyRes Row :=
    p <- dict_pop data source ;;
    let '(v, data') := p in
    name <- clean_text v false ;;
    id <- idmap_get ids_map name ;;
    Ret (dict_set data' target id).

Definition process_companies (self : Pipeline) : M unit :=
    w <~ get_world ;;
    for_each (read_chunks (companies_csv (files w (data_path self))))
      (fun companies_df =>
         industry_ids_map <~ process_sub_entities Industry.cls companies_df "industry" ;;
         load_batch Company.cls "companies"
           (substitute industry_ids_map "industry" "industry_id") companies_df).

Definition process_contacts (self : Pipeline) : M unit :=
    w <~ get_world ;;
    contacts_df <~ lift (dedup_contacts (contacts_json (files w (data_path self)))) ;;
    contact_statuses_map <~ process_sub_entities ContactStatus.cls contacts_df "status" ;;
    load_batch Contact.cls "contacts"
      (substitute contact_statuses_map "status" "status_id") contacts_df.

Definition process_opportunities (self : Pipeline) : M unit :=
    w <~ get_world ;;
    for_each (read_chunks (opportunities_csv (files w (data_path self))))
      (fun opportunities_df =>
         stages_map <~ process_sub_entities Stage.cls opportunities_df "stage" ;;
         forecast_categories_map <~
           process_sub_entities ForecastCategory.cls opportunities_df "forecast_category" ;;
         products_map <~ process_sub_entities Product.cls opportunities_df "product" ;;
         load_batch Opportunity.cls "opportunities"
           (fun data =>
              data <- substitute stages_map "stage" "stage_id" data ;;
              data <- substitute forecast_categories_map
                        "forecast_category" "forecast_category_id" data ;;
              substitute products_map "product" "product_id" data)
           opportunities_df).

Definition process_activities (self : Pipeline) : M unit :=
    w <~ get_world ;;
    load_batch Activity.cls "activities" (fun data => Ret data)
      (activities_json (files w (data_path self))).

Definition any_errors (l : ErrorLog) : bool :=
    existsb (fun kv => negb (is_nil (snd kv))) l.

  (** [Pipeline.run(self)] *)
Definition run (self : Pipeline) : M unit :=
    _ <~ process_companies self ;;
    _ <~ process_contacts self ;;
    _ <~ process_opportunities self ;;
    _ <~ process_activities self ;;
    w <~ get_world ;;
    if any_errors (class_validation_errors w) then log_errors self
    else ret tt.
End Loader.

(** ** A stand-in for the libraries, for the worked examples

    The examples below run the code on concrete records and need answers
    from the libraries.  [sample_ext] gives simple ones: an e-mail address has
    an [@] and a dot, a domain has a dot, a phone number starts with [+] and is
    printed as it was read, a date is one of two ISO strings.  No general
    theorem depends on these choices. *)

Definition sample_dates : list (string * Z) :=
  [("2024-06-15T08:45:00", 1718441100); ("2025-01-15T14:20:00", 1736950800)].

Definition sample_ext : Ext :=
  {| validators_email := fun s => contains "@" s && contains "." s;
     validators_domain := fun s => contains "." s;
     cc_convert := fun s =>
       if String.eqb s "US" || String.eqb s "USA" then Some "US"
       else if String.eqb s "FRANCE" then Some "FR" else None;
     dateutil_parse := fun s =>
       match find (fun kv => String.eqb (fst kv) s) sample_dates with
       | Some kv => Ret (snd kv)
       | None => Raise (LibraryError "ParserError")
       end;
     PhoneNumber := string;
     phonenumbers_parse := fun number region =>
       match number with
       | VStr (String "+" rest) => Ret (String "+" rest)
       | VStr _ => Raise (LibraryError "NumberParseException")
       | _ => Raise TypeError
       end;
     phonenumbers_format_international := fun p => Ret p;
     float_of_str := fun _ => None;
     str_of_float := fun _ => "<float>";
     str_of_datetime := fun _ => "<datetime>" |}.

(** A clock reading after every sample date. *)
Definition sample_now : Z := 1762000000.

Definition sample_ctx (s : Store) : Ctx :=
  {| ext := sample_ext; now := sample_now; db := s |}.

(** ** The size formats as the specification words them

    "format is either a bare integer, [<low>-<high>], or [<n>+]", where a
    two-part range needs [low <= high]. *)

Fixpoint all_digits (s : string) : bool :=
  match s with
  | EmptyString => true
  | String c s' => is_digit c && all_digits s'
  end.

(** A bare integer: one decimal digit or more. *)
Definition is_integer (s : string) : bool :=
  match s with
  | EmptyString => false
  | _ => all_digits s
  end.

Fixpoint decimal_value (acc : Z) (s : string) : Z :=
  match s with
  | EmptyString => acc
  | String c s' => decimal_value (10 * acc + digit_value c) s'
  end.

(** [<n>+]: the text before the final [+] is an integer. *)
Fixpoint is_open_ended (s : string) : bool :=
  match s with
  | EmptyString => false
  | String c s' => is_digit c && (String.eqb s' "+" || is_open_ended s')
  end.

Definition is_range (s : string) : bool :=
  match split "-" s with
  | [low; high] =>
      is_integer low && is_integer high
      && (decimal_value 0 low <=? decimal_value 0 high)
  | _ => false
  end.

Definition spec_size_format (s : string) : bool :=
  is_integer s || is_range s || is_open_ended s.

(** What [validate_size] looks at: where the [+] is and how the [-] split
    the text. *)
Definition delimiters_ok (size : string) : bool :=
  negb (contains "+" size && negb (endswith "+" size))
  && match split "-" size with
     | [_] => true
     | [low; high] =>
         match int_of_str low, int_of_str high with
         | Some a, Some b => a <=? b
         | _, _ => false
         end
     | _ => false
     end.

(** The character is one of the 128 of ASCII. *)
Definition is_ascii (c : ascii) : bool := (nat_of_ascii c <? 128)%nat.

(** Every character of [s] satisfies [p]. *)
Fixpoint str_forall (p : ascii -> bool) (s : string) : Prop :=
  match s with
  | EmptyString => True
  | String c s' => p c = true /\ str_forall p s'
  end.

(** The characters of a size in one of the three formats. *)
Definition size_char (c : ascii) : bool :=
  is_digit c || Ascii.eqb c "-" || Ascii.eqb c "+".

(** ** Sample records *)

(** A record of tests/test_pipeline.py (CONT1) after the substitution of its
    status. *)
Definition sample_contact : Row :=
  [("id", VStr "CONT1"); ("email", VStr "first0.last0@company1.com");
   ("first_name", VStr "First0"); ("last_name", VStr "Last0");
   ("title", VStr "CEO"); ("company_id", VInt 1);
   ("phone", VStr "+1-555-123-4567");
   ("created_date", VStr "2024-06-15T08:45:00");
   ("last_modified", VStr "2025-01-15T14:20:00"); ("status_id", VInt 1)].

(** The same contact with no phone number: the column is nullable. *)
Definition contact_without_phone : Row := dict_set sample_contact "phone" VNone.

(** The same contact with a creation date that is no date. *)
Definition contact_with_bad_created_date : Row :=
  dict_set sample_contact "created_date" (VStr "InvalidDate").

(** The invalid contact of tests/test_pipeline.py (CONT431): a bad e-mail
    address and a bad phone number. *)
Definition contact_with_two_bad_fields : Row :=
  dict_set (dict_set (dict_set sample_contact "id" (VStr "CONT431"))
              "email" (VStr "invalid_email"))
    "phone" (VStr "11231231234").

(** An opportunity of the tests (OP1) after the substitutions, with its
    probability and amount out of range. *)
Definition opportunity_with_two_bad_fields : Row :=
  [("id", VStr "OP11111"); ("name", VStr "Company 1 - Basic Deal");
   ("contact_id", VInt 1); ("company_id", VInt 1);
   ("amount", VInt (-25000)); ("probability", VInt (-20));
   ("created_date", VStr "2024-06-15T08:45:00");
   ("close_date", VStr "2025-01-15T14:20:00"); ("is_closed", VBool false);
   ("stage_id", VInt 1); ("forecast_category_id", VInt 1); ("product_id", VInt 1)].

(** A store that holds one contact. *)
Definition store_with_contact : Store :=
  store_add empty_store contacts
    [[("id", VStr "CONT0"); ("email", VStr "first0.last0@company1.com")]].

(** ** Vocabulary of the statements about [validate] *)

(** No validator of the class reads [self]. *)
Definition self_independent (cls : ModelClass) : Prop :=
  forall name f, validator_of cls name = Some f ->
    forall cx self self' key v, f cx self key v = f cx self' key v.

(** The message a column contributes when its check is run on [self]. *)
Definition field_error (cls : ModelClass) (cx : Ctx) (self : Instance)
    (c : Column) : list string :=
  match check_column cls cx self c with
  | Raise (ValueError m) => [m]
  | _ => []
  end.

(** The check of the column fails with a [ValueError]. *)
Definition field_invalid (cls : ModelClass) (cx : Ctx) (self : Instance)
    (c : Column) : bool :=
  match check_column cls cx self c with
  | Raise (ValueError _) => true
  | _ => false
  end.

(** The check of the column raises something [validate] does not catch. *)
Definition field_escapes (cls : ModelClass) (cx : Ctx) (self : Instance)
    (c : Column) : bool :=
  match check_column cls cx self c with
  | Raise (ValueError _) => false
  | Raise _ => true
  | Ret _ => false
  end.

(** ** Vocabulary of the statements about the contact batch *)

(** [a] is at least as recently modified as [b]: a row without a
    modification time is older than any row with one. *)
Definition at_least_as_recent (a b : Row) : bool :=
  if isna (field b "last_modified") then true
  else if isna (field a "last_modified") then false
  else val_leb (field b "last_modified") (field a "last_modified").

(** Two contacts that share an e-mail address, modified one after the
    other. *)
Definition older_contact : Row :=
  [("id", VStr "CONT7"); ("email", VStr "ann@company1.com");
   ("title", VStr "Manager"); ("last_modified", VStr "2025-01-15T14:20:00")].

Definition newer_contact : Row :=
  [("id", VStr "CONT7"); ("email", VStr "ann@company1.com");
   ("title", VStr "Director"); ("last_modified", VStr "2025-02-01T09:00:00")].

(** ** Vocabulary of the statements about the store *)

(** The lookup classes of the models. *)
Definition is_lookup_class (cls : ModelClass) : Prop :=
  cls = Industry.cls \/ cls = ContactStatus.cls \/ cls = Stage.cls
  \/ cls = ForecastCategory.cls \/ cls = Product.cls.

(** The four entity classes the loaders fill. *)
Definition is_entity_class (cls : ModelClass) : Prop :=
  cls = Company.cls \/ cls = Contact.cls \/ cls = Opportunity.cls
  \/ cls = Activity.cls.

(** Each value differs from the old ones and from the values before it. *)
Fixpoint fresh_values (vals old : list PyVal) : Prop :=
  match vals with
  | [] => True
  | v :: vs => mem_val v old = false /\ fresh_values vs (old ++ [v])%list
  end.

(** [s2] holds the rows of [s1], in place, and possibly more after them. *)
Definition extends (s1 s2 : Store) : Prop :=
  forall t, exists extra, s2 t = (s1 t ++ extra)%list.

(** The same rows in every table. *)
Definition same_rows (s1 s2 : Store) : Prop := forall t, s1 t = s2 t.

Definition log_keys (w : World) : list string := map fst (class_validation_errors w).

(** A batch of two companies whose industries differ in case and white
    space only. *)
Definition two_spellings : list Row :=
  [[("id", VStr "COM1"); ("industry", VStr "Technology")];
   [("id", VStr "COM2"); ("industry", VStr " technology ")]].

Definition empty_world : World :=
  {| store := empty_store; clock := sample_now;
     class_validation_errors := initial_validation_errors;
     files := fun _ => {| companies_csv := []; contacts_json := [];
                          opportunities_csv := []; activities_json := [] |};
     written := [] |}.

(** What [clean_text] returns: a string or [None]. *)
Definition text_or_none (v : PyVal) : Prop := v = VNone \/ exists s, v = VStr s.

(** ** Vocabulary of the statements about runs *)

(** The log [l'] has the keys of [l] and, under each key, the entries of [l]
    followed by more. *)
Definition log_grows (l l' : ErrorLog) : Prop :=
  map fst l' = map fst l
  /\ forall key, exists more, log_get l' key = (log_get l key ++ more)%list.

(** How a step may change the world: rows, log entries and reports are
    added, never removed; the clock and the input files stay. *)
Definition evolves (w w' : World) : Prop :=
  extends (store w) (store w')
  /\ clock w' = clock w
  /\ files w' = files w
  /\ log_grows (class_validation_errors w) (class_validation_errors w')
  /\ exists more, written w' = (written w ++ more)%list.

Definition frame_ok {A} (f : M A) : Prop :=
  forall w r w', f w = (r, w') -> evolves w w'.

(** [w2] is a state that may follow [w]: the store has grown, the clock and
    the input files are the same, the class-level log has the same keys. *)
Definition later (w w2 : World) : Prop :=
  extends (store w) (store w2)
  /\ clock w2 = clock w
  /\ files w2 = files w
  /\ log_keys w2 = log_keys w.

(** Between the logs [l] and [l'] the entries [more] were appended under
    [key]. *)
Definition appended (l l' : ErrorLog) (key : string) (more : list ErrorEntry) : Prop :=
  log_get l' key = (log_get l key ++ more)%list.

(** Every entry logged between [w2] and [w2'] reports a record that an entry
    logged between [w] and [w'] reports, under the same key. *)
Definition replays (w w' w2 w2' : World) : Prop :=
  forall key more1 more2,
    appended (class_validation_errors w) (class_validation_errors w') key more1 ->
    appended (class_validation_errors w2) (class_validation_errors w2') key more2 ->
    forall e2, In e2 more2 -> exists e1, In e1 more1 /\ record e1 = record e2.

(** [f] returns from [w2], leaves every table as it was, and logs errors
    only for records that were reported between [w] and [w']. *)
Definition quiet (f : M unit) (w w' w2 : World) : Prop :=
  exists w2',
    f w2 = (Ret tt, w2')
    /\ same_rows (store w2) (store w2')
    /\ clock w2' = clock w2
    /\ files w2' = files w2
    /\ log_keys w2' = log_keys w2
    /\ replays w w' w2 w2'.

(** No validator of the class looks at the store. *)
Definition db_independent (cls : ModelClass) : Prop :=
  forall name f, validator_of cls name = Some f ->
    forall cx cx' self key v,
      ext cx = ext cx' -> now cx = now cx' -> f cx self key v = f cx' self key v.

(** [cx'] differs from [cx] by contacts added to the store at most. *)
Definition ctx_later (cx cx' : Ctx) : Prop :=
  ext cx' = ext cx /\ now cx' = now cx
  /\ forall email, Contact.contact_found cx email = true ->
                   Contact.contact_found cx' email = true.

(** [P2] prepares a record as [P1] does, wherever [P1] succeeds. *)
Definition prepare_le (P1 P2 : Row -> PyRes Row) : Prop :=
  forall data d, P1 data = Ret d -> P2 data = Ret d.

Definition preserves_id (P : Row -> PyRes Row) : Prop :=
  forall data d, P data = Ret d -> field d "id" = field data "id".

(** Two contacts whose addresses differ by a leading blank; the second has
    no company. *)
Definition contact_a : Row :=
  [("id", VStr "CONT1"); ("email", VStr "a@b.com"); ("first_name", VStr "Ann");
   ("last_name", VStr "Lee"); ("title", VStr "CEO"); ("company_id", VStr "COM1");
   ("phone", VStr "+1-555-123-4567"); ("status", VStr "Lead");
   ("created_date", VStr "2024-06-15T08:45:00");
   ("last_modified", VStr "2025-01-15T14:20:00")].

Definition contact_b : Row :=
  [("id", VStr "CONT2"); ("email", VStr " a@b.com"); ("first_name", VStr "Bob");
   ("last_name", VStr "Lee"); ("title", VStr "CTO"); ("company_id", VNone);
   ("phone", VStr "+1-555-123-4568"); ("status", VStr "Lead");
   ("created_date", VStr "2024-06-15T08:45:00");
   ("last_modified", VStr "2025-01-15T14:20:00")].

Definition two_contacts : Inputs :=
  {| companies_csv := []; contacts_json := [contact_a; contact_b];
     opportunities_csv := []; activities_json := [] |}.

(** An empty store, an empty log, and the two contacts as input. *)
Definition first_world : World :=
  {| store := empty_store; clock := sample_now;
     class_validation_errors := initial_validation_errors;
     files := fun _ => two_contacts; written := [] |}.

Definition sample_pipeline : Pipeline :=
  {| data_path := "data/salesforce/"; errors_path := "data/errors/" |}.

(** The world after one run and after two. *)
Definition second_world : World := snd (run sample_ext sample_pipeline first_world).
Definition third_world : World := snd (run sample_ext sample_pipeline second_world).

(** The key of an entry is the id of its record, up to the equality of
    keys. *)
Definition keyed (kv : PyVal * Row) : Prop :=
  exists kd, dict_get (snd kv) "id" = Some kd
             /\ (fst kv = kd \/ val_eqb (fst kv) kd = true).

(** The two instances of a contact as [validate] walks its columns in two
    states of the store: they agree on every attribute, the e-mail apart once
    its column has been checked, and the second has errors when the first
    has. *)
Definition contact_inv (email_pending : bool) (self self' : Instance) : Prop :=
  (forall c, email_pending = true \/ c <> "email" -> getattr self c = getattr self' c)
  /\ (validation_errors self <> [] -> validation_errors self' <> []).

(** Once [f1] has returned, running [f2] in any later state is quiet. *)
Definition rerun_rel (f1 f2 : M unit) : Prop :=
  forall w w', f1 w = (Ret tt, w') -> forall w2, later w' w2 -> quiet f2 w w' w2.

(** [m2] resolves every name [m] resolves, to the same id. *)
Definition idmap_le (m m2 : IdMap) : Prop :=
  forall k id, idmap_get m k = Ret id -> idmap_get m2 k = Ret id.

(** [a] may stand before [b] when the frame is sorted by [by_col] in
    descending order. *)
Definition desc (by_col : string) (a b : Row) : Prop :=
  val_leb (field b by_col) (field a by_col) = true.

(** ** Vocabulary of the further statements *)

(** The validators that only normalise a text. *)
Definition text_validators : list Validator :=
  [Company.validate_name; Contact.validate_first_name; Contact.validate_last_name;
   Contact.validate_title; Opportunity.validate_name; Activity.validate_type;
   Activity.validate_outcome; Activity.validate_subject].

(** The validators of a creation date. *)
Definition created_date_validators : list Validator :=
  [Company.validate_created_date; Contact.validate_created_date;
   Opportunity.validate_created_date].

(** [f] writes no report: the files under the error paths are as they
    were, whether [f] returns or raises. *)
Definition writes_nothing {A} (f : M A) : Prop :=
  forall w r w', f w = (r, w') -> written w' = written w.

(** No two entries have keys that are equal. *)
Definition distinct_keys (m : list (PyVal * Row)) : Prop :=
  ForallOrdPairs (fun a b => val_eqb (fst a) (fst b) = false) m.

(** The records of a batch a loader goes on to validate: the batch keyed by
    id, without the ids the table holds already. *)
Definition new_records (db : Store) (t : Table) (batch : list Row) : PyRes (list Row) :=
  entity_map <- records_by_id [] batch ;;
  let existing := column_values (query_in db t "id" (map fst entity_map)) "id" in
  Ret (map snd (filter (fun kv => negb (mem_val (fst kv) existing)) entity_map)).

(** A store that holds the activity ACTIVITY1, and an input file that gives
    the same id with other values, a negative duration among them. *)
Definition activity_update : Row :=
  [("id", VStr "ACTIVITY1"); ("type", VStr "Call"); ("contact_id", VInt 1);
   ("subject", VStr "Changed"); ("duration_minutes", VInt (-5));
   ("outcome", VStr "Completed"); ("timestamp", VStr "2024-06-15T08:45:00")].

Definition world_with_activity : World :=
  {| store := store_add empty_store activities
                [[("id", VStr "ACTIVITY1"); ("subject", VStr "call with first0")]];
     clock := sample_now;
     class_validation_errors := initial_validation_errors;
     files := fun _ => {| companies_csv := []; contacts_json := [];
                          opportunities_csv := []; activities_json := [activity_update] |};
     written := [] |}.

(** [row] is what the store keeps of an instance that [validate] accepted
    at the clock reading [t]: it has a value in every column that may not be
    null, and each column holds the attribute of the accepted instance. *)
Definition stored_from_valid (E : Ext) (cls : ModelClass) (t : Z) (row : Row) : Prop :=
  exists (s : Store) (d : Row) (obj' : Instance),
    validate cls {| ext := E; now := t; db := s |} (BaseModel_init cls d) = Ret (true, obj')
    /\ violates_not_null cls row = false
    /\ forall c, In c (column_names cls) -> field row c = bind_param (getattr obj' c).

(** Whatever [f] does (return or raise), the table [t] holds afterwards the
    rows it held, followed by rows that satisfy [Q] in the state [f] ends
    in. *)
Definition adds_rows {A} (t : Table) (Q : World -> Row -> Prop) (f : M A) : Prop :=
  forall w r w', f w = (r, w') ->
    evolves w w'
    /\ exists added, store w' t = (store w t ++ added)%list /\ Forall (Q w') added.

(** [Q] keeps holding of a row as the world evolves. *)
Definition stable (Q : World -> Row -> Prop) : Prop :=
  forall w w' row, evolves w w' -> Q w row -> Q w' row.

(** The company row [row] was made from a record of [records] and refers,
    by its [industry_id], to a row of the industries whose name is the
    cleaned industry of that record. *)
Definition refers_to_industry (records : list Row) (w : World) (row : Row) : Prop :=
  exists ind data,
    In ind (store w industries)
    /\ In data records
    /\ field row "id" = field data "id"
    /\ clean_text (field data "industry") false = Ret (field ind "name")
    /\ field row "industry_id" = field ind "id".

(** Whatever [f] does (return or raise), the entries it appends to the
    error log, under any key, satisfy [Q]. *)
Definition logs_entries {A} (Q : ErrorEntry -> Prop) (f : M A) : Prop :=
  forall w r w', f w = (r, w') ->
    forall key, exists more,
      log_get (class_validation_errors w') key
      = (log_get (class_validation_errors w) key ++ more)%list
      /\ Forall Q more.

(** The modification date of a contact gets as far as the comparison with
    the creation date: it is there, it is read as an instant, and that
    instant is not after the clock. *)
Definition reaches_comparison (cx : Ctx) (last_modified : PyVal) : Prop :=
  is_none last_modified = false
  /\ exists m, standardize_datetime (ext cx) last_modified = Ret (VDatetime m true)
               /\ m <= now cx.

(** The creation date of a contact can be compared with a standardized
    date: it holds an instant with a time zone already, or its validator
    accepts it (and puts such an instant in its place). *)
Definition comparable_created_date (cx : Ctx) (created_date : PyVal) : Prop :=
  (exists c, created_date = VDatetime c true)
  \/ (exists c, standardize_datetime (ext cx) created_date = Ret (VDatetime c true)
                /\ c <= now cx).

(** ** Vocabulary of the statements about the loop of [validate] *)

(** The iterations of the loop over [cols]: every column with the columns
    the loop has been through before it. *)
Fixpoint loop_steps (pre cols : list Column) : list (list Column * Column) :=
  match cols with
  | [] => []
  | c :: rest => (pre, c) :: loop_steps (pre ++ [c])%list rest
  end.

(** The instance as the loop of [validate] holds it once it has been through
    the columns [pre] ([self] itself where the loop does not get that far). *)
Definition state_at (cls : ModelClass) (cx : Ctx) (self : Instance)
    (pre : list Column) : Instance :=
  match validate_columns cls cx pre self with
  | Ret s => s
  | Raise _ => self
  end.

(** The validator of the column, if any, does not read [self]: its result
    depends on the value of its own field only. *)
Definition own_field_only (cls : ModelClass) (name : string) : Prop :=
  forall f, validator_of cls name = Some f ->
    forall cx self self' key v, f cx self key v = f cx self' key v.

(** ** Vocabulary of the statements about a run made later *)

(** The columns whose validators compare a date with the clock. *)
Definition date_columns : list string := ["created_date"; "last_modified"].

(** The value, read as a date the way the validators read it, is not after
    the instant [t]; a value that is no date is not after anything. *)
Definition not_after (E : Ext) (t : Z) (v : PyVal) : bool :=
  match standardize_datetime E v with
  | Ret (VDatetime t' _) => t' <=? t
  | _ => true
  end.

Definition dates_not_after (E : Ext) (t : Z) (r : Row) : bool :=
  forallb (fun c => not_after E t (field r c)) date_columns.

(** No record of the company, contact and opportunity files carries a date
    after [t] (activities have no date that is compared with the clock). *)
Definition no_future_dates (E : Ext) (t : Z) (i : Inputs) : bool :=
  forallb (dates_not_after E t) (companies_csv i)
  && forallb (dates_not_after E t) (contacts_json i)
  && forallb (dates_not_after E t) (opportunities_csv i).

(** The id of the record is a text. *)
Definition text_id (r : Row) : bool :=
  match dict_get r "id" with
  | Some (VStr _) => true
  | _ => false
  end.

Definition text_ids (i : Inputs) : bool :=
  forallb text_id (companies_csv i) && forallb text_id (contacts_json i)
  && forallb text_id (opportunities_csv i) && forallb text_id (activities_json i).

(** The world at another reading of the clock. *)
Definition with_clock (w : World) (t : Z) : World :=
  {| store := store w; clock := t;
     class_validation_errors := class_validation_errors w;
     files := files w; written := written w |}.

(** Two worlds with the same store, log and input files [F], read at the
    clocks [c] and [ca]. *)
Definition same_but_clock (F : string -> Inputs) (c ca : Z) (w wa : World) : Prop :=
  store wa = store w
  /\ class_validation_errors wa = class_validation_errors w
  /\ files w = F /\ files wa = F
  /\ clock w = c /\ clock wa = ca.

(** [f] does at the clock [ca] what it does at the clock [c]. *)
Definition clock_blind {A} (F : string -> Inputs) (c ca : Z) (f : M A) : Prop :=
  forall w wa r w',
    same_but_clock F c ca w wa -> f w = (r, w') ->
    exists wa', f wa = (r, wa') /\ same_but_clock F c ca w' wa'.

(** The validators of the class give at the clock [ca] what they give at the
    clock [c], on a value that is no date after [c] where the column is a date
    column. *)
Definition date_guarded (E : Ext) (c ca : Z) (cls : ModelClass) : Prop :=
  forall name f, validator_of cls name = Some f ->
    forall s self key v,
      (In name date_columns -> not_after E c v = true) ->
      f {| ext := E; now := c; db := s |} self key v
      = f {| ext := E; now := ca; db := s |} self key v.

(** The two contacts read at a clock between their creation and their
    modification, and the state that run leaves, read at the later clock of
    the other examples. *)
Definition early_world : World := with_clock first_world 1720000000.

Definition early_second_world : World :=
  with_clock (snd (run sample_ext sample_pipeline early_world)) sample_now.

(** ** Two contacts whose modification times are written in two formats *)

(** [sample_ext] with one more date that dateutil reads: the same day as the
    second sample date, forty minutes later, written with a blank where ISO 8601
    has a [T]. *)
Definition mixed_dates : list (string * Z) :=
  ("2025-01-15 15:00:00", 1736953200) :: sample_dates.

Definition mixed_ext : Ext :=
  {| validators_email := validators_email sample_ext;
     validators_domain := validators_domain sample_ext;
     cc_convert := cc_convert sample_ext;
     dateutil_parse := fun s =>
       match find (fun kv => String.eqb (fst kv) s) mixed_dates with
       | Some kv => Ret (snd kv)
       | None => Raise (LibraryError "ParserError")
       end;
     PhoneNumber := PhoneNumber sample_ext;
     phonenumbers_parse := phonenumbers_parse sample_ext;
     phonenumbers_format_international := phonenumbers_format_international sample_ext;
     float_of_str := float_of_str sample_ext;
     str_of_float := str_of_float sample_ext;
     str_of_datetime := str_of_datetime sample_ext |}.

(** Two contacts with one e-mail address: the first was modified at 14:20,
    the second at 15:00 of the same day. *)
Definition iso_contact : Row := dict_set contact_a "title" (VStr "Manager").

Definition spaced_contact : Row :=
  dict_set (dict_set (dict_set contact_a "id" (VStr "CONT2"))
              "title" (VStr "Director"))
    "last_modified" (VStr "2025-01-15 15:00:00").

Definition mixed_world : World :=
  {| store := empty_store; clock := sample_now;
     class_validation_errors := initial_validation_errors;
     files := fun _ =>
       {| companies_csv := []; contacts_json := [iso_contact; spaced_contact];
          opportunities_csv := []; activities_json := [] |};
     written := [] |}.

(* ================================================================== *)
(** * Properties *)

(** ** utils/etl.py: normalize_phone_number *)

(** C10: [normalize_phone_number] returns for every input and region,
    whatever the library does.  It answers [(formatted, True)] exactly when
    the library parsed the number and printed it in international format, and
    [(phone_number, False)] with the input untouched when the parse or the
    printing raised. *)
Theorem normalize_phone_number_total :
  forall (E : Ext) (phone_number region : PyVal),
    (exists parsed formatted,
        phonenumbers_parse E phone_number region = Ret parsed /\
        phonenumbers_format_international E parsed = Ret formatted /\
        normalize_phone_number E phone_number region = Ret (VStr formatted, true))
    \/
    ((exists e, phonenumbers_parse E phone_number region = Raise e
                \/ exists parsed,
                     phonenumbers_parse E phone_number region = Ret parsed /\
                     phonenumbers_format_international E parsed = Raise e) /\
     normalize_phone_number E phone_number region = Ret (phone_number, false)).
Proof.
  intros E phone_number region. unfold normalize_phone_number.
  destruct (phonenumbers_parse E phone_number region) as [parsed | e] eqn:Hparse.
  - cbn [bindR].
    destruct (phonenumbers_format_international E parsed) as [formatted | e] eqn:Hfmt.
    + left. exists parsed, formatted. cbn. auto.
    + right. split.
      * exists e. right. exists parsed. auto.
      * reflexivity.
  - right. split.
    + exists e. left. reflexivity.
    + reflexivity.
Qed.

(** ** models/opportunity.py: validate_probability *)

Lemma validate_probability_unfold :
  forall cx self key v,
    Opportunity.validate_probability cx self key v =
    match py_int v with
    | Ret p =>
        if (0 <=? p) && (p <=? 100) then Ret (VInt p)
        else Raise (ValueError (key ++ ": " ++ str_of_int p
                                    ++ " must be between 0 and 100."))
    | Raise (ValueError _) =>
        Raise (ValueError (key ++ ": " ++ py_str (ext cx) v
                               ++ " must be a valid integer."))
    | Raise e => Raise e
    end.
Proof.
  intros cx self key v. unfold Opportunity.validate_probability.
  destruct (py_int v) as [p | e]; cbn.
  - destruct ((0 <=? p) && (p <=? 100)); reflexivity.
  - destruct e; reflexivity.
Qed.

(** C8: [validate_probability] accepts a value exactly when [int()] turns it
    into an integer of the closed interval from 0 to 100, and then returns that
    integer.  0 and 100 are accepted; -20 and 101 raise the range error; a
    value [int()] refuses with a [ValueError] raises "must be a valid
    integer"; and every value that is not accepted is rejected by an
    exception. *)
Theorem validate_probability_accepts_iff :
  forall (cx : Ctx) (self : Instance) (key : string),
    (forall v r,
        Opportunity.validate_probability cx self key v = Ret r <->
        exists p, py_int v = Ret p /\ 0 <= p <= 100 /\ r = VInt p)
    /\ Opportunity.validate_probability cx self key (VInt 0) = Ret (VInt 0)
    /\ Opportunity.validate_probability cx self key (VInt 100) = Ret (VInt 100)
    /\ Opportunity.validate_probability cx self key (VInt (-20)) =
       Raise (ValueError (key ++ ": -20 must be between 0 and 100."))
    /\ Opportunity.validate_probability cx self key (VInt 101) =
       Raise (ValueError (key ++ ": 101 must be between 0 and 100."))
    /\ (forall v m,
           py_int v = Raise (ValueError m) ->
           Opportunity.validate_probability cx self key v =
           Raise (ValueError (key ++ ": " ++ py_str (ext cx) v
                                  ++ " must be a valid integer.")))
    /\ (forall v,
           (forall p, py_int v = Ret p -> ~ 0 <= p <= 100) ->
           exists e, Opportunity.validate_probability cx self key v = Raise e).
Proof.
  intros cx self key. repeat split.
  - rewrite validate_probability_unfold.
    destruct (py_int v) as [p | e].
    + destruct ((0 <=? p) && (p <=? 100)) eqn:Hrange; intro H; inversion H; subst.
      apply andb_true_iff in Hrange. destruct Hrange as [H0 H100].
      exists p. repeat split; [lia | lia].
    + destruct e; discriminate.
  - intros [p [Hint [Hrange Hr]]]. subst r.
    rewrite validate_probability_unfold, Hint.
    replace ((0 <=? p) && (p <=? 100)) with true; [reflexivity|].
    symmetry. apply andb_true_iff. split; lia.
  - intros v m Hint. rewrite validate_probability_unfold, Hint. reflexivity.
  - intros v Hno. rewrite validate_probability_unfold.
    destruct (py_int v) as [p | e] eqn:Hint.
    + destruct ((0 <=? p) && (p <=? 100)) eqn:Hrange.
      * exfalso. apply (Hno p eq_refl).
        apply andb_true_iff in Hrange. lia.
      * eexists. reflexivity.
    + destruct e; eexists; reflexivity.
Qed.

(** The equivalence at a concrete value: the text " 100 " is accepted as
    100. *)
Lemma validate_probability_accepts_iff_witness :
  Opportunity.validate_probability (sample_ctx empty_store)
    (BaseModel_init Opportunity.cls []) "probability" (VStr " 100 ") = Ret (VInt 100).
Proof.
  apply (proj1 (validate_probability_accepts_iff (sample_ctx empty_store)
                  (BaseModel_init Opportunity.cls []) "probability")).
  exists 100. repeat split; [lia | lia].
Defined.

(** ** models/company.py: validate_size *)

Lemma split_not_nil : forall sep s, split sep s <> [].
Proof.
  intros sep s. destruct s as [| c s']; cbn; [discriminate|].
  destruct (Ascii.eqb c sep); [discriminate|].
  destruct (split sep s'); discriminate.
Qed.

Lemma split_without_sep :
  forall sep s, contains sep s = false -> split sep s = [s].
Proof.
  intros sep s. induction s as [| c s' IH]; cbn; intro H; [reflexivity|].
  apply orb_false_iff in H. destruct H as [Hc Hs].
  rewrite Hc, (IH Hs). reflexivity.
Qed.

Lemma str_forall_not_contains :
  forall p ch s, p ch = false -> str_forall p s -> contains ch s = false.
Proof.
  intros p ch s Hp. induction s as [| c s' IH]; cbn; [reflexivity|].
  intros [Hc Hs]. rewrite (IH Hs), orb_false_r.
  destruct (Ascii.eqb_spec c ch); [subst; congruence | reflexivity].
Qed.

Lemma str_forall_impl :
  forall (p q : ascii -> bool) s,
    (forall c, p c = true -> q c = true) -> str_forall p s -> str_forall q s.
Proof.
  intros p q s Hpq. induction s as [| c s' IH]; cbn; [trivial|].
  intros [Hc Hs]. split; auto.
Qed.

Lemma all_digits_forall : forall s, all_digits s = true -> str_forall is_digit s.
Proof.
  induction s as [| c s' IH]; cbn; [trivial|].
  intro H. apply andb_true_iff in H. destruct H. split; auto.
Qed.

(** The characters of a text are those of its parts and the separator. *)
Lemma split_forall :
  forall p sep s,
    p sep = true -> Forall (str_forall p) (split sep s) -> str_forall p s.
Proof.
  intros p sep s Hsep. induction s as [| c s' IH]; cbn; [trivial|].
  destruct (Ascii.eqb_spec c sep) as [-> | Hne].
  - intro H. inversion H; subst. split; auto.
  - destruct (split sep s') as [| h t] eqn:Hsplit.
    + exfalso. exact (split_not_nil _ _ Hsplit).
    + intro H. inversion H as [| ? ? Hh Ht]; subst. cbn in Hh. destruct Hh as [Hc Hh].
      split; [exact Hc|]. apply IH. constructor; assumption.
Qed.

Lemma lstrip_no_space :
  forall s, str_forall (fun c => negb (is_space c)) s -> lstrip s = s.
Proof.
  destruct s as [| c s']; cbn; [reflexivity|].
  intros [Hc _]. apply negb_true_iff in Hc. rewrite Hc. reflexivity.
Qed.

Lemma rstrip_no_space :
  forall s, str_forall (fun c => negb (is_space c)) s -> rstrip s = s.
Proof.
  induction s as [| c s' IH]; cbn; [reflexivity|].
  intros [Hc Hs]. rewrite (IH Hs). apply negb_true_iff in Hc.
  destruct s'; [rewrite Hc|]; reflexivity.
Qed.

Lemma strip_no_space :
  forall s, str_forall (fun c => negb (is_space c)) s -> strip s = s.
Proof.
  intros s H. unfold strip. rewrite (lstrip_no_space s H). apply rstrip_no_space, H.
Qed.

Lemma size_char_no_space : forall c, size_char c = true -> negb (is_space c) = true.
Proof.
  intros c. unfold size_char, is_digit, is_space.
  destruct (Ascii.eqb_spec c "-") as [-> |]; [reflexivity|].
  destruct (Ascii.eqb_spec c "+") as [-> |]; [reflexivity|].
  rewrite !orb_false_r. intro H. apply andb_true_iff in H. destruct H as [H1 H2].
  apply N.leb_le in H1, H2. apply negb_true_iff.
  apply orb_false_iff. split; apply andb_false_iff.
  - right. apply N.leb_gt. lia.
  - right. apply N.leb_gt. lia.
Qed.

Lemma digit_is_size_char : forall c, is_digit c = true -> size_char c = true.
Proof. intros c H. unfold size_char. rewrite H. reflexivity. Qed.

Lemma digit_not_plus : is_digit "+" = false.
Proof. reflexivity. Qed.

Lemma digit_not_minus : is_digit "-" = false.
Proof. reflexivity. Qed.

Lemma parse_digits_all_digits :
  forall s acc after,
    all_digits s = true -> (s <> EmptyString \/ after = true) ->
    parse_digits acc after s = Some (decimal_value acc s).
Proof.
  induction s as [| c s' IH]; cbn; intros acc after Hd Hne.
  - destruct Hne as [Hne | ->]; [congruence | reflexivity].
  - apply andb_true_iff in Hd. destruct Hd as [Hc Hs]. rewrite Hc.
    apply IH; auto.
Qed.

Lemma int_of_str_integer :
  forall s, is_integer s = true -> int_of_str s = Some (decimal_value 0 s).
Proof.
  intros s H. destruct s as [| c s']; [discriminate|]. cbn [is_integer] in H.
  unfold int_of_str.
  rewrite strip_no_space.
  2:{ apply str_forall_impl with (p := is_digit).
      - intros c0 Hc0. apply size_char_no_space, digit_is_size_char, Hc0.
      - apply all_digits_forall, H. }
  assert (Hc : is_digit c = true).
  { cbn in H. apply andb_true_iff in H. tauto. }
  assert (Hrest : parse_digits 0 false (String c s') = Some (decimal_value 0 (String c s'))).
  { apply parse_digits_all_digits; [exact H | left; discriminate]. }
  destruct (Ascii.eqb_spec c "-") as [-> |]; [discriminate Hc|].
  destruct (Ascii.eqb_spec c "+") as [-> |]; [discriminate Hc|].
  destruct c as [[] [] [] [] [] [] [] []]; try exact Hrest; congruence.
Qed.

Lemma is_integer_forall : forall s, is_integer s = true -> str_forall is_digit s.
Proof.
  intros s H. destruct s; [discriminate|]. apply all_digits_forall, H.
Qed.

Lemma validate_size_unfold :
  forall cx self key s,
    Company.validate_size cx self key (VStr s) =
    let size := strip s in
    if contains "+" size && negb (endswith "+" size) then
      Raise (ValueError (key ++ ": " ++ size ++ " is invalid."))
    else
      match split "-" size with
      | [low; high] =>
          match py_int (VStr low) with
          | Ret a =>
              match py_int (VStr high) with
              | Ret b =>
                  if a >? b then
                    Raise (ValueError (key ++ ": " ++ size ++ " is invalid."))
                  else Ret (VStr size)
              | Raise e => Raise e
              end
          | Raise e => Raise e
          end
      | [] | [_] => Ret (VStr size)
      | _ => Raise (ValueError (key ++ ": " ++ size ++ " is invalid."))
      end.
Proof.
  intros cx self key s. unfold Company.validate_size. cbn [as_str bindR].
  cbv zeta.
  destruct (contains "+" (strip s) && negb (endswith "+" (strip s))); [reflexivity|].
  destruct (split "-" (strip s)) as [| p0 [| p1 [| p2 rest]]];
    cbn [length Nat.eqb Nat.ltb Nat.leb nth bindR]; try reflexivity.
  destruct (py_int (VStr p0)) as [a | e]; cbn [bindR]; [| reflexivity].
  destruct (py_int (VStr p1)) as [b | e]; cbn [bindR]; [| reflexivity].
  destruct (a >? b); reflexivity.
Qed.

Lemma py_int_str :
  forall s, py_int (VStr s) =
            match int_of_str s with
            | Some z => Ret z
            | None => Raise (ValueError
                        ("invalid literal for int() with base 10: '" ++ s ++ "'"))
            end.
Proof. reflexivity. Qed.

Lemma is_open_ended_shape :
  forall s, is_open_ended s = true ->
            str_forall size_char s /\ endswith "+" s = true /\ contains "-" s = false.
Proof.
  induction s as [| c s' IH]; cbn [is_open_ended]; [discriminate|].
  intro H. apply andb_true_iff in H. destruct H as [Hc Hrest].
  assert (Hminus : Ascii.eqb c "-" = false).
  { destruct (Ascii.eqb_spec c "-") as [-> |]; [discriminate Hc | reflexivity]. }
  apply orb_true_iff in Hrest. destruct Hrest as [Hplus | Hrec].
  - apply String.eqb_eq in Hplus. subst s'. cbn.
    rewrite Hminus. repeat split; auto using digit_is_size_char.
  - destruct (IH Hrec) as [Hchars [Hend Hno]].
    cbn. rewrite Hminus, Hno. repeat split; auto using digit_is_size_char.
    destruct s'; [discriminate Hrec | exact Hend].
Qed.

Lemma spec_format_accepted :
  forall cx self key s,
    spec_size_format s = true ->
    Company.validate_size cx self key (VStr s) = Ret (VStr s).
Proof.
  intros cx self key s H. rewrite validate_size_unfold. cbv zeta.
  unfold spec_size_format in H.
  apply orb_true_iff in H. destruct H as [H | Hopen].
  apply orb_true_iff in H. destruct H as [Hint | Hrange].
  - (* a bare integer *)
    assert (Hd : str_forall is_digit s) by (apply is_integer_forall, Hint).
    rewrite strip_no_space.
    2:{ eapply str_forall_impl; [| exact Hd].
        intros c Hc. apply size_char_no_space, digit_is_size_char, Hc. }
    rewrite (str_forall_not_contains is_digit "+" s digit_not_plus Hd). cbn.
    rewrite (split_without_sep "-" s
               (str_forall_not_contains is_digit "-" s digit_not_minus Hd)).
    reflexivity.
  - (* a range *)
    unfold is_range in Hrange.
    destruct (split "-" s) as [| low [| high [| p2 rest]]] eqn:Hsplit; try discriminate.
    apply andb_true_iff in Hrange. destruct Hrange as [Hrange Hle].
    apply andb_true_iff in Hrange. destruct Hrange as [Hlow Hhigh].
    assert (Hchars : str_forall (fun c => is_digit c || Ascii.eqb c "-") s).
    { apply split_forall with (sep := "-"%char); [reflexivity|].
      rewrite Hsplit.
      assert (Hweak : forall part, is_integer part = true ->
                str_forall (fun c => is_digit c || Ascii.eqb c "-") part).
      { intros part Hpart. apply str_forall_impl with (p := is_digit).
        - intros c Hc. rewrite Hc. reflexivity.
        - apply is_integer_forall, Hpart. }
      constructor; [apply Hweak, Hlow|]. constructor; [apply Hweak, Hhigh|].
      constructor. }
    rewrite strip_no_space.
    2:{ eapply str_forall_impl; [| exact Hchars].
        intros c Hc. apply size_char_no_space. unfold size_char. rewrite Hc. reflexivity. }
    rewrite (str_forall_not_contains _ "+" s eq_refl Hchars). cbn [andb negb].
    rewrite Hsplit, !py_int_str.
    rewrite (int_of_str_integer low Hlow), (int_of_str_integer high Hhigh).
    replace (decimal_value 0 low >? decimal_value 0 high) with false; [reflexivity|].
    symmetry. apply Z.leb_le in Hle. rewrite Z.gtb_ltb. apply Z.ltb_ge, Hle.
  - (* an open-ended size *)
    destruct (is_open_ended_shape s Hopen) as [Hchars [Hend Hno]].
    rewrite strip_no_space.
    2:{ eapply str_forall_impl; [| exact Hchars]. apply size_char_no_space. }
    rewrite Hend, andb_false_r, (split_without_sep "-" s Hno). reflexivity.
Qed.

Lemma validate_size_accepts_iff :
  forall cx self key s v,
    Company.validate_size cx self key (VStr s) = Ret v <->
    v = VStr (strip s) /\ delimiters_ok (strip s) = true.
Proof.
  intros cx self key s v. rewrite validate_size_unfold. cbv zeta.
  unfold delimiters_ok.
  destruct (contains "+" (strip s) && negb (endswith "+" (strip s))); cbn [negb andb].
  { split; [discriminate | intros [_ H]; discriminate]. }
  destruct (split "-" (strip s)) as [| p0 [| p1 [| p2 rest]]] eqn:Hsplit.
  - exfalso. exact (split_not_nil _ _ Hsplit).
  - split; [intro H; inversion H; auto | intros [-> _]; reflexivity].
  - rewrite !py_int_str.
    destruct (int_of_str p0) as [a |]; [| split; [discriminate | intros [_ H]; discriminate]].
    destruct (int_of_str p1) as [b |]; [| split; [discriminate | intros [_ H]; discriminate]].
    rewrite Z.gtb_ltb.
    destruct (Z.ltb_spec b a) as [Hlt | Hge].
    + replace (a <=? b) with false by (symmetry; apply Z.leb_gt; lia).
      split; [discriminate | intros [_ H]; discriminate].
    + replace (a <=? b) with true by (symmetry; apply Z.leb_le; lia).
      split; [intro H; inversion H; auto | intros [-> _]; reflexivity].
  - split; [discriminate | intros [_ H]; discriminate].
Qed.

Lemma validate_size_rejects :
  forall cx self key s,
    delimiters_ok (strip s) = false ->
    exists m, Company.validate_size cx self key (VStr s) = Raise (ValueError m).
Proof.
  intros cx self key s. rewrite validate_size_unfold. cbv zeta.
  unfold delimiters_ok.
  destruct (contains "+" (strip s) && negb (endswith "+" (strip s))); cbn [negb andb].
  { intros _. eexists. reflexivity. }
  destruct (split "-" (strip s)) as [| p0 [| p1 [| p2 rest]]] eqn:Hsplit.
  - intros _. exfalso. exact (split_not_nil _ _ Hsplit).
  - discriminate.
  - rewrite !py_int_str.
    destruct (int_of_str p0) as [a |]; [| intros _; eexists; reflexivity].
    destruct (int_of_str p1) as [b |]; [| intros _; eexists; reflexivity].
    rewrite Z.gtb_ltb. intro Hle. apply Z.leb_gt in Hle.
    replace (b <? a) with true by (symmetry; apply Z.ltb_lt; lia).
    eexists. reflexivity.
  - intros _. eexists. reflexivity.
Qed.




(** ** models/contact.py: validate_email *)

Lemma Ret_inj : forall (A : Type) (a b : A), Ret a = Ret b -> a = b.
Proof. intros A a b H. injection H. auto. Qed.

Lemma mem_val_column :
  forall (rows : list Row) (c : string) (s : string),
    mem_val (VStr s) (column_values rows c) = true <->
    exists row, In row rows /\ field row c = VStr s.
Proof.
  intros rows c s. unfold mem_val, column_values. rewrite existsb_exists. split.
  - intros [v [Hin Heq]]. apply in_map_iff in Hin. destruct Hin as [row [Hv Hrow]].
    exists row. split; [exact Hrow|]. subst v.
    destruct (field row c); cbn in Heq; try discriminate.
    apply String.eqb_eq in Heq. congruence.
  - intros [row [Hrow Hf]]. exists (VStr s). split.
    + apply in_map_iff. exists row. auto.
    + cbn. apply String.eqb_refl.
Qed.

(** C7: for a contact whose e-mail is the text [s], the e-mail step of
    [validate] records an error exactly when the address, stripped, is not
    well formed or some contact row of the committed store carries exactly
    that address; otherwise it stores the stripped address and records
    nothing.  The rows consulted are those of the store, whatever the batch
    holds. *)
Theorem validate_email_unique_in_store :
  forall (cx : Ctx) (self : Instance) (s : string),
    getattr self "email" = VStr s ->
    let email := strip s in
    let taken := exists row, In row (db cx contacts) /\ field row "email" = VStr email in
    ((exists m, validate_column Contact.cls cx self (col "email" false)
                = Ret (append_error self m))
     <-> (validators_email (ext cx) email = false \/ taken))
    /\ (validate_column Contact.cls cx self (col "email" false)
        = Ret (setattr self "email" (VStr email))
        <-> (validators_email (ext cx) email = true /\ ~ taken))
    /\ (taken -> validators_email (ext cx) email = true ->
        validate_column Contact.cls cx self (col "email" false)
        = Ret (append_error self
                 ("email: A contact already exists with email " ++ email ++ "."))).
Proof.
  intros cx self s Hs email taken.
  assert (Hstep : validate_column Contact.cls cx self (col "email" false) =
                  if negb (validators_email (ext cx) email) then
                    Ret (append_error self
                           ("email: " ++ email ++ " is not a valid email address."))
                  else if Contact.contact_found cx email then
                    Ret (append_error self
                           ("email: A contact already exists with email " ++ email ++ "."))
                  else Ret (setattr self "email" (VStr email))).
  { unfold validate_column, check_column. cbn [col_name nullable col].
    rewrite Hs. cbn [validator_of Contact.cls String.eqb Ascii.eqb Bool.eqb].
    unfold Contact.validate_email. cbn [as_str bindR]. fold email.
    destruct (negb (validators_email (ext cx) email)); [reflexivity|].
    destruct (Contact.contact_found cx email); reflexivity. }
  assert (Hfound : Contact.contact_found cx email = true <-> taken).
  { unfold Contact.contact_found. apply mem_val_column. }
  assert (Hne : forall m v, append_error self m <> setattr self "email" v).
  { intros m v H. apply (f_equal validation_errors) in H. cbn in H.
    apply (f_equal (@length string)) in H. rewrite length_app in H. cbn in H. lia. }
  rewrite Hstep.
  destruct (validators_email (ext cx) email) eqn:Hvalid; cbn [negb].
  - destruct (Contact.contact_found cx email) eqn:Hf.
    + assert (Ht : taken) by (apply Hfound; reflexivity).
      split; [| split].
      * split; [intros _; right; exact Ht | intros _; eexists; reflexivity].
      * split.
        -- intro Heq. apply Ret_inj in Heq. exfalso. exact (Hne _ _ Heq).
        -- intros [_ Hnt]. contradiction.
      * intros _ _. reflexivity.
    + assert (Ht : ~ taken) by (intro Ht; apply Hfound in Ht; congruence).
      split; [| split].
      * split.
        -- intros [m Heq]. apply Ret_inj in Heq. exfalso.
           exact (Hne _ _ (eq_sym Heq)).
        -- intros [Hv | Htk]; [discriminate | contradiction].
      * split; [intros _; split; [reflexivity | exact Ht] | intros _; reflexivity].
      * intros Htk. contradiction.
  - split; [| split].
    + split; [intros _; left; reflexivity | intros _; eexists; reflexivity].
    + split.
      * intro Heq. apply Ret_inj in Heq. exfalso. exact (Hne _ _ Heq).
      * intros [Hv _]. discriminate.
    + intros _ Hv. discriminate.
Qed.

(** The sample contact against a store that already holds its address. *)
Lemma validate_email_unique_in_store_witness :
  validate_column Contact.cls (sample_ctx store_with_contact)
    (BaseModel_init Contact.cls sample_contact) (col "email" false)
  = Ret (append_error (BaseModel_init Contact.cls sample_contact)
           "email: A contact already exists with email first0.last0@company1.com.").
Proof.
  apply (proj2 (proj2 (validate_email_unique_in_store (sample_ctx store_with_contact)
                         (BaseModel_init Contact.cls sample_contact)
                         "first0.last0@company1.com" eq_refl))).
  - eexists. split; [left; reflexivity | reflexivity].
  - reflexivity.
Defined.

(** ** utils/db.py: what escapes [validate] *)

Lemma null_phone_escapes :
  forall cx self,
    getattr self "phone" = VNone ->
    validate_column Contact.cls cx self (col "phone" true) = Raise AttributeError.
Proof.
  intros cx self H. unfold validate_column, check_column.
  cbn [col_name nullable col]. rewrite H. reflexivity.
Qed.

(** C3, the code at the failing inputs: a contact without a phone number
    (the column is nullable) makes [validate] raise [AttributeError], and a
    contact whose creation date does not parse makes it raise [TypeError]
    when the modification date is compared with it.  Neither is a
    [ValueError], so [validate] does not return. *)
Theorem validate_raises_past_field_check :
  validate Contact.cls (sample_ctx empty_store)
    (BaseModel_init Contact.cls contact_without_phone) = Raise AttributeError
  /\ validate Contact.cls (sample_ctx empty_store)
       (BaseModel_init Contact.cls contact_with_bad_created_date) = Raise TypeError.
Proof. split; vm_compute; reflexivity. Qed.

(** ** utils/db.py: [validate] collects every error *)

Lemma dict_get_set_other :
  forall d k k' v, k <> k' -> dict_get (dict_set d k v) k' = dict_get d k'.
Proof.
  intros d k k' v Hne. induction d as [| [k0 v0] d IH]; cbn.
  - destruct (String.eqb_spec k k'); [contradiction | reflexivity].
  - destruct (String.eqb_spec k0 k) as [-> | Hk0]; cbn.
    + destruct (String.eqb_spec k k'); [contradiction | reflexivity].
    + rewrite IH. reflexivity.
Qed.

Lemma getattr_setattr_other :
  forall self c v n, c <> n -> getattr (setattr self c v) n = getattr self n.
Proof.
  intros self c v n Hne. unfold getattr, setattr, field. cbn.
  rewrite dict_get_set_other by exact Hne. reflexivity.
Qed.

Lemma check_column_agree :
  forall cls cx self self' c,
    self_independent cls ->
    getattr self (col_name c) = getattr self' (col_name c) ->
    check_column cls cx self c = check_column cls cx self' c.
Proof.
  intros cls cx self self' c Hind Hval. unfold check_column. rewrite Hval.
  destruct (validator_of cls (col_name c)) as [f |] eqn:Hf; [| reflexivity].
  rewrite (Hind _ _ Hf cx self self'). reflexivity.
Qed.

Lemma validate_columns_collects :
  forall cls cx self0,
    self_independent cls ->
    forall cols self,
      NoDup (map col_name cols) ->
      (forall c, In c cols -> getattr self (col_name c) = getattr self0 (col_name c)) ->
      (forall c, In c cols -> field_escapes cls cx self0 c = false) ->
      exists self',
        validate_columns cls cx cols self = Ret self' /\
        validation_errors self' =
        (validation_errors self ++ flat_map (field_error cls cx self0) cols)%list.
Proof.
  intros cls cx self0 Hind. induction cols as [| c rest IH]; intros self Hnd Hsame Hesc.
  - exists self. split; [reflexivity|]. cbn. rewrite app_nil_r. reflexivity.
  - cbn [map] in Hnd. inversion Hnd as [| ? ? Hnotin Hnd']; subst.
    assert (Hc : check_column cls cx self c = check_column cls cx self0 c).
    { apply check_column_agree; [exact Hind | apply Hsame; left; reflexivity]. }
    assert (Hrest_esc : forall c', In c' rest -> field_escapes cls cx self0 c' = false).
    { intros c' Hin. apply Hesc. right. exact Hin. }
    assert (Hne : forall c', In c' rest -> col_name c <> col_name c').
    { intros c' Hin Heq. apply Hnotin. rewrite Heq. apply in_map, Hin. }
    specialize (Hesc c (or_introl eq_refl)).
    cbn [validate_columns flat_map]. unfold validate_column, field_error, field_escapes in *.
    rewrite Hc. destruct (check_column cls cx self0 c) as [[value |] | e]; cbn.
    + destruct (IH (setattr self (col_name c) value) Hnd') as [self' [Hrun Herr]].
      * intros c' Hin. rewrite getattr_setattr_other by (apply Hne, Hin).
        apply Hsame. right. exact Hin.
      * exact Hrest_esc.
      * exists self'. split; [exact Hrun | exact Herr].
    + destruct (IH self Hnd') as [self' [Hrun Herr]].
      * intros c' Hin. apply Hsame. right. exact Hin.
      * exact Hrest_esc.
      * exists self'. split; [exact Hrun | exact Herr].
    + destruct e; try discriminate Hesc. cbn.
      destruct (IH (append_error self msg) Hnd') as [self' [Hrun Herr]].
      * intros c' Hin. apply Hsame. right. exact Hin.
      * exact Hrest_esc.
      * exists self'. split; [exact Hrun|]. rewrite Herr. cbn.
        rewrite <- app_assoc. reflexivity.
Qed.

Lemma field_error_count :
  forall cls cx self cols,
    length (flat_map (field_error cls cx self) cols) =
    length (filter (field_invalid cls cx self) cols).
Proof.
  intros cls cx self. induction cols as [| c rest IH]; cbn; [reflexivity|].
  rewrite length_app, IH. unfold field_error, field_invalid.
  destruct (check_column cls cx self c) as [r | e]; [reflexivity|].
  destruct e; reflexivity.
Qed.

(** In a class whose validators look at their own field only (company,
    opportunity, activity), the state of the loop does not matter: when no
    check on the record raises anything but [ValueError], [validate]
    returns, and the errors it has appended are the messages of exactly the
    columns whose own check on the record fails, in column order. *)
Lemma validate_collects_independent :
  forall (cls : ModelClass) (cx : Ctx) (self : Instance),
    NoDup (column_names cls) ->
    self_independent cls ->
    (forall c, In c (columns cls) -> field_escapes cls cx self c = false) ->
    exists is_valid self',
      validate cls cx self = Ret (is_valid, self')
      /\ validation_errors self' =
         (validation_errors self ++ flat_map (field_error cls cx self) (columns cls))%list
      /\ length (flat_map (field_error cls cx self) (columns cls)) =
         length (filter (field_invalid cls cx self) (columns cls))
      /\ (is_valid = true <-> validation_errors self' = []).
Proof.
  intros cls cx self Hnd Hind Hesc.
  destruct (validate_columns_collects cls cx self Hind (columns cls) self Hnd
              (fun _ _ => eq_refl) Hesc) as [self' [Hrun Herr]].
  exists (is_nil (validation_errors self')), self'.
  unfold validate. rewrite Hrun. cbn [bindR].
  split; [reflexivity|]. split; [exact Herr|].
  split; [apply field_error_count|].
  destruct (validation_errors self'); cbn; split; congruence.
Qed.

Ltac solve_self_independent :=
  intros name f Hf cx self self' key v;
  cbn [validator_of Company.cls Opportunity.cls Activity.cls
       Industry.cls ContactStatus.cls Stage.cls ForecastCategory.cls Product.cls] in Hf;
  repeat match type of Hf with
         | (if ?b then _ else _) = Some _ => destruct b
         end;
  try discriminate Hf; inversion Hf; subst f; reflexivity.

Lemma Company_self_independent : self_independent Company.cls.
Proof. solve_self_independent. Qed.

Lemma Opportunity_self_independent : self_independent Opportunity.cls.
Proof. solve_self_independent. Qed.

Lemma Activity_self_independent : self_independent Activity.cls.
Proof. solve_self_independent. Qed.

Ltac solve_NoDup :=
  repeat (constructor; [cbn; intuition discriminate |]); constructor.

Lemma Opportunity_columns_NoDup : NoDup (column_names Opportunity.cls).
Proof. cbn. solve_NoDup. Qed.

(** An opportunity with a negative amount and a probability of -20: two
    invalid fields, two messages, in column order. *)
Lemma opportunity_two_errors :
  exists self',
    validate Opportunity.cls (sample_ctx empty_store)
      (BaseModel_init Opportunity.cls opportunity_with_two_bad_fields)
    = Ret (false, self')
    /\ validation_errors self' =
       ["amount: <float> cannot be negative.";
        "probability: -20 must be between 0 and 100."].
Proof.
  destruct (validate_collects_independent Opportunity.cls (sample_ctx empty_store)
              (BaseModel_init Opportunity.cls opportunity_with_two_bad_fields)
              Opportunity_columns_NoDup Opportunity_self_independent)
    as [is_valid [self' [Hrun [Herr [_ Hvalid]]]]].
  - intros c Hin. cbn in Hin.
    repeat (destruct Hin as [<- | Hin]; [vm_compute; reflexivity |]).
    contradiction.
  - exists self'.
    assert (Hlist : validation_errors self' =
                    ["amount: <float> cannot be negative.";
                     "probability: -20 must be between 0 and 100."]).
    { rewrite Herr. vm_compute. reflexivity. }
    split; [| exact Hlist].
    rewrite Hrun. destruct is_valid; [| reflexivity].
    rewrite Hlist in Hvalid. destruct Hvalid as [Hvalid _].
    discriminate (Hvalid eq_refl).
Qed.

(** The invalid contact of the tests: a bad e-mail address and a bad phone
    number give the two messages the test expects. *)
Example contact_two_errors :
  option_map (fun r => validation_errors (snd r))
    (match validate Contact.cls (sample_ctx empty_store)
             (BaseModel_init Contact.cls contact_with_two_bad_fields) with
     | Ret r => Some r
     | Raise _ => None
     end)
  = Some ["email: invalid_email is not a valid email address.";
          "phone: 11231231234 is not a valid. Please provide a valid phone number in international format."].
Proof. vm_compute. reflexivity. Qed.

(** ** etl/pipeline.py: the contact batch is de-duplicated by recency *)

(** *** The order on sort keys *)

Lemma string_leb_iff :
  forall a b, String.leb a b = true <->
              a = b \/ OrderedTypeEx.String_as_OT.lt a b.
Proof.
  intros a b. unfold String.leb.
  pose proof (OrderedTypeEx.String_as_OT.cmp_eq a b) as Heq.
  pose proof (OrderedTypeEx.String_as_OT.cmp_lt a b) as Hlt.
  unfold OrderedTypeEx.String_as_OT.cmp in *.
  destruct (String.compare a b); split; intro H.
  - left. apply Heq. reflexivity.
  - reflexivity.
  - right. apply Hlt. reflexivity.
  - reflexivity.
  - discriminate.
  - destruct H as [H | H]; [apply Heq in H | apply Hlt in H]; discriminate.
Qed.

Lemma string_leb_trans :
  forall a b c, String.leb a b = true -> String.leb b c = true -> String.leb a c = true.
Proof.
  intros a b c Hab Hbc. apply string_leb_iff in Hab, Hbc. apply string_leb_iff.
  destruct Hab as [-> | Hab]; [exact Hbc|].
  destruct Hbc as [<- | Hbc]; [right; exact Hab|].
  right. exact (OrderedTypeEx.String_as_OT.lt_trans _ _ _ Hab Hbc).
Qed.

Lemma num_leb_total : forall x y, num_leb x y = true \/ num_leb y x = true.
Proof.
  intros [| [] | p] [| [] | q]; cbn; auto.
  destruct (Qlt_le_dec q p) as [Hlt | Hle].
  - right. apply Qle_bool_iff, Qlt_le_weak, Hlt.
  - left. apply Qle_bool_iff, Hle.
Qed.

Lemma num_leb_trans :
  forall x y z, num_leb x y = true -> num_leb y z = true -> num_leb x z = true.
Proof.
  intros [| [] | p] [| [] | q] [| [] | r]; cbn; auto; try discriminate.
  intros Hpq Hqr. apply Qle_bool_iff in Hpq, Hqr. apply Qle_bool_iff.
  exact (Qle_trans _ _ _ Hpq Hqr).
Qed.

Lemma key_leb_total : forall a b, key_leb a b = true \/ key_leb b a = true.
Proof.
  intros [x | x | x | x |] [y | y | y | y |]; cbn; auto.
  - apply num_leb_total.
  - apply String.leb_total.
  - destruct (Z.leb_spec x y); [left; reflexivity | right; apply Z.leb_le; lia].
  - destruct (Z.leb_spec x y); [left; reflexivity | right; apply Z.leb_le; lia].
Qed.

Lemma key_leb_trans :
  forall a b c, key_leb a b = true -> key_leb b c = true -> key_leb a c = true.
Proof.
  intros [x | x | x | x |] [y | y | y | y |] [z | z | z | z |]; cbn;
    auto; try discriminate.
  - apply num_leb_trans.
  - apply string_leb_trans.
  - intros H1 H2. apply Z.leb_le in H1, H2. apply Z.leb_le. lia.
  - intros H1 H2. apply Z.leb_le in H1, H2. apply Z.leb_le. lia.
Qed.

Lemma val_leb_total : forall a b, val_leb a b = true \/ val_leb b a = true.
Proof. intros a b. apply key_leb_total. Qed.

Lemma val_leb_trans :
  forall a b c, val_leb a b = true -> val_leb b c = true -> val_leb a c = true.
Proof. intros a b c. apply key_leb_trans. Qed.

Lemma val_leb_refl : forall a, val_leb a a = true.
Proof. intro a. destruct (val_leb_total a a); assumption. Qed.

(** *** Equality of keys *)

Lemma pyfloat_eqb_sym : forall a b, pyfloat_eqb a b = pyfloat_eqb b a.
Proof.
  intros [| x | p] [| y | q]; cbn; try reflexivity.
  - destruct x, y; reflexivity.
  - destruct (Qeq_bool p q) eqn:H1, (Qeq_bool q p) eqn:H2; try reflexivity.
    + apply Qeq_bool_iff, Qeq_sym, Qeq_bool_iff in H1. congruence.
    + apply Qeq_bool_iff, Qeq_sym, Qeq_bool_iff in H2. congruence.
Qed.

Lemma pyfloat_eqb_trans :
  forall a b c, pyfloat_eqb a b = true -> pyfloat_eqb b c = true ->
                pyfloat_eqb a c = true.
Proof.
  intros [| x | p] [| y | q] [| z | r]; cbn; try discriminate.
  - destruct x, y, z; auto.
  - intros H1 H2. apply Qeq_bool_iff in H1, H2. apply Qeq_bool_iff.
    exact (Qeq_trans _ _ _ H1 H2).
Qed.

Lemma val_eqb_sym : forall a b, val_eqb a b = val_eqb b a.
Proof.
  intros [| x | x | x | x | x ax] [| y | y | y | y | y ay]; cbn; try reflexivity.
  - destruct x, y; reflexivity.
  - apply Z.eqb_sym.
  - apply pyfloat_eqb_sym.
  - apply String.eqb_sym.
  - rewrite Z.eqb_sym. destruct ax, ay; reflexivity.
Qed.

Lemma val_eqb_trans :
  forall a b c, val_eqb a b = true -> val_eqb b c = true -> val_eqb a c = true.
Proof.
  intros [| x | x | x | x | x ax] [| y | y | y | y | y ay] [| z | z | z | z | z az];
    cbn; try discriminate; auto.
  - destruct x, y, z; auto.
  - intros H1 H2. apply Z.eqb_eq in H1, H2. apply Z.eqb_eq. congruence.
  - apply pyfloat_eqb_trans.
  - intros H1 H2. apply String.eqb_eq in H1, H2. apply String.eqb_eq. congruence.
  - intros H1 H2. apply andb_true_iff in H1, H2. destruct H1 as [H1 H1'], H2 as [H2 H2'].
    apply Z.eqb_eq in H1, H2. apply andb_true_iff. split.
    + apply Z.eqb_eq. congruence.
    + destruct ax, ay, az; auto.
Qed.

Lemma val_eqb_isna : forall a b, val_eqb a b = true -> isna a = isna b.
Proof.
  intros [| x | x | [| x | x] | x | x ax] [| y | y | [| y | y] | y | y ay];
    cbn; auto; discriminate.
Qed.

Lemma same_key_refl : forall a, same_key a a = true.
Proof.
  intros [| x | x | [| x | x] | x | x ax]; cbn; auto.
  - destruct x; reflexivity.
  - apply Z.eqb_refl.
  - destruct x; reflexivity.
  - apply Qeq_bool_iff. reflexivity.
  - apply String.eqb_refl.
  - rewrite Z.eqb_refl. destruct ax; reflexivity.
Qed.

Lemma same_key_sym : forall a b, same_key a b = same_key b a.
Proof.
  intros a b. unfold same_key. rewrite val_eqb_sym, (andb_comm (isna a)). reflexivity.
Qed.

Lemma same_key_trans :
  forall a b c, same_key a b = true -> same_key b c = true -> same_key a c = true.
Proof.
  intros a b c. unfold same_key. intros H1 H2.
  apply orb_true_iff in H1, H2. apply orb_true_iff.
  destruct H1 as [H1 | H1], H2 as [H2 | H2].
  - left. apply andb_true_iff in H1, H2. apply andb_true_iff. tauto.
  - left. apply andb_true_iff in H1. destruct H1 as [Ha Hb].
    rewrite (val_eqb_isna _ _ H2) in Hb. rewrite Ha, Hb. reflexivity.
  - left. apply andb_true_iff in H2. destruct H2 as [Hb Hc].
    rewrite <- (val_eqb_isna _ _ H1) in Hb. rewrite Hb, Hc. reflexivity.
  - right. exact (val_eqb_trans _ _ _ H1 H2).
Qed.

(** *** Sorting *)

Lemma In_insert_desc :
  forall by_col r l x, In x (insert_desc by_col r l) <-> x = r \/ In x l.
Proof.
  intros by_col r l x. induction l as [| r' l IH]; cbn.
  - intuition.
  - destruct (val_leb (field r' by_col) (field r by_col)); cbn; [intuition|].
    rewrite IH. intuition.
Qed.

Lemma In_sort_desc :
  forall by_col l x, In x (sort_desc by_col l) <-> In x l.
Proof.
  intros by_col l x. induction l as [| r l IH]; cbn; [reflexivity|].
  rewrite In_insert_desc, IH. intuition.
Qed.

Section SortedFacts.
Variable by_col : string.

Lemma insert_desc_sorted :
    forall r l, StronglySorted (desc by_col) l -> StronglySorted (desc by_col) (insert_desc by_col r l).
  Proof.
    intros r l Hs. induction Hs as [| r' l Hs IH Hall]; cbn.
    - constructor; constructor.
    - destruct (val_leb (field r' by_col) (field r by_col)) eqn:Hle.
      + constructor; [constructor; assumption|].
        constructor; [exact Hle|].
        apply Forall_forall. intros x Hx.
        rewrite Forall_forall in Hall. unfold desc.
        eapply val_leb_trans; [apply Hall, Hx | exact Hle].
      + constructor; [exact IH|].
        apply Forall_forall. intros x Hx. apply In_insert_desc in Hx.
        destruct Hx as [-> | Hx].
        * unfold desc. destruct (val_leb_total (field r by_col) (field r' by_col));
            [assumption | congruence].
        * rewrite Forall_forall in Hall. apply Hall, Hx.
  Qed.

Lemma sort_desc_sorted : forall l, StronglySorted (desc by_col) (sort_desc by_col l).
  Proof.
    induction l as [| r l IH]; cbn; [constructor|].
    apply insert_desc_sorted, IH.
  Qed.
End SortedFacts.

Lemma StronglySorted_app :
  forall (A : Type) (R : A -> A -> Prop) (l1 l2 : list A),
    StronglySorted R l1 -> StronglySorted R l2 ->
    (forall x y, In x l1 -> In y l2 -> R x y) ->
    StronglySorted R (l1 ++ l2).
Proof.
  intros A R l1 l2 H1 H2 Hcross. induction H1 as [| a l1 H1 IH Hall]; cbn; [exact H2|].
  constructor.
  - apply IH. intros x y Hx Hy. apply Hcross; [right; exact Hx | exact Hy].
  - apply Forall_forall. intros x Hx. apply in_app_or in Hx. destruct Hx as [Hx | Hx].
    + rewrite Forall_forall in Hall. apply Hall, Hx.
    + apply Hcross; [left; reflexivity | exact Hx].
Qed.

Lemma StronglySorted_impl :
  forall (A : Type) (R Q : A -> A -> Prop) (l : list A),
    (forall x y, In x l -> In y l -> R x y -> Q x y) ->
    StronglySorted R l -> StronglySorted Q l.
Proof.
  intros A R Q l Himp Hs. induction Hs as [| a l Hs IH Hall]; constructor.
  - apply IH. intros x y Hx Hy. apply Himp; right; assumption.
  - apply Forall_forall. intros x Hx. rewrite Forall_forall in Hall.
    apply Himp; [left; reflexivity | right; exact Hx | apply Hall, Hx].
Qed.

Lemma StronglySorted_all :
  forall (A : Type) (R : A -> A -> Prop) (l : list A),
    (forall x y, In x l -> In y l -> R x y) -> StronglySorted R l.
Proof.
  intros A R l. induction l as [| a l IH]; intro H; constructor.
  - apply IH. intros x y Hx Hy. apply H; right; assumption.
  - apply Forall_forall. intros x Hx. apply H; [left; reflexivity | right; exact Hx].
Qed.

Lemma at_least_as_recent_refl : forall r, at_least_as_recent r r = true.
Proof.
  intro r. unfold at_least_as_recent.
  destruct (isna (field r "last_modified")); [reflexivity | apply val_leb_refl].
Qed.

(** The frame [sort_values] returns is in order of recency and holds the
    rows of the batch. *)
Lemma sort_values_desc_spec :
  forall batch sorted,
    sort_values_desc "last_modified" batch = Ret sorted ->
    StronglySorted (fun a b => at_least_as_recent a b = true) sorted
    /\ (forall r, In r sorted <-> In r batch).
Proof.
  intros batch sorted. unfold sort_values_desc.
  destruct (negb (has_column batch "last_modified")); [discriminate|].
  destruct (same_kind _); [| discriminate].
  intro H. apply Ret_inj in H. subst sorted. split.
  - apply StronglySorted_app.
    + apply StronglySorted_impl
        with (R := fun a b => val_leb (field b "last_modified") (field a "last_modified") = true).
      * intros x y Hx Hy Hle. apply In_sort_desc, filter_In in Hx, Hy.
        destruct Hx as [_ Hx], Hy as [_ Hy]. apply negb_true_iff in Hx, Hy.
        unfold at_least_as_recent. rewrite Hx, Hy. exact Hle.
      * apply sort_desc_sorted.
    + apply StronglySorted_all. intros x y _ Hy. apply filter_In in Hy.
      destruct Hy as [_ Hy]. unfold at_least_as_recent. rewrite Hy. reflexivity.
    + intros x y _ Hy. apply filter_In in Hy. destruct Hy as [_ Hy].
      unfold at_least_as_recent. rewrite Hy. reflexivity.
  - intro r. rewrite in_app_iff, In_sort_desc, !filter_In.
    destruct (isna (field r "last_modified")); cbn; intuition discriminate.
Qed.

(** *** Dropping duplicates *)

Lemma In_keep_first : forall subset l r, In r (keep_first subset l) -> In r l.
Proof.
  intros subset l r. induction l as [| a l IH]; cbn; [auto|].
  intros [-> | H]; [left; reflexivity|].
  apply filter_In in H. right. apply IH, H.
Qed.

(** Every row has a representative among the rows kept, and the
    representative stands no later than it. *)
Lemma keep_first_representative :
  forall subset (R : Row -> Row -> Prop) l,
    (forall r, R r r) ->
    StronglySorted R l ->
    forall r, In r l ->
    exists kept, In kept (keep_first subset l)
                 /\ same_key (field kept subset) (field r subset) = true
                 /\ R kept r.
Proof.
  intros subset R l Hrefl Hs. induction Hs as [| a l Hs IH Hall]; intros r Hr.
  - contradiction.
  - cbn [keep_first].
    destruct (same_key (field a subset) (field r subset)) eqn:Hsame.
    + exists a. split; [left; reflexivity|]. split; [exact Hsame|].
      destruct Hr as [-> | Hr]; [apply Hrefl|].
      rewrite Forall_forall in Hall. apply Hall, Hr.
    + destruct Hr as [-> | Hr].
      * rewrite same_key_refl in Hsame. discriminate.
      * destruct (IH r Hr) as [kept [Hin [Hk HR]]].
        exists kept. split; [| split; assumption].
        right. apply filter_In. split; [exact Hin|].
        apply negb_true_iff.
        destruct (same_key (field a subset) (field kept subset)) eqn:Hak; [| reflexivity].
        rewrite (same_key_trans _ _ _ Hak Hk) in Hsame. discriminate.
Qed.

Lemma keep_first_unique :
  forall subset l x y,
    In x (keep_first subset l) -> In y (keep_first subset l) ->
    same_key (field x subset) (field y subset) = true -> x = y.
Proof.
  intros subset l. induction l as [| a l IH]; intros x y Hx Hy Hsame; [contradiction|].
  cbn [keep_first] in Hx, Hy.
  destruct Hx as [<- | Hx], Hy as [<- | Hy].
  - reflexivity.
  - apply filter_In in Hy. destruct Hy as [_ Hy]. rewrite Hsame in Hy. discriminate.
  - apply filter_In in Hx. destruct Hx as [_ Hx].
    rewrite same_key_sym, Hsame in Hx. discriminate.
  - apply filter_In in Hx, Hy. apply IH; tauto.
Qed.

Lemma has_column_ext :
  forall l1 l2 c, (forall r, In r l1 <-> In r l2) -> has_column l1 c = has_column l2 c.
Proof.
  intros l1 l2 c H. unfold has_column.
  destruct (existsb _ l2) eqn:H2.
  - apply existsb_exists in H2. destruct H2 as [r [Hr Hc]].
    apply existsb_exists. exists r. split; [apply H, Hr | exact Hc].
  - destruct (existsb _ l1) eqn:H1; [| reflexivity].
    apply existsb_exists in H1. destruct H1 as [r [Hr Hc]].
    rewrite <- H2. symmetry. apply existsb_exists. exists r.
    split; [apply H, Hr | exact Hc].
Qed.

(** The two statements return whenever the frame has both columns and the
    modification times order against each other. *)
Lemma dedup_contacts_returns :
  forall batch,
    has_column batch "last_modified" = true ->
    has_column batch "email" = true ->
    same_kind (column_values
                 (filter (fun r => negb (isna (field r "last_modified"))) batch)
                 "last_modified") = true ->
    exists result, dedup_contacts batch = Ret result.
Proof.
  intros batch Hlm Hemail Hkind. unfold dedup_contacts.
  destruct (sort_values_desc "last_modified" batch) as [sorted | e] eqn:Hsort.
  - cbn [bindR]. unfold drop_duplicates.
    destruct (sort_values_desc_spec _ _ Hsort) as [_ Hin].
    rewrite (has_column_ext sorted batch "email" Hin), Hemail. cbn.
    eexists. reflexivity.
  - unfold sort_values_desc in Hsort. rewrite Hlm, Hkind in Hsort. discriminate.
Qed.

(** What the two statements do keep.  [process_contacts] sorts the batch by
    the values of [last_modified] as the frame holds them (texts, when the
    file has texts), greatest first, and keeps the first row of every e-mail
    address.  So when two rows of the batch share an address and the value
    of [r1] is greater than that of [r2] in the order of the column, the
    batch that goes on holds exactly one row [kept] for that address, a row
    of the input whose value is at least that of [r1], and [r2] is gone;
    when the two are the only rows with that address, [kept] is [r1], fields
    and all. *)
Lemma dedup_contacts_keeps_greatest :
  forall (batch result : list Row) (r1 r2 : Row),
    dedup_contacts batch = Ret result ->
    In r1 batch -> In r2 batch ->
    same_key (field r1 "email") (field r2 "email") = true ->
    isna (field r1 "last_modified") = false ->
    val_leb (field r1 "last_modified") (field r2 "last_modified") = false ->
    exists kept,
      In kept result /\ In kept batch
      /\ same_key (field kept "email") (field r1 "email") = true
      /\ at_least_as_recent kept r1 = true
      /\ (forall r, In r result ->
                    same_key (field r "email") (field r1 "email") = true -> r = kept)
      /\ ~ In r2 result
      /\ ((forall r, In r batch ->
                     same_key (field r "email") (field r1 "email") = true ->
                     r = r1 \/ r = r2) ->
          kept = r1).
Proof.
  intros batch result r1 r2 Hrun H1 H2 Hsame Hpresent Hlater.
  unfold dedup_contacts in Hrun.
  destruct (sort_values_desc "last_modified" batch) as [sorted | e] eqn:Hsort;
    [| discriminate].
  cbn [bindR] in Hrun. unfold drop_duplicates in Hrun.
  destruct (negb (has_column sorted "email")); [discriminate|].
  apply Ret_inj in Hrun. subst result.
  destruct (sort_values_desc_spec _ _ Hsort) as [Hsorted Hin].
  destruct (keep_first_representative "email"
              (fun a b => at_least_as_recent a b = true) sorted
              at_least_as_recent_refl Hsorted r1 (proj2 (Hin r1) H1))
    as [kept [Hkept [Hkey Hrecent]]].
  assert (Hunique : forall r, In r (keep_first "email" sorted) ->
                              same_key (field r "email") (field r1 "email") = true ->
                              r = kept).
  { intros r Hr Hk. apply (keep_first_unique "email" sorted); [exact Hr | exact Hkept |].
    apply same_key_trans with (b := field r1 "email"); [exact Hk|].
    rewrite same_key_sym. exact Hkey. }
  assert (Hnot2 : kept <> r2).
  { intro Heq. subst kept. unfold at_least_as_recent in Hrecent.
    rewrite Hpresent in Hrecent.
    destruct (isna (field r2 "last_modified")); [discriminate | congruence]. }
  exists kept. split; [exact Hkept|].
  split; [apply Hin, In_keep_first with (subset := "email"), Hkept|].
  split; [exact Hkey|]. split; [exact Hrecent|]. split; [exact Hunique|]. split.
  - intro Hr2. apply Hnot2. symmetry. apply Hunique; [exact Hr2|].
    rewrite same_key_sym. exact Hsame.
  - intro Honly.
    destruct (Honly kept (proj1 (Hin kept) (In_keep_first _ _ _ Hkept)) Hkey)
      as [Heq | Heq]; [exact Heq | contradiction].
Qed.

(** Two rows for one address, both times in ISO 8601: the one modified
    later is the one kept. *)
Lemma dedup_contacts_keeps_greatest_example :
  dedup_contacts [older_contact; newer_contact] = Ret [newer_contact]
  /\ exists kept,
       In kept [newer_contact] /\ In kept [older_contact; newer_contact]
       /\ same_key (field kept "email") (field newer_contact "email") = true
       /\ at_least_as_recent kept newer_contact = true
       /\ (forall r, In r [newer_contact] ->
                     same_key (field r "email") (field newer_contact "email") = true ->
                     r = kept)
       /\ ~ In older_contact [newer_contact]
       /\ ((forall r, In r [older_contact; newer_contact] ->
                      same_key (field r "email") (field newer_contact "email") = true ->
                      r = newer_contact \/ r = older_contact) ->
           kept = newer_contact).
Proof.
  split; [reflexivity|].
  apply (dedup_contacts_keeps_greatest [older_contact; newer_contact]
           [newer_contact] newer_contact older_contact).
  - reflexivity.
  - right. left. reflexivity.
  - left. reflexivity.
  - reflexivity.
  - reflexivity.
  - reflexivity.
Qed.

(** ** The session: what a successful flush has stored *)

Lemma field_as_dict :
  forall cls obj c,
    In c (column_names cls) -> field (as_dict cls obj) c = getattr obj c.
Proof.
  intros cls obj c. unfold as_dict, column_names, field.
  induction (columns cls) as [| c0 cols IH]; cbn; [contradiction|].
  intros [Heq | Hin].
  - rewrite Heq, String.eqb_refl. reflexivity.
  - destruct (String.eqb_spec (col_name c0) c) as [-> | Hne]; [reflexivity|].
    apply IH, Hin.
Qed.

Lemma field_bind_params :
  forall (d : Row) c,
    field (map (fun kv => (fst kv, bind_param (snd kv))) d) c = bind_param (field d c).
Proof.
  intros d c. unfold field. induction d as [| [k v] d IH]; cbn; [reflexivity|].
  destruct (String.eqb k c); [reflexivity | exact IH].
Qed.

Lemma field_dict_set_other :
  forall d k k' v, k <> k' -> field (dict_set d k v) k' = field d k'.
Proof.
  intros d k k' v Hne. unfold field. rewrite dict_get_set_other by exact Hne.
  reflexivity.
Qed.

Lemma mem_val_app :
  forall v l1 l2, mem_val v (l1 ++ l2) = mem_val v l1 || mem_val v l2.
Proof. intros v l1 l2. unfold mem_val. apply existsb_app. Qed.

Lemma val_eqb_refl : forall v, isna v = false -> val_eqb v v = true.
Proof.
  intros v Hna. pose proof (same_key_refl v) as H. unfold same_key in H.
  rewrite Hna in H. exact H.
Qed.

Lemma mem_val_In : forall v l, isna v = false -> In v l -> mem_val v l = true.
Proof.
  intros v l Hna Hin. unfold mem_val. apply existsb_exists.
  exists v. split; [exact Hin | apply val_eqb_refl, Hna].
Qed.

Lemma column_values_app :
  forall l1 l2 c, column_values (l1 ++ l2) c = (column_values l1 c ++ column_values l2 c)%list.
Proof. intros. unfold column_values. apply map_app. Qed.

Lemma fresh_values_NoDup :
  forall vals old,
    fresh_values vals old ->
    Forall (fun v => isna v = false) vals ->
    NoDup vals /\ forall v, In v vals -> ~ In v old.
Proof.
  induction vals as [| v vs IH]; intros old Hfresh Hna.
  - split; [constructor | intros v []].
  - cbn in Hfresh. destruct Hfresh as [Hv Hvs].
    inversion Hna as [| ? ? Hv_na Hvs_na]; subst.
    destruct (IH _ Hvs Hvs_na) as [Hnd Hdisj].
    assert (Hv_old : ~ In v old).
    { intro Hin. rewrite (mem_val_In v old Hv_na Hin) in Hv. discriminate. }
    split.
    + constructor; [| exact Hnd].
      intro Hin. apply (Hdisj v Hin). apply in_or_app. right. left. reflexivity.
    + intros x [<- | Hx]; [exact Hv_old|].
      intro Hin. apply (Hdisj x Hx). apply in_or_app. left. exact Hin.
Qed.

(** The row stored for an object. *)
Lemma insert_rows_cons :
  forall cls rows obj rest new,
    insert_rows cls rows (obj :: rest) = Ret new ->
    exists row more,
      new = row :: more
      /\ insert_rows cls (rows ++ [row]) rest = Ret more
      /\ violates_not_null cls row = false
      /\ violates_unique cls rows row = false
      /\ (forall c, (c = "id" -> autoincrement cls = false) ->
                    field row c = bind_param (field (as_dict cls obj) c)).
Proof.
  intros cls rows obj rest new. cbn [insert_rows].
  set (row0 := map (fun kv => (fst kv, bind_param (snd kv))) (as_dict cls obj)).
  set (row := if autoincrement cls && is_none (field row0 "id")
              then dict_set row0 "id" (VInt (next_id rows)) else row0).
  destruct (violates_not_null cls row || violates_unique cls rows row) eqn:Hviol;
    [discriminate|].
  apply orb_false_iff in Hviol. destruct Hviol as [Hnull Huniq].
  destruct (insert_rows cls (rows ++ [row]) rest) as [more | e] eqn:Hrest;
    [| discriminate].
  cbn [bindR]. intro H. apply Ret_inj in H. subst new.
  exists row, more. repeat split; try assumption.
  intros c Hc. unfold row.
  destruct (autoincrement cls && is_none (field row0 "id")) eqn:Hauto.
  - apply andb_true_iff in Hauto. destruct Hauto as [Hauto _].
    destruct (String.eqb_spec "id" c) as [<- | Hne].
    + rewrite (Hc eq_refl) in Hauto. discriminate.
    + rewrite field_dict_set_other by exact Hne. apply field_bind_params.
  - apply field_bind_params.
Qed.

Lemma insert_rows_fields :
  forall cls c,
    In c (column_names cls) -> (c = "id" -> autoincrement cls = false) ->
    forall objs rows new,
      insert_rows cls rows objs = Ret new ->
      column_values new c = map (fun obj => bind_param (getattr obj c)) objs.
Proof.
  intros cls c Hc Hid. induction objs as [| obj rest IH]; intros rows new Hrun.
  - cbn in Hrun. apply Ret_inj in Hrun. subst new. reflexivity.
  - destruct (insert_rows_cons _ _ _ _ _ Hrun) as [row [more [-> [Hrest [_ [_ Hf]]]]]].
    change (column_values (row :: more) c) with (field row c :: column_values more c).
    rewrite (Hf c Hid), (field_as_dict cls obj c Hc), (IH _ _ Hrest). reflexivity.
Qed.

Lemma insert_rows_not_null :
  forall cls c,
    In (col c false) (columns cls) ->
    forall objs rows new,
      insert_rows cls rows objs = Ret new ->
      Forall (fun v => is_none v = false) (column_values new c).
Proof.
  intros cls c Hc. induction objs as [| obj rest IH]; intros rows new Hrun.
  - cbn in Hrun. apply Ret_inj in Hrun. subst new. constructor.
  - destruct (insert_rows_cons _ _ _ _ _ Hrun) as [row [more [-> [Hrest [Hnull _]]]]].
    change (column_values (row :: more) c) with (field row c :: column_values more c).
    constructor; [| exact (IH _ _ Hrest)].
    unfold violates_not_null in Hnull.
    destruct (is_none (field row c)) eqn:Hnone; [| reflexivity].
    rewrite <- Hnull. symmetry. apply existsb_exists.
    exists (col c false). split; [exact Hc|]. cbn. exact Hnone.
Qed.

Lemma insert_rows_fresh :
  forall cls c,
    In c (unique_columns cls) ->
    forall objs rows new,
      insert_rows cls rows objs = Ret new ->
      Forall (fun v => is_none v = false) (column_values new c) ->
      fresh_values (column_values new c) (column_values rows c).
Proof.
  intros cls c Hc. induction objs as [| obj rest IH]; intros rows new Hrun Hnn.
  - cbn in Hrun. apply Ret_inj in Hrun. subst new. exact I.
  - destruct (insert_rows_cons _ _ _ _ _ Hrun) as [row [more [-> [Hrest [_ [Huniq _]]]]]].
    change (column_values (row :: more) c)
      with (field row c :: column_values more c) in *.
    inversion Hnn as [| ? ? Hrow_nn Hmore_nn]; subst.
    cbn [fresh_values]. split.
    + unfold violates_unique in Huniq.
      destruct (mem_val (field row c) (column_values rows c)) eqn:Hmem; [| reflexivity].
      rewrite <- Huniq. symmetry. apply existsb_exists.
      exists c. split; [exact Hc|]. rewrite Hrow_nn, Hmem. reflexivity.
    + specialize (IH _ _ Hrest Hmore_nn).
      rewrite column_values_app in IH. exact IH.
Qed.

(** ** etl/pipeline.py: process_sub_entities *)

Lemma lookup_class_facts :
  forall cls,
    is_lookup_class cls ->
    In "name" (column_names cls)
    /\ In (col "name" false) (columns cls)
    /\ In "name" (unique_columns cls)
    /\ forall n, getattr (BaseModel_init cls [("name", n)]) "name" = n.
Proof.
  intros cls H.
  destruct H as [-> | [-> | [-> | [-> | ->]]]];
    (split; [cbn; auto |]); (split; [cbn; auto |]); (split; [cbn; auto |]);
    intro n; reflexivity.
Qed.

Lemma process_sub_entities_unfold :
  forall cls entities column w,
    process_sub_entities cls entities column w =
    if has_column entities column then
      match map_res (fun v => clean_text v false) (column_values entities column) with
      | Raise e => (Raise e, w)
      | Ret cleaned =>
          let values := unique cleaned in
          let new_names :=
            filter (fun v => negb (mem_val v
                       (column_values (query_in (store w) (tablename cls) "name" values)
                                      "name")))
                   values in
          match insert_rows cls (store w (tablename cls))
                  (map (fun name => BaseModel_init cls [("name", name)]) new_names) with
          | Raise e => (Raise e, w)
          | Ret new_rows =>
              let w' := with_store w (store_add (store w) (tablename cls) new_rows) in
              (Ret (map (fun r => (field r "name", field r "id"))
                        (query_in (store w') (tablename cls) "name" values)), w')
          end
      end
    else (Raise KeyError, w).
Proof.
  intros cls entities column w.
  unfold process_sub_entities, bind, read_column, lift, get_world, ret.
  destruct (has_column entities column); [| reflexivity].
  destruct (map_res _ _) as [cleaned | e]; [| reflexivity].
  unfold bulk_save_objects.
  destruct (insert_rows _ _ _) as [new_rows | e]; reflexivity.
Qed.

Lemma clean_text_result :
  forall v n, clean_text v false = Ret n -> text_or_none n.
Proof.
  intros v n H. destruct v; cbn in H; try discriminate;
    apply Ret_inj in H; subst n; [left; reflexivity | right; eexists; reflexivity].
Qed.

Lemma map_res_spec :
  forall (A B : Type) (f : A -> PyRes B) l out,
    map_res f l = Ret out -> Forall2 (fun x y => f x = Ret y) l out.
Proof.
  intros A B f. induction l as [| x l IH]; intros out H; cbn in H.
  - apply Ret_inj in H. subst out. constructor.
  - destruct (f x) as [y | e] eqn:Hx; [| discriminate]. cbn [bindR] in H.
    destruct (map_res f l) as [ys | e] eqn:Hl; [| discriminate]. cbn [bindR] in H.
    apply Ret_inj in H. subst out. constructor; [exact Hx | apply IH; reflexivity].
Qed.

Lemma Forall2_in_l :
  forall (A B : Type) (R : A -> B -> Prop) l1 l2 x,
    Forall2 R l1 l2 -> In x l1 -> exists y, In y l2 /\ R x y.
Proof.
  intros A B R l1 l2 x H. induction H as [| a b l1 l2 Hab H IH]; [intros []|].
  intros [<- | Hin].
  - exists b. split; [left; reflexivity | exact Hab].
  - destruct (IH Hin) as [y [Hy Hr]]. exists y. split; [right; exact Hy | exact Hr].
Qed.

Lemma Forall2_in_r :
  forall (A B : Type) (R : A -> B -> Prop) l1 l2 y,
    Forall2 R l1 l2 -> In y l2 -> exists x, In x l1 /\ R x y.
Proof.
  intros A B R l1 l2 y H. induction H as [| a b l1 l2 Hab H IH]; [intros []|].
  intros [<- | Hin].
  - exists a. split; [left; reflexivity | exact Hab].
  - destruct (IH Hin) as [x [Hx Hr]]. exists x. split; [right; exact Hx | exact Hr].
Qed.

Lemma In_unique : forall v l, In v (unique l) -> In v l.
Proof.
  intros v l. induction l as [| a l IH]; cbn; [auto|].
  intros [-> | H]; [left; reflexivity|].
  apply filter_In in H. right. apply IH, H.
Qed.

Lemma val_eqb_text :
  forall v w, text_or_none v -> val_eqb w v = true -> w = v.
Proof.
  intros v w [-> | [s ->]] H; destruct w; cbn in H; try discriminate.
  - reflexivity.
  - apply String.eqb_eq in H. congruence.
Qed.

Lemma unique_In :
  forall v l, text_or_none v -> In v l -> In v (unique l).
Proof.
  intros v l Hv. induction l as [| a l IH]; cbn; [auto|].
  intros [-> | Hin]; [left; reflexivity|].
  destruct (val_eqb a v) eqn:Heq.
  - left. apply val_eqb_text; assumption.
  - right. apply filter_In. split; [apply IH, Hin|]. rewrite Heq. reflexivity.
Qed.

Lemma mem_val_text :
  forall v l, text_or_none v -> (mem_val v l = true <-> In v l).
Proof.
  intros v l Hv. unfold mem_val. rewrite existsb_exists. split.
  - intros [w [Hw Heq]]. rewrite val_eqb_sym in Heq.
    rewrite <- (val_eqb_text v w Hv Heq). exact Hw.
  - intro Hin. exists v. split; [exact Hin|].
    destruct Hv as [-> | [s ->]]; cbn; [reflexivity | apply String.eqb_refl].
Qed.

Lemma In_query_in :
  forall db t c values row,
    In row (query_in db t c values) <->
    In row (db t) /\ is_none (field row c) = false
    /\ mem_val (field row c) values = true.
Proof.
  intros. unfold query_in. rewrite filter_In, andb_true_iff, negb_true_iff. tauto.
Qed.

Lemma idmap_get_found :
  forall (rows : list Row) k,
    (exists row, In row rows /\ val_eqb (field row "name") k = true) ->
    exists row, In row rows /\ val_eqb (field row "name") k = true
                /\ idmap_get (map (fun r => (field r "name", field r "id")) rows) k
                   = Ret (field row "id").
Proof.
  induction rows as [| r rows IH]; intros k [row [Hin Heq]]; [contradiction|].
  cbn. destruct (val_eqb (field r "name") k) eqn:Hr.
  - exists r. split; [left; reflexivity|]. split; [exact Hr | reflexivity].
  - destruct Hin as [-> | Hin]; [congruence|].
    destruct (IH k (ex_intro _ row (conj Hin Heq))) as [row' [Hin' [Heq' Hget]]].
    exists row'. split; [right; exact Hin'|]. split; assumption.
Qed.

Lemma idmap_get_app :
  forall m extra k id, idmap_get m k = Ret id -> idmap_get (m ++ extra)%list k = Ret id.
Proof.
  induction m as [| [k' v] m IH]; intros extra k id H; cbn in *; [discriminate|].
  destruct (val_eqb k' k); [exact H | apply IH, H].
Qed.

Lemma Table_eqb_refl : forall t, Table_eqb t t = true.
Proof. destruct t; reflexivity. Qed.

Lemma Table_eqb_eq : forall t t', Table_eqb t t' = true -> t = t'.
Proof. destruct t, t'; cbn; intro H; try discriminate; reflexivity. Qed.

Lemma store_add_same :
  forall db t rows, store_add db t rows t = (db t ++ rows)%list.
Proof. intros. unfold store_add. rewrite Table_eqb_refl. reflexivity. Qed.

Lemma store_add_other :
  forall db t rows t', t <> t' -> store_add db t rows t' = db t'.
Proof.
  intros db t rows t' Hne. unfold store_add.
  destruct (Table_eqb t t') eqn:H; [apply Table_eqb_eq in H; contradiction | reflexivity].
Qed.

Lemma store_add_extends : forall db t rows, extends db (store_add db t rows).
Proof.
  intros db t rows t'. unfold store_add.
  destruct (Table_eqb t t'); [exists rows | exists []]; [reflexivity|].
  rewrite app_nil_r. reflexivity.
Qed.

Lemma extends_refl : forall s, extends s s.
Proof. intros s t. exists []. rewrite app_nil_r. reflexivity. Qed.

Lemma extends_trans : forall s1 s2 s3, extends s1 s2 -> extends s2 s3 -> extends s1 s3.
Proof.
  intros s1 s2 s3 H12 H23 t. destruct (H12 t) as [e1 H1], (H23 t) as [e2 H2].
  exists (e1 ++ e2)%list. rewrite H2, H1, app_assoc. reflexivity.
Qed.

Lemma extends_In :
  forall s1 s2 t row, extends s1 s2 -> In row (s1 t) -> In row (s2 t).
Proof.
  intros s1 s2 t row H Hin. destruct (H t) as [extra ->].
  apply in_or_app. left. exact Hin.
Qed.

Lemma same_rows_extends : forall s1 s2, same_rows s1 s2 -> extends s1 s2.
Proof. intros s1 s2 H t. exists []. rewrite app_nil_r. symmetry. apply H. Qed.

Lemma bind_param_text : forall v, text_or_none v -> bind_param v = v.
Proof. intros v [-> | [s ->]]; reflexivity. Qed.

Lemma map_bind_param_text :
  forall l, Forall text_or_none l -> map bind_param l = l.
Proof.
  intros l H. induction H as [| v l Hv H IH]; cbn; [reflexivity|].
  rewrite (bind_param_text v Hv), IH. reflexivity.
Qed.

Lemma In_column_values :
  forall rows c v, In v (column_values rows c) <-> exists row, In row rows /\ field row c = v.
Proof.
  intros rows c v. unfold column_values. rewrite in_map_iff.
  split; intros [row H]; exists row; tauto.
Qed.

(** What a call that returned has done. *)
Lemma process_sub_entities_success :
  forall cls entities column w m w',
    is_lookup_class cls ->
    process_sub_entities cls entities column w = (Ret m, w') ->
    exists cleaned new_rows,
      has_column entities column = true
      /\ map_res (fun v => clean_text v false) (column_values entities column) = Ret cleaned
      /\ Forall (fun n => exists s, n = VStr s) cleaned
      /\ w' = with_store w (store_add (store w) (tablename cls) new_rows)
      /\ m = map (fun r => (field r "name", field r "id"))
                 (query_in (store w') (tablename cls) "name" (unique cleaned))
      /\ (forall n, In n (column_values new_rows "name") -> In n cleaned)
      /\ fresh_values (column_values new_rows "name")
                      (column_values (store w (tablename cls)) "name")
      /\ (forall n, In n cleaned ->
                    exists row, In row (store w' (tablename cls)) /\ field row "name" = n).
Proof.
  intros cls entities column w m w' Hcls Hrun.
  destruct (lookup_class_facts cls Hcls) as [Hname [Hcol [Huniq Hget]]].
  rewrite process_sub_entities_unfold in Hrun.
  destruct (has_column entities column) eqn:Hcolumn; [| discriminate].
  destruct (map_res _ _) as [cleaned | e] eqn:Hclean; [| discriminate].
  cbv zeta in Hrun.
  set (values := unique cleaned) in *.
  set (new_names := filter _ values) in *.
  destruct (insert_rows _ _ _) as [new_rows | e] eqn:Hins; [| discriminate].
  injection Hrun as Hm Hw. subst m. symmetry in Hw.
  assert (Htext : Forall text_or_none cleaned).
  { apply Forall_forall. intros n Hn.
    destruct (Forall2_in_r _ _ _ _ _ n (map_res_spec _ _ _ _ _ Hclean) Hn) as [v [_ Hv]].
    exact (clean_text_result _ _ Hv). }
  assert (Hnew_in : forall n, In n new_names -> In n cleaned).
  { intros n Hn. apply filter_In in Hn. apply In_unique, Hn. }
  assert (Hnew_text : Forall text_or_none new_names).
  { apply Forall_forall. intros n Hn. rewrite Forall_forall in Htext.
    apply Htext, Hnew_in, Hn. }
  assert (Hnames : column_values new_rows "name" = new_names).
  { rewrite (insert_rows_fields cls "name" Hname (fun H => ltac:(discriminate H))
               _ _ _ Hins).
    rewrite map_map.
    rewrite (map_ext _ bind_param) by (intro n; rewrite Hget; reflexivity).
    apply map_bind_param_text, Hnew_text. }
  assert (Hnn : Forall (fun v => is_none v = false) (column_values new_rows "name")).
  { exact (insert_rows_not_null cls "name" Hcol _ _ _ Hins). }
  assert (Hquery_nn : forall db, ~ In VNone
            (column_values (query_in db (tablename cls) "name" values) "name")).
  { intros db Hin. apply In_column_values in Hin. destruct Hin as [row [Hrow Hf]].
    apply In_query_in in Hrow. destruct Hrow as [_ [Hnone _]].
    rewrite Hf in Hnone. discriminate. }
  assert (Hstr : Forall (fun n => exists s, n = VStr s) cleaned).
  { apply Forall_forall. intros n Hn. rewrite Forall_forall in Htext.
    destruct (Htext n Hn) as [-> | Hs]; [| exact Hs].
    exfalso. rewrite Forall_forall in Hnn.
    assert (Hnone : is_none VNone = false).
    { apply Hnn. rewrite Hnames. apply filter_In. split.
      - apply unique_In; [left; reflexivity | exact Hn].
      - apply negb_true_iff. destruct (mem_val VNone _) eqn:Hmem; [| reflexivity].
        apply mem_val_text in Hmem; [| left; reflexivity].
        exfalso. exact (Hquery_nn _ Hmem). }
    discriminate Hnone. }
  exists cleaned, new_rows.
  split; [reflexivity|].
  split; [reflexivity|]. split; [exact Hstr|]. split; [exact Hw|].
  split; [subst w'; reflexivity|].
  split; [intros n Hn; apply Hnew_in; rewrite <- Hnames; exact Hn|].
  split.
  { apply (insert_rows_fresh cls "name" Huniq _ _ _ Hins Hnn). }
  intros n Hn. subst w'. cbn [store with_store]. rewrite store_add_same.
  rewrite Forall_forall in Htext.
  destruct (mem_val n (column_values
              (query_in (store w) (tablename cls) "name" values) "name")) eqn:Hmem.
  - apply mem_val_text in Hmem; [| apply Htext, Hn].
    apply In_column_values in Hmem. destruct Hmem as [row [Hrow Hf]].
    apply In_query_in in Hrow. exists row. split; [| exact Hf].
    apply in_or_app. left. tauto.
  - assert (Hin : In n (column_values new_rows "name")).
    { rewrite Hnames. apply filter_In. split.
      - apply unique_In; [apply Htext, Hn | exact Hn].
      - rewrite Hmem. reflexivity. }
    apply In_column_values in Hin. destruct Hin as [row [Hrow Hf]].
    exists row. split; [| exact Hf]. apply in_or_app. right. exact Hrow.
Qed.

Lemma filter_nil :
  forall (A : Type) (f : A -> bool) l,
    (forall x, In x l -> f x = false) -> filter f l = [].
Proof.
  intros A f. induction l as [| a l IH]; intro H; cbn; [reflexivity|].
  rewrite (H a (or_introl eq_refl)). apply IH. intros x Hx. apply H. right. exact Hx.
Qed.

Lemma query_in_app :
  forall db t c values extra,
    filter (fun r => negb (is_none (field r c)) && mem_val (field r c) values)
           (db t ++ extra)
    = (query_in db t c values
       ++ filter (fun r => negb (is_none (field r c)) && mem_val (field r c) values)
                 extra)%list.
Proof. intros. unfold query_in. apply filter_app. Qed.

(** Once a call has returned, the same call in any later state of the store
    inserts nothing and resolves every name as before. *)
Lemma process_sub_entities_rerun :
  forall cls entities column w m w',
    is_lookup_class cls ->
    process_sub_entities cls entities column w = (Ret m, w') ->
    forall w2,
      extends (store w') (store w2) ->
      exists m2,
        process_sub_entities cls entities column w2
        = (Ret m2, with_store w2 (store_add (store w2) (tablename cls) []))
        /\ forall k id, idmap_get m k = Ret id -> idmap_get m2 k = Ret id.
Proof.
  intros cls entities column w m w' Hcls Hrun w2 Hext.
  destruct (process_sub_entities_success _ _ _ _ _ _ Hcls Hrun)
    as [cleaned [new_rows [Hcolumn [Hclean [Hstr [Hw [Hm [_ [_ Hrows]]]]]]]]].
  rewrite process_sub_entities_unfold, Hcolumn, Hclean. cbv zeta.
  rewrite filter_nil.
  2:{ intros n Hn. apply negb_false_iff.
      assert (Hin : In n cleaned) by (apply In_unique, Hn).
      rewrite Forall_forall in Hstr. destruct (Hstr n Hin) as [s ->].
      destruct (Hrows _ Hin) as [row [Hrow Hf]].
      apply mem_val_text; [right; eexists; reflexivity|].
      apply In_column_values. exists row. split; [| exact Hf].
      apply In_query_in. split; [exact (extends_In _ _ _ _ Hext Hrow)|].
      rewrite Hf. split; [reflexivity|].
      apply mem_val_text; [right; eexists; reflexivity | exact Hn]. }
  cbn [map insert_rows].
  eexists. split; [reflexivity|].
  intros k id Hget. subst m.
  cbn [store with_store]. unfold query_in at 1. rewrite store_add_same, app_nil_r.
  destruct (Hext (tablename cls)) as [extra ->].
  rewrite query_in_app, map_app. apply idmap_get_app. exact Hget.
Qed.

(** C2: a call of [process_sub_entities] that returns has appended to the
    lookup table only rows whose names are normalized values of the batch,
    pairwise different and different from every name the table held; so a
    table without duplicate names stays without duplicates, and every raw
    value of the column (whatever its case or surrounding white space)
    resolves through the returned map to the id of a row carrying its
    normalized name.  Calling it again with the same batch returns the same
    map and inserts nothing. *)
Theorem process_sub_entities_no_duplicates :
  forall (cls : ModelClass) (entities : list Row) (column : string)
         (w w' : World) (m : IdMap),
    is_lookup_class cls ->
    process_sub_entities cls entities column w = (Ret m, w') ->
    (exists new_rows,
        store w' = store_add (store w) (tablename cls) new_rows
        /\ NoDup (column_values new_rows "name")
        /\ forall n, In n (column_values new_rows "name") ->
             ~ In n (column_values (store w (tablename cls)) "name")
             /\ exists raw, In raw (column_values entities column)
                            /\ clean_text raw false = Ret n)
    /\ (NoDup (column_values (store w (tablename cls)) "name") ->
        NoDup (column_values (store w' (tablename cls)) "name"))
    /\ (forall raw, In raw (column_values entities column) ->
          exists s id row,
            clean_text raw false = Ret (VStr s)
            /\ idmap_get m (VStr s) = Ret id
            /\ In row (store w' (tablename cls))
            /\ field row "name" = VStr s /\ field row "id" = id)
    /\ (exists w2,
          process_sub_entities cls entities column w' = (Ret m, w2)
          /\ same_rows (store w2) (store w')).
Proof.
  intros cls entities column w w' m Hcls Hrun.
  destruct (process_sub_entities_success _ _ _ _ _ _ Hcls Hrun)
    as [cleaned [new_rows [Hcolumn [Hclean [Hstr [Hw [Hm [Hnew [Hfresh Hrows]]]]]]]]].
  pose proof (map_res_spec _ _ _ _ _ Hclean) as Hall.
  assert (Hnew_na : Forall (fun v => isna v = false) (column_values new_rows "name")).
  { apply Forall_forall. intros n Hn. rewrite Forall_forall in Hstr.
    destruct (Hstr n (Hnew n Hn)) as [s ->]. reflexivity. }
  destruct (fresh_values_NoDup _ _ Hfresh Hnew_na) as [Hnd Hdisj].
  split; [| split; [| split]].
  - exists new_rows. split; [subst w'; reflexivity|]. split; [exact Hnd|].
    intros n Hn. split; [apply Hdisj, Hn|].
    destruct (Forall2_in_r _ _ _ _ _ n Hall (Hnew n Hn)) as [raw [Hraw Hc]].
    exists raw. split; assumption.
  - intro Hold. subst w'. cbn [store with_store].
    rewrite store_add_same, column_values_app.
    apply NoDup_app; [exact Hold | exact Hnd |].
    intros n Hin Hin'. exact (Hdisj n Hin' Hin).
  - intros raw Hraw.
    destruct (Forall2_in_l _ _ _ _ _ raw Hall Hraw) as [n [Hn Hc]].
    rewrite Forall_forall in Hstr. destruct (Hstr n Hn) as [s ->].
    destruct (Hrows _ Hn) as [row [Hrow Hf]].
    destruct (idmap_get_found
                (query_in (store w') (tablename cls) "name" (unique cleaned)) (VStr s))
      as [row' [Hrow' [Heq Hget]]].
    { exists row. split.
      - apply In_query_in. split; [exact Hrow|]. rewrite Hf. split; [reflexivity|].
        apply mem_val_text; [right; eexists; reflexivity|].
        apply unique_In; [right; eexists; reflexivity | exact Hn].
      - rewrite Hf. cbn. apply String.eqb_refl. }
    exists s, (field row' "id"), row'.
    split; [exact Hc|]. split; [rewrite Hm; exact Hget|].
    apply In_query_in in Hrow'. split; [tauto|]. split; [| reflexivity].
    apply val_eqb_text; [right; eexists; reflexivity | exact Heq].
  - destruct (process_sub_entities_rerun _ _ _ _ _ _ Hcls Hrun w' (extends_refl _))
      as [m2 [Hrun2 _]].
    exists (with_store w' (store_add (store w') (tablename cls) [])).
    split.
    + rewrite Hrun2. f_equal. f_equal.
      rewrite process_sub_entities_unfold, Hcolumn, Hclean in Hrun2. cbv zeta in Hrun2.
      destruct (insert_rows _ _ _) as [rows2 | e]; [| discriminate].
      injection Hrun2 as Hm2 Hw2. subst m2. rewrite Hm.
      f_equal. unfold query_in. cbn [store with_store].
      rewrite store_add_same.
      assert (Hrows2 : rows2 = []).
      { apply (f_equal (fun s => s (tablename cls))) in Hw2.
        rewrite !store_add_same in Hw2. apply app_inv_head in Hw2. exact Hw2. }
      rewrite Hrows2, app_nil_r. reflexivity.
    + intro t. cbn [store with_store]. unfold store_add.
      destruct (Table_eqb (tablename cls) t); [apply app_nil_r | reflexivity].
Qed.

(** "Technology" and " technology " in one batch: one row named
    TECHNOLOGY, one id for both spellings. *)
Lemma process_sub_entities_no_duplicates_witness :
  fst (process_sub_entities Industry.cls two_spellings "industry" empty_world)
  = Ret [(VStr "TECHNOLOGY", VInt 1)]
  /\ store (snd (process_sub_entities Industry.cls two_spellings "industry" empty_world))
       industries
     = [[("id", VInt 1); ("name", VStr "TECHNOLOGY")]]
  /\ exists w2,
       process_sub_entities Industry.cls two_spellings "industry"
         (snd (process_sub_entities Industry.cls two_spellings "industry" empty_world))
       = (Ret [(VStr "TECHNOLOGY", VInt 1)], w2)
       /\ same_rows (store w2)
            (store (snd (process_sub_entities Industry.cls two_spellings "industry"
                           empty_world))).
Proof.
  split; [reflexivity|]. split; [reflexivity|].
  apply (process_sub_entities_no_duplicates Industry.cls two_spellings "industry"
           empty_world).
  - left. reflexivity.
  - reflexivity.
Defined.

(** ** etl/pipeline.py: what a step may change *)

Lemma log_grows_refl : forall l, log_grows l l.
Proof.
  intro l. split; [reflexivity|]. intro key. exists []. rewrite app_nil_r. reflexivity.
Qed.

Lemma log_grows_trans :
  forall l1 l2 l3, log_grows l1 l2 -> log_grows l2 l3 -> log_grows l1 l3.
Proof.
  intros l1 l2 l3 [Hk12 Hg12] [Hk23 Hg23]. split; [congruence|].
  intro key. destruct (Hg12 key) as [m1 H1], (Hg23 key) as [m2 H2].
  exists (m1 ++ m2)%list. rewrite H2, H1, app_assoc. reflexivity.
Qed.

Lemma log_append_keys :
  forall l key e, map fst (log_append l key e) = map fst l.
Proof.
  intros l key e. induction l as [| [k es] l IH]; cbn; [reflexivity|].
  destruct (String.eqb k key); cbn; [reflexivity | rewrite IH; reflexivity].
Qed.

Lemma log_append_grows : forall l key e, log_grows l (log_append l key e).
Proof.
  intros l key e. split; [apply log_append_keys|].
  intro k. unfold log_get. induction l as [| [k0 es] l IH]; cbn.
  - exists []. reflexivity.
  - destruct (String.eqb_spec k0 key) as [-> | Hne]; cbn.
    + destruct (String.eqb key k); [exists [e] | exists []]; cbn;
        [reflexivity | rewrite app_nil_r; reflexivity].
    + destruct (String.eqb k0 k); [exists []; cbn; rewrite app_nil_r; reflexivity|].
      exact IH.
Qed.

Lemma evolves_refl : forall w, evolves w w.
Proof.
  intro w. repeat split; try reflexivity.
  - apply extends_refl.
  - intro key. exists []. rewrite app_nil_r. reflexivity.
  - exists []. rewrite app_nil_r. reflexivity.
Qed.

Lemma evolves_trans : forall w1 w2 w3, evolves w1 w2 -> evolves w2 w3 -> evolves w1 w3.
Proof.
  intros w1 w2 w3 [Hs12 [Hc12 [Hf12 [Hl12 [m12 Hw12]]]]]
         [Hs23 [Hc23 [Hf23 [Hl23 [m23 Hw23]]]]].
  split; [exact (extends_trans _ _ _ Hs12 Hs23)|].
  split; [congruence|]. split; [congruence|].
  split; [exact (log_grows_trans _ _ _ Hl12 Hl23)|].
  exists (m12 ++ m23)%list. rewrite Hw23, Hw12, app_assoc. reflexivity.
Qed.

Lemma frame_ret : forall (A : Type) (a : A), frame_ok (ret a).
Proof. intros A a w r w' H. injection H as _ <-. apply evolves_refl. Qed.

Lemma frame_lift : forall (A : Type) (r : PyRes A), frame_ok (lift r).
Proof. intros A r0 w r w' H. injection H as _ <-. apply evolves_refl. Qed.

Lemma frame_get_world : frame_ok get_world.
Proof. intros w r w' H. injection H as _ <-. apply evolves_refl. Qed.

Lemma frame_bind :
  forall (A B : Type) (m : M A) (k : A -> M B),
    frame_ok m -> (forall a, frame_ok (k a)) -> frame_ok (bind m k).
Proof.
  intros A B m k Hm Hk w r w' H. unfold bind in H.
  destruct (m w) as [[a | e] w1] eqn:Hmw.
  - eapply evolves_trans; [exact (Hm _ _ _ Hmw) | exact (Hk a _ _ _ H)].
  - injection H as _ <-. exact (Hm _ _ _ Hmw).
Qed.

Lemma frame_for_each :
  forall (A : Type) (l : list A) (body : A -> M unit),
    (forall x, frame_ok (body x)) -> frame_ok (for_each l body).
Proof.
  intros A l body Hbody. induction l as [| x l IH]; cbn [for_each].
  - apply frame_ret.
  - apply frame_bind; [apply Hbody | intros _; exact IH].
Qed.

Lemma frame_fold_m :
  forall (A B : Type) (f : B -> A -> M B) (l : list A) (acc : B),
    (forall b a, frame_ok (f b a)) -> frame_ok (fold_m f l acc).
Proof.
  intros A B f l. induction l as [| x l IH]; intros acc Hf; cbn [fold_m].
  - apply frame_ret.
  - apply frame_bind; [apply Hf | intros b; apply IH, Hf].
Qed.

Lemma frame_record_error : forall key e, frame_ok (record_error key e).
Proof.
  intros key e w r w' H. unfold record_error in H.
  destruct (mem_str key _); injection H as _ <-; [| apply evolves_refl].
  split; [apply extends_refl|]. split; [reflexivity|]. split; [reflexivity|].
  split; [apply log_append_grows|]. exists []. cbn. rewrite app_nil_r. reflexivity.
Qed.

Lemma frame_bulk_save_objects : forall cls objs, frame_ok (bulk_save_objects cls objs).
Proof.
  intros cls objs w r w' H. unfold bulk_save_objects in H.
  destruct (insert_rows _ _ _); injection H as _ <-; [| apply evolves_refl].
  split; [apply store_add_extends|]. split; [reflexivity|]. split; [reflexivity|].
  split; [apply log_grows_refl|]. exists []. cbn. rewrite app_nil_r. reflexivity.
Qed.

Lemma frame_log_errors : forall self, frame_ok (log_errors self).
Proof.
  intros self w r w' H. unfold log_errors in H.
  destruct (negb _); injection H as _ <-; [| apply evolves_refl].
  split; [apply extends_refl|]. split; [reflexivity|]. split; [reflexivity|].
  split; [apply log_grows_refl|]. eexists. reflexivity.
Qed.

Lemma frame_process_sub_entities :
  forall cls entities column, frame_ok (process_sub_entities cls entities column).
Proof.
  intros cls entities column. unfold process_sub_entities.
  apply frame_bind.
  { unfold read_column. destruct (has_column _ _); [apply frame_ret | apply frame_lift]. }
  intros values. apply frame_bind; [apply frame_lift|].
  intros cleaned. apply frame_bind; [apply frame_get_world|].
  intros w0. apply frame_bind; [apply frame_bulk_save_objects|].
  intros _. apply frame_bind; [apply frame_get_world|].
  intros w1. apply frame_ret.
Qed.

Section LoaderFrames.
Variable E : Ext.

Lemma frame_stage_record :
    forall cls key prepare to_create data,
      frame_ok (stage_record E cls key prepare to_create data).
  Proof.
    intros cls key prepare to_create data. unfold stage_record.
    apply frame_bind; [apply frame_lift|].
    intros d. apply frame_bind; [apply frame_get_world|].
    intros w0. apply frame_bind; [apply frame_lift|].
    intros [is_valid obj']. destruct (negb is_valid); [| apply frame_ret].
    apply frame_bind; [apply frame_record_error | intros _; apply frame_ret].
  Qed.

Lemma frame_load_batch :
    forall cls key prepare batch, frame_ok (load_batch E cls key prepare batch).
  Proof.
    intros cls key prepare batch. unfold load_batch.
    apply frame_bind; [apply frame_lift|].
    intros entity_map. apply frame_bind; [apply frame_get_world|].
    intros w0. apply frame_bind.
    - apply frame_fold_m. intros b a. apply frame_stage_record.
    - intros to_create. apply frame_bulk_save_objects.
  Qed.

Lemma frame_process_companies : forall self, frame_ok (process_companies E self).
  Proof.
    intros self. unfold process_companies.
    apply frame_bind; [apply frame_get_world|]. intros w0.
    apply frame_for_each. intros chunk.
    apply frame_bind; [apply frame_process_sub_entities|].
    intros m. apply frame_load_batch.
  Qed.

Lemma frame_process_contacts : forall self, frame_ok (process_contacts E self).
  Proof.
    intros self. unfold process_contacts.
    apply frame_bind; [apply frame_get_world|]. intros w0.
    apply frame_bind; [apply frame_lift|]. intros df.
    apply frame_bind; [apply frame_process_sub_entities|].
    intros m. apply frame_load_batch.
  Qed.

Lemma frame_process_opportunities :
    forall self, frame_ok (process_opportunities E self).
  Proof.
    intros self. unfold process_opportunities.
    apply frame_bind; [apply frame_get_world|]. intros w0.
    apply frame_for_each. intros chunk.
    apply frame_bind; [apply frame_process_sub_entities|]. intros m1.
    apply frame_bind; [apply frame_process_sub_entities|]. intros m2.
    apply frame_bind; [apply frame_process_sub_entities|]. intros m3.
    apply frame_load_batch.
  Qed.

Lemma frame_process_activities : forall self, frame_ok (process_activities E self).
  Proof.
    intros self. unfold process_activities.
    apply frame_bind; [apply frame_get_world|]. intros w0. apply frame_load_batch.
  Qed.

Lemma frame_run : forall self, frame_ok (run E self).
  Proof.
    intros self. unfold run.
    apply frame_bind; [apply frame_process_companies|]. intros _.
    apply frame_bind; [apply frame_process_contacts|]. intros _.
    apply frame_bind; [apply frame_process_opportunities|]. intros _.
    apply frame_bind; [apply frame_process_activities|]. intros _.
    apply frame_bind; [apply frame_get_world|]. intros w0.
    destruct (any_errors _); [apply frame_log_errors | apply frame_ret].
  Qed.
End LoaderFrames.

(** ** etl/pipeline.py: the error log belongs to the class *)

Lemma run_end :
  forall E self w w2,
    run E self w = (Ret tt, w2) ->
    exists wm,
      w2 = (if any_errors (class_validation_errors wm)
            then with_written wm
                   (written wm ++ [{| directory := errors_path self; stamp := clock wm;
                                      content := class_validation_errors wm |}])%list
            else wm).
Proof.
  intros E self w w2 H. unfold run, bind in H.
  destruct (process_companies E self w) as [[[] | e] wa]; [| discriminate].
  destruct (process_contacts E self wa) as [[[] | e] wb]; [| discriminate].
  destruct (process_opportunities E self wb) as [[[] | e] wc]; [| discriminate].
  destruct (process_activities E self wc) as [[[] | e] wm]; [| discriminate].
  exists wm. unfold get_world in H.
  destruct (any_errors (class_validation_errors wm)) eqn:Hany.
  - unfold log_errors in H.
    destruct (class_validation_errors wm) as [| kv l] eqn:Hlog; [discriminate Hany|].
    cbn in H. injection H as <-. reflexivity.
  - unfold ret in H. injection H as <-. reflexivity.
Qed.

(** C9: the error log is an attribute of the class.  Building a pipeline
    object leaves the world, the log included, as it was; whatever a run does
    (return or raise), it only appends to the log; so after a run of one
    instance and a run of another, the log still holds, under every key,
    the entries of the first run, and the report the second run writes when
    it returns with a non-empty log is that whole log. *)
Theorem validation_errors_shared_between_runs :
  (forall (path dir : string) (w : World),
      Pipeline_init path dir w = (Ret {| data_path := path; errors_path := dir |}, w))
  /\ (forall (E : Ext) (first second : Pipeline) (w w1 w2 : World)
             (r1 r2 : PyRes unit),
         run E first w = (r1, w1) ->
         run E second w1 = (r2, w2) ->
         log_grows (class_validation_errors w) (class_validation_errors w1)
         /\ log_grows (class_validation_errors w1) (class_validation_errors w2)
         /\ (r2 = Ret tt ->
             any_errors (class_validation_errors w2) = true ->
             exists older,
               written w2 =
               (older ++ [{| directory := errors_path second; stamp := clock w2;
                             content := class_validation_errors w2 |}])%list)).
Proof.
  split; [reflexivity|].
  intros E first second w w1 w2 r1 r2 Hrun1 Hrun2.
  destruct (frame_run E first _ _ _ Hrun1) as [_ [_ [_ [Hlog1 _]]]].
  destruct (frame_run E second _ _ _ Hrun2) as [_ [_ [_ [Hlog2 _]]]].
  split; [exact Hlog1|]. split; [exact Hlog2|].
  intros -> Hany. destruct (run_end _ _ _ _ Hrun2) as [wm Hw2].
  destruct (any_errors (class_validation_errors wm)) eqn:Hany_m.
  - subst w2. exists (written wm). reflexivity.
  - subst w2. congruence.
Qed.

(** Two runs by two instances over the sample input: the report of the
    second holds the entry the first run logged. *)
Lemma validation_errors_shared_between_runs_witness :
  log_grows (class_validation_errors second_world)
            (class_validation_errors
               (snd (run sample_ext {| data_path := "data/salesforce/";
                                       errors_path := "other/" |} second_world)))
  /\ exists older,
       written (snd (run sample_ext {| data_path := "data/salesforce/";
                                       errors_path := "other/" |} second_world))
       = (older ++
          [{| directory := "other/";
              stamp := clock (snd (run sample_ext
                                     {| data_path := "data/salesforce/";
                                        errors_path := "other/" |} second_world));
              content := class_validation_errors
                           (snd (run sample_ext
                                   {| data_path := "data/salesforce/";
                                      errors_path := "other/" |} second_world)) |}])%list.
Proof.
  destruct (proj2 validation_errors_shared_between_runs sample_ext sample_pipeline
              {| data_path := "data/salesforce/"; errors_path := "other/" |}
              first_world second_world
              (snd (run sample_ext {| data_path := "data/salesforce/";
                                      errors_path := "other/" |} second_world))
              (fst (run sample_ext sample_pipeline first_world))
              (fst (run sample_ext {| data_path := "data/salesforce/";
                                      errors_path := "other/" |} second_world)))
    as [_ [Hgrows Hreport]].
  - apply surjective_pairing.
  - apply surjective_pairing.
  - split; [exact Hgrows|]. apply Hreport; vm_compute; reflexivity.
Defined.

(** ** etl/pipeline.py: a second run over the same input *)


(** *** The records of a batch, keyed by id *)

Lemma kv_set_keyed :
  forall m k r,
    Forall keyed m -> dict_get r "id" = Some k -> Forall keyed (kv_set m k r).
Proof.
  intros m k r Hm Hr. induction Hm as [| [k' r'] m Hkv Hm IH]; cbn.
  - constructor; [| constructor]. exists k. split; [exact Hr | left; reflexivity].
  - destruct (val_eqb k' k) eqn:Heq.
    + constructor; [| exact Hm]. exists k. split; [exact Hr | right; exact Heq].
    + constructor; [exact Hkv | exact IH].
Qed.

Lemma records_by_id_keyed :
  forall records acc emap,
    Forall keyed acc -> records_by_id acc records = Ret emap -> Forall keyed emap.
Proof.
  induction records as [| r rest IH]; intros acc emap Hacc H; cbn in H.
  - apply Ret_inj in H. subst emap. exact Hacc.
  - destruct (dict_get r "id") as [k |] eqn:Hk; [| discriminate].
    apply (IH _ _ (kv_set_keyed _ _ _ Hacc Hk) H).
Qed.

(** *** What [validate] leaves alone *)

Lemma validate_columns_keeps :
  forall cls cx c,
    validator_of cls c = None ->
    forall cols self self',
      validate_columns cls cx cols self = Ret self' ->
      getattr self' c = getattr self c.
Proof.
  intros cls cx c Hnone. induction cols as [| column rest IH]; intros self self' H.
  - cbn in H. apply Ret_inj in H. subst self'. reflexivity.
  - cbn [validate_columns] in H.
    destruct (validate_column cls cx self column) as [self1 | e] eqn:Hstep;
      [| discriminate].
    cbn [bindR] in H. rewrite (IH _ _ H).
    unfold validate_column in Hstep.
    destruct (check_column cls cx self column) as [[value |] | e] eqn:Hcheck.
    + cbn in Hstep. apply Ret_inj in Hstep. subst self1.
      apply getattr_setattr_other. intro Heq.
      unfold check_column in Hcheck. rewrite Heq, Hnone in Hcheck.
      destruct (getattr self c), (nullable column); discriminate.
    + cbn in Hstep. apply Ret_inj in Hstep. subst self1. reflexivity.
    + destruct e; cbn in Hstep; try discriminate.
      apply Ret_inj in Hstep. subst self1. reflexivity.
Qed.

Lemma field_filter_columns :
  forall (names : list string) (d : Row) c,
    mem_str c names = true ->
    field (filter (fun kv => mem_str (fst kv) names) d) c = field d c.
Proof.
  intros names d c Hc. unfold field. induction d as [| [k v] d IH]; cbn; [reflexivity|].
  destruct (mem_str k names) eqn:Hk; cbn.
  - destruct (String.eqb k c); [reflexivity | exact IH].
  - destruct (String.eqb_spec k c) as [-> | Hne]; [congruence | exact IH].
Qed.

Lemma entity_class_facts :
  forall cls,
    is_entity_class cls ->
    validator_of cls "id" = None
    /\ mem_str "id" (column_names cls) = true
    /\ In "id" (column_names cls)
    /\ In (col "id" false) (columns cls)
    /\ autoincrement cls = false.
Proof.
  intros cls [-> | [-> | [-> | ->]]]; cbn; repeat split; auto 10.
Qed.

(** The id of a validated object is the id of the record it was built
    from. *)
Lemma validated_id :
  forall cls cx d is_valid obj',
    is_entity_class cls ->
    validate cls cx (BaseModel_init cls d) = Ret (is_valid, obj') ->
    getattr obj' "id" = field d "id".
Proof.
  intros cls cx d is_valid obj' Hcls H.
  destruct (entity_class_facts cls Hcls) as [Hnone [Hmem _]].
  unfold validate in H.
  destruct (validate_columns cls cx (columns cls) (BaseModel_init cls d))
    as [self' | e] eqn:Hcols; [| discriminate].
  cbn [bindR] in H. apply Ret_inj in H. injection H as _ <-.
  rewrite (validate_columns_keeps cls cx "id" Hnone _ _ _ Hcols).
  unfold getattr, BaseModel_init. cbn [attrs].
  apply field_filter_columns, Hmem.
Qed.

(** *** A record rejected once is rejected in every later state *)

Lemma check_column_db_independent :
  forall cls cx cx' self c,
    db_independent cls -> ext cx = ext cx' -> now cx = now cx' ->
    check_column cls cx self c = check_column cls cx' self c.
Proof.
  intros cls cx cx' self c Hind Hext Hnow. unfold check_column.
  destruct (validator_of cls (col_name c)) as [f |] eqn:Hf; [| reflexivity].
  rewrite (Hind _ _ Hf cx cx' self _ _ Hext Hnow). reflexivity.
Qed.

Lemma validate_db_independent :
  forall cls cx cx' self,
    db_independent cls -> ext cx = ext cx' -> now cx = now cx' ->
    validate cls cx self = validate cls cx' self.
Proof.
  intros cls cx cx' self Hind Hext Hnow. unfold validate. f_equal.
  generalize self. induction (columns cls) as [| c rest IH]; intro self0; cbn;
    [reflexivity|].
  unfold validate_column.
  rewrite (check_column_db_independent cls cx cx' self0 c Hind Hext Hnow).
  destruct (try_except_ValueError _ _) as [self1 | e]; cbn; [apply IH | reflexivity].
Qed.

Ltac solve_db_independent :=
  intros name f Hf [e n d] [e' n' d'] self key v Hext Hnow;
  cbn in Hext, Hnow; subst e' n';
  cbn [validator_of Company.cls Opportunity.cls Activity.cls] in Hf;
  repeat match type of Hf with
         | (if ?b then _ else _) = Some _ => destruct b
         end;
  try discriminate Hf; inversion Hf; subst f; reflexivity.

Lemma Company_db_independent : db_independent Company.cls.
Proof. solve_db_independent. Qed.

Lemma Opportunity_db_independent : db_independent Opportunity.cls.
Proof. solve_db_independent. Qed.

Lemma Activity_db_independent : db_independent Activity.cls.
Proof. solve_db_independent. Qed.

Lemma dict_get_set_same :
  forall d k v, dict_get (dict_set d k v) k = Some v.
Proof.
  intros d k v. induction d as [| [k0 v0] d IH]; cbn.
  - rewrite String.eqb_refl. reflexivity.
  - destruct (String.eqb_spec k0 k) as [-> | Hne]; cbn.
    + rewrite String.eqb_refl. reflexivity.
    + destruct (String.eqb_spec k0 k); [contradiction | exact IH].
Qed.

Lemma getattr_setattr_same :
  forall self c v, getattr (setattr self c v) c = v.
Proof.
  intros. unfold getattr, setattr, field. cbn. rewrite dict_get_set_same. reflexivity.
Qed.

Lemma contact_validators_other :
  forall name f,
    validator_of Contact.cls name = Some f -> name <> "email" ->
    forall cx cx' self self' key v,
      ext cx' = ext cx -> now cx' = now cx ->
      getattr self "created_date" = getattr self' "created_date" ->
      f cx self key v = f cx' self' key v.
Proof.
  intros name f Hf Hne [e n d] [e' n' d'] self self' key v Hext Hnow Hcd.
  cbn in Hext, Hnow. subst e' n'.
  cbn [validator_of Contact.cls] in Hf.
  destruct (String.eqb_spec name "email"); [contradiction|].
  repeat match type of Hf with
         | (if ?b then _ else _) = Some _ => destruct b
         end;
    try discriminate Hf; inversion Hf; subst f; try reflexivity.
  unfold Contact.validate_last_modified. rewrite Hcd. reflexivity.
Qed.

Lemma contact_inv_setattr :
  forall b self self' c v,
    contact_inv b self self' -> contact_inv b (setattr self c v) (setattr self' c v).
Proof.
  intros b self self' c v [Hattrs Herr]. split; [| exact Herr].
  intros n Hn. destruct (String.eqb_spec c n) as [<- | Hne].
  - rewrite !getattr_setattr_same. reflexivity.
  - rewrite !getattr_setattr_other by exact Hne. apply Hattrs, Hn.
Qed.

Lemma contact_inv_append_error :
  forall b self self' m m',
    contact_inv b self self' -> contact_inv b (append_error self m) (append_error self' m').
Proof.
  intros b self self' m m' [Hattrs _]. split; [exact Hattrs|].
  intros _. cbn. destruct (validation_errors self'); discriminate.
Qed.

Lemma contact_step_other :
  forall cx cx' b self self' c o,
    ctx_later cx cx' -> col_name c <> "email" ->
    contact_inv b self self' ->
    validate_column Contact.cls cx self c = Ret o ->
    exists o', validate_column Contact.cls cx' self' c = Ret o' /\ contact_inv b o o'.
Proof.
  intros cx cx' b self self' c o [Hext [Hnow _]] Hne Hinv Hstep.
  assert (Hcheck : check_column Contact.cls cx' self' c = check_column Contact.cls cx self c).
  { unfold check_column. destruct Hinv as [Hattrs _].
    rewrite <- (Hattrs (col_name c) (or_intror Hne)).
    destruct (validator_of Contact.cls (col_name c)) as [f |] eqn:Hf; [| reflexivity].
    rewrite (contact_validators_other _ _ Hf Hne cx cx' self self' _ _ Hext Hnow);
      [reflexivity|].
    apply Hattrs. right. discriminate. }
  unfold validate_column in *. rewrite Hcheck.
  destruct (check_column Contact.cls cx self c) as [[value |] | e]; cbn in *.
  - apply Ret_inj in Hstep. subst o. eexists. split; [reflexivity|].
    apply contact_inv_setattr, Hinv.
  - apply Ret_inj in Hstep. subst o. eexists. split; [reflexivity | exact Hinv].
  - destruct e; try discriminate. apply Ret_inj in Hstep. subst o.
    eexists. split; [reflexivity|]. apply contact_inv_append_error, Hinv.
Qed.

Lemma contact_inv_email_done :
  forall self self' v m,
    contact_inv true self self' ->
    contact_inv false (setattr self "email" v) (append_error self' m).
Proof.
  intros self self' v m [Hattrs _]. split.
  - intros c [Hc | Hc]; [discriminate|].
    rewrite getattr_setattr_other by (intro H; apply Hc; symmetry; exact H).
    apply Hattrs. left. reflexivity.
  - intros _. cbn. destruct (validation_errors self'); discriminate.
Qed.

Lemma contact_inv_weaken :
  forall self self', contact_inv true self self' -> contact_inv false self self'.
Proof.
  intros self self' [Hattrs Herr]. split; [| exact Herr].
  intros c _. apply Hattrs. left. reflexivity.
Qed.

Lemma contact_step_email :
  forall cx cx' self self' o,
    ctx_later cx cx' ->
    contact_inv true self self' ->
    validate_column Contact.cls cx self (col "email" false) = Ret o ->
    exists o', validate_column Contact.cls cx' self' (col "email" false) = Ret o'
               /\ contact_inv false o o'.
Proof.
  intros cx cx' self self' o [Hext [Hnow Hfound]] Hinv Hstep.
  assert (Hvalue : getattr self' "email" = getattr self "email").
  { symmetry. apply Hinv. left. reflexivity. }
  unfold validate_column, check_column in *. cbn [col_name nullable col] in *.
  rewrite Hvalue.
  destruct (getattr self "email") as [| x | x | x | s | x ax];
    cbn [validator_of Contact.cls String.eqb Ascii.eqb Bool.eqb] in *;
    try (cbn in Hstep; discriminate Hstep).
  - cbn in *. apply Ret_inj in Hstep. subst o. eexists. split; [reflexivity|].
    apply contact_inv_weaken, contact_inv_append_error, Hinv.
  - unfold Contact.validate_email in *. cbn [as_str bindR] in *.
    rewrite Hext.
    destruct (negb (validators_email (ext cx) (strip s))).
    + cbn in *. apply Ret_inj in Hstep. subst o. eexists. split; [reflexivity|].
      apply contact_inv_weaken, contact_inv_append_error, Hinv.
    + specialize (Hfound (strip s)).
      destruct (Contact.contact_found cx (strip s)).
      * rewrite (Hfound eq_refl). cbn in *. apply Ret_inj in Hstep. subst o.
        eexists. split; [reflexivity|].
        apply contact_inv_weaken, contact_inv_append_error, Hinv.
      * cbn in Hstep. apply Ret_inj in Hstep. subst o.
        destruct (Contact.contact_found cx' (strip s)); cbn.
        -- eexists. split; [reflexivity|]. apply contact_inv_email_done, Hinv.
        -- eexists. split; [reflexivity|].
           apply contact_inv_weaken, contact_inv_setattr, Hinv.
Qed.

Lemma validate_columns_app :
  forall cls cx cols1 cols2 self,
    validate_columns cls cx (cols1 ++ cols2) self =
    (self1 <- validate_columns cls cx cols1 self ;; validate_columns cls cx cols2 self1).
Proof.
  intros cls cx. induction cols1 as [| c rest IH]; intros cols2 self; cbn; [reflexivity|].
  destruct (validate_column cls cx self c) as [self1 | e]; cbn; [apply IH | reflexivity].
Qed.

Lemma contact_steps_other :
  forall cx cx' b,
    ctx_later cx cx' ->
    forall cols,
      Forall (fun c => col_name c <> "email") cols ->
      forall self self' o,
        contact_inv b self self' ->
        validate_columns Contact.cls cx cols self = Ret o ->
        exists o', validate_columns Contact.cls cx' cols self' = Ret o'
                   /\ contact_inv b o o'.
Proof.
  intros cx cx' b Hlater cols Hcols.
  induction Hcols as [| c rest Hc Hrest IH]; intros self self' o Hinv Hrun.
  - cbn in *. apply Ret_inj in Hrun. subst o. exists self'. split; [reflexivity | exact Hinv].
  - cbn [validate_columns] in *.
    destruct (validate_column Contact.cls cx self c) as [self1 | e] eqn:Hstep;
      [| discriminate].
    cbn [bindR] in Hrun.
    destruct (contact_step_other _ _ _ _ _ _ _ Hlater Hc Hinv Hstep)
      as [self1' [Hstep' Hinv1]].
    rewrite Hstep'. cbn [bindR]. exact (IH _ _ _ Hinv1 Hrun).
Qed.

Lemma contact_columns_split :
  columns Contact.cls =
  ([col "id" false; col "status_id" false; col "company_id" false]
   ++ [col "email" false]
   ++ [col "first_name" false; col "last_name" false; col "title" false;
       col "phone" true; col "created_date" false; col "last_modified" false])%list.
Proof. reflexivity. Qed.

Lemma contact_rejected_later :
  forall cx cx' obj o,
    ctx_later cx cx' ->
    validate Contact.cls cx obj = Ret (false, o) ->
    exists o', validate Contact.cls cx' obj = Ret (false, o').
Proof.
  intros cx cx' obj o Hlater H. unfold validate in *.
  destruct (validate_columns Contact.cls cx (columns Contact.cls) obj)
    as [self_end | e] eqn:Hrun; [| discriminate].
  cbn [bindR] in H. apply Ret_inj in H. injection H as Hnil <-.
  rewrite contact_columns_split in *. rewrite validate_columns_app in Hrun.
  destruct (validate_columns Contact.cls cx _ obj) as [self1 | e] eqn:H1;
    cbn [bindR] in Hrun; [| discriminate].
  rewrite validate_columns_app in Hrun.
  destruct (validate_columns Contact.cls cx [col "email" false] self1)
    as [self2 | e] eqn:H2; cbn [bindR] in Hrun; [| discriminate].
  assert (Hinv0 : contact_inv true obj obj) by (split; auto).
  assert (Hbefore : Forall (fun c => col_name c <> "email")
                      [col "id" false; col "status_id" false; col "company_id" false])
    by (repeat constructor; cbn; discriminate).
  assert (Hafter : Forall (fun c => col_name c <> "email")
                     [col "first_name" false; col "last_name" false; col "title" false;
                      col "phone" true; col "created_date" false;
                      col "last_modified" false])
    by (repeat constructor; cbn; discriminate).
  destruct (contact_steps_other cx cx' true Hlater _ Hbefore _ _ _ Hinv0 H1)
    as [self1' [H1' Hinv1]].
  assert (Hemail : exists self2',
             validate_columns Contact.cls cx' [col "email" false] self1' = Ret self2'
             /\ contact_inv false self2 self2').
  { cbn [validate_columns] in *.
    destruct (validate_column Contact.cls cx self1 (col "email" false))
      as [s2 | e] eqn:Hstep; [| discriminate].
    cbn [bindR] in H2. apply Ret_inj in H2. subst s2.
    destruct (contact_step_email _ _ _ _ _ Hlater Hinv1 Hstep) as [s2' [Hstep' Hinv2]].
    rewrite Hstep'. exists s2'. split; [reflexivity | exact Hinv2]. }
  destruct Hemail as [self2' [H2' Hinv2]].
  destruct (contact_steps_other cx cx' false Hlater _ Hafter _ _ _ Hinv2 Hrun)
    as [self_end' [H3' [_ Herr]]].
  rewrite validate_columns_app, H1'. cbn [bindR].
  rewrite validate_columns_app, H2'. cbn [bindR]. rewrite H3'. cbn [bindR].
  exists self_end'. f_equal. f_equal.
  destruct (validation_errors self_end) eqn:He; [discriminate Hnil|].
  destruct (validation_errors self_end'); [| reflexivity].
  exfalso. apply Herr; [discriminate | reflexivity].
Qed.

(** A record that an entity class rejected is rejected again when the store
    has grown. *)
Lemma rejected_later :
  forall cls cx cx' obj o,
    is_entity_class cls ->
    ctx_later cx cx' ->
    validate cls cx obj = Ret (false, o) ->
    exists o', validate cls cx' obj = Ret (false, o').
Proof.
  intros cls cx cx' obj o Hcls Hlater H.
  destruct Hlater as [Hext [Hnow Hfound]].
  destruct Hcls as [-> | [-> | [-> | ->]]].
  - exists o. rewrite <- H. symmetry.
    apply validate_db_independent; auto using Company_db_independent.
  - apply (contact_rejected_later cx cx' obj o); [| exact H]. repeat split; assumption.
  - exists o. rewrite <- H. symmetry.
    apply validate_db_independent; auto using Opportunity_db_independent.
  - exists o. rewrite <- H. symmetry.
    apply validate_db_independent; auto using Activity_db_independent.
Qed.

(** *** Running a batch again *)

Lemma existing_ids_later :
  forall s s2 t c ids k,
    extends s s2 ->
    mem_val k (column_values (query_in s t c ids) c) = true ->
    mem_val k (column_values (query_in s2 t c ids) c) = true.
Proof.
  intros s s2 t c ids k Hext H. unfold mem_val in *.
  apply existsb_exists in H. destruct H as [v [Hv Heq]].
  apply existsb_exists. exists v. split; [| exact Heq].
  apply In_column_values in Hv. destruct Hv as [row [Hrow Hf]].
  apply In_column_values. exists row. split; [| exact Hf].
  apply In_query_in in Hrow. apply In_query_in.
  split; [exact (extends_In _ _ _ _ Hext (proj1 Hrow)) | exact (proj2 Hrow)].
Qed.

Lemma isna_is_none : forall v, isna v = false -> is_none v = false.
Proof. intros [] H; cbn in *; congruence. Qed.

Lemma stored_id_is_existing :
  forall s2 t ids row k kd,
    In row (s2 t) -> field row "id" = kd -> isna kd = false ->
    In k ids -> (k = kd \/ val_eqb k kd = true) ->
    mem_val k (column_values (query_in s2 t "id" ids) "id") = true.
Proof.
  intros s2 t ids row k kd Hrow Hf Hna Hk Hkey.
  assert (Heq : val_eqb k kd = true).
  { destruct Hkey as [-> | H]; [apply val_eqb_refl, Hna | exact H]. }
  unfold mem_val. apply existsb_exists. exists kd. split; [| exact Heq].
  apply In_column_values. exists row. split; [| exact Hf].
  apply In_query_in. split; [exact Hrow|]. rewrite Hf.
  split; [apply isna_is_none, Hna|].
  unfold mem_val. apply existsb_exists. exists k. split; [exact Hk|].
  rewrite val_eqb_sym. exact Heq.
Qed.

Lemma bind_param_not_none :
  forall v, is_none (bind_param v) = false -> isna v = false /\ bind_param v = v.
Proof.
  intros v H. unfold bind_param in *. destruct (isna v); [discriminate H | auto].
Qed.

(** Entries of the log. *)

Lemma log_get_append_same :
  forall l key e,
    mem_str key (map fst l) = true ->
    log_get (log_append l key e) key = (log_get l key ++ [e])%list.
Proof.
  intros l key e. unfold log_get, mem_str.
  induction l as [| [k0 es] l IH]; cbn; [discriminate|].
  rewrite (String.eqb_sym key k0).
  destruct (String.eqb_spec k0 key) as [-> | Hne]; cbn.
  - intros _. rewrite String.eqb_refl. reflexivity.
  - intro H. destruct (String.eqb_spec k0 key); [contradiction|]. apply IH, H.
Qed.

Lemma log_get_append_other :
  forall l key key' e,
    key' <> key -> log_get (log_append l key e) key' = log_get l key'.
Proof.
  intros l key key' e Hne. unfold log_get.
  induction l as [| [k0 es] l IH]; cbn; [reflexivity|].
  destruct (String.eqb_spec k0 key) as [-> | Hk0]; cbn.
  - destruct (String.eqb_spec key key'); [congruence | reflexivity].
  - destruct (String.eqb k0 key'); [reflexivity | exact IH].
Qed.

Lemma appended_refl : forall l key, appended l l key [].
Proof. intros. unfold appended. rewrite app_nil_r. reflexivity. Qed.

Lemma appended_unique :
  forall l l' key a b, appended l l' key a -> appended l l' key b -> a = b.
Proof.
  intros l l' key a b Ha Hb. unfold appended in *. rewrite Ha in Hb.
  exact (app_inv_head _ _ _ Hb).
Qed.

Lemma appended_trans :
  forall l1 l2 l3 key a b,
    appended l1 l2 key a -> appended l2 l3 key b -> appended l1 l3 key (a ++ b).
Proof.
  intros l1 l2 l3 key a b Ha Hb. unfold appended in *.
  rewrite Hb, Ha, app_assoc. reflexivity.
Qed.

Lemma appended_same_log :
  forall l key more, appended l l key more -> more = [].
Proof.
  intros l key more H. exact (appended_unique _ _ _ _ _ H (appended_refl l key)).
Qed.

Lemma evolves_appended :
  forall w w' key,
    evolves w w' ->
    exists more, appended (class_validation_errors w) (class_validation_errors w') key more.
Proof. intros w w' key [_ [_ [_ [[_ H] _]]]]. exact (H key). Qed.

Section Rerun.
Variable E : Ext.

Lemma ctx_of_later :
    forall w w2,
      extends (store w) (store w2) -> clock w2 = clock w ->
      ctx_later (ctx_of E w) (ctx_of E w2).
  Proof.
    intros w w2 Hext Hclock. split; [reflexivity|]. split; [exact Hclock|].
    intros email. unfold Contact.contact_found, ctx_of. cbn [db].
    destruct (Hext contacts) as [extra ->].
    rewrite column_values_app, mem_val_app. intros ->. reflexivity.
  Qed.

Lemma stage_record_unfold :
    forall cls key P tc data w,
      stage_record E cls key P tc data w =
      match P data with
      | Raise e => (Raise e, w)
      | Ret d =>
          match validate cls (ctx_of E w) (BaseModel_init cls d) with
          | Raise e => (Raise e, w)
          | Ret (is_valid, obj') =>
              if is_valid then (Ret (tc ++ [obj'])%list, w)
              else if mem_str key (log_keys w) then
                     (Ret tc,
                      with_errors w
                        (log_append (class_validation_errors w) key
                           {| record := d; errors := validation_errors obj' |}))
                   else (Raise KeyError, w)
          end
      end.
  Proof.
    intros cls key P tc data w. unfold stage_record, bind, lift, get_world, ret.
    destruct (P data) as [d | e]; [| reflexivity].
    destruct (validate cls (ctx_of E w) (BaseModel_init cls d)) as [[is_valid obj'] | e];
      [| reflexivity].
    destruct is_valid; cbn [negb]; [reflexivity|].
    unfold record_error, log_keys. destruct (mem_str key _); reflexivity.
  Qed.

  (** The loop of a batch that went through: every record was prepared and
      validated in the state the loop started in; the valid ones are staged,
      the others are in the log. *)
Lemma fold_first_run :
    forall cls key P datas tc0 w tc w',
      fold_m (stage_record E cls key P) datas tc0 w = (Ret tc, w') ->
      store w' = store w /\ clock w' = clock w
      /\ exists added,
           tc = (tc0 ++ added)%list
           /\ forall data, In data datas ->
                exists d is_valid obj',
                  P data = Ret d
                  /\ validate cls (ctx_of E w) (BaseModel_init cls d)
                     = Ret (is_valid, obj')
                  /\ (is_valid = true -> In obj' added)
                  /\ (is_valid = false ->
                      mem_str key (log_keys w) = true
                      /\ forall more,
                           appended (class_validation_errors w)
                                    (class_validation_errors w') key more ->
                           exists e1, In e1 more /\ record e1 = d).
  Proof.
    intros cls key P. induction datas as [| data rest IH]; intros tc0 w tc w' H.
    - cbn in H. injection H as <- <-. split; [reflexivity|]. split; [reflexivity|].
      exists []. split; [rewrite app_nil_r; reflexivity | intros data []].
    - cbn [fold_m] in H. unfold bind in H.
      destruct (stage_record E cls key P tc0 data w) as [[tc1 | e] w1] eqn:Hstep;
        [| discriminate].
      rewrite stage_record_unfold in Hstep.
      destruct (P data) as [d | e] eqn:HP; [| discriminate].
      destruct (validate cls (ctx_of E w) (BaseModel_init cls d))
        as [[is_valid obj'] | e] eqn:Hval; [| discriminate].
      destruct (evolves_appended _ _ key
                  (frame_fold_m _ _ _ rest tc1
                     (fun b a => frame_stage_record E cls key P b a) _ _ _ H))
        as [after Hafter].
      assert (Hsame : store w1 = store w /\ clock w1 = clock w
                      /\ log_keys w1 = log_keys w
                      /\ exists here,
                           appended (class_validation_errors w)
                                    (class_validation_errors w1) key here
                           /\ (is_valid = false ->
                               exists e1, In e1 here /\ record e1 = d)).
      { destruct is_valid.
        - injection Hstep as _ <-. repeat split; try reflexivity.
          exists []. split; [apply appended_refl | discriminate].
        - destruct (mem_str key (log_keys w)) eqn:Hkey; [| discriminate].
          injection Hstep as _ <-. cbn. split; [reflexivity|]. split; [reflexivity|].
          split; [unfold log_keys; cbn; apply log_append_keys|].
          eexists. split; [apply log_get_append_same, Hkey|].
          intros _. eexists. split; [left; reflexivity | reflexivity]. }
      destruct Hsame as [Hstore [Hclock [Hkeys [here [Hhere Hentry]]]]].
      destruct (IH _ _ _ _ H) as [Hstore' [Hclock' [added [Htc Hall]]]].
      assert (Hctx : ctx_of E w1 = ctx_of E w).
      { unfold ctx_of. rewrite Hstore, Hclock. reflexivity. }
      assert (Hmore : forall more,
                appended (class_validation_errors w) (class_validation_errors w') key more ->
                more = (here ++ after)%list).
      { intros more Hm. exact (appended_unique _ _ _ _ _ Hm
                                 (appended_trans _ _ _ _ _ _ Hhere Hafter)). }
      assert (Htail : forall x, In x rest ->
                exists d0 v0 o0,
                  P x = Ret d0
                  /\ validate cls (ctx_of E w) (BaseModel_init cls d0) = Ret (v0, o0)
                  /\ (v0 = true -> In o0 added)
                  /\ (v0 = false ->
                      mem_str key (log_keys w) = true
                      /\ forall more,
                           appended (class_validation_errors w)
                                    (class_validation_errors w') key more ->
                           exists e1, In e1 more /\ record e1 = d0)).
      { intros x Hx.
        destruct (Hall x Hx) as [d0 [v0 [o0 [HP0 [Hval0 [Hin0 Hkey0]]]]]].
        exists d0, v0, o0. split; [exact HP0|].
        split; [rewrite <- Hctx; exact Hval0|]. split; [exact Hin0|].
        intro Hv. destruct (Hkey0 Hv) as [Hk0 Hlog0].
        split; [rewrite <- Hkeys; exact Hk0|].
        intros more Hm. rewrite (Hmore more Hm).
        destruct (Hlog0 after Hafter) as [e1 [He1 Hrec]].
        exists e1. split; [apply in_or_app; right; exact He1 | exact Hrec]. }
      split; [congruence|]. split; [congruence|].
      destruct is_valid.
      + injection Hstep as <- _.
        exists (obj' :: added). split; [rewrite Htc, <- app_assoc; reflexivity|].
        intros x [<- | Hx].
        * exists d, true, obj'. split; [exact HP|]. split; [exact Hval|].
          split; [intros _; left; reflexivity | discriminate].
        * destruct (Htail x Hx) as [d0 [v0 [o0 [HP0 [Hval0 [Hin0 Hkey0]]]]]].
          exists d0, v0, o0. split; [exact HP0|]. split; [exact Hval0|].
          split; [intro Hv; right; apply Hin0, Hv | exact Hkey0].
      + destruct (mem_str key (log_keys w)) eqn:Hkey; [| discriminate].
        injection Hstep as <- _.
        exists added. split; [exact Htc|].
        intros x [<- | Hx].
        * exists d, false, obj'. split; [exact HP|]. split; [exact Hval|].
          split; [discriminate|]. intros _. split; [reflexivity|].
          intros more Hm. rewrite (Hmore more Hm).
          destruct (Hentry eq_refl) as [e1 [He1 Hrec]].
          exists e1. split; [apply in_or_app; left; exact He1 | exact Hrec].
        * exact (Htail x Hx).
  Qed.

  (** The loop of a batch whose records are all rejected stages nothing, and
      logs one entry per record. *)
Lemma fold_second_run :
    forall cls key P datas tc0 w,
      (forall data, In data datas ->
         mem_str key (log_keys w) = true
         /\ exists d o, P data = Ret d
                        /\ validate cls (ctx_of E w) (BaseModel_init cls d)
                           = Ret (false, o)) ->
      exists w',
        fold_m (stage_record E cls key P) datas tc0 w = (Ret tc0, w')
        /\ store w' = store w /\ clock w' = clock w
        /\ files w' = files w /\ log_keys w' = log_keys w
        /\ forall key' more,
             appended (class_validation_errors w) (class_validation_errors w') key' more ->
             forall e2, In e2 more ->
               key' = key
               /\ exists data, In data datas /\ P data = Ret (record e2).
  Proof.
    intros cls key P. induction datas as [| data rest IH]; intros tc0 w Hall.
    - exists w. cbn [fold_m]. split; [reflexivity|].
      split; [reflexivity|]. split; [reflexivity|].
      split; [reflexivity|]. split; [reflexivity|].
      intros key' more Hmore e2 He2.
      rewrite (appended_same_log _ _ _ Hmore) in He2. contradiction.
    - destruct (Hall data (or_introl eq_refl)) as [Hkey [d [o [HP Hval]]]].
      cbn [fold_m]. unfold bind. rewrite stage_record_unfold, HP, Hval, Hkey.
      set (entry := {| record := d; errors := validation_errors o |}).
      set (w1 := with_errors w (log_append (class_validation_errors w) key entry)).
      assert (Hctx : ctx_of E w1 = ctx_of E w) by reflexivity.
      assert (Hkeys : log_keys w1 = log_keys w).
      { unfold log_keys, w1. cbn. apply log_append_keys. }
      destruct (IH tc0 w1) as [w' [Hrun [Hs [Hc [Hf [Hk Hlog]]]]]].
      { intros x Hx. destruct (Hall x (or_intror Hx)) as [Hkx Hx'].
        rewrite Hkeys, Hctx. split; assumption. }
      exists w'. split; [exact Hrun|].
      split; [exact Hs|]. split; [exact Hc|]. split; [exact Hf|].
      split; [congruence|].
      intros key' more Hmore e2 He2.
      destruct (String.eqb_spec key' key) as [-> | Hne].
      + destruct (evolves_appended _ _ key
                    (frame_fold_m _ _ _ rest tc0
                       (fun b a => frame_stage_record E cls key P b a) _ _ _ Hrun))
          as [after Hafter].
        assert (Hhere : appended (class_validation_errors w)
                                 (class_validation_errors w1) key [entry]).
        { unfold w1. cbn. apply log_get_append_same, Hkey. }
        rewrite (appended_unique _ _ _ _ _ Hmore
                   (appended_trans _ _ _ _ _ _ Hhere Hafter)) in He2.
        destruct He2 as [<- | He2].
        * split; [reflexivity|]. exists data. split; [left; reflexivity | exact HP].
        * destruct (Hlog key after Hafter e2 He2) as [_ [x [Hx HPx]]].
          split; [reflexivity|]. exists x. split; [right; exact Hx | exact HPx].
      + assert (Hmore1 : appended (class_validation_errors w1)
                                  (class_validation_errors w') key' more).
        { unfold appended, w1 in *. cbn.
          rewrite log_get_append_other by exact Hne. exact Hmore. }
        destruct (Hlog key' more Hmore1 e2 He2) as [Heq _]. contradiction.
  Qed.
End Rerun.

Section RerunBatch.
Variable E : Ext.

Lemma load_batch_unfold :
    forall cls key P batch w,
      load_batch E cls key P batch w =
      match records_by_id [] batch with
      | Raise e => (Raise e, w)
      | Ret entity_map =>
          let ids := map fst entity_map in
          let existing :=
            column_values (query_in (store w) (tablename cls) "id" ids) "id" in
          let new_entries :=
            filter (fun kv => negb (mem_val (fst kv) existing)) entity_map in
          match fold_m (stage_record E cls key P) (map snd new_entries) [] w with
          | (Ret to_create, w1) => bulk_save_objects cls to_create w1
          | (Raise e, w1) => (Raise e, w1)
          end
      end.
  Proof.
    intros cls key P batch w. unfold load_batch, bind, lift, get_world.
    destruct (records_by_id [] batch) as [entity_map | e]; [| reflexivity].
    cbv zeta. destruct (fold_m _ _ _ _) as [[to_create | e] w1]; reflexivity.
  Qed.

  (** A batch that went through, run again in a later state: every id is
      either in the store or the id of a record that is rejected again, so
      nothing is inserted, and the records reported are records the first
      run reported. *)
Lemma load_batch_rerun :
    forall cls key P1 P2 batch w w',
      is_entity_class cls ->
      preserves_id P1 -> prepare_le P1 P2 ->
      load_batch E cls key P1 batch w = (Ret tt, w') ->
      forall w2, later w' w2 -> quiet (load_batch E cls key P2 batch) w w' w2.
  Proof.
    intros cls key P1 P2 batch w w' Hcls Hid Hle Hrun w2 [Hext [Hclock [Hfiles Hkeys]]].
    destruct (entity_class_facts cls Hcls) as [_ [_ [Hid_col [Hid_nn Hauto]]]].
    destruct (frame_load_batch E cls key P1 batch _ _ _ Hrun)
      as [Hext1 [Hclock1 [_ [[Hkeys1 _] _]]]].
    rewrite load_batch_unfold in Hrun.
    destruct (records_by_id [] batch) as [entity_map |] eqn:Hmap; [| discriminate].
    cbv zeta in Hrun.
    set (ids := map fst entity_map) in *.
    set (existing1 := column_values (query_in (store w) (tablename cls) "id" ids) "id") in *.
    destruct (fold_m _ _ _ w) as [[to_create | e] w1] eqn:Hfold; [| discriminate].
    destruct (fold_first_run E _ _ _ _ _ _ _ _ Hfold) as [Hstore1 [_ [added [Htc Hall]]]].
    cbn [app] in Htc. subst to_create.
    unfold bulk_save_objects in Hrun.
    destruct (insert_rows cls (store w1 (tablename cls)) added) as [new_rows |] eqn:Hins;
      [| discriminate].
    injection Hrun as Hw'.
    assert (Hlog' : class_validation_errors w' = class_validation_errors w1)
      by (rewrite <- Hw'; reflexivity).
    pose proof (insert_rows_fields cls "id" Hid_col (fun _ => Hauto) _ _ _ Hins) as Hids.
    pose proof (insert_rows_not_null cls "id" Hid_nn _ _ _ Hins) as Hnn.
    pose proof (records_by_id_keyed _ _ _ (Forall_nil _) Hmap) as Hkeyed.
    rewrite Forall_forall in Hkeyed.
    set (existing2 := column_values (query_in (store w2) (tablename cls) "id" ids) "id").
    set (datas2 := map snd (filter (fun kv => negb (mem_val (fst kv) existing2))
                                   entity_map)).
    (* every record the second run looks at was rejected by the first *)
    assert (Hrejected : forall data, In data datas2 ->
              exists d o1,
                P1 data = Ret d
                /\ validate cls (ctx_of E w) (BaseModel_init cls d) = Ret (false, o1)
                /\ mem_str key (log_keys w) = true
                /\ forall more,
                     appended (class_validation_errors w)
                              (class_validation_errors w1) key more ->
                     exists e1, In e1 more /\ record e1 = d).
    { intros data Hdata. apply in_map_iff in Hdata.
      destruct Hdata as [[k data'] [Heq Hin]]. cbn in Heq. subst data'.
      apply filter_In in Hin. destruct Hin as [Hin Hnew2]. cbn [fst] in Hnew2.
      apply negb_true_iff in Hnew2.
      destruct (Hkeyed _ Hin) as [kd [Hkd Hkey]]. cbn [fst snd] in Hkd, Hkey.
      assert (Hnew1 : mem_val k existing1 = false).
      { destruct (mem_val k existing1) eqn:Hm; [| reflexivity].
        rewrite <- Hnew2. symmetry.
        apply (existing_ids_later (store w) (store w2)); [| exact Hm].
        exact (extends_trans _ _ _ Hext1 Hext). }
      assert (Hdata1 : In data (map snd (filter (fun kv => negb (mem_val (fst kv) existing1))
                                                entity_map))).
      { apply in_map_iff. exists (k, data). split; [reflexivity|].
        apply filter_In. split; [exact Hin|]. cbn. rewrite Hnew1. reflexivity. }
      destruct (Hall data Hdata1) as [d [is_valid [obj' [HP [Hval [Hstaged Hlogged]]]]]].
      destruct is_valid.
      - (* accepted by the first run: its id is in the store *)
        exfalso.
        assert (Hobj_id : getattr obj' "id" = kd).
        { rewrite (validated_id _ _ _ _ _ Hcls Hval), (Hid _ _ HP).
          unfold field. rewrite Hkd. reflexivity. }
        assert (Hin_new : In (bind_param kd) (column_values new_rows "id")).
        { rewrite Hids. apply in_map_iff. exists obj'.
          split; [rewrite Hobj_id; reflexivity | apply Hstaged; reflexivity]. }
        rewrite Forall_forall in Hnn.
        destruct (bind_param_not_none kd (Hnn _ Hin_new)) as [Hna Hbind].
        rewrite Hbind in Hin_new.
        apply In_column_values in Hin_new. destruct Hin_new as [row [Hrow Hf]].
        assert (Hrow2 : In row (store w2 (tablename cls))).
        { apply (extends_In _ _ _ _ Hext). rewrite <- Hw'. cbn [store with_store].
          rewrite store_add_same. apply in_or_app. right. exact Hrow. }
        assert (Hk : In k ids) by (apply in_map_iff; exists (k, data); auto).
        pose proof (stored_id_is_existing _ _ ids _ k kd Hrow2 Hf Hna Hk Hkey) as Hex.
        fold existing2 in Hex. congruence.
      - destruct (Hlogged eq_refl) as [Hk Hlog].
        exists d, obj'. split; [exact HP|]. split; [exact Hval|].
        split; [exact Hk | exact Hlog]. }
    (* the second run *)
    unfold quiet. rewrite load_batch_unfold, Hmap. cbv zeta. fold ids existing2 datas2.
    destruct (fold_second_run E cls key P2 datas2 [] w2)
      as [w2a [Hfold2 [Hs2 [Hc2 [Hf2 [Hk2 Hlog2]]]]]].
    { intros data Hdata.
      destruct (Hrejected data Hdata) as [d [o1 [HP [Hval [Hk _]]]]].
      split.
      - unfold log_keys in *. rewrite Hkeys, Hkeys1. exact Hk.
      - destruct (rejected_later cls (ctx_of E w) (ctx_of E w2) _ _ Hcls
                    (ctx_of_later E w w2 (extends_trans _ _ _ Hext1 Hext)
                       ltac:(congruence)) Hval) as [o2 Hval2].
        exists d, o2. split; [apply Hle, HP | exact Hval2]. }
    rewrite Hfold2. unfold bulk_save_objects. cbn [insert_rows].
    eexists. split; [reflexivity|].
    cbn [store clock files with_store]. split.
    { intro t. rewrite Hs2. unfold store_add.
      destruct (Table_eqb (tablename cls) t); [rewrite app_nil_r|]; reflexivity. }
    split; [exact Hc2|]. split; [exact Hf2|]. split; [exact Hk2|].
    intros key' more1 more2 Hmore1 Hmore2 e2 He2.
    cbn [class_validation_errors with_store] in Hmore2.
    destruct (Hlog2 key' more2 Hmore2 e2 He2) as [-> [data [Hdata HP2]]].
    destruct (Hrejected data Hdata) as [d [o1 [HP [_ [_ Hlog]]]]].
    rewrite Hlog' in Hmore1.
    destruct (Hlog more1 Hmore1) as [e1 [He1 Hrec]].
    exists e1. split; [exact He1|].
    rewrite (Hle _ _ HP) in HP2. apply Ret_inj in HP2. congruence.
  Qed.
End RerunBatch.

(** *** Running the steps again *)

Lemma same_rows_sym : forall s1 s2, same_rows s1 s2 -> same_rows s2 s1.
Proof. intros s1 s2 H t. symmetry. apply H. Qed.

Lemma same_rows_trans :
  forall s1 s2 s3, same_rows s1 s2 -> same_rows s2 s3 -> same_rows s1 s3.
Proof. intros s1 s2 s3 H12 H23 t. rewrite H12. apply H23. Qed.

Lemma later_of_evolves :
  forall w1 w' w2, evolves w1 w' -> later w' w2 -> later w1 w2.
Proof.
  intros w1 w' w2 [Hs [Hc [Hf [[Hk _] _]]]] [Hs2 [Hc2 [Hf2 Hk2]]].
  split; [exact (extends_trans _ _ _ Hs Hs2)|].
  split; [congruence|]. split; [congruence|]. unfold log_keys in *. congruence.
Qed.

Lemma later_after_quiet :
  forall w' w2 w2a,
    later w' w2 ->
    same_rows (store w2) (store w2a) -> clock w2a = clock w2 ->
    files w2a = files w2 -> log_keys w2a = log_keys w2 ->
    later w' w2a.
Proof.
  intros w' w2 w2a [Hs [Hc [Hf Hk]]] Hrows Hclock Hfiles Hkeys.
  split; [exact (extends_trans _ _ _ Hs (same_rows_extends _ _ Hrows))|].
  split; [congruence|]. split; [congruence|]. congruence.
Qed.

Lemma later_refl : forall w, later w w.
Proof. intro w. split; [apply extends_refl | auto]. Qed.

Lemma replays_no_log :
  forall w w' w2 w2',
    class_validation_errors w2' = class_validation_errors w2 -> replays w w' w2 w2'.
Proof.
  intros w w' w2 w2' Hlog key more1 more2 _ H2 e2 He2.
  rewrite Hlog in H2. rewrite (appended_same_log _ _ _ H2) in He2. contradiction.
Qed.

Lemma replays_same_logs :
  forall w wa w' w2 w2a w2b,
    class_validation_errors wa = class_validation_errors w ->
    class_validation_errors w2a = class_validation_errors w2 ->
    replays wa w' w2a w2b -> replays w w' w2 w2b.
Proof.
  intros w wa w' w2 w2a w2b H1 H2 Hr. unfold replays in *.
  rewrite H1, H2 in Hr. exact Hr.
Qed.

Lemma replays_compose :
  forall w w1 w' w2 w2a w2b,
    evolves w w1 -> evolves w1 w' -> evolves w2 w2a -> evolves w2a w2b ->
    replays w w1 w2 w2a -> replays w1 w' w2a w2b -> replays w w' w2 w2b.
Proof.
  intros w w1 w' w2 w2a w2b He1 He1' He2 He2' Hf Hg key more1 more2 H1 H2 e2 Hin.
  destruct (evolves_appended _ _ key He1) as [a1 Ha1].
  destruct (evolves_appended _ _ key He1') as [b1 Hb1].
  destruct (evolves_appended _ _ key He2) as [a2 Ha2].
  destruct (evolves_appended _ _ key He2') as [b2 Hb2].
  rewrite (appended_unique _ _ _ _ _ H1 (appended_trans _ _ _ _ _ _ Ha1 Hb1)).
  rewrite (appended_unique _ _ _ _ _ H2 (appended_trans _ _ _ _ _ _ Ha2 Hb2)) in Hin.
  apply in_app_or in Hin. destruct Hin as [Hin | Hin].
  - destruct (Hf key a1 a2 Ha1 Ha2 e2 Hin) as [e1 [He Hrec]].
    exists e1. split; [apply in_or_app; left; exact He | exact Hrec].
  - destruct (Hg key b1 b2 Hb1 Hb2 e2 Hin) as [e1 [He Hrec]].
    exists e1. split; [apply in_or_app; right; exact He | exact Hrec].
Qed.

Lemma rerun_rel_bind :
  forall (f1 f2 g1 g2 : M unit),
    frame_ok f1 -> frame_ok g1 -> frame_ok f2 -> frame_ok g2 ->
    rerun_rel f1 f2 -> rerun_rel g1 g2 ->
    rerun_rel (_ <~ f1 ;; g1) (_ <~ f2 ;; g2).
Proof.
  intros f1 f2 g1 g2 Ff1 Fg1 Ff2 Fg2 Hf Hg w w' Hrun w2 Hlater. unfold bind in Hrun.
  destruct (f1 w) as [[[] | e] w1] eqn:Hf1; [| discriminate].
  pose proof (later_of_evolves _ _ _ (Fg1 _ _ _ Hrun) Hlater) as Hlater1.
  destruct (Hf _ _ Hf1 _ Hlater1) as [w2a [Hf2 [Hrows [Hc [Hfl [Hk Hrep]]]]]].
  destruct (Hg _ _ Hrun w2a (later_after_quiet _ _ _ Hlater Hrows Hc Hfl Hk))
    as [w2b [Hg2 [Hrows' [Hc' [Hfl' [Hk' Hrep']]]]]].
  exists w2b. unfold bind. rewrite Hf2. split; [exact Hg2|].
  split; [exact (same_rows_trans _ _ _ Hrows Hrows')|].
  split; [congruence|]. split; [congruence|]. split; [congruence|].
  exact (replays_compose _ _ _ _ _ _ (Ff1 _ _ _ Hf1) (Fg1 _ _ _ Hrun)
           (Ff2 _ _ _ Hf2) (Fg2 _ _ _ Hg2) Hrep Hrep').
Qed.

Lemma rerun_rel_ret : rerun_rel (ret tt) (ret tt).
Proof.
  intros w w' _ w2 _. exists w2. split; [reflexivity|].
  split; [intro t; reflexivity|]. split; [reflexivity|]. split; [reflexivity|].
  split; [reflexivity|]. apply replays_no_log. reflexivity.
Qed.

Lemma rerun_rel_for_each :
  forall (A : Type) (l : list A) (body : A -> M unit),
    (forall x, frame_ok (body x)) ->
    (forall x, rerun_rel (body x) (body x)) ->
    rerun_rel (for_each l body) (for_each l body).
Proof.
  intros A l body Hframe Hbody. induction l as [| x l IH]; cbn [for_each].
  - apply rerun_rel_ret.
  - apply rerun_rel_bind; try apply Hframe; try (apply frame_for_each, Hframe).
    + apply Hbody.
    + exact IH.
Qed.

(** A step that resolves a lookup column and goes on with the map. *)
Lemma rerun_rel_lookup :
  forall cls entities column (K1 K2 : IdMap -> M unit),
    is_lookup_class cls ->
    (forall m, frame_ok (K1 m)) ->
    (forall m m2, idmap_le m m2 -> rerun_rel (K1 m) (K2 m2)) ->
    rerun_rel (m <~ process_sub_entities cls entities column ;; K1 m)
              (m <~ process_sub_entities cls entities column ;; K2 m).
Proof.
  intros cls entities column K1 K2 Hcls Hframe HK w w' Hrun w2 Hlater.
  unfold bind in Hrun.
  destruct (process_sub_entities cls entities column w) as [[m | e] wa] eqn:Hpse;
    [| discriminate].
  pose proof (later_of_evolves _ _ _ (Hframe _ _ _ _ Hrun) Hlater) as Hlater_a.
  destruct (process_sub_entities_rerun _ _ _ _ _ _ Hcls Hpse w2 (proj1 Hlater_a))
    as [m2 [Hpse2 Hle]].
  assert (Hlog_a : class_validation_errors wa = class_validation_errors w).
  { destruct (process_sub_entities_success _ _ _ _ _ _ Hcls Hpse)
      as [cleaned [new_rows [_ [_ [_ [Hwa _]]]]]]. rewrite Hwa. reflexivity. }
  set (w2a := with_store w2 (store_add (store w2) (tablename cls) [])) in *.
  assert (Hrows : same_rows (store w2) (store w2a)).
  { intro t. unfold w2a. cbn [store with_store]. unfold store_add.
    destruct (Table_eqb (tablename cls) t); [rewrite app_nil_r|]; reflexivity. }
  destruct (HK m m2 Hle _ _ Hrun w2a
              (later_after_quiet _ _ _ Hlater Hrows eq_refl eq_refl eq_refl))
    as [w2b [HK2 [Hrows' [Hc [Hf [Hk Hrep]]]]]].
  exists w2b. unfold bind. rewrite Hpse2. split; [exact HK2|].
  split; [exact (same_rows_trans _ _ _ Hrows Hrows')|].
  split; [exact Hc|]. split; [exact Hf|]. split; [exact Hk|].
  exact (replays_same_logs _ _ _ _ _ _ Hlog_a eq_refl Hrep).
Qed.

Lemma dict_get_remove_other :
  forall d k k', k <> k' -> dict_get (dict_remove d k) k' = dict_get d k'.
Proof.
  intros d k k' Hne. induction d as [| [k0 v0] d IH]; cbn; [reflexivity|].
  destruct (String.eqb_spec k0 k) as [-> | Hk0]; cbn.
  - destruct (String.eqb_spec k k'); [contradiction | reflexivity].
  - rewrite IH. reflexivity.
Qed.

Section RerunSteps.
Variable E : Ext.

Lemma substitute_le :
    forall m m2 source target,
      idmap_le m m2 ->
      prepare_le (substitute m source target) (substitute m2 source target).
  Proof.
    intros m m2 source target Hle data d H. unfold substitute in *.
    destruct (dict_pop data source) as [[v data'] | e]; [| discriminate].
    cbn [bindR] in *.
    destruct (clean_text v false) as [name | e]; [| discriminate].
    cbn [bindR] in *.
    destruct (idmap_get m name) as [id | e] eqn:Hget; [| discriminate].
    rewrite (Hle _ _ Hget). exact H.
  Qed.

Lemma substitute_preserves_id :
    forall m source target,
      source <> "id" -> target <> "id" ->
      preserves_id (substitute m source target).
  Proof.
    intros m source target Hs Ht data d H. unfold substitute, dict_pop in H.
    destruct (dict_get data source) as [v |]; [| discriminate].
    cbn [bindR] in H.
    destruct (clean_text v false) as [name | e]; [| discriminate].
    cbn [bindR] in H.
    destruct (idmap_get m name) as [id | e]; [| discriminate].
    cbn [bindR] in H. apply Ret_inj in H. subst d.
    unfold field. rewrite dict_get_set_other by exact Ht.
    rewrite dict_get_remove_other by exact Hs. reflexivity.
  Qed.

Lemma prepare_le_bind :
    forall (P1 P2 Q1 Q2 : Row -> PyRes Row),
      prepare_le P1 P2 -> prepare_le Q1 Q2 ->
      prepare_le (fun data => x <- P1 data ;; Q1 x) (fun data => x <- P2 data ;; Q2 x).
  Proof.
    intros P1 P2 Q1 Q2 HP HQ data d H.
    destruct (P1 data) as [x | e] eqn:Hx; [| discriminate].
    rewrite (HP _ _ Hx). cbn [bindR] in *. apply HQ, H.
  Qed.

Lemma preserves_id_bind :
    forall (P Q : Row -> PyRes Row),
      preserves_id P -> preserves_id Q ->
      preserves_id (fun data => x <- P data ;; Q x).
  Proof.
    intros P Q HP HQ data d H.
    destruct (P data) as [x | e] eqn:Hx; [| discriminate].
    cbn [bindR] in H. rewrite (HQ _ _ H). apply HP, Hx.
  Qed.

Lemma rerun_load_batch :
    forall cls key P1 P2 batch,
      is_entity_class cls -> preserves_id P1 -> prepare_le P1 P2 ->
      rerun_rel (load_batch E cls key P1 batch) (load_batch E cls key P2 batch).
  Proof.
    intros cls key P1 P2 batch Hcls Hid Hle w w' Hrun w2 Hlater.
    exact (load_batch_rerun E cls key P1 P2 batch w w' Hcls Hid Hle Hrun w2 Hlater).
  Qed.

Lemma rerun_process_companies :
    forall self, rerun_rel (process_companies E self) (process_companies E self).
  Proof.
    intros self w w' Hrun w2 Hlater.
    pose proof (later_of_evolves _ _ _ (frame_process_companies E self _ _ _ Hrun) Hlater)
      as [_ [_ [Hfiles _]]].
    assert (Hinner : forall chunks,
              rerun_rel
                (for_each chunks (fun companies_df =>
                   industry_ids_map <~
                     process_sub_entities Industry.cls companies_df "industry" ;;
                   load_batch E Company.cls "companies"
                     (substitute industry_ids_map "industry" "industry_id") companies_df))
                (for_each chunks (fun companies_df =>
                   industry_ids_map <~
                     process_sub_entities Industry.cls companies_df "industry" ;;
                   load_batch E Company.cls "companies"
                     (substitute industry_ids_map "industry" "industry_id") companies_df))).
    { intro chunks. apply rerun_rel_for_each.
      - intros chunk. apply frame_bind; [apply frame_process_sub_entities|].
        intros m. apply frame_load_batch.
      - intros chunk. apply rerun_rel_lookup.
        + left. reflexivity.
        + intros m. apply frame_load_batch.
        + intros m m2 Hle. apply rerun_load_batch.
          * left. reflexivity.
          * apply substitute_preserves_id; discriminate.
          * apply substitute_le, Hle. }
    destruct (Hinner _ w w' Hrun w2 Hlater) as [w2' [Hrun2 Hrest]].
    exists w2'. split; [| exact Hrest].
    unfold process_companies, bind, get_world. rewrite Hfiles. exact Hrun2.
  Qed.
End RerunSteps.

Section RerunRun.
Variable E : Ext.

Lemma rerun_process_contacts :
    forall self, rerun_rel (process_contacts E self) (process_contacts E self).
  Proof.
    intros self w w' Hrun w2 Hlater.
    pose proof (later_of_evolves _ _ _ (frame_process_contacts E self _ _ _ Hrun) Hlater)
      as [_ [_ [Hfiles _]]].
    assert (Hinner : forall contacts_df,
              rerun_rel
                (contact_statuses_map <~
                   process_sub_entities ContactStatus.cls contacts_df "status" ;;
                 load_batch E Contact.cls "contacts"
                   (substitute contact_statuses_map "status" "status_id") contacts_df)
                (contact_statuses_map <~
                   process_sub_entities ContactStatus.cls contacts_df "status" ;;
                 load_batch E Contact.cls "contacts"
                   (substitute contact_statuses_map "status" "status_id") contacts_df)).
    { intro contacts_df. apply rerun_rel_lookup.
      - right. left. reflexivity.
      - intros m. apply frame_load_batch.
      - intros m m2 Hle. apply rerun_load_batch.
        + right. left. reflexivity.
        + apply substitute_preserves_id; discriminate.
        + apply substitute_le, Hle. }
    unfold process_contacts, bind, get_world, lift in Hrun.
    destruct (dedup_contacts (contacts_json (files w (data_path self))))
      as [contacts_df | e] eqn:Hdedup; [| discriminate].
    destruct (Hinner contacts_df w w' Hrun w2 Hlater) as [w2' [Hrun2 Hrest]].
    exists w2'. split; [| exact Hrest].
    unfold process_contacts, bind, get_world, lift. rewrite Hfiles, Hdedup. exact Hrun2.
  Qed.

Lemma rerun_process_opportunities :
    forall self, rerun_rel (process_opportunities E self) (process_opportunities E self).
  Proof.
    intros self w w' Hrun w2 Hlater.
    pose proof (later_of_evolves _ _ _
                  (frame_process_opportunities E self _ _ _ Hrun) Hlater)
      as [_ [_ [Hfiles _]]].
    assert (Hinner : forall chunks,
              rerun_rel
                (for_each chunks (fun opportunities_df =>
                   stages_map <~ process_sub_entities Stage.cls opportunities_df "stage" ;;
                   forecast_categories_map <~
                     process_sub_entities ForecastCategory.cls opportunities_df
                       "forecast_category" ;;
                   products_map <~
                     process_sub_entities Product.cls opportunities_df "product" ;;
                   load_batch E Opportunity.cls "opportunities"
                     (fun data =>
                        data <- substitute stages_map "stage" "stage_id" data ;;
                        data <- substitute forecast_categories_map
                                  "forecast_category" "forecast_category_id" data ;;
                        substitute products_map "product" "product_id" data)
                     opportunities_df))
                (for_each chunks (fun opportunities_df =>
                   stages_map <~ process_sub_entities Stage.cls opportunities_df "stage" ;;
                   forecast_categories_map <~
                     process_sub_entities ForecastCategory.cls opportunities_df
                       "forecast_category" ;;
                   products_map <~
                     process_sub_entities Product.cls opportunities_df "product" ;;
                   load_batch E Opportunity.cls "opportunities"
                     (fun data =>
                        data <- substitute stages_map "stage" "stage_id" data ;;
                        data <- substitute forecast_categories_map
                                  "forecast_category" "forecast_category_id" data ;;
                        substitute products_map "product" "product_id" data)
                     opportunities_df))).
    { intro chunks. apply rerun_rel_for_each.
      - intros chunk.
        apply frame_bind; [apply frame_process_sub_entities|]. intros m1.
        apply frame_bind; [apply frame_process_sub_entities|]. intros m2.
        apply frame_bind; [apply frame_process_sub_entities|]. intros m3.
        apply frame_load_batch.
      - intros chunk.
        apply rerun_rel_lookup with
          (K1 := fun stages_map =>
             forecast_categories_map <~
               process_sub_entities ForecastCategory.cls chunk "forecast_category" ;;
             products_map <~ process_sub_entities Product.cls chunk "product" ;;
             load_batch E Opportunity.cls "opportunities"
               (fun data =>
                  data <- substitute stages_map "stage" "stage_id" data ;;
                  data <- substitute forecast_categories_map
                            "forecast_category" "forecast_category_id" data ;;
                  substitute products_map "product" "product_id" data)
               chunk).
        + right. right. left. reflexivity.
        + intros m1.
          apply frame_bind; [apply frame_process_sub_entities|]. intros m2.
          apply frame_bind; [apply frame_process_sub_entities|]. intros m3.
          apply frame_load_batch.
        + intros m1 m1' Hle1.
          apply rerun_rel_lookup with
            (K1 := fun forecast_categories_map =>
               products_map <~ process_sub_entities Product.cls chunk "product" ;;
               load_batch E Opportunity.cls "opportunities"
                 (fun data =>
                    data <- substitute m1 "stage" "stage_id" data ;;
                    data <- substitute forecast_categories_map
                              "forecast_category" "forecast_category_id" data ;;
                    substitute products_map "product" "product_id" data)
                 chunk)
            (K2 := fun forecast_categories_map =>
               products_map <~ process_sub_entities Product.cls chunk "product" ;;
               load_batch E Opportunity.cls "opportunities"
                 (fun data =>
                    data <- substitute m1' "stage" "stage_id" data ;;
                    data <- substitute forecast_categories_map
                              "forecast_category" "forecast_category_id" data ;;
                    substitute products_map "product" "product_id" data)
                 chunk).
          * right. right. right. left. reflexivity.
          * intros m2.
            apply frame_bind; [apply frame_process_sub_entities|]. intros m3.
            apply frame_load_batch.
          * intros m2 m2' Hle2.
            apply rerun_rel_lookup with
              (K1 := fun products_map =>
                 load_batch E Opportunity.cls "opportunities"
                   (fun data =>
                      data <- substitute m1 "stage" "stage_id" data ;;
                      data <- substitute m2
                                "forecast_category" "forecast_category_id" data ;;
                      substitute products_map "product" "product_id" data)
                   chunk)
              (K2 := fun products_map =>
                 load_batch E Opportunity.cls "opportunities"
                   (fun data =>
                      data <- substitute m1' "stage" "stage_id" data ;;
                      data <- substitute m2'
                                "forecast_category" "forecast_category_id" data ;;
                      substitute products_map "product" "product_id" data)
                   chunk).
            -- right. right. right. right. reflexivity.
            -- intros m3. apply frame_load_batch.
            -- intros m3 m3' Hle3. apply rerun_load_batch.
               ++ right. right. left. reflexivity.
               ++ apply preserves_id_bind;
                    [apply substitute_preserves_id; discriminate|].
                  apply preserves_id_bind;
                    apply substitute_preserves_id; discriminate.
               ++ apply prepare_le_bind; [apply substitute_le, Hle1|].
                  apply prepare_le_bind; apply substitute_le; assumption. }
    destruct (Hinner _ w w' Hrun w2 Hlater) as [w2' [Hrun2 Hrest]].
    exists w2'. split; [| exact Hrest].
    unfold process_opportunities, bind, get_world. rewrite Hfiles. exact Hrun2.
  Qed.

Lemma rerun_process_activities :
    forall self, rerun_rel (process_activities E self) (process_activities E self).
  Proof.
    intros self w w' Hrun w2 Hlater.
    pose proof (later_of_evolves _ _ _ (frame_process_activities E self _ _ _ Hrun) Hlater)
      as [_ [_ [Hfiles _]]].
    assert (Hinner : forall batch,
              rerun_rel (load_batch E Activity.cls "activities" (fun data => Ret data) batch)
                        (load_batch E Activity.cls "activities" (fun data => Ret data) batch)).
    { intro batch. apply rerun_load_batch.
      - right. right. right. reflexivity.
      - intros data d H. apply Ret_inj in H. subst d. reflexivity.
      - intros data d H. exact H. }
    destruct (Hinner _ w w' Hrun w2 Hlater) as [w2' [Hrun2 Hrest]].
    exists w2'. split; [| exact Hrest].
    unfold process_activities, bind, get_world. rewrite Hfiles. exact Hrun2.
  Qed.

  (** Writing the report changes neither the store nor the log. *)
Lemma rerun_report :
    forall self,
      rerun_rel
        (w <~ get_world ;;
         if any_errors (class_validation_errors w) then log_errors self else ret tt)
        (w <~ get_world ;;
         if any_errors (class_validation_errors w) then log_errors self else ret tt).
  Proof.
    intros self w w' _ w2 _. unfold quiet, bind, get_world. cbv beta iota.
    destruct (any_errors (class_validation_errors w2)).
    - unfold log_errors.
      destruct (negb (is_nil (class_validation_errors w2))); eexists;
        (split; [reflexivity|]); (split; [intro t; reflexivity|]);
        (split; [reflexivity|]); (split; [reflexivity|]); (split; [reflexivity|]);
        apply replays_no_log; reflexivity.
    - exists w2. split; [reflexivity|]. split; [intro t; reflexivity|].
      split; [reflexivity|]. split; [reflexivity|]. split; [reflexivity|].
      apply replays_no_log. reflexivity.
  Qed.

Lemma rerun_run : forall self, rerun_rel (run E self) (run E self).
  Proof.
    intros self. unfold run.
    assert (Hreport : frame_ok
              (w <~ get_world ;;
               if any_errors (class_validation_errors w) then log_errors self
               else ret tt)).
    { apply frame_bind; [apply frame_get_world|]. intros w0.
      destruct (any_errors _); [apply frame_log_errors | apply frame_ret]. }
    assert (Hrest4 : frame_ok
              (_ <~ process_activities E self ;;
               w <~ get_world ;;
               if any_errors (class_validation_errors w) then log_errors self
               else ret tt)).
    { apply frame_bind; [apply frame_process_activities|]. intros _. exact Hreport. }
    assert (Hrest3 : frame_ok
              (_ <~ process_opportunities E self ;;
               _ <~ process_activities E self ;;
               w <~ get_world ;;
               if any_errors (class_validation_errors w) then log_errors self
               else ret tt)).
    { apply frame_bind; [apply frame_process_opportunities|]. intros _. exact Hrest4. }
    assert (Hrest2 : frame_ok
              (_ <~ process_contacts E self ;;
               _ <~ process_opportunities E self ;;
               _ <~ process_activities E self ;;
               w <~ get_world ;;
               if any_errors (class_validation_errors w) then log_errors self
               else ret tt)).
    { apply frame_bind; [apply frame_process_contacts|]. intros _. exact Hrest3. }
    apply rerun_rel_bind;
      [apply frame_process_companies | exact Hrest2
       | apply frame_process_companies | exact Hrest2
       | apply rerun_process_companies |].
    apply rerun_rel_bind;
      [apply frame_process_contacts | exact Hrest3
       | apply frame_process_contacts | exact Hrest3
       | apply rerun_process_contacts |].
    apply rerun_rel_bind;
      [apply frame_process_opportunities | exact Hrest4
       | apply frame_process_opportunities | exact Hrest4
       | apply rerun_process_opportunities |].
    apply rerun_rel_bind;
      [apply frame_process_activities | exact Hreport
       | apply frame_process_activities | exact Hreport
       | apply rerun_process_activities |].
    apply rerun_report.
  Qed.
End RerunRun.

(** A second run at the reading of the clock of the first: when a run has
    returned, a second run over the same input files, in any later state
    with that clock, returns as well and leaves the rows of every table as it
    found them, and every error entry it logs reports a record the first run
    reported under the same key. *)
Lemma second_run_at_same_clock :
  forall (E : Ext) (self : Pipeline) (w w1 : World),
    run E self w = (Ret tt, w1) ->
    exists w2,
      run E self w1 = (Ret tt, w2)
      /\ (forall t, store w2 t = store w1 t)
      /\ (forall t, length (store w2 t) = length (store w1 t))
      /\ (forall key more1 more2,
             appended (class_validation_errors w) (class_validation_errors w1) key more1 ->
             appended (class_validation_errors w1) (class_validation_errors w2) key more2 ->
             forall e2, In e2 more2 ->
               exists e1, In e1 more1 /\ record e1 = record e2).
Proof.
  intros E self w w1 Hrun.
  destruct (rerun_run E self w w1 Hrun w1 (later_refl w1))
    as [w2 [Hrun2 [Hrows [_ [_ [_ Hreplay]]]]]].
  exists w2. split; [exact Hrun2|].
  split; [intro t; symmetry; apply Hrows|].
  split; [intro t; rewrite (Hrows t); reflexivity|].
  exact Hreplay.
Qed.


(* ================================================================== *)
(** * Further properties *)

(** ** Python [str] methods: stripping and case *)

Ltac by_ascii_cases c := destruct c as [[] [] [] [] [] [] [] []]; reflexivity.

Lemma is_space_to_upper : forall c, is_space (to_upper c) = is_space c.
Proof. intro c. by_ascii_cases c. Qed.

Lemma is_space_to_lower : forall c, is_space (to_lower c) = is_space c.
Proof. intro c. by_ascii_cases c. Qed.

Lemma to_upper_idem : forall c, to_upper (to_upper c) = to_upper c.
Proof. intro c. by_ascii_cases c. Qed.

Lemma to_lower_idem : forall c, to_lower (to_lower c) = to_lower c.
Proof. intro c. by_ascii_cases c. Qed.

Lemma to_upper_to_lower : forall c, to_upper (to_lower c) = to_upper c.
Proof. intro c. by_ascii_cases c. Qed.

Lemma cased_to_upper :
  forall c, is_lower (to_upper c) || is_upper (to_upper c) = is_lower c || is_upper c.
Proof. intro c. by_ascii_cases c. Qed.

Lemma cased_to_lower :
  forall c, is_lower (to_lower c) || is_upper (to_lower c) = is_lower c || is_upper c.
Proof. intro c. by_ascii_cases c. Qed.

Lemma space_not_cased : forall c, is_space c = true -> is_lower c || is_upper c = false.
Proof. intro c. destruct c as [[] [] [] [] [] [] [] []]; cbn; intros H; congruence. Qed.

Lemma lstrip_str_map :
  forall f, (forall c, is_space (f c) = is_space c) ->
  forall s, lstrip (str_map f s) = str_map f (lstrip s).
Proof.
  intros f Hf s. induction s as [| c s IH]; cbn; [reflexivity|].
  rewrite Hf. destruct (is_space c); [exact IH | reflexivity].
Qed.

Lemma str_map_empty :
  forall f s, str_map f s = EmptyString -> s = EmptyString.
Proof. intros f [| c s] H; [reflexivity | discriminate H]. Qed.

Lemma rstrip_str_map :
  forall f, (forall c, is_space (f c) = is_space c) ->
  forall s, rstrip (str_map f s) = str_map f (rstrip s).
Proof.
  intros f Hf s. induction s as [| c s IH]; cbn; [reflexivity|].
  rewrite IH, Hf. destruct (rstrip s) as [| c' r]; cbn.
  - destruct (is_space c); reflexivity.
  - reflexivity.
Qed.

Lemma strip_str_map :
  forall f, (forall c, is_space (f c) = is_space c) ->
  forall s, strip (str_map f s) = str_map f (strip s).
Proof.
  intros f Hf s. unfold strip.
  rewrite (lstrip_str_map f Hf), (rstrip_str_map f Hf). reflexivity.
Qed.

Lemma str_map_idem :
  forall f, (forall c, f (f c) = f c) ->
  forall s, str_map f (str_map f s) = str_map f s.
Proof.
  intros f Hf s. induction s as [| c s IH]; cbn; [reflexivity|].
  rewrite Hf, IH. reflexivity.
Qed.

Lemma lstrip_idem : forall s, lstrip (lstrip s) = lstrip s.
Proof.
  induction s as [| c s IH]; cbn; [reflexivity|].
  destruct (is_space c) eqn:Hc; [exact IH|]. cbn. rewrite Hc. reflexivity.
Qed.

Lemma rstrip_idem : forall s, rstrip (rstrip s) = rstrip s.
Proof.
  induction s as [| c s IH]; cbn; [reflexivity|].
  destruct (rstrip s) as [| c' r] eqn:Hr.
  - destruct (is_space c) eqn:Hc; cbn; [reflexivity|]. rewrite Hc. reflexivity.
  - cbn [rstrip] in *. rewrite IH. reflexivity.
Qed.

Lemma lstrip_rstrip : forall s, lstrip (rstrip s) = rstrip (lstrip s).
Proof.
  induction s as [| c s IH]; cbn; [reflexivity|].
  destruct (rstrip s) as [| c' r] eqn:Hr.
  - destruct (is_space c) eqn:Hc.
    + cbn. rewrite <- IH. reflexivity.
    + cbn. rewrite Hc, Hr. reflexivity.
  - destruct (is_space c) eqn:Hc.
    + cbn. rewrite Hc. exact IH.
    + cbn. rewrite Hc, Hr. reflexivity.
Qed.

Lemma strip_idem : forall s, strip (strip s) = strip s.
Proof.
  intro s. unfold strip.
  rewrite (lstrip_rstrip (lstrip s)), lstrip_idem, rstrip_idem. reflexivity.
Qed.

Lemma lstrip_app_spaces :
  forall a s, str_forall is_space a -> lstrip (a ++ s) = lstrip s.
Proof.
  induction a as [| c a IH]; cbn; intros s H; [reflexivity|].
  destruct H as [Hc Ha]. rewrite Hc. apply IH, Ha.
Qed.

Lemma rstrip_spaces : forall a, str_forall is_space a -> rstrip a = EmptyString.
Proof.
  induction a as [| c a IH]; cbn; intros H; [reflexivity|].
  destruct H as [Hc Ha]. rewrite (IH Ha), Hc. reflexivity.
Qed.

Lemma rstrip_app_spaces :
  forall s a, str_forall is_space a -> rstrip (s ++ a) = rstrip s.
Proof.
  induction s as [| c s IH]; cbn; intros a H.
  - apply rstrip_spaces, H.
  - rewrite (IH a H). reflexivity.
Qed.

Lemma strip_app_spaces :
  forall a s b,
    str_forall is_space a -> str_forall is_space b -> strip (a ++ s ++ b) = strip s.
Proof.
  intros a s b Ha Hb. unfold strip.
  rewrite (lstrip_app_spaces a _ Ha), <- lstrip_rstrip, (rstrip_app_spaces s b Hb).
  apply lstrip_rstrip.
Qed.

Lemma upper_lower : forall s, upper (lower s) = upper s.
Proof.
  unfold upper, lower. induction s as [| c s IH]; cbn; [reflexivity|].
  rewrite to_upper_to_lower, IH. reflexivity.
Qed.

(** *** [title] *)

Lemma title_from_idem :
  forall s b, title_from b (title_from b s) = title_from b s.
Proof.
  induction s as [| c s IH]; intros b; cbn; [reflexivity|].
  destruct b.
  - rewrite to_lower_idem, cased_to_lower, IH. reflexivity.
  - rewrite to_upper_idem, cased_to_upper, IH. reflexivity.
Qed.

Lemma title_from_empty :
  forall b s, title_from b s = EmptyString -> s = EmptyString.
Proof. intros b [| c s] H; [reflexivity | discriminate H]. Qed.

Lemma is_space_title_char :
  forall (b : bool) c, is_space (if b then to_lower c else to_upper c) = is_space c.
Proof. intros [] c; [apply is_space_to_lower | apply is_space_to_upper]. Qed.

Lemma lstrip_title : forall s, lstrip (title_from false s) = title_from false (lstrip s).
Proof.
  induction s as [| c s IH]; cbn; [reflexivity|].
  rewrite is_space_to_upper. destruct (is_space c) eqn:Hc.
  - rewrite (space_not_cased c Hc). exact IH.
  - reflexivity.
Qed.

Lemma rstrip_title :
  forall s b, rstrip (title_from b s) = title_from b (rstrip s).
Proof.
  induction s as [| c s IH]; intros b; cbn; [reflexivity|].
  rewrite IH, is_space_title_char.
  destruct (rstrip s) as [| c' r]; cbn.
  - destruct (is_space c); reflexivity.
  - reflexivity.
Qed.

Lemma strip_title : forall s, strip (title s) = title (strip s).
Proof.
  intro s. unfold strip, title. rewrite lstrip_title, rstrip_title. reflexivity.
Qed.

(** ** utils/etl.py: clean_text *)

(** X1: what [clean_text] returns is in canonical form: cleaning it again
    (in the same case) gives it back, and [None] stays [None]. *)
Theorem clean_text_canonical :
  forall (text : PyVal) (lower_case : bool) (out : PyVal),
    clean_text text lower_case = Ret out ->
    clean_text out lower_case = Ret out.
Proof.
  intros text lower_case out H.
  destruct text; cbn in H; try discriminate H; apply Ret_inj in H; subst out;
    [reflexivity|].
  cbn. f_equal. f_equal. destruct lower_case.
  - unfold lower. rewrite (strip_str_map _ is_space_to_lower), strip_idem.
    apply str_map_idem, to_lower_idem.
  - unfold upper. rewrite (strip_str_map _ is_space_to_upper), strip_idem.
    apply str_map_idem, to_upper_idem.
Qed.

Lemma clean_text_canonical_witness :
  clean_text (VStr "TECHNOLOGY") false = Ret (VStr "TECHNOLOGY").
Proof.
  apply (clean_text_canonical (VStr " Technology ") false (VStr "TECHNOLOGY")).
  reflexivity.
Defined.

(** X2: on ASCII text, [clean_text] does not see white space around a text
    nor the case of its letters: two spellings that differ in these only are
    cleaned to one text.  (Outside ASCII the case mappings of Python are not
    inverse to each other, and the strings of this development are not
    meant for them.) *)
Theorem clean_text_ignores_padding_and_case :
  forall (before after s : string),
    str_forall is_ascii s ->
    str_forall is_space before -> str_forall is_space after ->
    clean_text (VStr (before ++ s ++ after)) false = clean_text (VStr s) false
    /\ clean_text (VStr (lower s)) false = clean_text (VStr s) false.
Proof.
  intros before after s _ Hb Ha. cbn. split.
  - rewrite (strip_app_spaces before s after Hb Ha). reflexivity.
  - unfold lower at 1. rewrite (strip_str_map _ is_space_to_lower).
    fold (lower (strip s)). rewrite upper_lower. reflexivity.
Qed.

Lemma clean_text_ignores_padding_and_case_witness :
  clean_text (VStr ("  " ++ "Finance" ++ " ")) false = clean_text (VStr "Finance") false
  /\ clean_text (VStr (lower "Finance")) false = clean_text (VStr "Finance") false.
Proof.
  apply (clean_text_ignores_padding_and_case "  " " " "Finance");
    cbn; repeat split; reflexivity.
Defined.

(** ** models/*.py: the validators that normalise a text *)

Lemma upper_strip_idem : forall s, upper (strip (upper (strip s))) = upper (strip s).
Proof.
  intro s. unfold upper. rewrite (strip_str_map _ is_space_to_upper), strip_idem.
  apply str_map_idem, to_upper_idem.
Qed.

Lemma lower_strip_idem : forall s, lower (strip (lower (strip s))) = lower (strip s).
Proof.
  intro s. unfold lower. rewrite (strip_str_map _ is_space_to_lower), strip_idem.
  apply str_map_idem, to_lower_idem.
Qed.

Lemma title_strip_idem : forall s, title (strip (title (strip s))) = title (strip s).
Proof.
  intro s. rewrite strip_title, strip_idem. unfold title. apply title_from_idem.
Qed.

(** X3: the validators of names, titles, types, outcomes and subjects
    accept every string, whatever the clock and the store, and return a text;
    when the string is ASCII they leave that text as it is when they are
    given it again.  On a value that is no string (a number, a missing cell
    read as NaN) they raise [AttributeError], which [validate] does not
    catch. *)
Theorem text_validators_normalise :
  forall (f : Validator),
    In f text_validators ->
    forall (cx : Ctx) (self : Instance) (key : string),
      (forall s, exists t,
          f cx self key (VStr s) = Ret (VStr t)
          /\ (str_forall is_ascii s ->
              forall cx' self' key', f cx' self' key' (VStr t) = Ret (VStr t)))
      /\ (forall v, (forall s, v <> VStr s) -> f cx self key v = Raise AttributeError).
Proof.
  intros f Hf cx self key. cbn in Hf.
  assert (Hother : forall g : Validator,
             (forall v, as_str v = Raise AttributeError -> g cx self key v = Raise AttributeError) ->
             forall v, (forall s, v <> VStr s) -> g cx self key v = Raise AttributeError).
  { intros g Hg v Hv. apply Hg. destruct v; try reflexivity. exfalso. exact (Hv s eq_refl). }
  repeat (destruct Hf as [<- | Hf]); try contradiction;
    (split;
     [ intro s; eexists; split; [reflexivity|]; intros _ cx' self' key'; cbn;
       rewrite ?upper_strip_idem, ?lower_strip_idem, ?title_strip_idem, ?strip_idem;
       reflexivity
     | apply Hother; intros v Hv; cbv beta delta
         [Company.validate_name Contact.validate_first_name Contact.validate_last_name
          Contact.validate_title Opportunity.validate_name Activity.validate_type
          Activity.validate_outcome Activity.validate_subject];
       rewrite Hv; reflexivity ]).
Qed.

Lemma text_validators_normalise_witness :
  (exists t,
      Contact.validate_first_name (sample_ctx empty_store) (BaseModel_init Contact.cls [])
        "first_name" (VStr " ann marie ") = Ret (VStr t)
      /\ Contact.validate_first_name (sample_ctx empty_store)
           (BaseModel_init Contact.cls []) "first_name" (VStr t) = Ret (VStr t))
  /\ Contact.validate_first_name (sample_ctx empty_store) (BaseModel_init Contact.cls [])
       "first_name" (VFloat FNan) = Raise AttributeError.
Proof.
  destruct (text_validators_normalise Contact.validate_first_name
              ltac:(cbn; auto) (sample_ctx empty_store)
              (BaseModel_init Contact.cls []) "first_name") as [Hs Hother].
  split.
  - destruct (Hs " ann marie ") as [t [Ht Hagain]].
    exists t. split; [exact Ht | apply Hagain; cbn; repeat split; reflexivity].
  - apply Hother. intros s H. discriminate H.
Defined.

(** ** utils/db.py: BaseModel *)

Lemma mem_str_In : forall s l, mem_str s l = true <-> In s l.
Proof.
  intros s l. unfold mem_str. rewrite existsb_exists. split.
  - intros [x [Hx He]]. apply String.eqb_eq in He. subst x. exact Hx.
  - intros H. exists s. split; [exact H | apply String.eqb_refl].
Qed.

(** X4: [BaseModel.__init__] keeps the keyword arguments that name a
    column, with their values, and drops the others; it starts the list of
    errors with one message exactly when some key names no column. *)
Theorem BaseModel_init_keeps_columns_only :
  forall (cls : ModelClass) (kwargs : Row),
    (forall k, In k (dict_keys (attrs (BaseModel_init cls kwargs))) ->
               In k (column_names cls) /\ In k (dict_keys kwargs))
    /\ (forall c, In c (column_names cls) ->
                  getattr (BaseModel_init cls kwargs) c = field kwargs c)
    /\ (validation_errors (BaseModel_init cls kwargs) = [] <->
        forall k, In k (dict_keys kwargs) -> In k (column_names cls))
    /\ (length (validation_errors (BaseModel_init cls kwargs)) <= 1)%nat.
Proof.
  intros cls kwargs. split; [| split; [| split]].
  - intros k Hk. unfold dict_keys in Hk. cbn in Hk.
    apply in_map_iff in Hk. destruct Hk as [[k' v] [<- Hin]].
    apply filter_In in Hin. destruct Hin as [Hin Hmem]. cbn in *.
    split; [apply mem_str_In, Hmem|].
    unfold dict_keys. apply in_map_iff. exists (k', v). split; [reflexivity | exact Hin].
  - intros c Hc. unfold getattr. cbn. apply field_filter_columns, mem_str_In, Hc.
  - cbn. destruct (filter _ (dict_keys kwargs)) as [| k0 rest] eqn:Hunknown.
    + split; [| reflexivity]. intros _ k Hk.
      destruct (mem_str k (column_names cls)) eqn:Hmem; [apply mem_str_In, Hmem|].
      assert (Hin : In k (filter (fun k => negb (mem_str k (column_names cls)))
                            (dict_keys kwargs))).
      { apply filter_In. split; [exact Hk | rewrite Hmem; reflexivity]. }
      rewrite Hunknown in Hin. destruct Hin.
    + split; [discriminate|]. intros Hall. exfalso.
      assert (Hin : In k0 (filter (fun k => negb (mem_str k (column_names cls)))
                             (dict_keys kwargs))).
      { rewrite Hunknown. left. reflexivity. }
      apply filter_In in Hin. destruct Hin as [Hin Hmem].
      apply Hall, mem_str_In in Hin. rewrite Hin in Hmem. discriminate Hmem.
  - cbn. destruct (filter _ (dict_keys kwargs)); cbn; lia.
Qed.

(** *** What [validate] does to the list of errors and to the attributes *)

Lemma validate_column_cases :
  forall cls cx self column self',
    validate_column cls cx self column = Ret self' ->
    (exists r, check_column cls cx self column = Ret r
               /\ self' = match r with
                          | Some value => setattr self (col_name column) value
                          | None => self
                          end)
    \/ (exists msg, check_column cls cx self column = Raise (ValueError msg)
                    /\ self' = append_error self msg).
Proof.
  intros cls cx self column self' H. unfold validate_column in H.
  destruct (check_column cls cx self column) as [r | e]; cbn in H.
  - left. exists r. apply Ret_inj in H. split; [reflexivity | symmetry; exact H].
  - destruct e; try discriminate H. right. exists msg. apply Ret_inj in H.
    split; [reflexivity | symmetry; exact H].
Qed.

Lemma validate_column_errors_grow :
  forall cls cx self column self',
    validate_column cls cx self column = Ret self' ->
    exists more, validation_errors self' = (validation_errors self ++ more)%list.
Proof.
  intros cls cx self column self' H.
  destruct (validate_column_cases _ _ _ _ _ H) as [[r [_ ->]] | [msg [_ ->]]].
  - exists []. rewrite app_nil_r. destruct r; reflexivity.
  - exists [msg]. reflexivity.
Qed.

Lemma validate_columns_errors_grow :
  forall cls cx cols self self',
    validate_columns cls cx cols self = Ret self' ->
    exists more, validation_errors self' = (validation_errors self ++ more)%list.
Proof.
  intros cls cx cols. induction cols as [| c cols IH]; intros self self' H; cbn in H.
  - apply Ret_inj in H. subst. exists []. rewrite app_nil_r. reflexivity.
  - destruct (validate_column cls cx self c) as [s1 | e] eqn:Hc; cbn in H; [| discriminate H].
    destruct (validate_column_errors_grow _ _ _ _ _ Hc) as [m1 H1].
    destruct (IH _ _ H) as [m2 H2].
    exists (m1 ++ m2)%list. rewrite H2, H1, app_assoc. reflexivity.
Qed.

Lemma validate_column_untouched :
  forall cls cx self column self' k,
    validate_column cls cx self column = Ret self' ->
    k <> col_name column -> getattr self' k = getattr self k.
Proof.
  intros cls cx self column self' k H Hk.
  destruct (validate_column_cases _ _ _ _ _ H) as [[r [_ ->]] | [msg [_ ->]]].
  - destruct r; [| reflexivity]. apply getattr_setattr_other. congruence.
  - reflexivity.
Qed.

Lemma validate_columns_untouched :
  forall cls cx cols self self' k,
    validate_columns cls cx cols self = Ret self' ->
    ~ In k (map col_name cols) -> getattr self' k = getattr self k.
Proof.
  intros cls cx cols. induction cols as [| c cols IH]; intros self self' k H Hk; cbn in H.
  - apply Ret_inj in H. subst. reflexivity.
  - destruct (validate_column cls cx self c) as [s1 | e] eqn:Hc; cbn in H; [| discriminate H].
    cbn in Hk. rewrite (IH _ _ k H) by tauto.
    apply (validate_column_untouched _ _ _ _ _ _ Hc). intros ->. tauto.
Qed.

Lemma prefix_app : forall a b, String.prefix a (a ++ b) = true.
Proof.
  induction a as [| c a IH]; intro b; cbn; [destruct b; reflexivity|].
  destruct (ascii_dec c c) as [_ | Hne]; [apply IH | contradiction].
Qed.

(** X5: a record with a key that names no column is never valid: when
    [validate] returns, it returns [False], and the first error is the one
    about the unknown columns, whatever the columns themselves hold. *)
Theorem unknown_column_is_never_valid :
  forall (cls : ModelClass) (cx : Ctx) (kwargs : Row) (k : string)
         (is_valid : bool) (self' : Instance),
    In k (dict_keys kwargs) ->
    mem_str k (column_names cls) = false ->
    validate cls cx (BaseModel_init cls kwargs) = Ret (is_valid, self') ->
    is_valid = false
    /\ exists msg rest,
         validation_errors self' = msg :: rest
         /\ String.prefix "Unknown columns: " msg = true.
Proof.
  intros cls cx kwargs k is_valid self' Hk Hunknown H. unfold validate in H.
  destruct (validate_columns cls cx (columns cls) (BaseModel_init cls kwargs))
    as [s | e] eqn:Hcols; cbn in H; [| discriminate H].
  apply Ret_inj in H. injection H as <- <-.
  destruct (validate_columns_errors_grow _ _ _ _ _ Hcols) as [more Hmore].
  assert (Hinit : exists names,
             validation_errors (BaseModel_init cls kwargs)
             = ["Unknown columns: " ++ join ", " names]).
  { cbn. destruct (filter _ (dict_keys kwargs)) as [| k0 rest] eqn:Hf.
    - exfalso.
      assert (Hin : In k (filter (fun k => negb (mem_str k (column_names cls)))
                            (dict_keys kwargs))).
      { apply filter_In. split; [exact Hk | rewrite Hunknown; reflexivity]. }
      rewrite Hf in Hin. destruct Hin.
    - eexists. reflexivity. }
  destruct Hinit as [names Hinit]. rewrite Hinit in Hmore. rewrite Hmore.
  split; [reflexivity|]. eexists. eexists. split; [reflexivity|]. apply prefix_app.
Qed.

Lemma unknown_column_is_never_valid_witness :
  exists self',
    validate Contact.cls (sample_ctx empty_store)
      (BaseModel_init Contact.cls (sample_contact ++ [("nickname", VStr "Al")])%list)
    = Ret (false, self').
Proof.
  destruct (validate Contact.cls (sample_ctx empty_store)
              (BaseModel_init Contact.cls (sample_contact ++ [("nickname", VStr "Al")])%list))
    as [[is_valid self'] | e] eqn:H.
  - destruct (unknown_column_is_never_valid Contact.cls (sample_ctx empty_store)
                (sample_contact ++ [("nickname", VStr "Al")])%list "nickname"
                is_valid self' ltac:(cbn; tauto) eq_refl H) as [-> _].
    exists self'. reflexivity.
  - vm_compute in H. discriminate H.
Defined.

Lemma NoDup_app_disjoint :
  forall (A : Type) (l1 l2 : list A) x,
    NoDup (l1 ++ l2) -> In x l1 -> ~ In x l2.
Proof.
  intros A l1. induction l1 as [| a l1 IH]; intros l2 x Hnd Hin; [destruct Hin|].
  cbn in Hnd. inversion Hnd as [| a' l' Hna Hnd']; subst.
  destruct Hin as [-> | Hin].
  - intro H2. apply Hna, in_or_app. right. exact H2.
  - apply IH; assumption.
Qed.

Lemma validate_columns_split :
  forall cls cx pre c post self self',
    validate_columns cls cx (pre ++ c :: post) self = Ret self' ->
    exists s1 s2,
      validate_columns cls cx pre self = Ret s1
      /\ validate_column cls cx s1 c = Ret s2
      /\ validate_columns cls cx post s2 = Ret self'.
Proof.
  intros cls cx pre c post self self' H. rewrite validate_columns_app in H.
  destruct (validate_columns cls cx pre self) as [s1 | e]; cbn in H; [| discriminate H].
  destruct (validate_column cls cx s1 c) as [s2 | e] eqn:Hc; cbn in H; [| discriminate H].
  exists s1, s2. repeat split; assumption.
Qed.

(** Where [validate] returned [True]: the state in which a column was
    checked, and what its check left behind. *)
Lemma validate_accepted_at :
  forall cls cx self self' pre c post,
    columns cls = (pre ++ c :: post)%list ->
    NoDup (column_names cls) ->
    validate cls cx self = Ret (true, self') ->
    exists s1 r,
      validate_columns cls cx pre self = Ret s1
      /\ validation_errors self = []
      /\ validation_errors self' = []
      /\ check_column cls cx s1 c = Ret r
      /\ getattr s1 (col_name c) = getattr self (col_name c)
      /\ getattr self' (col_name c)
         = match r with Some v => v | None => getattr self (col_name c) end
      /\ (forall k, In k (map col_name pre) -> getattr s1 k = getattr self' k).
Proof.
  intros cls cx self self' pre c post Hcols Hnd H. unfold validate in H.
  destruct (validate_columns cls cx (columns cls) self) as [s | e] eqn:Hrun; cbn in H;
    [| discriminate H].
  apply Ret_inj in H. injection H as Hnil <-.
  assert (Herr : validation_errors s = []) by (destruct (validation_errors s); [reflexivity | discriminate Hnil]).
  unfold column_names in Hnd. rewrite Hcols in Hrun, Hnd.
  destruct (validate_columns_split _ _ _ _ _ _ _ Hrun) as [s1 [s2 [Hpre [Hc Hpost]]]].
  destruct (validate_columns_errors_grow _ _ _ _ _ Hpre) as [m1 H1].
  destruct (validate_column_errors_grow _ _ _ _ _ Hc) as [m2 H2].
  destruct (validate_columns_errors_grow _ _ _ _ _ Hpost) as [m3 H3].
  rewrite Herr in H3. symmetry in H3. apply app_eq_nil in H3. destruct H3 as [Hs2 _].
  rewrite Hs2 in H2. symmetry in H2. apply app_eq_nil in H2. destruct H2 as [Hs1 _].
  rewrite Hs1 in H1. symmetry in H1. apply app_eq_nil in H1. destruct H1 as [Hs0 _].
  rewrite map_app in Hnd. cbn [map] in Hnd.
  assert (Hnot_pre : ~ In (col_name c) (map col_name pre)).
  { intro Hin. apply (NoDup_app_disjoint _ _ _ _ Hnd Hin). left. reflexivity. }
  assert (Hnot_post : ~ In (col_name c) (map col_name post)).
  { apply NoDup_app_remove_l in Hnd. inversion Hnd; assumption. }
  assert (Hat : getattr s1 (col_name c) = getattr self (col_name c))
    by exact (validate_columns_untouched _ _ _ _ _ _ Hpre Hnot_pre).
  destruct (validate_column_cases _ _ _ _ _ Hc) as [[r [Hcheck Hs2eq]] | [msg [_ Hs2eq]]].
  - exists s1, r. split; [exact Hpre|]. split; [exact Hs0|]. split; [exact Herr|].
    split; [exact Hcheck|]. split; [exact Hat|]. split.
    + rewrite (validate_columns_untouched _ _ _ _ _ _ Hpost Hnot_post). subst s2.
      destruct r; [apply getattr_setattr_same | exact Hat].
    + intros k Hk.
      assert (Hk_post : ~ In k (map col_name post)).
      { intro Hin. apply (NoDup_app_disjoint _ _ _ _ Hnd Hk). right. exact Hin. }
      rewrite (validate_columns_untouched _ _ _ _ _ _ Hpost Hk_post).
      symmetry. apply (validate_column_untouched _ _ _ _ _ _ Hc).
      intros ->. contradiction.
  - subst s2. cbn in Hs2. destruct (validation_errors s1); discriminate Hs2.
Qed.

Lemma check_column_ret :
  forall cls cx self c r,
    check_column cls cx self c = Ret r ->
    (nullable c = false -> is_none (getattr self (col_name c)) = false)
    /\ match validator_of cls (col_name c) with
       | Some f =>
           exists out, f cx self (col_name c) (getattr self (col_name c)) = Ret out
                       /\ r = Some out
       | None => r = None
       end.
Proof.
  intros cls cx self c r H. unfold check_column in H. split.
  - intros Hnull. rewrite Hnull in H.
    destruct (getattr self (col_name c)); [discriminate H | reflexivity ..].
  - assert (Hrun : match validator_of cls (col_name c) with
                   | Some validator =>
                       value' <- validator cx self (col_name c) (getattr self (col_name c)) ;;
                       Ret (Some value')
                   | None => Ret None
                   end = Ret r).
    { destruct (getattr self (col_name c)), (nullable c); try exact H; discriminate H. }
    destruct (validator_of cls (col_name c)) as [f |].
    + destruct (f cx self (col_name c) (getattr self (col_name c))) as [v | e];
        cbn in Hrun; [| discriminate Hrun].
      apply Ret_inj in Hrun. exists v. split; [reflexivity | symmetry; exact Hrun].
    + apply Ret_inj in Hrun. symmetry. exact Hrun.
Qed.

(** What an accepted instance tells about each column. *)
Lemma validate_accepted_columns :
  forall cls cx self self',
    NoDup (column_names cls) ->
    validate cls cx self = Ret (true, self') ->
    validation_errors self = []
    /\ validation_errors self' = []
    /\ forall c, In c (columns cls) ->
         (nullable c = false -> is_none (getattr self (col_name c)) = false)
         /\ match validator_of cls (col_name c) with
            | Some f =>
                exists at_call,
                  f cx at_call (col_name c) (getattr self (col_name c))
                  = Ret (getattr self' (col_name c))
            | None => getattr self' (col_name c) = getattr self (col_name c)
            end.
Proof.
  intros cls cx self self' Hnd H.
  assert (Herrs : validation_errors self = [] /\ validation_errors self' = []).
  { unfold validate in H.
    destruct (validate_columns cls cx (columns cls) self) as [s | e] eqn:Hrun; cbn in H;
      [| discriminate H].
    apply Ret_inj in H. injection H as Hnil <-.
    destruct (validate_columns_errors_grow _ _ _ _ _ Hrun) as [m Hm].
    destruct (validation_errors s); [| discriminate Hnil].
    symmetry in Hm. apply app_eq_nil in Hm. tauto. }
  split; [tauto|]. split; [tauto|].
  intros c Hc. destruct (in_split _ _ Hc) as [pre [post Hcols]].
  destruct (validate_accepted_at _ _ _ _ _ _ _ Hcols Hnd H)
    as [s1 [r [_ [_ [_ [Hcheck [Hat [Hout _]]]]]]]].
  unfold check_column in Hcheck. rewrite Hat in Hcheck. split.
  - intros Hnull. rewrite Hnull in Hcheck.
    destruct (getattr self (col_name c)); [discriminate Hcheck | reflexivity ..].
  - destruct (validator_of cls (col_name c)) as [f |].
    + exists s1.
      assert (Hrun : (value' <- f cx s1 (col_name c) (getattr self (col_name c)) ;;
                      Ret (Some value')) = Ret r).
      { destruct (getattr self (col_name c)), (nullable c);
          try exact Hcheck; discriminate Hcheck. }
      destruct (f cx s1 (col_name c) (getattr self (col_name c))) as [v | e];
        cbn in Hrun; [| discriminate Hrun].
      apply Ret_inj in Hrun. subst r. rewrite Hout. reflexivity.
    + assert (Hrun : Ret None = Ret r).
      { destruct (getattr self (col_name c)), (nullable c);
          try exact Hcheck; discriminate Hcheck. }
      apply Ret_inj in Hrun. subst r. exact Hout.
Qed.

(** X6: what [True] from [validate] means.  The instance had no error
    before the call and has none after; no column that is not nullable held
    [None]; every column with a validator holds what its validator returned
    for the value the column had, and the other columns are as they were. *)
Theorem validate_true_means_checks_passed :
  forall (cls : ModelClass) (cx : Ctx) (self self' : Instance),
    NoDup (column_names cls) ->
    validate cls cx self = Ret (true, self') ->
    validation_errors self = []
    /\ validation_errors self' = []
    /\ forall c, In c (columns cls) ->
         (nullable c = false -> is_none (getattr self (col_name c)) = false)
         /\ match validator_of cls (col_name c) with
            | Some f =>
                exists at_call,
                  f cx at_call (col_name c) (getattr self (col_name c))
                  = Ret (getattr self' (col_name c))
            | None => getattr self' (col_name c) = getattr self (col_name c)
            end.
Proof. exact validate_accepted_columns. Qed.

Lemma Contact_columns_NoDup : NoDup (column_names Contact.cls).
Proof. cbn. solve_NoDup. Qed.

Lemma Company_columns_NoDup : NoDup (column_names Company.cls).
Proof. cbn. solve_NoDup. Qed.

Lemma Activity_columns_NoDup : NoDup (column_names Activity.cls).
Proof. cbn. solve_NoDup. Qed.

Lemma validate_true_means_checks_passed_witness :
  validation_errors (BaseModel_init Contact.cls sample_contact) = []
  /\ is_none (getattr (BaseModel_init Contact.cls sample_contact) "email") = false.
Proof.
  destruct (validate Contact.cls (sample_ctx empty_store)
              (BaseModel_init Contact.cls sample_contact))
    as [[is_valid self'] | e] eqn:H; [| vm_compute in H; discriminate H].
  assert (Hv : is_valid = true).
  { vm_compute in H. apply Ret_inj in H. injection H as <- _. reflexivity. }
  subst is_valid.
  destruct (validate_true_means_checks_passed Contact.cls (sample_ctx empty_store)
              (BaseModel_init Contact.cls sample_contact) self'
              Contact_columns_NoDup H) as [Hbefore [_ Hcols]].
  split; [exact Hbefore|].
  apply (proj1 (Hcols (col "email" false) ltac:(cbn; tauto))). reflexivity.
Defined.

(** X7: [as_dict] gives the columns of the table, each once and in the
    order of the table, with the attribute of the instance as value; of the
    keyword arguments an instance was built from, the columns come back with
    their values, a column that was not given reads [None], and a key that
    names no column is not there. *)
Theorem as_dict_gives_the_columns :
  forall (cls : ModelClass) (self : Instance) (kwargs : Row),
    dict_keys (as_dict cls self) = column_names cls
    /\ (forall c, In c (column_names cls) -> field (as_dict cls self) c = getattr self c)
    /\ (forall c, In c (column_names cls) ->
                  field (as_dict cls (BaseModel_init cls kwargs)) c = field kwargs c)
    /\ (forall k, ~ In k (column_names cls) ->
                  dict_get (as_dict cls (BaseModel_init cls kwargs)) k = None).
Proof.
  intros cls self kwargs. split; [| split; [| split]].
  - unfold dict_keys, as_dict, column_names. rewrite map_map. reflexivity.
  - intros c Hc. apply field_as_dict, Hc.
  - intros c Hc. rewrite (field_as_dict _ _ _ Hc). unfold getattr. cbn.
    apply field_filter_columns, mem_str_In, Hc.
  - intros k Hk. unfold as_dict, column_names in *.
    induction (columns cls) as [| c cols IH]; cbn; [reflexivity|].
    destruct (String.eqb_spec (col_name c) k) as [Heq | Hne].
    + exfalso. apply Hk. left. exact Heq.
    + apply IH. intro Hin. apply Hk. right. exact Hin.
Qed.

(** ** models/*.py: the validators of dates *)

Lemma standardize_datetime_aware :
  forall E v out,
    standardize_datetime E v = Ret out -> exists t, out = VDatetime t true.
Proof.
  intros E v out H. destruct v; cbn in H; try discriminate H.
  - destruct (dateutil_parse E s) as [t | e]; cbn in H; [| discriminate H].
    apply Ret_inj in H. exists t. symmetry. exact H.
  - apply Ret_inj in H. exists t. symmetry. exact H.
Qed.

(** The three validators of a creation date, by cases on what
    [standardize_datetime] does with the value. *)
Lemma created_date_cases :
  forall f, In f created_date_validators ->
  forall cx self key v,
    (exists t, standardize_datetime (ext cx) v = Ret (VDatetime t true)
               /\ t <= now cx /\ f cx self key v = Ret (VDatetime t true))
    \/ (exists msg, f cx self key v = Raise (ValueError msg)
                    /\ forall t, standardize_datetime (ext cx) v = Ret (VDatetime t true) ->
                                 now cx < t).
Proof.
  intros f Hf cx self key v. cbn in Hf.
  repeat (destruct Hf as [<- | Hf]); try contradiction;
    cbv beta delta [Company.validate_created_date Contact.validate_created_date
                    Opportunity.validate_created_date standardize_or try_except];
    (destruct (standardize_datetime (ext cx) v) as [out | e] eqn:Hstd;
     [ destruct (standardize_datetime_aware _ _ _ Hstd) as [t ->];
       cbn; destruct (Z.ltb_spec (now cx) t) as [Hlt | Hge];
       [ right; eexists; split; [reflexivity|];
         intros t' Ht'; apply Ret_inj in Ht'; injection Ht' as <-; exact Hlt
       | left; exists t; split; [reflexivity | split; [exact Hge | reflexivity]] ]
     | right; eexists; split; [reflexivity|]; intros t' Ht'; discriminate Ht' ]).
Qed.

(** X8: the validators of [created_date] (of a company, a contact and an
    opportunity) accept a value exactly when [standardize_datetime] reads it
    as an instant that is not after the clock, and return that instant with
    its time zone; whatever else they are given, they raise [ValueError]
    and nothing else, so [validate] reports it. *)
Theorem created_date_not_in_future :
  forall (f : Validator),
    In f created_date_validators ->
    forall (cx : Ctx) (self : Instance) (key : string) (v : PyVal),
      (forall out, f cx self key v = Ret out <->
                   exists t, standardize_datetime (ext cx) v = Ret (VDatetime t true)
                             /\ t <= now cx /\ out = VDatetime t true)
      /\ (forall e, f cx self key v = Raise e -> exists msg, e = ValueError msg).
Proof.
  intros f Hf cx self key v.
  destruct (created_date_cases f Hf cx self key v)
    as [[t [Hstd [Hle Hrun]]] | [msg [Hrun Hlate]]].
  - split.
    + intro out. rewrite Hrun. split.
      * intro H. apply Ret_inj in H. subst out. exists t. repeat split; assumption.
      * intros [t' [Hstd' [_ ->]]]. rewrite Hstd in Hstd'. exact Hstd'.
    + intros e H. rewrite Hrun in H. discriminate H.
  - split.
    + intro out. rewrite Hrun. split; [discriminate|].
      intros [t [Hstd [Hle _]]]. specialize (Hlate t Hstd). lia.
    + intros e H. rewrite Hrun in H. injection H as <-. exists msg. reflexivity.
Qed.

Lemma created_date_not_in_future_witness :
  Company.validate_created_date (sample_ctx empty_store) (BaseModel_init Company.cls [])
    "created_date" (VStr "2024-06-15T08:45:00") = Ret (VDatetime 1718441100 true).
Proof.
  destruct (created_date_not_in_future Company.validate_created_date
              ltac:(cbn; tauto) (sample_ctx empty_store)
              (BaseModel_init Company.cls []) "created_date"
              (VStr "2024-06-15T08:45:00")) as [Hiff _].
  apply Hiff. exists 1718441100.
  split; [reflexivity|]. split; [vm_compute; discriminate | reflexivity].
Defined.

Lemma validate_last_modified_accepts :
  forall cx self key v out,
    Contact.validate_last_modified cx self key v = Ret out ->
    exists m c,
      out = VDatetime m true /\ m <= now cx
      /\ getattr self "created_date" = VDatetime c true /\ c <= m.
Proof.
  intros cx self key v out H.
  unfold Contact.validate_last_modified, standardize_or, try_except in H.
  destruct (standardize_datetime (ext cx) v) as [std | e] eqn:Hstd; cbn in H;
    [| discriminate H].
  destruct (standardize_datetime_aware _ _ _ Hstd) as [m ->]. cbn in H.
  destruct (Z.ltb_spec (now cx) m) as [Hlt | Hge]; [discriminate H|].
  destruct (getattr self "created_date") as [| | | | | c a]; cbn in H; try discriminate H.
  destruct a; cbn in H; [| discriminate H].
  destruct (Z.ltb_spec m c) as [Hlt | Hge']; [discriminate H|].
  apply Ret_inj in H. subst out. exists m, c. repeat split; assumption.
Qed.

Lemma accepted_contact_dates :
  forall cx self self',
    validate Contact.cls cx self = Ret (true, self') ->
    exists c m,
      getattr self' "created_date" = VDatetime c true
      /\ getattr self' "last_modified" = VDatetime m true
      /\ c <= m <= now cx.
Proof.
  intros cx self self' H.
  destruct (validate_accepted_at Contact.cls cx self self'
              [col "id" false; col "status_id" false; col "company_id" false;
               col "email" false; col "first_name" false; col "last_name" false;
               col "title" false; col "phone" true; col "created_date" false]
              (col "last_modified" false) [] eq_refl Contact_columns_NoDup H)
    as [s1 [r [_ [_ [_ [Hcheck [Hat [Hout Hpre]]]]]]]].
  cbn [col_name nullable col] in Hat, Hout.
  destruct (check_column_ret _ _ _ _ _ Hcheck) as [_ Hrun].
  cbn [col_name col] in Hrun.
  change (validator_of Contact.cls "last_modified")
    with (Some Contact.validate_last_modified) in Hrun.
  destruct Hrun as [out [Hrun ->]].
  destruct (validate_last_modified_accepts _ _ _ _ _ Hrun) as [m [c [-> [Hnow [Hc Hcm]]]]].
  exists c, m. split; [| split; [exact Hout | lia]].
  rewrite <- Hc. symmetry. apply Hpre. cbn. tauto.
Qed.

(** X9: a contact [validate] accepts has its two dates in order: both are
    instants with a time zone, the creation is not after the modification,
    and the modification is not after the clock. *)
Theorem valid_contact_dates_ordered :
  forall (cx : Ctx) (self self' : Instance),
    validate Contact.cls cx self = Ret (true, self') ->
    exists c m,
      getattr self' "created_date" = VDatetime c true
      /\ getattr self' "last_modified" = VDatetime m true
      /\ c <= m <= now cx.
Proof. exact accepted_contact_dates. Qed.

Lemma valid_contact_dates_ordered_witness :
  exists self' c m,
    validate Contact.cls (sample_ctx empty_store) (BaseModel_init Contact.cls sample_contact)
    = Ret (true, self')
    /\ getattr self' "created_date" = VDatetime c true
    /\ getattr self' "last_modified" = VDatetime m true
    /\ c <= m <= sample_now.
Proof.
  destruct (validate Contact.cls (sample_ctx empty_store)
              (BaseModel_init Contact.cls sample_contact))
    as [[is_valid self'] | e] eqn:H; [| vm_compute in H; discriminate H].
  assert (Hv : is_valid = true).
  { vm_compute in H. apply Ret_inj in H. injection H as <- _. reflexivity. }
  subst is_valid.
  destruct (valid_contact_dates_ordered (sample_ctx empty_store)
              (BaseModel_init Contact.cls sample_contact) self' H) as [c [m Hcm]].
  exists self', c, m. split; [reflexivity | exact Hcm].
Defined.

(** ** utils/db.py: when [validate] returns *)

(** In a class whose validators look at their own field only, [validate]
    returns exactly when no check raises anything but [ValueError]. *)
Lemma validate_returns_iff_no_escape :
  forall cls cx self,
    NoDup (column_names cls) ->
    self_independent cls ->
    ((exists r, validate cls cx self = Ret r) <->
     forall c, In c (columns cls) -> field_escapes cls cx self c = false).
Proof.
  intros cls cx self Hnd Hind. split.
  - intros [[is_valid self'] H] c Hc. unfold validate in H.
    destruct (validate_columns cls cx (columns cls) self) as [s | e] eqn:Hrun;
      cbn in H; [| discriminate H].
    destruct (in_split _ _ Hc) as [pre [post Hcols]].
    unfold column_names in Hnd. rewrite Hcols in Hrun, Hnd.
    destruct (validate_columns_split _ _ _ _ _ _ _ Hrun) as [s1 [s2 [Hpre [Hcol _]]]].
    rewrite map_app in Hnd. cbn [map] in Hnd.
    assert (Hnot_pre : ~ In (col_name c) (map col_name pre)).
    { intro Hin. apply (NoDup_app_disjoint _ _ _ _ Hnd Hin). left. reflexivity. }
    pose proof (validate_columns_untouched _ _ _ _ _ _ Hpre Hnot_pre) as Hat.
    unfold field_escapes.
    rewrite <- (check_column_agree cls cx s1 self c Hind Hat).
    destruct (validate_column_cases _ _ _ _ _ Hcol) as [[r [-> _]] | [msg [-> _]]];
      reflexivity.
  - intros Hesc.
    destruct (validate_columns_collects cls cx self Hind (columns cls) self Hnd
                (fun _ _ => eq_refl) Hesc) as [self' [Hrun _]].
    eexists. unfold validate. rewrite Hrun. reflexivity.
Qed.

Lemma field_escapes_without_validator :
  forall cls cx self c,
    validator_of cls (col_name c) = None -> field_escapes cls cx self c = false.
Proof.
  intros cls cx self c Hv. unfold field_escapes, check_column. rewrite Hv.
  destruct (getattr self (col_name c)), (nullable c); reflexivity.
Qed.

(** The check of a column that may not be null, when the column has a
    validator that raises [AttributeError] on what is no string and nothing
    but [ValueError] on a string. *)
Lemma field_escapes_text :
  forall cls cx self name (f : Validator),
    validator_of cls name = Some f ->
    (forall s, match f cx self name (VStr s) with
               | Raise (ValueError _) | Ret _ => True
               | Raise _ => False
               end) ->
    (forall v, (forall s, v <> VStr s) -> f cx self name v = Raise AttributeError) ->
    (field_escapes cls cx self (col name false) = false
     <-> text_or_none (getattr self name)).
Proof.
  intros cls cx self name f Hv Hstr Hother.
  unfold field_escapes, check_column. cbn [col_name nullable col]. rewrite Hv.
  destruct (getattr self name) as [| b | z | q | s | t a] eqn:Hval.
  - split; [left; reflexivity | reflexivity].
  - rewrite Hother by discriminate. cbn. split; [discriminate|].
    intros [H | [s H]]; discriminate H.
  - rewrite Hother by discriminate. cbn. split; [discriminate|].
    intros [H | [s H]]; discriminate H.
  - rewrite Hother by discriminate. cbn. split; [discriminate|].
    intros [H | [s H]]; discriminate H.
  - split; [intros _; right; exists s; reflexivity|]. intros _.
    specialize (Hstr s). destruct (f cx self name (VStr s)) as [out | []]; cbn;
      try reflexivity; contradiction.
  - rewrite Hother by discriminate. cbn. split; [discriminate|].
    intros [H | [s H]]; discriminate H.
Qed.

Lemma standardize_or_no_escape :
  forall cx key raw advice,
    match standardize_or cx key raw advice with
    | Raise (ValueError _) | Ret _ => True
    | Raise _ => False
    end.
Proof.
  intros cx key raw advice. unfold standardize_or, try_except.
  destruct (standardize_datetime (ext cx) raw); exact I.
Qed.

(** X10: [validate] of an activity returns (with [True] or [False])
    exactly when its type, its subject and its outcome each hold a text or
    [None]; the checks of the other columns, the time stamp and the duration
    included, raise nothing but [ValueError]. *)
Theorem Activity_validate_returns_iff :
  forall (cx : Ctx) (self : Instance),
    (exists r, validate Activity.cls cx self = Ret r)
    <-> text_or_none (getattr self "type")
        /\ text_or_none (getattr self "subject")
        /\ text_or_none (getattr self "outcome").
Proof.
  intros cx self.
  rewrite (validate_returns_iff_no_escape Activity.cls cx self
             Activity_columns_NoDup Activity_self_independent).
  assert (Htext : forall name (f : Validator) (g : string -> string),
             validator_of Activity.cls name = Some f ->
             (forall v, f cx self name v = (s <- as_str v ;; Ret (VStr (g s)))) ->
             (field_escapes Activity.cls cx self (col name false) = false
              <-> text_or_none (getattr self name))).
  { intros name f g Hv Hf. apply (field_escapes_text _ _ _ _ f Hv).
    - intro s. rewrite Hf. exact I.
    - intros v Hvne. rewrite Hf. destruct v; try reflexivity.
      exfalso. exact (Hvne s eq_refl). }
  pose proof (Htext "type" Activity.validate_type _ eq_refl (fun _ => eq_refl)) as Htype.
  pose proof (Htext "subject" Activity.validate_subject _ eq_refl (fun _ => eq_refl))
    as Hsubject.
  pose proof (Htext "outcome" Activity.validate_outcome _ eq_refl (fun _ => eq_refl))
    as Houtcome.
  split.
  - intros Hesc. split; [| split].
    + apply Htype, Hesc. cbn. tauto.
    + apply Hsubject, Hesc. cbn. tauto.
    + apply Houtcome, Hesc. cbn. tauto.
  - intros [Ht [Hs Ho]] c Hc. cbn in Hc.
    destruct Hc as [<- | [<- | [<- | [<- | [<- | [<- | [<- | [<- | [<- | []]]]]]]]]].
    + apply field_escapes_without_validator. reflexivity.
    + apply field_escapes_without_validator. reflexivity.
    + apply field_escapes_without_validator. reflexivity.
    + apply Htype, Ht.
    + apply Hsubject, Hs.
    + unfold field_escapes, check_column. cbn [col_name nullable col].
      change (validator_of Activity.cls "timestamp") with (Some Activity.validate_timestamp).
      unfold Activity.validate_timestamp.
      pose proof (standardize_or_no_escape cx "timestamp" (getattr self "timestamp")
                    "Please consider ISO 8601 format.") as Hstd.
      destruct (getattr self "timestamp"); try reflexivity;
        destruct (standardize_or _ _ _ _) as [out | []]; cbn; try reflexivity;
        contradiction.
    + unfold field_escapes, check_column. cbn [col_name nullable col].
      change (validator_of Activity.cls "duration_minutes")
        with (Some Activity.validate_duration_minutes).
      unfold Activity.validate_duration_minutes.
      destruct (getattr self "duration_minutes") as [| b | z | q | s | t a];
        try reflexivity.
      destruct (0 <=? z); reflexivity.
    + apply Houtcome, Ho.
    + apply field_escapes_without_validator. reflexivity.
Qed.

Lemma validate_size_no_escape :
  forall cx self key s,
    match Company.validate_size cx self key (VStr s) with
    | Raise (ValueError _) | Ret _ => True
    | Raise _ => False
    end.
Proof.
  intros cx self key s. rewrite validate_size_unfold. cbv zeta.
  destruct (contains "+" (strip s) && negb (endswith "+" (strip s))); [exact I|].
  destruct (split "-" (strip s)) as [| p0 [| p1 [| p2 rest]]]; try exact I.
  rewrite !py_int_str.
  destruct (int_of_str p0) as [a |]; [| exact I].
  destruct (int_of_str p1) as [b |]; [| exact I].
  destruct (a >? b); exact I.
Qed.

(** X11: [validate] of a company returns exactly when its name, its
    domain, its size and its country each hold a text or [None]: on a text
    the four validators and the one of the creation date raise nothing but
    [ValueError]; on a number (a missing cell of the file is read as NaN)
    they raise [AttributeError], which leaves [validate]. *)
Theorem Company_validate_returns_iff :
  forall (cx : Ctx) (self : Instance),
    (exists r, validate Company.cls cx self = Ret r)
    <-> text_or_none (getattr self "name")
        /\ text_or_none (getattr self "domain")
        /\ text_or_none (getattr self "size")
        /\ text_or_none (getattr self "country").
Proof.
  intros cx self.
  rewrite (validate_returns_iff_no_escape Company.cls cx self
             Company_columns_NoDup Company_self_independent).
  assert (Hother : forall (f : Validator) name,
             (forall v, as_str v = Raise AttributeError ->
                        f cx self name v = Raise AttributeError) ->
             forall v, (forall s, v <> VStr s) -> f cx self name v = Raise AttributeError).
  { intros f name Hf v Hv. apply Hf. destruct v; try reflexivity.
    exfalso. exact (Hv s eq_refl). }
  assert (Hname : field_escapes Company.cls cx self (col "name" false) = false
                  <-> text_or_none (getattr self "name")).
  { apply (field_escapes_text Company.cls cx self "name" Company.validate_name eq_refl).
    - intro s. exact I.
    - apply Hother. intros v Hv. unfold Company.validate_name. rewrite Hv. reflexivity. }
  assert (Hdomain : field_escapes Company.cls cx self (col "domain" false) = false
                    <-> text_or_none (getattr self "domain")).
  { apply (field_escapes_text Company.cls cx self "domain" Company.validate_domain eq_refl).
    - intro s. cbn. destruct (validators_domain (ext cx) (strip s)); exact I.
    - apply Hother. intros v Hv. unfold Company.validate_domain. rewrite Hv. reflexivity. }
  assert (Hsize : field_escapes Company.cls cx self (col "size" false) = false
                  <-> text_or_none (getattr self "size")).
  { apply (field_escapes_text Company.cls cx self "size" Company.validate_size eq_refl).
    - intro s. apply validate_size_no_escape.
    - apply Hother. intros v Hv. unfold Company.validate_size. rewrite Hv. reflexivity. }
  assert (Hcountry : field_escapes Company.cls cx self (col "country" false) = false
                     <-> text_or_none (getattr self "country")).
  { apply (field_escapes_text Company.cls cx self "country" Company.validate_country eq_refl).
    - intro s. cbn. destruct (cc_convert (ext cx) (upper (strip s))); exact I.
    - apply Hother. intros v Hv. unfold Company.validate_country. rewrite Hv. reflexivity. }
  split.
  - intros Hesc. repeat split.
    + apply Hname, Hesc. cbn. tauto.
    + apply Hdomain, Hesc. cbn. tauto.
    + apply Hsize, Hesc. cbn. tauto.
    + apply Hcountry, Hesc. cbn. tauto.
  - intros [Hn [Hd [Hs Hc]]] c Hin. cbn in Hin.
    destruct Hin as [<- | [<- | [<- | [<- | [<- | [<- | [<- | [<- | [<- | []]]]]]]]]].
    + apply field_escapes_without_validator. reflexivity.
    + apply field_escapes_without_validator. reflexivity.
    + apply Hname, Hn.
    + apply Hdomain, Hd.
    + apply Hsize, Hs.
    + apply Hcountry, Hc.
    + unfold field_escapes, check_column. cbn [col_name nullable col].
      change (validator_of Company.cls "created_date")
        with (Some Company.validate_created_date).
      destruct (created_date_cases Company.validate_created_date ltac:(cbn; tauto)
                  cx self "created_date" (getattr self "created_date"))
        as [[t [_ [_ Hrun]]] | [msg [Hrun _]]];
        rewrite Hrun; destruct (getattr self "created_date"); reflexivity.
    + apply field_escapes_without_validator. reflexivity.
    + apply field_escapes_without_validator. reflexivity.
Qed.

(** ** etl/pipeline.py: what a run leaves behind *)

(** X12: a run only adds.  Whether it returns or raises, every table
    holds afterwards the rows it held before, in place, followed by the rows
    the run committed, and the reports written earlier are still there. *)
Theorem run_only_appends :
  forall (E : Ext) (self : Pipeline) (w : World),
    (forall t, exists added,
        store (snd (run E self w)) t = (store w t ++ added)%list)
    /\ (exists reports,
          written (snd (run E self w)) = (written w ++ reports)%list).
Proof.
  intros E self w.
  destruct (frame_run E self w (fst (run E self w)) (snd (run E self w))
              (surjective_pairing _)) as [Hstore [_ [_ [_ Hwritten]]]].
  split; [exact Hstore | exact Hwritten].
Qed.

(** *** Only [log_errors] writes *)

Lemma writes_nothing_ret : forall (A : Type) (a : A), writes_nothing (ret a).
Proof. intros A a w r w' H. injection H as _ <-. reflexivity. Qed.

Lemma writes_nothing_lift : forall (A : Type) (r : PyRes A), writes_nothing (lift r).
Proof. intros A r0 w r w' H. injection H as _ <-. reflexivity. Qed.

Lemma writes_nothing_get_world : writes_nothing get_world.
Proof. intros w r w' H. injection H as _ <-. reflexivity. Qed.

Lemma writes_nothing_bind :
  forall (A B : Type) (m : M A) (k : A -> M B),
    writes_nothing m -> (forall a, writes_nothing (k a)) -> writes_nothing (bind m k).
Proof.
  intros A B m k Hm Hk w r w' H. unfold bind in H.
  destruct (m w) as [[a | e] w1] eqn:Hmw.
  - rewrite (Hk a _ _ _ H). exact (Hm _ _ _ Hmw).
  - injection H as _ <-. exact (Hm _ _ _ Hmw).
Qed.

Lemma writes_nothing_for_each :
  forall (A : Type) (l : list A) (body : A -> M unit),
    (forall x, writes_nothing (body x)) -> writes_nothing (for_each l body).
Proof.
  intros A l body Hbody. induction l as [| x l IH]; cbn [for_each].
  - apply writes_nothing_ret.
  - apply writes_nothing_bind; [apply Hbody | intros _; exact IH].
Qed.

Lemma writes_nothing_fold_m :
  forall (A B : Type) (f : B -> A -> M B) (l : list A) (acc : B),
    (forall b a, writes_nothing (f b a)) -> writes_nothing (fold_m f l acc).
Proof.
  intros A B f l. induction l as [| x l IH]; intros acc Hf; cbn [fold_m].
  - apply writes_nothing_ret.
  - apply writes_nothing_bind; [apply Hf | intros b; apply IH, Hf].
Qed.

Lemma writes_nothing_record_error :
  forall key e, writes_nothing (record_error key e).
Proof.
  intros key e w r w' H. unfold record_error in H.
  destruct (mem_str key _); injection H as _ <-; reflexivity.
Qed.

Lemma writes_nothing_bulk_save_objects :
  forall cls objs, writes_nothing (bulk_save_objects cls objs).
Proof.
  intros cls objs w r w' H. unfold bulk_save_objects in H.
  destruct (insert_rows _ _ _); injection H as _ <-; reflexivity.
Qed.

Lemma writes_nothing_process_sub_entities :
  forall cls entities column, writes_nothing (process_sub_entities cls entities column).
Proof.
  intros cls entities column. unfold process_sub_entities.
  apply writes_nothing_bind.
  { unfold read_column.
    destruct (has_column _ _); [apply writes_nothing_ret | apply writes_nothing_lift]. }
  intros values. apply writes_nothing_bind; [apply writes_nothing_lift|].
  intros cleaned. apply writes_nothing_bind; [apply writes_nothing_get_world|].
  intros w0. apply writes_nothing_bind; [apply writes_nothing_bulk_save_objects|].
  intros _. apply writes_nothing_bind; [apply writes_nothing_get_world|].
  intros w1. apply writes_nothing_ret.
Qed.

Section LoaderWrites.
Variable E : Ext.

Lemma writes_nothing_load_batch :
  forall cls key prepare batch, writes_nothing (load_batch E cls key prepare batch).
Proof.
  intros cls key prepare batch. unfold load_batch.
  apply writes_nothing_bind; [apply writes_nothing_lift|].
  intros entity_map. apply writes_nothing_bind; [apply writes_nothing_get_world|].
  intros w0. apply writes_nothing_bind.
  - apply writes_nothing_fold_m. intros tc data. unfold stage_record.
    apply writes_nothing_bind; [apply writes_nothing_lift|].
    intros d. apply writes_nothing_bind; [apply writes_nothing_get_world|].
    intros w1. apply writes_nothing_bind; [apply writes_nothing_lift|].
    intros [is_valid obj']. destruct (negb is_valid); [| apply writes_nothing_ret].
    apply writes_nothing_bind;
      [apply writes_nothing_record_error | intros _; apply writes_nothing_ret].
  - intros to_create. apply writes_nothing_bulk_save_objects.
Qed.

Lemma writes_nothing_loaders :
  forall self,
    writes_nothing
      (_ <~ process_companies E self ;;
       _ <~ process_contacts E self ;;
       _ <~ process_opportunities E self ;;
       process_activities E self).
Proof.
  intros self.
  apply writes_nothing_bind.
  { unfold process_companies.
    apply writes_nothing_bind; [apply writes_nothing_get_world|]. intros w0.
    apply writes_nothing_for_each. intros chunk.
    apply writes_nothing_bind; [apply writes_nothing_process_sub_entities|].
    intros m. apply writes_nothing_load_batch. }
  intros _. apply writes_nothing_bind.
  { unfold process_contacts.
    apply writes_nothing_bind; [apply writes_nothing_get_world|]. intros w0.
    apply writes_nothing_bind; [apply writes_nothing_lift|]. intros df.
    apply writes_nothing_bind; [apply writes_nothing_process_sub_entities|].
    intros m. apply writes_nothing_load_batch. }
  intros _. apply writes_nothing_bind.
  { unfold process_opportunities.
    apply writes_nothing_bind; [apply writes_nothing_get_world|]. intros w0.
    apply writes_nothing_for_each. intros chunk.
    apply writes_nothing_bind; [apply writes_nothing_process_sub_entities|]. intros m1.
    apply writes_nothing_bind; [apply writes_nothing_process_sub_entities|]. intros m2.
    apply writes_nothing_bind; [apply writes_nothing_process_sub_entities|]. intros m3.
    apply writes_nothing_load_batch. }
  intros _. unfold process_activities.
  apply writes_nothing_bind; [apply writes_nothing_get_world|]. intros w0.
  apply writes_nothing_load_batch.
Qed.
End LoaderWrites.

Lemma run_as_loaders :
  forall E self w,
    run E self w =
    match (_ <~ process_companies E self ;;
           _ <~ process_contacts E self ;;
           _ <~ process_opportunities E self ;;
           process_activities E self) w with
    | (Ret _, wm) =>
        if any_errors (class_validation_errors wm) then log_errors self wm
        else (Ret tt, wm)
    | (Raise e, wm) => (Raise e, wm)
    end.
Proof.
  intros E self w. unfold run, bind, get_world, ret.
  destruct (process_companies E self w) as [[[] | e] wa]; [| reflexivity].
  destruct (process_contacts E self wa) as [[[] | e] wb]; [| reflexivity].
  destruct (process_opportunities E self wb) as [[[] | e] wc]; [| reflexivity].
  destruct (process_activities E self wc) as [[[] | e] wm]; [| reflexivity].
  destruct (any_errors (class_validation_errors wm)); reflexivity.
Qed.

(** X13: a run that returns has written at most one report: one file under
    its [errors_path], holding the whole class-level log as it is at the end,
    when that log has an error, and nothing when it has none.  The four
    loaders write nothing, whether they return or raise: a report is the work
    of [log_errors] alone. *)
Theorem run_writes_one_report_iff_errors :
  forall (E : Ext) (self : Pipeline) (w w' : World),
    run E self w = (Ret tt, w') ->
    written w' =
    (written w ++
     if any_errors (class_validation_errors w')
     then [{| directory := errors_path self; stamp := clock w';
              content := class_validation_errors w' |}]
     else [])%list
    /\ forall r wm,
         (_ <~ process_companies E self ;;
          _ <~ process_contacts E self ;;
          _ <~ process_opportunities E self ;;
          process_activities E self) w = (r, wm) ->
         written wm = written w.
Proof.
  intros E self w w' H.
  split; [| intros r wm Hload; exact (writes_nothing_loaders E self _ _ _ Hload)].
  rewrite run_as_loaders in H.
  destruct ((_ <~ process_companies E self ;;
             _ <~ process_contacts E self ;;
             _ <~ process_opportunities E self ;;
             process_activities E self) w) as [[[] | e] wm] eqn:Hload;
    pose proof (writes_nothing_loaders E self _ _ _ Hload) as Hsame;
    [| discriminate H].
  destruct (any_errors (class_validation_errors wm)) eqn:Hany.
  - unfold log_errors in H.
    assert (Hnil : is_nil (class_validation_errors wm) = false)
      by (destruct (class_validation_errors wm); [discriminate Hany | reflexivity]).
    rewrite Hnil in H. cbn [negb] in H. injection H as <-.
    cbn [written with_written class_validation_errors clock].
    rewrite Hany, Hsame. reflexivity.
  - injection H as <-. rewrite Hany, app_nil_r. exact Hsame.
Qed.

Lemma run_writes_one_report_iff_errors_witness :
  written second_world =
  [{| directory := "data/errors/"; stamp := sample_now;
      content := class_validation_errors second_world |}].
Proof.
  assert (Hret : fst (run sample_ext sample_pipeline first_world) = Ret tt)
    by (vm_compute; reflexivity).
  assert (Hrun : run sample_ext sample_pipeline first_world = (Ret tt, second_world))
    by (unfold second_world; rewrite <- Hret; apply surjective_pairing).
  destruct (run_writes_one_report_iff_errors sample_ext sample_pipeline first_world
              second_world Hrun) as [H _].
  assert (Hany : any_errors (class_validation_errors second_world) = true)
    by (vm_compute; reflexivity).
  rewrite Hany in H. exact H.
Defined.

(** ** etl/pipeline.py: process_sub_entities *)

Lemma insert_rows_raises_IntegrityError :
  forall cls objs rows e,
    insert_rows cls rows objs = Raise e -> e = IntegrityError.
Proof.
  intros cls objs. induction objs as [| obj rest IH]; intros rows e H; cbn in H;
    [discriminate H|].
  match type of H with
  | (if ?b then _ else _) = _ => destruct b
  end.
  - injection H as <-. reflexivity.
  - match type of H with
    | (more <- ?m ;; _) = _ => destruct m as [more | e'] eqn:Hrest
    end; cbn in H; [discriminate H|].
    injection H as <-. exact (IH _ _ Hrest).
Qed.

Lemma map_res_total :
  forall (A B : Type) (f : A -> PyRes B) l,
    (forall x, In x l -> exists y, f x = Ret y) -> exists out, map_res f l = Ret out.
Proof.
  intros A B f l. induction l as [| x l IH]; intros H; cbn.
  - exists []. reflexivity.
  - destruct (H x (or_introl eq_refl)) as [y Hy]. rewrite Hy. cbn.
    destruct (IH (fun x' Hx' => H x' (or_intror Hx'))) as [ys Hys]. rewrite Hys. cbn.
    exists (y :: ys). reflexivity.
Qed.

(** X14: a record without a value in the lookup column stops the call.
    When the column holds texts and at least one [None], the [None] is
    taken for a new name, the insert of a row without name is refused, and
    [process_sub_entities] raises [IntegrityError] with nothing committed. *)
Theorem process_sub_entities_missing_name :
  forall (cls : ModelClass) (entities : list Row) (column : string) (w : World)
         (r : Row),
    is_lookup_class cls ->
    has_column entities column = true ->
    Forall (fun r => text_or_none (field r column)) entities ->
    In r entities -> field r column = VNone ->
    process_sub_entities cls entities column w = (Raise IntegrityError, w).
Proof.
  intros cls entities column w r Hcls Hcol Htext Hr Hnone.
  destruct (process_sub_entities cls entities column w) as [[m | e] w'] eqn:Hrun.
  - exfalso.
    destruct (process_sub_entities_success _ _ _ _ _ _ Hcls Hrun)
      as [cleaned [_ [_ [Hclean [Hstr _]]]]].
    assert (Hin : In (field r column) (column_values entities column)).
    { apply In_column_values. exists r. split; [exact Hr | reflexivity]. }
    destruct (Forall2_in_l _ _ _ _ _ _ (map_res_spec _ _ _ _ _ Hclean) Hin)
      as [n [Hn Hcleaned]].
    rewrite Hnone in Hcleaned. cbn in Hcleaned. apply Ret_inj in Hcleaned. subst n.
    destruct (proj1 (Forall_forall _ _) Hstr _ Hn) as [s Hs]. discriminate Hs.
  - rewrite process_sub_entities_unfold, Hcol in Hrun.
    destruct (map_res_total _ _ (fun v => clean_text v false)
                (column_values entities column)) as [cleaned Hclean].
    { intros v Hv. apply In_column_values in Hv. destruct Hv as [row [Hrow <-]].
      destruct (proj1 (Forall_forall _ _) Htext row Hrow) as [-> | [s ->]];
        eexists; reflexivity. }
    rewrite Hclean in Hrun. cbv zeta in Hrun.
    destruct (insert_rows cls _ _) as [new_rows | e'] eqn:Hins.
    + discriminate Hrun.
    + injection Hrun as <- <-.
      rewrite (insert_rows_raises_IntegrityError _ _ _ _ Hins). reflexivity.
Qed.

Lemma process_sub_entities_missing_name_witness :
  process_sub_entities ContactStatus.cls
    [[("id", VStr "CONT1"); ("status", VStr "Lead")];
     [("id", VStr "CONT2"); ("status", VNone)]] "status" empty_world
  = (Raise IntegrityError, empty_world).
Proof.
  apply (process_sub_entities_missing_name ContactStatus.cls _ "status" empty_world
           [("id", VStr "CONT2"); ("status", VNone)]).
  - right. left. reflexivity.
  - reflexivity.
  - constructor; [right; exists "Lead"; reflexivity|].
    constructor; [left; reflexivity | constructor].
  - cbn. tauto.
  - reflexivity.
Defined.

(** ** etl/pipeline.py: the records of a batch, keyed by id *)

Lemma field_of_dict_get :
  forall (d : Row) k v, dict_get d k = Some v -> field d k = v.
Proof. intros d k v H. unfold field. rewrite H. reflexivity. Qed.

Lemma kv_set_keys :
  forall m k r kv, In kv (kv_set m k r) -> In (fst kv) (map fst m) \/ fst kv = k.
Proof.
  intros m k r kv. induction m as [| [k0 r0] m IH]; cbn; intros H.
  - destruct H as [<- | []]. right. reflexivity.
  - destruct (val_eqb k0 k).
    + destruct H as [<- | H]; [left; left; reflexivity|].
      left. right. apply in_map, H.
    + destruct H as [<- | H]; [left; left; reflexivity|].
      destruct (IH H) as [Hin | Heq]; [left; right; exact Hin | right; exact Heq].
Qed.

Lemma kv_set_distinct :
  forall m k r, distinct_keys m -> distinct_keys (kv_set m k r).
Proof.
  intros m k r H. induction H as [| [k0 r0] m Hhead Htail IH]; cbn.
  - constructor; [constructor | constructor].
  - destruct (val_eqb k0 k) eqn:Heq.
    + constructor; [exact Hhead | exact Htail].
    + constructor; [| exact IH].
      apply Forall_forall. intros kv Hkv. cbn.
      destruct (kv_set_keys _ _ _ _ Hkv) as [Hin | ->]; [| exact Heq].
      apply in_map_iff in Hin. destruct Hin as [kv' [Hfst Hin]].
      rewrite <- Hfst. exact (proj1 (Forall_forall _ _) Hhead kv' Hin).
Qed.

Lemma In_kv_set :
  forall m k r k' r',
    distinct_keys m ->
    In (k', r') (kv_set m k r) ->
    (In (k', r') m /\ val_eqb k' k = false)
    \/ (r' = r /\ (k' = k \/ val_eqb k' k = true)).
Proof.
  intros m k r k' r' H. induction H as [| [k0 r0] m Hhead Htail IH]; cbn; intros Hin.
  - destruct Hin as [Heq | []]. injection Heq as <- <-. right. split; [reflexivity|].
    left. reflexivity.
  - destruct (val_eqb k0 k) eqn:Heq.
    + destruct Hin as [Hin | Hin].
      * injection Hin as <- <-. right. split; [reflexivity | right; exact Heq].
      * left. split; [right; exact Hin|].
        pose proof (proj1 (Forall_forall _ _) Hhead _ Hin) as Hne. cbn in Hne.
        destruct (val_eqb k' k) eqn:Hk'; [| reflexivity].
        rewrite val_eqb_sym in Hk'.
        rewrite (val_eqb_trans _ _ _ Heq Hk') in Hne. discriminate Hne.
    + destruct Hin as [Hin | Hin].
      * injection Hin as <- <-. left. split; [left; reflexivity | exact Heq].
      * destruct (IH Hin) as [[Hm Hne] | Hnew]; [left | right; exact Hnew].
        split; [right; exact Hm | exact Hne].
Qed.

Lemma records_by_id_entries :
  forall batch acc m,
    distinct_keys acc ->
    records_by_id acc batch = Ret m ->
    distinct_keys m
    /\ forall k r, In (k, r) m ->
         (In (k, r) acc /\ Forall (fun r' => val_eqb k (field r' "id") = false) batch)
         \/ (exists before after,
                batch = (before ++ r :: after)%list
                /\ keyed (k, r)
                /\ Forall (fun r' => val_eqb k (field r' "id") = false) after).
Proof.
  induction batch as [| r0 rest IH]; intros acc m Hacc H; cbn in H.
  - apply Ret_inj in H. subst m. split; [exact Hacc|].
    intros k r Hin. left. split; [exact Hin | constructor].
  - destruct (dict_get r0 "id") as [k0 |] eqn:Hk0; [| discriminate H].
    destruct (IH _ _ (kv_set_distinct _ k0 r0 Hacc) H) as [Hm Hentries].
    split; [exact Hm|]. intros k r Hin.
    destruct (Hentries k r Hin) as [[Hin' Hrest] | [before [after [-> [Hkeyed Hafter]]]]].
    + destruct (In_kv_set _ _ _ _ _ Hacc Hin') as [[Hold Hne] | [-> Hk]].
      * left. split; [exact Hold|]. constructor; [| exact Hrest].
        rewrite (field_of_dict_get _ _ _ Hk0). exact Hne.
      * right. exists [], rest. split; [reflexivity|]. split; [| exact Hrest].
        exists k0. split; [exact Hk0 | exact Hk].
    + right. exists (r0 :: before), after. split; [reflexivity|].
      split; [exact Hkeyed | exact Hafter].
Qed.

(** X15: the records of a batch are keyed by id as a dict is filled: one
    entry per id, and when records of the batch share an id the entry holds
    the last of them, so that one is the record that is loaded. *)
Theorem records_by_id_last_wins :
  forall (batch : list Row) (m : list (PyVal * Row)),
    records_by_id [] batch = Ret m ->
    distinct_keys m
    /\ forall k r, In (k, r) m ->
         exists before after,
           batch = (before ++ r :: after)%list
           /\ keyed (k, r)
           /\ Forall (fun later => val_eqb k (field later "id") = false) after.
Proof.
  intros batch m H.
  destruct (records_by_id_entries batch [] m (FOP_nil _) H) as [Hm Hentries].
  split; [exact Hm|]. intros k r Hin.
  destruct (Hentries k r Hin) as [[[] _] | Hlast]. exact Hlast.
Qed.

Lemma records_by_id_last_wins_witness :
  records_by_id [] [older_contact; newer_contact] = Ret [(VStr "CONT7", newer_contact)]
  /\ distinct_keys [(VStr "CONT7", newer_contact)].
Proof.
  split; [reflexivity|].
  exact (proj1 (records_by_id_last_wins [older_contact; newer_contact]
                  [(VStr "CONT7", newer_contact)] eq_refl)).
Defined.

Lemma records_by_id_total :
  forall batch acc,
    Forall (fun r => is_none (field r "id") = false) batch ->
    exists m, records_by_id acc batch = Ret m.
Proof.
  induction batch as [| r rest IH]; intros acc H; cbn.
  - exists acc. reflexivity.
  - inversion H as [| r' rest' Hr Hrest]; subst.
    unfold field in Hr. destruct (dict_get r "id") as [k |]; [| discriminate Hr].
    apply IH, Hrest.
Qed.

Lemma records_by_id_from_batch :
  forall batch m k r,
    records_by_id [] batch = Ret m -> In (k, r) m -> In r batch /\ keyed (k, r).
Proof.
  intros batch m k r H Hin.
  destruct (records_by_id_entries batch [] m (FOP_nil _) H) as [_ Hentries].
  destruct (Hentries k r Hin) as [[[] _] | [before [after [-> [Hkeyed _]]]]].
  split; [apply in_or_app; right; left; reflexivity | exact Hkeyed].
Qed.

(** ** etl/pipeline.py: process_activities *)

Lemma process_activities_unfold :
  forall E self w,
    process_activities E self w =
    load_batch E Activity.cls "activities" (fun data => Ret data)
      (activities_json (files w (data_path self))) w.
Proof. reflexivity. Qed.

Lemma mem_val_exists :
  forall v l, mem_val v l = true -> exists x, In x l /\ val_eqb v x = true.
Proof. intros v l H. unfold mem_val in H. apply existsb_exists in H. exact H. Qed.

(** X16: a record whose id the table holds already is passed over: when
    every record of the input file has such an id, [process_activities]
    returns and leaves every table, the error log and the reports as they
    were, whatever the records hold (a changed subject, a value no validator
    would accept): the stored row is not updated and nothing is checked. *)
Theorem process_activities_skips_stored_ids :
  forall (E : Ext) (self : Pipeline) (w : World),
    Forall (fun r => isna (field r "id") = false
                     /\ mem_val (field r "id")
                          (column_values (store w activities) "id") = true)
           (activities_json (files w (data_path self))) ->
    exists w',
      process_activities E self w = (Ret tt, w')
      /\ (forall t, store w' t = store w t)
      /\ class_validation_errors w' = class_validation_errors w
      /\ written w' = written w.
Proof.
  intros E self w Hstored. rewrite process_activities_unfold, load_batch_unfold.
  set (batch := activities_json (files w (data_path self))) in *.
  destruct (records_by_id_total batch []) as [m Hm].
  { apply Forall_forall. intros r Hr.
    apply isna_is_none, (proj1 (Forall_forall _ _) Hstored r Hr). }
  rewrite Hm. cbv zeta.
  rewrite filter_nil.
  - cbn [map fold_m ret]. unfold bulk_save_objects. cbn [insert_rows].
    eexists. split; [reflexivity|]. cbn. split; [| split; reflexivity].
    intro t. unfold store_add. destruct (Table_eqb activities t); [apply app_nil_r | reflexivity].
  - intros [k r] Hin. cbn [fst tablename Activity.cls].
    destruct (records_by_id_from_batch _ _ _ _ Hm Hin) as [Hr [kd [Hkd Hk]]].
    cbn [fst snd] in Hkd, Hk.
    destruct (proj1 (Forall_forall _ _) Hstored r Hr) as [Hna Hmem].
    rewrite (field_of_dict_get _ _ _ Hkd) in Hna, Hmem.
    destruct (mem_val_exists _ _ Hmem) as [x [Hx Heq]].
    apply In_column_values in Hx. destruct Hx as [row [Hrow Hfield]].
    rewrite (stored_id_is_existing (store w) activities (map fst m) row k x Hrow Hfield).
    + reflexivity.
    + rewrite <- (val_eqb_isna _ _ Heq). exact Hna.
    + apply in_map_iff. exists (k, r). split; [reflexivity | exact Hin].
    + right. destruct Hk as [-> | Hk]; [exact Heq|].
      exact (val_eqb_trans _ _ _ Hk Heq).
Qed.

Lemma process_activities_skips_stored_ids_witness :
  exists w',
    process_activities sample_ext sample_pipeline world_with_activity = (Ret tt, w')
    /\ (forall t, store w' t = store world_with_activity t)
    /\ class_validation_errors w' = class_validation_errors world_with_activity
    /\ written w' = written world_with_activity.
Proof.
  apply (process_activities_skips_stored_ids sample_ext sample_pipeline
           world_with_activity).
  constructor; [split; reflexivity | constructor].
Defined.

Lemma insert_rows_length :
  forall cls objs rows new,
    insert_rows cls rows objs = Ret new -> length new = length objs.
Proof.
  intros cls objs. induction objs as [| obj rest IH]; intros rows new H.
  - cbn in H. apply Ret_inj in H. subst new. reflexivity.
  - destruct (insert_rows_cons _ _ _ _ _ H) as [row [more [-> [Hrest _]]]].
    cbn. rewrite (IH _ _ Hrest). reflexivity.
Qed.

Section LoaderCounts.
Variable E : Ext.

(** Each record the loop has seen is in [to_create] or in the log. *)
Lemma fold_stage_counts :
  forall cls key P datas tc0 w tc w',
    fold_m (stage_record E cls key P) datas tc0 w = (Ret tc, w') ->
    store w' = store w
    /\ written w' = written w
    /\ (length tc + length (log_get (class_validation_errors w') key)
        = length tc0 + length (log_get (class_validation_errors w) key) + length datas)%nat.
Proof.
  intros cls key P datas. induction datas as [| data rest IH]; intros tc0 w tc w' H.
  - cbn in H. injection H as <- <-. repeat split. cbn. lia.
  - cbn [fold_m] in H. unfold bind in H. rewrite stage_record_unfold in H.
    destruct (P data) as [d | e]; [| discriminate H].
    destruct (validate cls (ctx_of E w) (BaseModel_init cls d)) as [[is_valid obj'] | e];
      [| discriminate H].
    destruct is_valid.
    + destruct (IH _ _ _ _ H) as [Hs [Hw Hn]]. split; [exact Hs|]. split; [exact Hw|].
      rewrite Hn, length_app. cbn. lia.
    + destruct (mem_str key (log_keys w)) eqn:Hkey; [| discriminate H].
      destruct (IH _ _ _ _ H) as [Hs [Hw Hn]]. split; [exact Hs|]. split; [exact Hw|].
      rewrite Hn. cbn [class_validation_errors with_errors].
      rewrite (log_get_append_same _ _ _ Hkey), length_app. cbn. lia.
Qed.
End LoaderCounts.

(** X17: no new record is dropped.  When [process_activities] returns,
    every record of the file whose id the table did not hold has become a
    row of the table or an entry of the error log under "activities": the
    two have grown, together, by the number of these records. *)
Theorem process_activities_loads_or_reports :
  forall (E : Ext) (self : Pipeline) (w w' : World),
    process_activities E self w = (Ret tt, w') ->
    exists new,
      new_records (store w) activities (activities_json (files w (data_path self)))
      = Ret new
      /\ (length (store w' activities)
          + length (log_get (class_validation_errors w') "activities")
          = length (store w activities)
            + length (log_get (class_validation_errors w) "activities")
            + length new)%nat.
Proof.
  intros E self w w' H. rewrite process_activities_unfold, load_batch_unfold in H.
  unfold new_records.
  destruct (records_by_id [] (activities_json (files w (data_path self))))
    as [m | e]; [| discriminate H].
  cbv zeta in H. cbn [bindR]. cbn [tablename Activity.cls] in H.
  set (new := filter _ m) in *.
  exists (map snd new). split; [reflexivity|].
  destruct (fold_m _ (map snd new) [] w) as [[to_create | e] w1] eqn:Hfold;
    [| discriminate H].
  destruct (fold_stage_counts _ _ _ _ _ _ _ _ _ Hfold) as [Hs [_ Hn]].
  unfold bulk_save_objects in H. cbn [tablename Activity.cls] in H.
  destruct (insert_rows Activity.cls (store w1 activities) to_create) as [rows | e] eqn:Hins;
    [| discriminate H].
  injection H as <-. cbn [store with_store class_validation_errors].
  rewrite store_add_same, length_app, (insert_rows_length _ _ _ _ Hins), Hs.
  cbn [length] in Hn. lia.
Qed.

Lemma process_activities_loads_or_reports_witness :
  exists new,
    new_records empty_store activities [activity_update] = Ret new
    /\ (length (store (snd (process_activities sample_ext sample_pipeline
                              (with_store world_with_activity empty_store))) activities)
        + length (log_get (class_validation_errors
                             (snd (process_activities sample_ext sample_pipeline
                                     (with_store world_with_activity empty_store))))
                    "activities")
        = 0 + 0 + length new)%nat.
Proof.
  apply (process_activities_loads_or_reports sample_ext sample_pipeline
           (with_store world_with_activity empty_store)).
  assert (Hret : fst (process_activities sample_ext sample_pipeline
                        (with_store world_with_activity empty_store)) = Ret tt)
    by (vm_compute; reflexivity).
  rewrite <- Hret. apply surjective_pairing.
Defined.

(** ** etl/pipeline.py: the rows a run adds to a table *)

Lemma adds_rows_unchanged :
  forall (A : Type) t Q (f : M A),
    frame_ok f ->
    (forall w r w', f w = (r, w') -> store w' t = store w t) ->
    adds_rows t Q f.
Proof.
  intros A t Q f Hframe Hsame w r w' H. split; [exact (Hframe _ _ _ H)|].
  exists []. rewrite app_nil_r. split; [exact (Hsame _ _ _ H) | constructor].
Qed.

Lemma adds_rows_ret : forall (A : Type) t Q (a : A), adds_rows t Q (ret a).
Proof.
  intros A t Q a. apply adds_rows_unchanged; [apply frame_ret|].
  intros w r w' H. injection H as _ <-. reflexivity.
Qed.

Lemma adds_rows_get_world : forall t Q, adds_rows t Q get_world.
Proof.
  intros t Q. apply adds_rows_unchanged; [apply frame_get_world|].
  intros w r w' H. injection H as _ <-. reflexivity.
Qed.

Lemma adds_rows_lift : forall (A : Type) t Q (r : PyRes A), adds_rows t Q (lift r).
Proof.
  intros A t Q r0. apply adds_rows_unchanged; [apply frame_lift|].
  intros w r w' H. injection H as _ <-. reflexivity.
Qed.

Lemma adds_rows_bind :
  forall (A B : Type) t Q (m : M A) (k : A -> M B),
    stable Q ->
    adds_rows t Q m -> (forall a, adds_rows t Q (k a)) -> adds_rows t Q (bind m k).
Proof.
  intros A B t Q m k Hstable Hm Hk w r w' H. unfold bind in H.
  destruct (m w) as [[a | e] w1] eqn:Hmw.
  - destruct (Hm _ _ _ Hmw) as [Hev1 [added1 [Hs1 Hq1]]].
    destruct (Hk a _ _ _ H) as [Hev2 [added2 [Hs2 Hq2]]].
    split; [exact (evolves_trans _ _ _ Hev1 Hev2)|].
    exists (added1 ++ added2)%list. split.
    + rewrite Hs2, Hs1, app_assoc. reflexivity.
    + apply Forall_app. split; [| exact Hq2].
      apply Forall_forall. intros row Hrow.
      apply (Hstable _ _ _ Hev2), (proj1 (Forall_forall _ _) Hq1 row Hrow).
  - injection H as <- <-. exact (Hm _ _ _ Hmw).
Qed.

Lemma adds_rows_for_each :
  forall (A : Type) t Q (l : list A) (body : A -> M unit),
    stable Q -> (forall x, adds_rows t Q (body x)) -> adds_rows t Q (for_each l body).
Proof.
  intros A t Q l body Hstable Hbody. induction l as [| x l IH]; cbn [for_each].
  - apply adds_rows_ret.
  - apply adds_rows_bind; [exact Hstable | apply Hbody | intros _; exact IH].
Qed.

Lemma store_add_nil : forall db t t', store_add db t [] t' = db t'.
Proof.
  intros db t t'. unfold store_add. destruct (Table_eqb t t'); [apply app_nil_r | reflexivity].
Qed.

Lemma process_sub_entities_other_table :
  forall cls entities column t w r w',
    Table_eqb (tablename cls) t = false ->
    process_sub_entities cls entities column w = (r, w') ->
    store w' t = store w t.
Proof.
  intros cls entities column t w r w' Ht H. rewrite process_sub_entities_unfold in H.
  destruct (has_column entities column); [| injection H as _ <-; reflexivity].
  destruct (map_res _ _) as [cleaned | e]; [| injection H as _ <-; reflexivity].
  cbv zeta in H.
  destruct (insert_rows cls _ _) as [rows | e]; injection H as _ <-; [| reflexivity].
  cbn. unfold store_add. rewrite Ht. reflexivity.
Qed.

Lemma adds_rows_lookup :
  forall cls entities column t Q,
    Table_eqb (tablename cls) t = false ->
    adds_rows t Q (process_sub_entities cls entities column).
Proof.
  intros cls entities column t Q Ht.
  apply adds_rows_unchanged; [apply frame_process_sub_entities|].
  intros w r w' H. exact (process_sub_entities_other_table _ _ _ _ _ _ _ Ht H).
Qed.

Lemma insert_rows_from :
  forall cls objs rows new,
    insert_rows cls rows objs = Ret new ->
    Forall (fun row =>
              exists obj, In obj objs
                /\ violates_not_null cls row = false
                /\ forall c, (c = "id" -> autoincrement cls = false) ->
                             field row c = bind_param (field (as_dict cls obj) c))
           new.
Proof.
  intros cls objs. induction objs as [| obj rest IH]; intros rows new H.
  - cbn in H. apply Ret_inj in H. subst new. constructor.
  - destruct (insert_rows_cons _ _ _ _ _ H) as [row [more [-> [Hrest [Hnn [_ Hfields]]]]]].
    constructor.
    + exists obj. split; [left; reflexivity|]. split; [exact Hnn | exact Hfields].
    + eapply Forall_impl; [| exact (IH _ _ Hrest)].
      intros row' [obj' [Hin Hrow']]. exists obj'. split; [right; exact Hin | exact Hrow'].
Qed.

Section LoaderRows.
Variable E : Ext.

Lemma fold_stage_store :
  forall cls key P datas tc0 w r w',
    fold_m (stage_record E cls key P) datas tc0 w = (r, w') ->
    store w' = store w /\ clock w' = clock w.
Proof.
  intros cls key P datas. induction datas as [| data rest IH]; intros tc0 w r w' H.
  - cbn in H. injection H as _ <-. split; reflexivity.
  - cbn [fold_m] in H. unfold bind in H. rewrite stage_record_unfold in H.
    destruct (P data) as [d | e]; [| injection H as _ <-; split; reflexivity].
    destruct (validate cls (ctx_of E w) (BaseModel_init cls d)) as [[is_valid obj'] | e];
      [| injection H as _ <-; split; reflexivity].
    destruct is_valid; [exact (IH _ _ _ _ H)|].
    destruct (mem_str key (log_keys w)); [| injection H as _ <-; split; reflexivity].
    exact (IH _ _ _ _ H).
Qed.

Lemma fold_stage_added :
  forall cls key P datas tc0 w tc w',
    fold_m (stage_record E cls key P) datas tc0 w = (Ret tc, w') ->
    exists added,
      tc = (tc0 ++ added)%list
      /\ Forall (fun obj' =>
                   exists data d,
                     In data datas /\ P data = Ret d
                     /\ validate cls (ctx_of E w) (BaseModel_init cls d) = Ret (true, obj'))
                added.
Proof.
  intros cls key P datas. induction datas as [| data rest IH]; intros tc0 w tc w' H.
  - cbn in H. injection H as <- <-. exists []. rewrite app_nil_r. split; [reflexivity | constructor].
  - cbn [fold_m] in H. unfold bind in H. rewrite stage_record_unfold in H.
    destruct (P data) as [d | e] eqn:HP; [| discriminate H].
    destruct (validate cls (ctx_of E w) (BaseModel_init cls d)) as [[is_valid obj'] | e]
      eqn:Hval; [| discriminate H].
    assert (Hmore : forall added : list Instance,
               Forall (fun obj' =>
                         exists data0 d0,
                           In data0 rest /\ P data0 = Ret d0
                           /\ validate cls (ctx_of E w) (BaseModel_init cls d0)
                              = Ret (true, obj')) added ->
               Forall (fun obj' =>
                         exists data0 d0,
                           In data0 (data :: rest) /\ P data0 = Ret d0
                           /\ validate cls (ctx_of E w) (BaseModel_init cls d0)
                              = Ret (true, obj')) added).
    { intros added. apply Forall_impl. intros o [data0 [d0 [Hin Hrest]]].
      exists data0, d0. split; [right; exact Hin | exact Hrest]. }
    destruct is_valid.
    + destruct (IH _ _ _ _ H) as [added [-> Hadded]].
      exists (obj' :: added). split; [rewrite <- app_assoc; reflexivity|].
      constructor; [| exact (Hmore _ Hadded)].
      exists data, d. split; [left; reflexivity|]. split; [exact HP | exact Hval].
    + destruct (mem_str key (log_keys w)); [| discriminate H].
      destruct (IH _ _ _ _ H) as [added [-> Hadded]].
      exists added. split; [reflexivity | exact (Hmore _ Hadded)].
Qed.

(** What a batch adds: only to the table of the class, and only rows of
    records of the batch that [validate] accepted. *)
Lemma load_batch_rows :
  forall cls key P batch w r w',
    autoincrement cls = false ->
    load_batch E cls key P batch w = (r, w') ->
    exists added,
      (forall t, store w' t = store_add (store w) (tablename cls) added t)
      /\ Forall (fun row =>
                   exists data d obj',
                     In data batch /\ P data = Ret d
                     /\ validate cls (ctx_of E w) (BaseModel_init cls d) = Ret (true, obj')
                     /\ violates_not_null cls row = false
                     /\ forall c, In c (column_names cls) ->
                                  field row c = bind_param (getattr obj' c))
                added.
Proof.
  intros cls key P batch w r w' Hauto H. rewrite load_batch_unfold in H.
  assert (Hnone : forall w1 : World, store w1 = store w ->
            exists added : list Row,
              (forall t, store w1 t = store_add (store w) (tablename cls) added t)
              /\ Forall (fun row =>
                   exists data d obj',
                     In data batch /\ P data = Ret d
                     /\ validate cls (ctx_of E w) (BaseModel_init cls d) = Ret (true, obj')
                     /\ violates_not_null cls row = false
                     /\ forall c, In c (column_names cls) ->
                                  field row c = bind_param (getattr obj' c))
                added).
  { intros w1 Hw1. exists []. split; [| constructor].
    intro t. rewrite store_add_nil, Hw1. reflexivity. }
  destruct (records_by_id [] batch) as [m | e] eqn:Hm;
    [| injection H as _ <-; apply Hnone; reflexivity].
  cbv zeta in H.
  destruct (fold_m _ _ [] w) as [[to_create | e] w1] eqn:Hfold.
  - destruct (fold_stage_store _ _ _ _ _ _ _ _ Hfold) as [Hs1 _].
    destruct (fold_stage_added _ _ _ _ _ _ _ _ Hfold) as [added_objs [Htc Hobjs]].
    cbn [app] in Htc. subst added_objs.
    unfold bulk_save_objects in H.
    destruct (insert_rows cls (store w1 (tablename cls)) to_create) as [rows | e] eqn:Hins;
      [| injection H as _ <-; apply Hnone; exact Hs1].
    injection H as _ <-. exists rows. split.
    + intro t. cbn [store with_store]. rewrite Hs1. reflexivity.
    + eapply Forall_impl; [| exact (insert_rows_from _ _ _ _ Hins)].
      intros row [obj [Hobj [Hnn Hfields]]].
      destruct (proj1 (Forall_forall _ _) Hobjs obj Hobj) as [data [d [Hdata [HP Hval]]]].
      exists data, d, obj. split.
      { apply in_map_iff in Hdata. destruct Hdata as [[k data'] [Heq Hin]].
        cbn in Heq. subst data'. apply filter_In in Hin. destruct Hin as [Hin _].
        exact (proj1 (records_by_id_from_batch _ _ _ _ Hm Hin)). }
      split; [exact HP|]. split; [exact Hval|]. split; [exact Hnn|].
      intros c Hc. rewrite (Hfields c (fun _ => Hauto)), (field_as_dict _ _ _ Hc).
      reflexivity.
  - injection H as _ <-.
    apply Hnone. exact (proj1 (fold_stage_store _ _ _ _ _ _ _ _ Hfold)).
Qed.

Lemma adds_rows_load_batch_other :
  forall cls key P batch t Q,
    autoincrement cls = false ->
    Table_eqb (tablename cls) t = false ->
    adds_rows t Q (load_batch E cls key P batch).
Proof.
  intros cls key P batch t Q Hauto Ht.
  apply adds_rows_unchanged; [apply frame_load_batch|].
  intros w r w' H. destruct (load_batch_rows _ _ _ _ _ _ _ Hauto H) as [added [Hs _]].
  rewrite Hs. unfold store_add. rewrite Ht. reflexivity.
Qed.

Lemma adds_rows_load_batch_valid :
  forall cls key P batch,
    autoincrement cls = false ->
    adds_rows (tablename cls) (fun w row => stored_from_valid E cls (clock w) row)
      (load_batch E cls key P batch).
Proof.
  intros cls key P batch Hauto w r w' H.
  pose proof (frame_load_batch E _ _ _ _ _ _ _ H) as Hev.
  split; [exact Hev|].
  destruct (load_batch_rows _ _ _ _ _ _ _ Hauto H) as [added [Hs Hrows]].
  exists added. split; [rewrite Hs; apply store_add_same|].
  eapply Forall_impl; [| exact Hrows].
  intros row [data [d [obj' [_ [_ [Hval [Hnn Hfields]]]]]]].
  exists (store w), d, obj'. destruct Hev as [_ [Hclock _]]. rewrite Hclock.
  split; [exact Hval|]. split; [exact Hnn | exact Hfields].
Qed.
End LoaderRows.

Lemma stable_stored_from_valid :
  forall E cls, stable (fun w row => stored_from_valid E cls (clock w) row).
Proof. intros E cls w w' row [_ [Hclock _]] H. rewrite Hclock. exact H. Qed.

(** *** What the validators return when they accept *)

Lemma text_validator_accepts :
  forall (g : string -> string) v out,
    (s <- as_str v ;; Ret (VStr (g s))) = Ret out ->
    exists s, v = VStr s /\ out = VStr (g s).
Proof.
  intros g v out H. destruct v; cbn in H; try discriminate H.
  apply Ret_inj in H. exists s. split; [reflexivity | symmetry; exact H].
Qed.

Lemma validate_domain_accepts :
  forall cx self key v out,
    Company.validate_domain cx self key v = Ret out ->
    exists s, v = VStr s /\ out = VStr (strip s)
              /\ validators_domain (ext cx) (strip s) = true.
Proof.
  intros cx self key v out H. unfold Company.validate_domain in H.
  destruct v; cbn in H; try discriminate H.
  destruct (validators_domain (ext cx) (strip s)) eqn:Hok; [| discriminate H].
  apply Ret_inj in H. exists s. split; [reflexivity|]. split; [symmetry; exact H | exact Hok].
Qed.

Lemma validate_country_accepts :
  forall cx self key v out,
    Company.validate_country cx self key v = Ret out ->
    exists s iso2, v = VStr s /\ cc_convert (ext cx) (upper (strip s)) = Some iso2
                   /\ out = VStr iso2.
Proof.
  intros cx self key v out H. unfold Company.validate_country in H.
  destruct v; cbn in H; try discriminate H.
  destruct (cc_convert (ext cx) (upper (strip s))) as [iso2 |] eqn:Hcc; [| discriminate H].
  apply Ret_inj in H. exists s, iso2. split; [reflexivity|]. split; [exact Hcc|].
  symmetry. exact H.
Qed.

Lemma validate_size_accepts :
  forall cx self key v out,
    Company.validate_size cx self key v = Ret out ->
    exists s, v = VStr s /\ out = VStr (strip s) /\ delimiters_ok (strip s) = true.
Proof.
  intros cx self key v out H.
  destruct v; try (unfold Company.validate_size in H; cbn in H; discriminate H).
  apply validate_size_accepts_iff in H. exists s. split; [reflexivity | exact H].
Qed.

Lemma validate_email_accepts :
  forall cx self key v out,
    Contact.validate_email cx self key v = Ret out ->
    exists s, v = VStr s /\ out = VStr (strip s)
              /\ validators_email (ext cx) (strip s) = true
              /\ Contact.contact_found cx (strip s) = false.
Proof.
  intros cx self key v out H. unfold Contact.validate_email in H.
  destruct v; cbn in H; try discriminate H.
  destruct (validators_email (ext cx) (strip s)) eqn:Hok; cbn in H; [| discriminate H].
  destruct (Contact.contact_found cx (strip s)) eqn:Hfound; [discriminate H|].
  apply Ret_inj in H. exists s. split; [reflexivity|]. split; [symmetry; exact H|].
  split; [exact Hok | exact Hfound].
Qed.

Lemma validate_phone_accepts :
  forall cx self key v out,
    Contact.validate_phone cx self key v = Ret out ->
    exists s parsed formatted,
      v = VStr s
      /\ phonenumbers_parse (ext cx) (VStr (strip s)) VNone = Ret parsed
      /\ phonenumbers_format_international (ext cx) parsed = Ret formatted
      /\ out = VStr formatted.
Proof.
  intros cx self key v out H. unfold Contact.validate_phone in H.
  destruct v; cbn in H; try discriminate H.
  unfold normalize_phone_number, try_except in H.
  destruct (phonenumbers_parse (ext cx) (VStr (strip s)) VNone) as [parsed | e] eqn:Hparse;
    cbn in H; [| discriminate H].
  destruct (phonenumbers_format_international (ext cx) parsed) as [formatted | e] eqn:Hfmt;
    cbn in H; [| discriminate H].
  apply Ret_inj in H. exists s, parsed, formatted.
  split; [reflexivity|]. split; [exact Hparse|]. split; [exact Hfmt | symmetry; exact H].
Qed.

Lemma validate_duration_minutes_accepts :
  forall cx self key v out,
    Activity.validate_duration_minutes cx self key v = Ret out ->
    out = v /\ ((exists z, v = VInt z /\ 0 <= z) \/ exists b, v = VBool b).
Proof.
  intros cx self key v out H. unfold Activity.validate_duration_minutes in H.
  destruct v as [| b | z | q | s | t a]; try discriminate H.
  - apply Ret_inj in H. split; [symmetry; exact H|]. right. exists b. reflexivity.
  - destruct (Z.leb_spec 0 z) as [Hle | Hgt]; [| discriminate H].
    apply Ret_inj in H. split; [symmetry; exact H|]. left. exists z. split; [reflexivity | exact Hle].
Qed.

Lemma standardize_or_accepts :
  forall cx key raw advice out,
    standardize_or cx key raw advice = Ret out ->
    exists t, out = VDatetime t true
              /\ standardize_datetime (ext cx) raw = Ret (VDatetime t true).
Proof.
  intros cx key raw advice out H. unfold standardize_or, try_except in H.
  destruct (standardize_datetime (ext cx) raw) as [std | e] eqn:Hstd; [| discriminate H].
  apply Ret_inj in H. subst out.
  destruct (standardize_datetime_aware _ _ _ Hstd) as [t ->]. exists t. split; reflexivity.
Qed.

Section RunRows.
Variable E : Ext.

Lemma adds_rows_log_errors :
  forall self t Q, adds_rows t Q (log_errors self).
Proof.
  intros self t Q. apply adds_rows_unchanged; [apply frame_log_errors|].
  intros w r w' H. unfold log_errors in H.
  destruct (negb _); injection H as _ <-; reflexivity.
Qed.

(** The loaders that do not fill the table [t] add nothing to it. *)
Lemma adds_rows_process_companies_other :
  forall self t Q,
    stable Q ->
    Table_eqb industries t = false -> Table_eqb companies t = false ->
    adds_rows t Q (process_companies E self).
Proof.
  intros self t Q Hst H1 H2. unfold process_companies.
  apply adds_rows_bind; [exact Hst | apply adds_rows_get_world|]. intros w0.
  apply adds_rows_for_each; [exact Hst|]. intros chunk.
  apply adds_rows_bind; [exact Hst | apply adds_rows_lookup; exact H1|]. intros m.
  apply adds_rows_load_batch_other; [reflexivity | exact H2].
Qed.

Lemma adds_rows_process_contacts_other :
  forall self t Q,
    stable Q ->
    Table_eqb contact_statuses t = false -> Table_eqb contacts t = false ->
    adds_rows t Q (process_contacts E self).
Proof.
  intros self t Q Hst H1 H2. unfold process_contacts.
  apply adds_rows_bind; [exact Hst | apply adds_rows_get_world|]. intros w0.
  apply adds_rows_bind; [exact Hst | apply adds_rows_lift|]. intros df.
  apply adds_rows_bind; [exact Hst | apply adds_rows_lookup; exact H1|]. intros m.
  apply adds_rows_load_batch_other; [reflexivity | exact H2].
Qed.

Lemma adds_rows_process_opportunities_other :
  forall self t Q,
    stable Q ->
    Table_eqb stages t = false -> Table_eqb forecast_categories t = false ->
    Table_eqb products t = false -> Table_eqb opportunities t = false ->
    adds_rows t Q (process_opportunities E self).
Proof.
  intros self t Q Hst H1 H2 H3 H4. unfold process_opportunities.
  apply adds_rows_bind; [exact Hst | apply adds_rows_get_world|]. intros w0.
  apply adds_rows_for_each; [exact Hst|]. intros chunk.
  apply adds_rows_bind; [exact Hst | apply adds_rows_lookup; exact H1|]. intros m1.
  apply adds_rows_bind; [exact Hst | apply adds_rows_lookup; exact H2|]. intros m2.
  apply adds_rows_bind; [exact Hst | apply adds_rows_lookup; exact H3|]. intros m3.
  apply adds_rows_load_batch_other; [reflexivity | exact H4].
Qed.

Lemma adds_rows_process_activities_other :
  forall self t Q,
    stable Q ->
    Table_eqb activities t = false ->
    adds_rows t Q (process_activities E self).
Proof.
  intros self t Q Hst H1. unfold process_activities.
  apply adds_rows_bind; [exact Hst | apply adds_rows_get_world|]. intros w0.
  apply adds_rows_load_batch_other; [reflexivity | exact H1].
Qed.

Lemma adds_rows_run :
  forall self t Q,
    stable Q ->
    adds_rows t Q (process_companies E self) ->
    adds_rows t Q (process_contacts E self) ->
    adds_rows t Q (process_opportunities E self) ->
    adds_rows t Q (process_activities E self) ->
    adds_rows t Q (run E self).
Proof.
  intros self t Q Hst H1 H2 H3 H4. unfold run.
  apply adds_rows_bind; [exact Hst | exact H1|]. intros _.
  apply adds_rows_bind; [exact Hst | exact H2|]. intros _.
  apply adds_rows_bind; [exact Hst | exact H3|]. intros _.
  apply adds_rows_bind; [exact Hst | exact H4|]. intros _.
  apply adds_rows_bind; [exact Hst | apply adds_rows_get_world|]. intros w0.
  destruct (any_errors _); [apply adds_rows_log_errors | apply adds_rows_ret].
Qed.

Lemma opportunities_added_by_run :
  forall self,
    adds_rows opportunities
      (fun w row => stored_from_valid E Opportunity.cls (clock w) row) (run E self).
Proof.
  intros self.
  pose proof (stable_stored_from_valid E Opportunity.cls) as Hst.
  apply adds_rows_run; [exact Hst | | | |].
  - apply adds_rows_process_companies_other; [exact Hst | reflexivity ..].
  - apply adds_rows_process_contacts_other; [exact Hst | reflexivity ..].
  - unfold process_opportunities.
    apply adds_rows_bind; [exact Hst | apply adds_rows_get_world|]. intros w0.
    apply adds_rows_for_each; [exact Hst|]. intros chunk.
    apply adds_rows_bind; [exact Hst | apply adds_rows_lookup; reflexivity|]. intros m1.
    apply adds_rows_bind; [exact Hst | apply adds_rows_lookup; reflexivity|]. intros m2.
    apply adds_rows_bind; [exact Hst | apply adds_rows_lookup; reflexivity|]. intros m3.
    apply (adds_rows_load_batch_valid E Opportunity.cls). reflexivity.
  - apply adds_rows_process_activities_other; [exact Hst | reflexivity].
Qed.

Lemma contacts_added_by_run :
  forall self,
    adds_rows contacts
      (fun w row => stored_from_valid E Contact.cls (clock w) row) (run E self).
Proof.
  intros self.
  pose proof (stable_stored_from_valid E Contact.cls) as Hst.
  apply adds_rows_run; [exact Hst | | | |].
  - apply adds_rows_process_companies_other; [exact Hst | reflexivity ..].
  - unfold process_contacts.
    apply adds_rows_bind; [exact Hst | apply adds_rows_get_world|]. intros w0.
    apply adds_rows_bind; [exact Hst | apply adds_rows_lift|]. intros df.
    apply adds_rows_bind; [exact Hst | apply adds_rows_lookup; reflexivity|]. intros m.
    apply (adds_rows_load_batch_valid E Contact.cls). reflexivity.
  - apply adds_rows_process_opportunities_other; [exact Hst | reflexivity ..].
  - apply adds_rows_process_activities_other; [exact Hst | reflexivity].
Qed.
End RunRows.

Lemma violates_not_null_false :
  forall cls row c,
    violates_not_null cls row = false ->
    In (col c false) (columns cls) -> is_none (field row c) = false.
Proof.
  intros cls row c H Hc. unfold violates_not_null in H.
  destruct (is_none (field row c)) eqn:Hn; [| reflexivity].
  assert (Hex : existsb (fun c0 => negb (nullable c0) && is_none (field row (col_name c0)))
                        (columns cls) = true).
  { apply existsb_exists. exists (col c false). split; [exact Hc|]. cbn. exact Hn. }
  rewrite Hex in H. discriminate H.
Qed.

Lemma stored_value :
  forall cls row c v,
    violates_not_null cls row = false ->
    In (col c false) (columns cls) ->
    field row c = bind_param v -> field row c = v.
Proof.
  intros cls row c v Hnn Hc Hrow.
  pose proof (violates_not_null_false _ _ _ Hnn Hc) as Hsome.
  rewrite Hrow in Hsome. rewrite Hrow. exact (proj2 (bind_param_not_none _ Hsome)).
Qed.

Lemma validate_amount_accepts :
  forall cx self key v out,
    Opportunity.validate_amount cx self key v = Ret out ->
    exists a, out = VFloat a /\ float_negative a = false.
Proof.
  intros cx self key v out H. unfold Opportunity.validate_amount in H.
  destruct (py_float (ext cx) v) as [a | e]; cbn in H.
  - destruct (float_negative a) eqn:Hneg; [discriminate H|].
    apply Ret_inj in H. exists a. split; [symmetry; exact H | exact Hneg].
  - destruct e; discriminate H.
Qed.

Lemma validate_probability_accepts :
  forall cx self key v out,
    Opportunity.validate_probability cx self key v = Ret out ->
    exists p, out = VInt p /\ 0 <= p <= 100.
Proof.
  intros cx self key v out H. rewrite validate_probability_unfold in H.
  destruct (py_int v) as [p | e]; [| destruct e; discriminate H].
  destruct ((0 <=? p) && (p <=? 100)) eqn:Hrange; [| discriminate H].
  apply Ret_inj in H. exists p. split; [symmetry; exact H|].
  apply andb_true_iff in Hrange. lia.
Qed.

(** X18: whatever a run does, the rows it adds to the table of the
    opportunities hold a probability that is an integer of [0, 100] and an
    amount that is a float and not negative: only records that [validate]
    accepted reach the table. *)
Theorem stored_opportunities_are_valid :
  forall (E : Ext) (self : Pipeline) (w : World),
    exists added,
      store (snd (run E self w)) opportunities = (store w opportunities ++ added)%list
      /\ Forall (fun row =>
                   exists p a,
                     field row "probability" = VInt p /\ 0 <= p <= 100
                     /\ field row "amount" = VFloat a /\ float_negative a = false)
                added.
Proof.
  intros E self w.
  destruct (opportunities_added_by_run E self w _ _ (surjective_pairing _))
    as [_ [added [Hstore Hrows]]].
  exists added. split; [exact Hstore|].
  eapply Forall_impl; [| exact Hrows].
  intros row [s [d [obj' [Hval [Hnn Hfields]]]]].
  destruct (validate_accepted_columns _ _ _ _ Opportunity_columns_NoDup Hval)
    as [_ [_ Hcols]].
  destruct (proj2 (Hcols (col "probability" false) ltac:(cbn; tauto))) as [s1 Hprob].
  destruct (proj2 (Hcols (col "amount" false) ltac:(cbn; tauto))) as [s2 Hamount].
  cbn [col_name col] in Hprob, Hamount.
  destruct (validate_probability_accepts _ _ _ _ _ Hprob) as [p [Hp Hrange]].
  destruct (validate_amount_accepts _ _ _ _ _ Hamount) as [a [Ha Hneg]].
  exists p, a.
  split; [| split; [exact Hrange | split; [| exact Hneg]]].
  - rewrite <- Hp. apply (stored_value Opportunity.cls); [exact Hnn | cbn; tauto|].
    apply Hfields. cbn. tauto.
  - rewrite <- Ha. apply (stored_value Opportunity.cls); [exact Hnn | cbn; tauto|].
    apply Hfields. cbn. tauto.
Qed.

Lemma stored_column :
  forall E cls t row name (f : Validator),
    NoDup (column_names cls) ->
    stored_from_valid E cls t row ->
    In name (column_names cls) ->
    validator_of cls name = Some f ->
    exists s at_call v out,
      f {| ext := E; now := t; db := s |} at_call name v = Ret out
      /\ field row name = bind_param out.
Proof.
  intros E cls t row name f Hnd [s [d [obj' [Hval [_ Hfields]]]]] Hname Hf.
  destruct (validate_accepted_columns _ _ _ _ Hnd Hval) as [_ [_ Hcols]].
  pose proof Hname as Hin. unfold column_names in Hin. apply in_map_iff in Hin.
  destruct Hin as [c [Hc Hin]]. subst name.
  pose proof (proj2 (Hcols c Hin)) as Hcol. rewrite Hf in Hcol.
  destruct Hcol as [at_call Hrun].
  exists s, at_call, (getattr (BaseModel_init cls d) (col_name c)), (getattr obj' (col_name c)).
  split; [exact Hrun | exact (Hfields _ Hname)].
Qed.

Lemma stored_required_column :
  forall E cls t row name (f : Validator),
    NoDup (column_names cls) ->
    stored_from_valid E cls t row ->
    In (col name false) (columns cls) ->
    validator_of cls name = Some f ->
    exists s at_call v,
      f {| ext := E; now := t; db := s |} at_call name v = Ret (field row name).
Proof.
  intros E cls t row name f Hnd Hrow Hc Hf.
  assert (Hname : In name (column_names cls)).
  { unfold column_names. apply in_map_iff. exists (col name false). split; [reflexivity | exact Hc]. }
  destruct (stored_column E cls t row name f Hnd Hrow Hname Hf)
    as [s [at_call [v [out [Hrun Hfield]]]]].
  destruct Hrow as [_ [_ [_ [_ [Hnn _]]]]].
  exists s, at_call, v. rewrite (stored_value cls row name out Hnn Hc Hfield). exact Hrun.
Qed.

(** X19: whatever a run does, the rows it adds to the table of the contacts
    hold a stripped e-mail address the library accepts and a phone number in
    the international format of the library (never [None], although the
    column is nullable). *)
Theorem stored_contacts_are_valid :
  forall (E : Ext) (self : Pipeline) (w : World),
    exists added,
      store (snd (run E self w)) contacts = (store w contacts ++ added)%list
      /\ Forall (fun row =>
                   (exists s, field row "email" = VStr (strip s)
                              /\ validators_email E (strip s) = true)
                   /\ (exists s parsed formatted,
                          phonenumbers_parse E (VStr (strip s)) VNone = Ret parsed
                          /\ phonenumbers_format_international E parsed = Ret formatted
                          /\ field row "phone" = VStr formatted))
                added.
Proof.
  intros E self w.
  destruct (contacts_added_by_run E self w _ _ (surjective_pairing _))
    as [[_ [Hclock _]] [added [Hstore Hrows]]].
  exists added. split; [exact Hstore|].
  eapply Forall_impl; [| exact Hrows].
  intros row Hrow. rewrite Hclock in Hrow. split.
  - destruct (stored_required_column E Contact.cls _ row "email" Contact.validate_email
                Contact_columns_NoDup Hrow ltac:(cbn; tauto) eq_refl)
      as [s0 [at_call [v Hrun]]].
    destruct (validate_email_accepts _ _ _ _ _ Hrun) as [s [_ [Hout [Hok _]]]].
    exists s. split; [exact Hout | exact Hok].
  - destruct (stored_column E Contact.cls _ row "phone" Contact.validate_phone
                Contact_columns_NoDup Hrow ltac:(cbn; tauto) eq_refl)
      as [s0 [at_call [v [out [Hrun Hfield]]]]].
    destruct (validate_phone_accepts _ _ _ _ _ Hrun)
      as [s [parsed [formatted [_ [Hparse [Hfmt ->]]]]]].
    exists s, parsed, formatted. split; [exact Hparse|]. split; [exact Hfmt | exact Hfield].
Qed.

Section RunRowsMore.
Variable E : Ext.

Lemma activities_added_by_run :
  forall self,
    adds_rows activities
      (fun w row => stored_from_valid E Activity.cls (clock w) row) (run E self).
Proof.
  intros self.
  pose proof (stable_stored_from_valid E Activity.cls) as Hst.
  apply adds_rows_run; [exact Hst | | | |].
  - apply adds_rows_process_companies_other; [exact Hst | reflexivity ..].
  - apply adds_rows_process_contacts_other; [exact Hst | reflexivity ..].
  - apply adds_rows_process_opportunities_other; [exact Hst | reflexivity ..].
  - unfold process_activities.
    apply adds_rows_bind; [exact Hst | apply adds_rows_get_world|]. intros w0.
    apply (adds_rows_load_batch_valid E Activity.cls). reflexivity.
Qed.

Lemma valid_companies_added_by_run :
  forall self,
    adds_rows companies
      (fun w row => stored_from_valid E Company.cls (clock w) row) (run E self).
Proof.
  intros self.
  pose proof (stable_stored_from_valid E Company.cls) as Hst.
  apply adds_rows_run; [exact Hst | | | |].
  - unfold process_companies.
    apply adds_rows_bind; [exact Hst | apply adds_rows_get_world|]. intros w0.
    apply adds_rows_for_each; [exact Hst|]. intros chunk.
    apply adds_rows_bind; [exact Hst | apply adds_rows_lookup; reflexivity|]. intros m.
    apply (adds_rows_load_batch_valid E Company.cls). reflexivity.
  - apply adds_rows_process_contacts_other; [exact Hst | reflexivity ..].
  - apply adds_rows_process_opportunities_other; [exact Hst | reflexivity ..].
  - apply adds_rows_process_activities_other; [exact Hst | reflexivity].
Qed.
End RunRowsMore.

(** X20: whatever a run does, the rows it adds to the table of the
    activities hold a type and an outcome in upper case and a subject in
    lower case, all three stripped, and a duration whose integer value is
    not negative (a boolean, which Python counts as an integer, is taken at
    its value 0 or 1). *)
Theorem stored_activities_are_valid :
  forall (E : Ext) (self : Pipeline) (w : World),
    exists added,
      store (snd (run E self w)) activities = (store w activities ++ added)%list
      /\ Forall (fun row =>
                   (exists s, field row "type" = VStr (upper (strip s)))
                   /\ (exists s, field row "outcome" = VStr (upper (strip s)))
                   /\ (exists s, field row "subject" = VStr (lower (strip s)))
                   /\ (exists z, py_int (field row "duration_minutes") = Ret z
                                 /\ 0 <= z))
                added.
Proof.
  intros E self w.
  destruct (activities_added_by_run E self w _ _ (surjective_pairing _))
    as [_ [added [Hstore Hrows]]].
  exists added. split; [exact Hstore|].
  eapply Forall_impl; [| exact Hrows].
  intros row Hrow.
  pose proof (fun name f => stored_required_column E Activity.cls _ row name f
                              Activity_columns_NoDup Hrow) as Hcol.
  split; [| split; [| split]].
  - destruct (Hcol "type" Activity.validate_type ltac:(cbn; tauto) eq_refl)
      as [s0 [at_call [v Hrun]]].
    destruct (text_validator_accepts _ _ _ Hrun) as [s [_ Hout]]. exists s. exact Hout.
  - destruct (Hcol "outcome" Activity.validate_outcome ltac:(cbn; tauto) eq_refl)
      as [s0 [at_call [v Hrun]]].
    destruct (text_validator_accepts _ _ _ Hrun) as [s [_ Hout]]. exists s. exact Hout.
  - destruct (Hcol "subject" Activity.validate_subject ltac:(cbn; tauto) eq_refl)
      as [s0 [at_call [v Hrun]]].
    destruct (text_validator_accepts _ _ _ Hrun) as [s [_ Hout]]. exists s. exact Hout.
  - destruct (Hcol "duration_minutes" Activity.validate_duration_minutes
                ltac:(cbn; tauto) eq_refl) as [s0 [at_call [v Hrun]]].
    destruct (validate_duration_minutes_accepts _ _ _ _ _ Hrun)
      as [Hout [[z [Hz Hle]] | [b Hb]]].
    + exists z. split; [| exact Hle].
      replace (field row "duration_minutes") with (VInt z) by congruence. reflexivity.
    + replace (field row "duration_minutes") with (VBool b) by congruence.
      exists (if b then 1 else 0). split; [reflexivity | destruct b; lia].
Qed.

(** X21: whatever a run does, the rows it adds to the table of the
    companies hold a stripped name in upper case, a stripped domain the
    library accepts, a stripped size whose delimiters are in place, and the
    two-letter code the library gives for the country. *)
Theorem stored_companies_are_valid :
  forall (E : Ext) (self : Pipeline) (w : World),
    exists added,
      store (snd (run E self w)) companies = (store w companies ++ added)%list
      /\ Forall (fun row =>
                   (exists s, field row "name" = VStr (upper (strip s)))
                   /\ (exists s, field row "domain" = VStr (strip s)
                                 /\ validators_domain E (strip s) = true)
                   /\ (exists s, field row "size" = VStr (strip s)
                                 /\ delimiters_ok (strip s) = true)
                   /\ (exists s iso2, cc_convert E (upper (strip s)) = Some iso2
                                      /\ field row "country" = VStr iso2))
                added.
Proof.
  intros E self w.
  destruct (valid_companies_added_by_run E self w _ _ (surjective_pairing _))
    as [[_ [Hclock _]] [added [Hstore Hrows]]].
  exists added. split; [exact Hstore|].
  eapply Forall_impl; [| exact Hrows].
  intros row Hrow. rewrite Hclock in Hrow.
  pose proof (fun name f => stored_required_column E Company.cls _ row name f
                              Company_columns_NoDup Hrow) as Hcol.
  split; [| split; [| split]].
  - destruct (Hcol "name" Company.validate_name ltac:(cbn; tauto) eq_refl)
      as [s0 [at_call [v Hrun]]].
    destruct (text_validator_accepts _ _ _ Hrun) as [s [_ Hout]]. exists s. exact Hout.
  - destruct (Hcol "domain" Company.validate_domain ltac:(cbn; tauto) eq_refl)
      as [s0 [at_call [v Hrun]]].
    destruct (validate_domain_accepts _ _ _ _ _ Hrun) as [s [_ [Hout Hok]]].
    exists s. split; [exact Hout | exact Hok].
  - destruct (Hcol "size" Company.validate_size ltac:(cbn; tauto) eq_refl)
      as [s0 [at_call [v Hrun]]].
    destruct (validate_size_accepts _ _ _ _ _ Hrun) as [s [_ [Hout Hok]]].
    exists s. split; [exact Hout | exact Hok].
  - destruct (Hcol "country" Company.validate_country ltac:(cbn; tauto) eq_refl)
      as [s0 [at_call [v Hrun]]].
    destruct (validate_country_accepts _ _ _ _ _ Hrun) as [s [iso2 [_ [Hcc Hout]]]].
    exists s, iso2. split; [exact Hcc | exact Hout].
Qed.

(** ** etl/pipeline.py: the industry of a company *)

Lemma idmap_get_inv :
  forall (rows : list Row) k id,
    idmap_get (map (fun r => (field r "name", field r "id")) rows) k = Ret id ->
    exists row, In row rows /\ val_eqb (field row "name") k = true /\ field row "id" = id.
Proof.
  intros rows k id. induction rows as [| row rows IH]; cbn; intros H; [discriminate H|].
  destruct (val_eqb (field row "name") k) eqn:Heq.
  - apply Ret_inj in H. exists row. split; [left; reflexivity|]. split; assumption.
  - destruct (IH H) as [row' [Hin Hrow']]. exists row'. split; [right; exact Hin | exact Hrow'].
Qed.

Lemma In_chunks_of :
  forall fuel n (rows chunk : list Row) data,
    In chunk (chunks_of fuel n rows) -> In data chunk -> In data rows.
Proof.
  induction fuel as [| fuel IH]; intros n rows chunk data Hchunk Hdata; [destruct Hchunk|].
  destruct rows as [| r rows]; [destruct Hchunk|].
  cbn [chunks_of] in Hchunk. rewrite <- (firstn_skipn n (r :: rows)).
  apply in_or_app. destruct Hchunk as [<- | Hchunk].
  - left. exact Hdata.
  - right. exact (IH _ _ _ _ Hchunk Hdata).
Qed.

Lemma substitute_spec :
  forall m source target data d,
    substitute m source target data = Ret d ->
    exists name,
      clean_text (field data source) false = Ret name
      /\ idmap_get m name = Ret (field d target).
Proof.
  intros m source target data d H. unfold substitute, dict_pop in H.
  destruct (dict_get data source) as [v |] eqn:Hv; [| discriminate H].
  cbn [bindR] in H.
  destruct (clean_text v false) as [name | e] eqn:Hname; [| discriminate H].
  cbn [bindR] in H.
  destruct (idmap_get m name) as [id | e] eqn:Hid; [| discriminate H].
  cbn [bindR] in H. apply Ret_inj in H. subst d.
  exists name. rewrite (field_of_dict_get _ _ _ Hv). split; [exact Hname|].
  unfold field. rewrite dict_get_set_same. exact Hid.
Qed.

Lemma validate_keeps :
  forall cls cx self is_valid self' c,
    validator_of cls c = None ->
    validate cls cx self = Ret (is_valid, self') ->
    getattr self' c = getattr self c.
Proof.
  intros cls cx self is_valid self' c Hnone H. unfold validate in H.
  destruct (validate_columns cls cx (columns cls) self) as [s | e] eqn:Hcols;
    cbn in H; [| discriminate H].
  apply Ret_inj in H. injection H as _ <-.
  exact (validate_columns_keeps cls cx c Hnone _ _ _ Hcols).
Qed.

Lemma stable_refers_to_industry : forall records, stable (refers_to_industry records).
Proof.
  intros records w w' row [Hext _] [ind [data [Hind Hrest]]].
  exists ind, data. split; [exact (extends_In _ _ _ _ Hext Hind) | exact Hrest].
Qed.

Lemma adds_rows_for_each_in :
  forall (A : Type) t Q (l : list A) (body : A -> M unit),
    stable Q ->
    (forall x, In x l -> adds_rows t Q (body x)) -> adds_rows t Q (for_each l body).
Proof.
  intros A t Q l body Hstable. induction l as [| x l IH]; intros Hbody; cbn [for_each].
  - apply adds_rows_ret.
  - apply adds_rows_bind; [exact Hstable | apply Hbody; left; reflexivity|].
    intros _. apply IH. intros y Hy. apply Hbody. right. exact Hy.
Qed.

Section CompanyRows.
Variable E : Ext.

(** One chunk of the companies: the industries are resolved, then the
    companies of the chunk are loaded with the ids found. *)
Lemma companies_chunk_rows :
  forall (records chunk : list Row),
    (forall data, In data chunk -> In data records) ->
    adds_rows companies (refers_to_industry records)
      (industry_ids_map <~ process_sub_entities Industry.cls chunk "industry" ;;
       load_batch E Company.cls "companies"
         (substitute industry_ids_map "industry" "industry_id") chunk).
Proof.
  intros records chunk Hchunk w r w' H. unfold bind in H.
  destruct (process_sub_entities Industry.cls chunk "industry" w) as [[m | e] w1] eqn:Hpse.
  - pose proof (frame_process_sub_entities _ _ _ _ _ _ Hpse) as Hev1.
    pose proof (frame_load_batch E _ _ _ _ _ _ _ H) as Hev2.
    split; [exact (evolves_trans _ _ _ Hev1 Hev2)|].
    destruct (load_batch_rows E Company.cls _ _ _ _ _ _ eq_refl H) as [added [Hs Hrows]].
    exists added. split.
    { rewrite Hs. cbn [tablename Company.cls]. rewrite store_add_same.
      rewrite (process_sub_entities_other_table Industry.cls chunk "industry" companies
                 _ _ _ eq_refl Hpse). reflexivity. }
    destruct (process_sub_entities_success _ _ _ _ _ _ (or_introl eq_refl) Hpse)
      as [cleaned [new_rows [_ [Hclean [Htext [_ [Hm _]]]]]]].
    eapply Forall_impl; [| exact Hrows].
    intros row [data [d [obj' [Hdata [Hsub [Hval [Hnn Hfields]]]]]]].
    destruct (substitute_spec _ _ _ _ _ Hsub) as [name [Hname Hget]].
    assert (Hin : In (field data "industry") (column_values chunk "industry")).
    { apply In_column_values. exists data. split; [exact Hdata | reflexivity]. }
    destruct (Forall2_in_l _ _ _ _ _ _ (map_res_spec _ _ _ _ _ Hclean) Hin)
      as [n [Hn Hcleaned]].
    rewrite Hname in Hcleaned. apply Ret_inj in Hcleaned. subst n.
    destruct (proj1 (Forall_forall _ _) Htext name Hn) as [s Hs_name].
    assert (Htn : text_or_none name) by (right; exists s; exact Hs_name).
    rewrite Hm in Hget. cbn [tablename Industry.cls] in Hget.
    destruct (idmap_get_inv _ _ _ Hget) as [ind [Hind [Heq Hid]]].
    apply In_query_in in Hind. destruct Hind as [Hind _].
    exists ind, data.
    split; [exact (extends_In _ _ _ _ (proj1 Hev2) Hind)|].
    split; [exact (Hchunk _ Hdata)|].
    split; [| split].
    + rewrite (stored_value Company.cls row "id" (getattr obj' "id") Hnn).
      * rewrite (validated_id Company.cls _ _ _ _ (or_introl eq_refl) Hval).
        apply (substitute_preserves_id m "industry" "industry_id"); [discriminate ..|].
        exact Hsub.
      * cbn. tauto.
      * apply Hfields. cbn. tauto.
    + rewrite Hname. f_equal. symmetry. exact (val_eqb_text _ _ Htn Heq).
    + rewrite (stored_value Company.cls row "industry_id" (getattr obj' "industry_id") Hnn).
      * rewrite (validate_keeps Company.cls _ _ _ _ "industry_id" eq_refl Hval), Hid.
        unfold getattr. cbn [attrs BaseModel_init].
        apply field_filter_columns. reflexivity.
      * cbn. tauto.
      * apply Hfields. cbn. tauto.
  - injection H as <- <-.
    split; [exact (frame_process_sub_entities _ _ _ _ _ _ Hpse)|].
    exists []. rewrite app_nil_r. split; [| constructor].
    exact (process_sub_entities_other_table Industry.cls chunk "industry" companies
             _ _ _ eq_refl Hpse).
Qed.

Lemma companies_added_by_run :
  forall self w r w',
    run E self w = (r, w') ->
    exists added,
      store w' companies = (store w companies ++ added)%list
      /\ Forall (refers_to_industry (companies_csv (files w (data_path self))) w') added.
Proof.
  intros self w r w' H.
  set (records := companies_csv (files w (data_path self))).
  pose proof (stable_refers_to_industry records) as Hst.
  assert (Hrest : adds_rows companies (refers_to_industry records)
                    (_ <~ process_contacts E self ;;
                     _ <~ process_opportunities E self ;;
                     _ <~ process_activities E self ;;
                     w0 <~ get_world ;;
                     if any_errors (class_validation_errors w0) then log_errors self
                     else ret tt)).
  { apply adds_rows_bind;
      [exact Hst | apply adds_rows_process_contacts_other; [exact Hst | reflexivity ..]|].
    intros _. apply adds_rows_bind;
      [exact Hst | apply adds_rows_process_opportunities_other; [exact Hst | reflexivity ..]|].
    intros _. apply adds_rows_bind;
      [exact Hst | apply adds_rows_process_activities_other; [exact Hst | reflexivity]|].
    intros _. apply adds_rows_bind; [exact Hst | apply adds_rows_get_world|]. intros w0.
    destruct (any_errors _); [apply adds_rows_log_errors | apply adds_rows_ret]. }
  assert (Hfirst : adds_rows companies (refers_to_industry records)
                     (for_each (read_chunks records)
                        (fun companies_df =>
                           industry_ids_map <~
                             process_sub_entities Industry.cls companies_df "industry" ;;
                           load_batch E Company.cls "companies"
                             (substitute industry_ids_map "industry" "industry_id")
                             companies_df))).
  { apply adds_rows_for_each_in; [exact Hst|]. intros chunk Hin.
    apply companies_chunk_rows. intros data Hdata.
    exact (In_chunks_of _ _ _ _ _ Hin Hdata). }
  assert (Hrun : (_ <~ for_each (read_chunks records)
                        (fun companies_df =>
                           industry_ids_map <~
                             process_sub_entities Industry.cls companies_df "industry" ;;
                           load_batch E Company.cls "companies"
                             (substitute industry_ids_map "industry" "industry_id")
                             companies_df) ;;
                  _ <~ process_contacts E self ;;
                  _ <~ process_opportunities E self ;;
                  _ <~ process_activities E self ;;
                  w0 <~ get_world ;;
                  if any_errors (class_validation_errors w0) then log_errors self
                  else ret tt) w = (r, w')).
  { exact H. }
  exact (proj2 (adds_rows_bind _ _ _ _ _ _ Hst Hfirst (fun _ => Hrest) _ _ _ Hrun)).
Qed.
End CompanyRows.

(** X22: whatever a run does, each row it adds to the table of the
    companies was made from a record of the input file with the same id,
    and its [industry_id] is the id of a row of the industries whose name is
    the cleaned industry of that record. *)
Theorem stored_companies_refer_to_industries :
  forall (E : Ext) (self : Pipeline) (w : World),
    exists added,
      store (snd (run E self w)) companies = (store w companies ++ added)%list
      /\ Forall (fun row =>
                   exists ind data,
                     In ind (store (snd (run E self w)) industries)
                     /\ In data (companies_csv (files w (data_path self)))
                     /\ field row "id" = field data "id"
                     /\ clean_text (field data "industry") false = Ret (field ind "name")
                     /\ field row "industry_id" = field ind "id")
                added.
Proof.
  intros E self w.
  exact (companies_added_by_run E self w _ _ (surjective_pairing _)).
Qed.

(** ** etl/pipeline.py: the batch of contacts *)

Lemma ForallOrdPairs_filter :
  forall (A : Type) (R : A -> A -> Prop) (f : A -> bool) l,
    ForallOrdPairs R l -> ForallOrdPairs R (filter f l).
Proof.
  intros A R f l H. induction H as [| a l Ha Hl IH]; cbn; [constructor|].
  destruct (f a); [| exact IH]. constructor; [| exact IH].
  apply Forall_forall. intros x Hx. apply filter_In in Hx.
  exact (proj1 (Forall_forall _ _) Ha x (proj1 Hx)).
Qed.

Lemma keep_first_pairs :
  forall subset l,
    ForallOrdPairs (fun a b => same_key (field a subset) (field b subset) = false)
                   (keep_first subset l).
Proof.
  intros subset l. induction l as [| r rs IH]; cbn [keep_first]; [constructor|].
  constructor.
  - apply Forall_forall. intros x Hx. apply filter_In in Hx. destruct Hx as [_ Hx].
    apply negb_true_iff in Hx. exact Hx.
  - apply ForallOrdPairs_filter, IH.
Qed.

(** X23: the batch of contacts that goes on after the sort and the
    removal of duplicates is made of rows of the input, no two of them with
    the same e-mail address (two missing addresses count as the same), and
    every address of the input is still there. *)
Theorem dedup_contacts_distinct_emails :
  forall (batch result : list Row),
    dedup_contacts batch = Ret result ->
    (forall r, In r result -> In r batch)
    /\ ForallOrdPairs
         (fun a b => same_key (field a "email") (field b "email") = false) result
    /\ (forall r, In r batch ->
          exists kept, In kept result
                       /\ same_key (field kept "email") (field r "email") = true).
Proof.
  intros batch result H. unfold dedup_contacts in H.
  destruct (sort_values_desc "last_modified" batch) as [sorted | e] eqn:Hsort;
    cbn [bindR] in H; [| discriminate H].
  destruct (sort_values_desc_spec _ _ Hsort) as [_ Hin].
  unfold drop_duplicates in H.
  destruct (negb (has_column sorted "email")); [discriminate H|].
  apply Ret_inj in H. subst result. split; [| split].
  - intros r Hr. apply Hin. exact (In_keep_first _ _ _ Hr).
  - apply keep_first_pairs.
  - intros r Hr.
    destruct (keep_first_representative "email" (fun _ _ => True) sorted
                (fun _ => I) (StronglySorted_all _ _ _ (fun _ _ _ _ => I))
                r (proj2 (Hin r) Hr)) as [kept [Hkept [Hsame _]]].
    exists kept. split; assumption.
Qed.

Lemma dedup_contacts_distinct_emails_witness :
  ForallOrdPairs (fun a b => same_key (field a "email") (field b "email") = false)
    [newer_contact].
Proof.
  exact (proj1 (proj2 (dedup_contacts_distinct_emails [older_contact; newer_contact]
                         [newer_contact] eq_refl))).
Defined.



(** ** etl/pipeline.py: the entries of the error log *)

Lemma logs_entries_unchanged :
  forall (A : Type) Q (f : M A),
    (forall w r w', f w = (r, w') -> class_validation_errors w' = class_validation_errors w) ->
    logs_entries Q f.
Proof.
  intros A Q f Hsame w r w' H key. exists []. rewrite app_nil_r, (Hsame _ _ _ H).
  split; [reflexivity | constructor].
Qed.

Lemma logs_entries_ret : forall (A : Type) Q (a : A), logs_entries Q (ret a).
Proof.
  intros A Q a. apply logs_entries_unchanged. intros w r w' H. injection H as _ <-. reflexivity.
Qed.

Lemma logs_entries_lift : forall (A : Type) Q (r : PyRes A), logs_entries Q (lift r).
Proof.
  intros A Q r0. apply logs_entries_unchanged. intros w r w' H. injection H as _ <-. reflexivity.
Qed.

Lemma logs_entries_get_world : forall Q, logs_entries Q get_world.
Proof.
  intros Q. apply logs_entries_unchanged. intros w r w' H. injection H as _ <-. reflexivity.
Qed.

Lemma logs_entries_bind :
  forall (A B : Type) Q (m : M A) (k : A -> M B),
    logs_entries Q m -> (forall a, logs_entries Q (k a)) -> logs_entries Q (bind m k).
Proof.
  intros A B Q m k Hm Hk w r w' H key. unfold bind in H.
  destruct (m w) as [[a | e] w1] eqn:Hmw.
  - destruct (Hm _ _ _ Hmw key) as [more1 [H1 Hq1]].
    destruct (Hk a _ _ _ H key) as [more2 [H2 Hq2]].
    exists (more1 ++ more2)%list. split.
    + rewrite H2, H1, app_assoc. reflexivity.
    + apply Forall_app. split; assumption.
  - injection H as <- <-. exact (Hm _ _ _ Hmw key).
Qed.

Lemma logs_entries_for_each :
  forall (A : Type) Q (l : list A) (body : A -> M unit),
    (forall x, logs_entries Q (body x)) -> logs_entries Q (for_each l body).
Proof.
  intros A Q l body Hbody. induction l as [| x l IH]; cbn [for_each].
  - apply logs_entries_ret.
  - apply logs_entries_bind; [apply Hbody | intros _; exact IH].
Qed.

Lemma logs_entries_fold_m :
  forall (A B : Type) Q (f : B -> A -> M B) (l : list A) (acc : B),
    (forall b a, logs_entries Q (f b a)) -> logs_entries Q (fold_m f l acc).
Proof.
  intros A B Q f l. induction l as [| x l IH]; intros acc Hf; cbn [fold_m].
  - apply logs_entries_ret.
  - apply logs_entries_bind; [apply Hf | intros b; apply IH, Hf].
Qed.

Lemma logs_entries_record_error :
  forall (Q : ErrorEntry -> Prop) key e, Q e -> logs_entries Q (record_error key e).
Proof.
  intros Q key e He w r w' H key'. unfold record_error in H.
  destruct (mem_str key (map fst (class_validation_errors w))) eqn:Hkey;
    injection H as _ <-.
  - cbn [class_validation_errors with_errors].
    destruct (String.eqb_spec key' key) as [-> | Hne].
    + exists [e]. rewrite (log_get_append_same _ _ _ Hkey).
      split; [reflexivity | constructor; [exact He | constructor]].
    + exists []. rewrite (log_get_append_other _ _ _ _ Hne), app_nil_r.
      split; [reflexivity | constructor].
  - exists []. rewrite app_nil_r. split; [reflexivity | constructor].
Qed.

Lemma logs_entries_bulk_save_objects :
  forall Q cls objs, logs_entries Q (bulk_save_objects cls objs).
Proof.
  intros Q cls objs. apply logs_entries_unchanged. intros w r w' H.
  unfold bulk_save_objects in H. destruct (insert_rows _ _ _); injection H as _ <-; reflexivity.
Qed.

Lemma logs_entries_process_sub_entities :
  forall Q cls entities column, logs_entries Q (process_sub_entities cls entities column).
Proof.
  intros Q cls entities column. unfold process_sub_entities.
  apply logs_entries_bind.
  { unfold read_column.
    destruct (has_column _ _); [apply logs_entries_ret | apply logs_entries_lift]. }
  intros values. apply logs_entries_bind; [apply logs_entries_lift|].
  intros cleaned. apply logs_entries_bind; [apply logs_entries_get_world|].
  intros w0. apply logs_entries_bind; [apply logs_entries_bulk_save_objects|].
  intros _. apply logs_entries_bind; [apply logs_entries_get_world|].
  intros w1. apply logs_entries_ret.
Qed.

Section LoaderLogs.
Variable E : Ext.

(** What is logged is a record [validate] rejected, with the errors the
    validation left on the instance: one at least. *)
Lemma logs_entries_load_batch :
  forall cls key prepare batch,
    logs_entries (fun e => errors e <> []) (load_batch E cls key prepare batch).
Proof.
  intros cls key prepare batch. unfold load_batch.
  apply logs_entries_bind; [apply logs_entries_lift|].
  intros entity_map. apply logs_entries_bind; [apply logs_entries_get_world|].
  intros w0. apply logs_entries_bind; [| intros to_create; apply logs_entries_bulk_save_objects].
  apply logs_entries_fold_m. intros tc data. unfold stage_record.
  apply logs_entries_bind; [apply logs_entries_lift|].
  intros d. apply logs_entries_bind; [apply logs_entries_get_world|].
  intros w1 w r w' H. unfold bind, lift in H.
  destruct (validate cls (ctx_of E w1) (BaseModel_init cls d)) as [[is_valid obj'] | e]
    eqn:Hval.
  - destruct is_valid; cbn [negb] in H.
    + exact (logs_entries_ret _ _ _ _ _ _ H).
    + revert H. apply logs_entries_bind; [| intros _; apply logs_entries_ret].
      apply logs_entries_record_error. cbn [errors].
      unfold validate in Hval.
      destruct (validate_columns cls (ctx_of E w1) (columns cls) (BaseModel_init cls d))
        as [s | e]; cbn in Hval; [| discriminate Hval].
      apply Ret_inj in Hval. injection Hval as Hnil <-.
      destruct (validation_errors s); [discriminate Hnil | discriminate].
  - injection H as _ <-. intro key'. exists []. rewrite app_nil_r.
    split; [reflexivity | constructor].
Qed.

Lemma logs_entries_run :
  forall self, logs_entries (fun e => errors e <> []) (run E self).
Proof.
  intros self. unfold run.
  apply logs_entries_bind.
  { unfold process_companies.
    apply logs_entries_bind; [apply logs_entries_get_world|]. intros w0.
    apply logs_entries_for_each. intros chunk.
    apply logs_entries_bind; [apply logs_entries_process_sub_entities|].
    intros m. apply logs_entries_load_batch. }
  intros _. apply logs_entries_bind.
  { unfold process_contacts.
    apply logs_entries_bind; [apply logs_entries_get_world|]. intros w0.
    apply logs_entries_bind; [apply logs_entries_lift|]. intros df.
    apply logs_entries_bind; [apply logs_entries_process_sub_entities|].
    intros m. apply logs_entries_load_batch. }
  intros _. apply logs_entries_bind.
  { unfold process_opportunities.
    apply logs_entries_bind; [apply logs_entries_get_world|]. intros w0.
    apply logs_entries_for_each. intros chunk.
    apply logs_entries_bind; [apply logs_entries_process_sub_entities|]. intros m1.
    apply logs_entries_bind; [apply logs_entries_process_sub_entities|]. intros m2.
    apply logs_entries_bind; [apply logs_entries_process_sub_entities|]. intros m3.
    apply logs_entries_load_batch. }
  intros _. apply logs_entries_bind.
  { unfold process_activities.
    apply logs_entries_bind; [apply logs_entries_get_world|]. intros w0.
    apply logs_entries_load_batch. }
  intros _. apply logs_entries_bind; [apply logs_entries_get_world|]. intros w0.
  destruct (any_errors _); [| apply logs_entries_ret].
  apply logs_entries_unchanged. intros w r w' H. unfold log_errors in H.
  destruct (negb _); injection H as _ <-; reflexivity.
Qed.
End LoaderLogs.

(** X25: every entry a run appends to the class-level error log, under
    any key, carries at least one error message: a record is logged only
    when [validate] returned [False] for it, and then the list of errors of
    the instance is not empty. *)
Theorem logged_entries_have_errors :
  forall (E : Ext) (self : Pipeline) (w : World) (key : string),
    exists more,
      log_get (class_validation_errors (snd (run E self w))) key
      = (log_get (class_validation_errors w) key ++ more)%list
      /\ Forall (fun e => is_nil (errors e) = false) more.
Proof.
  intros E self w key.
  destruct (logs_entries_run E self w _ _ (surjective_pairing _) key) as [more [Hlog Hq]].
  exists more. split; [exact Hlog|].
  eapply Forall_impl; [| exact Hq].
  intros e He. cbv beta in He. destruct (errors e); [| reflexivity].
  exfalso. apply He. reflexivity.
Qed.

(** ** utils/db.py, models/contact.py: when [validate] of a contact returns *)

(** A list of columns whose checks look at their own attribute only:
    [validate] gets through them exactly when none of the checks raises
    anything but [ValueError]. *)
Lemma validate_columns_local :
  forall cls cx self0 cols,
    NoDup (map col_name cols) ->
    (forall c, In c cols ->
       forall s, getattr s (col_name c) = getattr self0 (col_name c) ->
                 check_column cls cx s c = check_column cls cx self0 c) ->
    forall self,
      (forall c, In c cols -> getattr self (col_name c) = getattr self0 (col_name c)) ->
      ((exists self', validate_columns cls cx cols self = Ret self')
       <-> forall c, In c cols -> field_escapes cls cx self0 c = false).
Proof.
  intros cls cx self0 cols. induction cols as [| c rest IH]; intros Hnd Hlocal self Hsame.
  - split; [intros _ c [] | intros _; exists self; reflexivity].
  - cbn [map] in Hnd. inversion Hnd as [| ? ? Hnotin Hnd']; subst.
    assert (Hc : check_column cls cx self c = check_column cls cx self0 c).
    { apply Hlocal; [left; reflexivity | apply Hsame; left; reflexivity]. }
    assert (Hne : forall c', In c' rest -> col_name c <> col_name c').
    { intros c' Hin Heq. apply Hnotin. rewrite Heq. apply in_map, Hin. }
    assert (Hlocal' : forall c', In c' rest ->
              forall s, getattr s (col_name c') = getattr self0 (col_name c') ->
                        check_column cls cx s c' = check_column cls cx self0 c').
    { intros c' Hin. apply Hlocal. right. exact Hin. }
    cbn [validate_columns]. unfold validate_column. rewrite Hc.
    destruct (check_column cls cx self0 c) as [r | e] eqn:Hcheck; cbn.
    + assert (Hsame' : forall c', In c' rest ->
                getattr (match r with
                         | Some value => setattr self (col_name c) value
                         | None => self
                         end) (col_name c') = getattr self0 (col_name c')).
      { intros c' Hin. destruct r; [rewrite getattr_setattr_other by (apply Hne, Hin)|];
          apply Hsame; right; exact Hin. }
      rewrite (IH Hnd' Hlocal' _ Hsame'). split.
      * intros Hrest c' [<- | Hin]; [| exact (Hrest _ Hin)].
        unfold field_escapes. rewrite Hcheck. reflexivity.
      * intros Hall c' Hin. apply Hall. right. exact Hin.
    + destruct e; cbn;
        try (split; [intros [s' Hs']; discriminate Hs' |
                     intros Hall; specialize (Hall c (or_introl eq_refl));
                     unfold field_escapes in Hall; rewrite Hcheck in Hall;
                     discriminate Hall]).
      assert (Hsame' : forall c', In c' rest ->
                getattr (append_error self msg) (col_name c') = getattr self0 (col_name c')).
      { intros c' Hin. apply Hsame. right. exact Hin. }
      rewrite (IH Hnd' Hlocal' _ Hsame'). split.
      * intros Hrest c' [<- | Hin]; [| exact (Hrest _ Hin)].
        unfold field_escapes. rewrite Hcheck. reflexivity.
      * intros Hall c' Hin. apply Hall. right. exact Hin.
Qed.

Lemma contact_checks_local :
  forall cx self0 c,
    In c [col "id" false; col "status_id" false; col "company_id" false;
          col "email" false; col "first_name" false; col "last_name" false;
          col "title" false; col "phone" true; col "created_date" false] ->
    forall s, getattr s (col_name c) = getattr self0 (col_name c) ->
              check_column Contact.cls cx s c = check_column Contact.cls cx self0 c.
Proof.
  intros cx self0 c Hc s Hs. cbn in Hc.
  destruct Hc as [<- | [<- | [<- | [<- | [<- | [<- | [<- | [<- | [<- | []]]]]]]]]];
    unfold check_column; cbn [col_name nullable col] in *; rewrite Hs; reflexivity.
Qed.

(** The check of the phone number: the column is nullable, so [None]
    reaches the validator. *)
Lemma phone_escapes :
  forall cx self,
    field_escapes Contact.cls cx self (col "phone" true) = false
    <-> exists s, getattr self "phone" = VStr s.
Proof.
  intros cx self. unfold field_escapes, check_column. cbn [col_name nullable col].
  change (validator_of Contact.cls "phone") with (Some Contact.validate_phone).
  destruct (getattr self "phone") as [| b | z | q | s | t a];
    try (split; [intros H; discriminate H | intros [s H]; discriminate H]).
  split; [intros _; exists s; reflexivity | intros _].
  unfold Contact.validate_phone, normalize_phone_number, try_except. cbn [as_str bindR].
  destruct (phonenumbers_parse (ext cx) (VStr (strip s)) VNone) as [parsed | e];
    cbn; [| reflexivity].
  destruct (phonenumbers_format_international (ext cx) parsed); reflexivity.
Qed.

Lemma contact_created_date_never_escapes :
  forall cx self, field_escapes Contact.cls cx self (col "created_date" false) = false.
Proof.
  intros cx self. unfold field_escapes, check_column. cbn [col_name nullable col].
  change (validator_of Contact.cls "created_date") with (Some Contact.validate_created_date).
  destruct (created_date_cases Contact.validate_created_date ltac:(cbn; tauto)
              cx self "created_date" (getattr self "created_date"))
    as [[t [_ [_ Hrun]]] | [msg [Hrun _]]];
    rewrite Hrun; destruct (getattr self "created_date"); reflexivity.
Qed.

(** The check of the modification date, in the state [s] it is run in. *)
Lemma last_modified_escapes :
  forall cx s,
    field_escapes Contact.cls cx s (col "last_modified" false) = false
    <-> (reaches_comparison cx (getattr s "last_modified") ->
         exists c, getattr s "created_date" = VDatetime c true).
Proof.
  intros cx s. unfold field_escapes, check_column, reaches_comparison.
  cbn [col_name nullable col].
  change (validator_of Contact.cls "last_modified")
    with (Some Contact.validate_last_modified).
  destruct (getattr s "last_modified") as [| b | z | q | str | t a] eqn:Hlm;
    try (split; [intros _ [H _]; discriminate H | reflexivity]);
    unfold Contact.validate_last_modified, standardize_or, try_except;
    (destruct (standardize_datetime (ext cx) _) as [std | e] eqn:Hstd;
     [ destruct (standardize_datetime_aware _ _ _ Hstd) as [m ->]; cbn;
       destruct (Z.ltb_spec (now cx) m) as [Hlate | Hnot_late]; cbn;
       [ split; [intros _ [_ [m' [Hm' Hle]]] | reflexivity];
         apply Ret_inj in Hm'; injection Hm' as <-; lia
       | destruct (getattr s "created_date") as [| b' | z' | q' | str' | c aware];
         cbn;
         try (split; [intros H; discriminate H |
                      intros H; destruct H as [c' Hc'];
                      [split; [reflexivity | exists m; split; [reflexivity | exact Hnot_late]]
                      | discriminate Hc']]);
         destruct aware; cbn;
         [ split; [intros _ _; exists c; reflexivity | intros _];
           destruct (m <? c); reflexivity
         | split; [intros H; discriminate H |
                   intros H; destruct H as [c' Hc'];
                   [split; [reflexivity | exists m; split; [reflexivity | exact Hnot_late]]
                   | discriminate Hc']] ] ]
     | cbn; split; [intros _ [_ [m' [Hm' _]]]; discriminate Hm' | reflexivity] ]).
Qed.

Lemma validate_column_returns_iff :
  forall cls cx s c,
    (exists s', validate_column cls cx s c = Ret s') <-> field_escapes cls cx s c = false.
Proof.
  intros cls cx s c. unfold validate_column, field_escapes.
  destruct (check_column cls cx s c) as [r | e]; cbn.
  - split; [reflexivity | intros _; eexists; reflexivity].
  - destruct e; cbn;
      try (split; [intros [s' H]; discriminate H | intros H; discriminate H]).
    split; [reflexivity | intros _; eexists; reflexivity].
Qed.

Lemma check_column_present :
  forall cls cx s c (f : Validator),
    is_none (getattr s (col_name c)) = false ->
    validator_of cls (col_name c) = Some f ->
    check_column cls cx s c
    = (value' <- f cx s (col_name c) (getattr s (col_name c)) ;; Ret (Some value')).
Proof.
  intros cls cx s c f Hpresent Hf. unfold check_column. rewrite Hf.
  destruct (getattr s (col_name c)), (nullable c); try reflexivity; discriminate Hpresent.
Qed.

(** The creation date as the check of the modification date finds it. *)
Lemma created_date_after_check :
  forall cx self s9,
    validate_columns Contact.cls cx
      [col "id" false; col "status_id" false; col "company_id" false;
       col "email" false; col "first_name" false; col "last_name" false;
       col "title" false; col "phone" true; col "created_date" false] self = Ret s9 ->
    getattr s9 "last_modified" = getattr self "last_modified"
    /\ ((exists c, getattr s9 "created_date" = VDatetime c true)
        <-> comparable_created_date cx (getattr self "created_date")).
Proof.
  intros cx self s9 H. split.
  { apply (validate_columns_untouched _ _ _ _ _ _ H). cbn. intuition discriminate. }
  change [col "id" false; col "status_id" false; col "company_id" false;
          col "email" false; col "first_name" false; col "last_name" false;
          col "title" false; col "phone" true; col "created_date" false]
    with ([col "id" false; col "status_id" false; col "company_id" false;
           col "email" false; col "first_name" false; col "last_name" false;
           col "title" false; col "phone" true] ++ col "created_date" false :: [])%list in H.
  destruct (validate_columns_split _ _ _ _ _ _ _ H) as [s8 [s9' [Hpre [Hcol Hpost]]]].
  cbn in Hpost. apply Ret_inj in Hpost. subst s9'.
  assert (Hcd : getattr s8 "created_date" = getattr self "created_date").
  { apply (validate_columns_untouched _ _ _ _ _ _ Hpre). cbn. intuition discriminate. }
  unfold comparable_created_date. rewrite <- Hcd.
  pose proof (created_date_cases Contact.validate_created_date ltac:(cbn; tauto)
                cx s8 "created_date" (getattr s8 "created_date")) as Hcases.
  destruct (validate_column_cases _ _ _ _ _ Hcol) as [[r [Hcheck ->]] | [msg [Hcheck ->]]].
  - destruct (check_column_ret _ _ _ _ _ Hcheck) as [_ Hrun].
    cbn [col_name col] in Hrun.
    change (validator_of Contact.cls "created_date")
      with (Some Contact.validate_created_date) in Hrun.
    destruct Hrun as [out [Hrun ->]]. cbn [col_name col].
    rewrite getattr_setattr_same.
    destruct Hcases as [[t [Hstd [Hle Hacc]]] | [msg [Hrej _]]];
      [| rewrite Hrej in Hrun; discriminate Hrun].
    rewrite Hacc in Hrun. apply Ret_inj in Hrun. subst out.
    split; [intros _; right; exists t; split; assumption | intros _; exists t; reflexivity].
  - change (getattr (append_error s8 msg) "created_date") with (getattr s8 "created_date").
    split; [intros Hc; left; exact Hc|].
    intros [Hc | [c [Hstd Hle]]]; [exact Hc|]. exfalso.
    destruct Hcases as [[t [_ [_ Hacc]]] | [msg' [_ Hlate]]].
    + assert (Hpresent : is_none (getattr s8 "created_date") = false).
      { destruct (getattr s8 "created_date"); [discriminate Hstd | reflexivity ..]. }
      rewrite (check_column_present Contact.cls cx s8 (col "created_date" false)
                 Contact.validate_created_date Hpresent eq_refl) in Hcheck.
      cbn [col_name col] in Hcheck. rewrite Hacc in Hcheck. discriminate Hcheck.
    + specialize (Hlate c Hstd). lia.
Qed.

(** X26: when [validate] of a contact returns, and when it raises.  It
    returns (with [True] or [False]) exactly when the e-mail address, the
    two names and the title each hold a text or [None], the phone number
    holds a text ([None] is passed to the validator, the column being
    nullable), and, if the modification date gets as far as the comparison
    with the creation date, the creation date can be compared: it is an
    instant with a time zone, or its own validator accepted it.  In every
    other case an [AttributeError] or a [TypeError] leaves [validate]. *)
Theorem Contact_validate_returns_iff :
  forall (cx : Ctx) (self : Instance),
    (exists r, validate Contact.cls cx self = Ret r)
    <-> text_or_none (getattr self "email")
        /\ text_or_none (getattr self "first_name")
        /\ text_or_none (getattr self "last_name")
        /\ text_or_none (getattr self "title")
        /\ (exists s, getattr self "phone" = VStr s)
        /\ (reaches_comparison cx (getattr self "last_modified") ->
            comparable_created_date cx (getattr self "created_date")).
Proof.
  intros cx self.
  set (cols9 := [col "id" false; col "status_id" false; col "company_id" false;
                 col "email" false; col "first_name" false; col "last_name" false;
                 col "title" false; col "phone" true; col "created_date" false]).
  assert (Hsplit : forall r, validate Contact.cls cx self = Ret r <->
            exists s9 s10,
              validate_columns Contact.cls cx cols9 self = Ret s9
              /\ validate_column Contact.cls cx s9 (col "last_modified" false) = Ret s10
              /\ r = (is_nil (validation_errors s10), s10)).
  { intro r. unfold validate.
    change (columns Contact.cls) with (cols9 ++ [col "last_modified" false])%list.
    rewrite validate_columns_app.
    destruct (validate_columns Contact.cls cx cols9 self) as [s9 | e] eqn:H9; cbn [bindR].
    - cbn [validate_columns].
      destruct (validate_column Contact.cls cx s9 (col "last_modified" false)) as [s10 | e]
        eqn:H10; cbn [bindR].
      + split.
        * intro H. apply Ret_inj in H. exists s9, s10.
          split; [reflexivity|]. split; [exact H10|]. symmetry. exact H.
        * intros [s9' [s10' [H9' [H10' ->]]]]. apply Ret_inj in H9'. subst s9'.
          rewrite H10 in H10'. apply Ret_inj in H10'. subst s10'. reflexivity.
      + split; [discriminate|]. intros [s9' [s10' [H9' [H10' _]]]].
        apply Ret_inj in H9'. subst s9'. rewrite H10 in H10'. discriminate H10'.
    - split; [discriminate | intros [s9' [s10' [H9' _]]]; discriminate H9']. }
  assert (Hnine : (exists s9, validate_columns Contact.cls cx cols9 self = Ret s9)
                  <-> forall c, In c cols9 -> field_escapes Contact.cls cx self c = false).
  { apply (validate_columns_local Contact.cls cx self cols9).
    - cbn. solve_NoDup.
    - intros c Hc. apply contact_checks_local. exact Hc.
    - reflexivity. }
  assert (Hother : forall (f : Validator) name,
             (forall v, as_str v = Raise AttributeError ->
                        f cx self name v = Raise AttributeError) ->
             forall v, (forall s, v <> VStr s) -> f cx self name v = Raise AttributeError).
  { intros f name Hf v Hv. apply Hf. destruct v; try reflexivity.
    exfalso. exact (Hv s eq_refl). }
  assert (Hemail : field_escapes Contact.cls cx self (col "email" false) = false
                   <-> text_or_none (getattr self "email")).
  { apply (field_escapes_text Contact.cls cx self "email" Contact.validate_email eq_refl).
    - intro s. cbn. destruct (validators_email (ext cx) (strip s)); cbn; [| exact I].
      destruct (Contact.contact_found cx (strip s)); exact I.
    - apply Hother. intros v Hv. unfold Contact.validate_email. rewrite Hv. reflexivity. }
  assert (Hfirst : field_escapes Contact.cls cx self (col "first_name" false) = false
                   <-> text_or_none (getattr self "first_name")).
  { apply (field_escapes_text Contact.cls cx self "first_name"
             Contact.validate_first_name eq_refl).
    - intro s. exact I.
    - apply Hother. intros v Hv. unfold Contact.validate_first_name. rewrite Hv. reflexivity. }
  assert (Hlast : field_escapes Contact.cls cx self (col "last_name" false) = false
                  <-> text_or_none (getattr self "last_name")).
  { apply (field_escapes_text Contact.cls cx self "last_name"
             Contact.validate_last_name eq_refl).
    - intro s. exact I.
    - apply Hother. intros v Hv. unfold Contact.validate_last_name. rewrite Hv. reflexivity. }
  assert (Htitle : field_escapes Contact.cls cx self (col "title" false) = false
                   <-> text_or_none (getattr self "title")).
  { apply (field_escapes_text Contact.cls cx self "title" Contact.validate_title eq_refl).
    - intro s. exact I.
    - apply Hother. intros v Hv. unfold Contact.validate_title. rewrite Hv. reflexivity. }
  assert (Hlm : forall s9,
             validate_columns Contact.cls cx cols9 self = Ret s9 ->
             ((exists s10, validate_column Contact.cls cx s9 (col "last_modified" false)
                           = Ret s10)
              <-> (reaches_comparison cx (getattr self "last_modified") ->
                   comparable_created_date cx (getattr self "created_date")))).
  { intros s9 H9. rewrite validate_column_returns_iff, last_modified_escapes.
    destruct (created_date_after_check cx self s9 H9) as [Hsame Hcd].
    rewrite Hsame, Hcd. reflexivity. }
  split.
  - intros [r Hr]. apply Hsplit in Hr. destruct Hr as [s9 [s10 [H9 [H10 _]]]].
    pose proof (proj1 Hnine (ex_intro _ s9 H9)) as Hesc.
    split; [apply Hemail, Hesc; cbn; tauto|].
    split; [apply Hfirst, Hesc; cbn; tauto|].
    split; [apply Hlast, Hesc; cbn; tauto|].
    split; [apply Htitle, Hesc; cbn; tauto|].
    split; [apply (phone_escapes cx self), Hesc; cbn; tauto|].
    apply (Hlm s9 H9). exists s10. exact H10.
  - intros [He [Hf [Hl [Ht [Hp Hcmp]]]]].
    destruct (proj2 Hnine) as [s9 H9].
    { intros c Hc. cbn in Hc.
      destruct Hc as [<- | [<- | [<- | [<- | [<- | [<- | [<- | [<- | [<- | []]]]]]]]]].
      - apply field_escapes_without_validator. reflexivity.
      - apply field_escapes_without_validator. reflexivity.
      - apply field_escapes_without_validator. reflexivity.
      - apply Hemail, He.
      - apply Hfirst, Hf.
      - apply Hlast, Hl.
      - apply Htitle, Ht.
      - apply phone_escapes, Hp.
      - apply contact_created_date_never_escapes. }
    destruct (proj2 (Hlm s9 H9) Hcmp) as [s10 H10].
    exists (is_nil (validation_errors s10), s10). apply Hsplit.
    exists s9, s10. split; [exact H9|]. split; [exact H10 | reflexivity].
Qed.

(** ** utils/db.py: [validate] goes through every column of every class *)

Lemma loop_steps_columns :
  forall cols pre, map snd (loop_steps pre cols) = cols.
Proof.
  induction cols as [| c rest IH]; intro pre; cbn; [reflexivity|].
  rewrite IH. reflexivity.
Qed.

Lemma loop_steps_split :
  forall cols pre p c,
    In (p, c) (loop_steps pre cols) ->
    exists post, (pre ++ cols)%list = (p ++ c :: post)%list.
Proof.
  induction cols as [| c0 rest IH]; intros pre p c Hin; cbn in Hin; [destruct Hin|].
  destruct Hin as [Heq | Hin].
  - injection Heq as <- <-. exists rest. reflexivity.
  - destruct (IH _ _ _ Hin) as [post Hpost]. exists post.
    rewrite <- Hpost, <- app_assoc. reflexivity.
Qed.

Lemma state_at_reached :
  forall cls cx self pre s,
    validate_columns cls cx pre self = Ret s -> state_at cls cx self pre = s.
Proof. intros cls cx self pre s H. unfold state_at. rewrite H. reflexivity. Qed.

Lemma validate_columns_snoc :
  forall cls cx pre c self s s1,
    validate_columns cls cx pre self = Ret s ->
    validate_column cls cx s c = Ret s1 ->
    validate_columns cls cx (pre ++ [c]) self = Ret s1.
Proof.
  intros cls cx pre c self s s1 Hpre Hc. rewrite validate_columns_app, Hpre.
  cbn. rewrite Hc. reflexivity.
Qed.

(** The loop from the column after [pre] on: the errors it appends are the
    messages of the checks that fail, each in the state the loop has reached,
    in column order. *)
Lemma validate_columns_collects_in_state :
  forall cls cx self0 cols pre s s',
    validate_columns cls cx pre self0 = Ret s ->
    validate_columns cls cx cols s = Ret s' ->
    validation_errors s' =
    (validation_errors s ++
     flat_map (fun pc => field_error cls cx (state_at cls cx self0 (fst pc)) (snd pc))
       (loop_steps pre cols))%list.
Proof.
  intros cls cx self0. induction cols as [| c rest IH]; intros pre s s' Hpre Hrun.
  - cbn in Hrun. apply Ret_inj in Hrun. subst s'. cbn. rewrite app_nil_r. reflexivity.
  - cbn [validate_columns] in Hrun.
    destruct (validate_column cls cx s c) as [s1 | e] eqn:Hc; cbn in Hrun; [| discriminate Hrun].
    rewrite (IH _ _ _ (validate_columns_snoc _ _ _ _ _ _ _ Hpre Hc) Hrun).
    cbn [loop_steps flat_map fst snd]. rewrite (state_at_reached _ _ _ _ _ Hpre).
    unfold field_error.
    destruct (validate_column_cases _ _ _ _ _ Hc) as [[r [Hcheck ->]] | [msg [Hcheck ->]]];
      rewrite Hcheck.
    + destruct r; reflexivity.
    + cbn. rewrite <- app_assoc. reflexivity.
Qed.

(** The loop gets through the columns exactly when no check, in the state
    the loop has reached, raises anything but [ValueError]. *)
Lemma validate_columns_returns_in_state :
  forall cls cx self0 cols pre s,
    validate_columns cls cx pre self0 = Ret s ->
    ((exists s', validate_columns cls cx cols s = Ret s')
     <-> forall pc, In pc (loop_steps pre cols) ->
           field_escapes cls cx (state_at cls cx self0 (fst pc)) (snd pc) = false).
Proof.
  intros cls cx self0. induction cols as [| c rest IH]; intros pre s Hpre.
  - split; [intros _ pc [] | intros _; exists s; reflexivity].
  - cbn [validate_columns loop_steps].
    destruct (validate_column cls cx s c) as [s1 | e] eqn:Hc; cbn [bindR].
    + rewrite (IH _ _ (validate_columns_snoc _ _ _ _ _ _ _ Hpre Hc)). split.
      * intros Hrest pc [<- | Hin]; [| exact (Hrest _ Hin)].
        cbn [fst snd]. rewrite (state_at_reached _ _ _ _ _ Hpre). unfold field_escapes.
        destruct (validate_column_cases _ _ _ _ _ Hc) as [[r [Hcheck _]] | [msg [Hcheck _]]];
          rewrite Hcheck; reflexivity.
      * intros Hall pc Hin. apply Hall. right. exact Hin.
    + split; [intros [s' Hs']; discriminate Hs' |].
      intro Hall. specialize (Hall (pre, c) (or_introl eq_refl)). cbn [fst snd] in Hall.
      rewrite (state_at_reached _ _ _ _ _ Hpre) in Hall.
      unfold field_escapes in Hall. unfold validate_column in Hc.
      destruct (check_column cls cx s c) as [r | e0]; cbn in Hc; [discriminate Hc|].
      destruct e0; cbn in Hc; discriminate.
Qed.

Lemma error_count_in_state :
  forall cls cx self (steps : list (list Column * Column)),
    length (flat_map (fun pc => field_error cls cx (state_at cls cx self (fst pc)) (snd pc))
              steps) =
    length (filter (fun pc => field_invalid cls cx (state_at cls cx self (fst pc)) (snd pc))
              steps).
Proof.
  intros cls cx self. induction steps as [| pc rest IH]; cbn; [reflexivity|].
  rewrite length_app, IH. unfold field_error, field_invalid.
  destruct (check_column cls cx (state_at cls cx self (fst pc)) (snd pc)) as [r | e];
    [reflexivity|].
  destruct e; reflexivity.
Qed.

(** A check whose validator does not read [self] sees the value of its own
    field only. *)
Lemma check_column_own_field :
  forall cls cx s self c,
    own_field_only cls (col_name c) ->
    getattr s (col_name c) = getattr self (col_name c) ->
    check_column cls cx s c = check_column cls cx self c.
Proof.
  intros cls cx s self c Hown Hval. unfold check_column. rewrite Hval.
  destruct (validator_of cls (col_name c)) as [f |] eqn:Hf; [| reflexivity].
  rewrite (Hown f Hf cx s self). reflexivity.
Qed.


(** In a contact every validator but that of [last_modified] looks at its
    own field only. *)
Lemma Contact_own_field_only :
  forall name, name <> "last_modified" -> own_field_only Contact.cls name.
Proof.
  intros name Hname f Hf cx self self' key v.
  cbn [validator_of Contact.cls] in Hf.
  repeat match type of Hf with
         | (if ?b then _ else _) = Some _ => destruct b eqn:?
         end;
    try discriminate Hf; try (inversion Hf; subst f; reflexivity).
  exfalso. apply Hname.
  match goal with
  | H : String.eqb _ _ = true |- _ => apply String.eqb_eq in H; congruence
  end.
Qed.


(** ** etl/pipeline.py: modification times written in two formats *)

(** C5, where the code goes wrong: the batch is sorted on the texts of
    [last_modified], not on the instants they denote.  Two contacts share an
    address; the validators read the modification time of the first as 14:20
    and that of the second, written with a blank in place of the [T], as 15:00
    of the same day.  As texts the first is the greater, so it is the one
    kept, in whichever order the two rows come, and the run stores the
    contact that was modified earlier. *)
Lemma dedup_contacts_keeps_older_of_mixed_formats :
  field iso_contact "email" = field spaced_contact "email"
  /\ standardize_datetime mixed_ext (field iso_contact "last_modified")
     = Ret (VDatetime 1736950800 true)
  /\ standardize_datetime mixed_ext (field spaced_contact "last_modified")
     = Ret (VDatetime 1736953200 true)
  /\ datetime_lt (VDatetime 1736950800 true) (VDatetime 1736953200 true) = Ret true
  /\ dedup_contacts [iso_contact; spaced_contact] = Ret [iso_contact]
  /\ dedup_contacts [spaced_contact; iso_contact] = Ret [iso_contact]
  /\ fst (run mixed_ext sample_pipeline mixed_world) = Ret tt
  /\ map (fun r => (field r "id", field r "title"))
       (store (snd (run mixed_ext sample_pipeline mixed_world)) contacts)
     = [(VStr "CONT1", VStr "Manager")].
Proof. repeat split; vm_compute; reflexivity. Qed.

(** ** etl/pipeline.py: a run made later *)

Section ClockBlind.
Variable E : Ext.
Variable F : string -> Inputs.
Variables c ca : Z.
Hypothesis Hle : c <= ca.

Lemma standardized_is_aware :
  forall v d, standardize_datetime E v = Ret d -> exists t, d = VDatetime t true.
Proof.
  intros v d H. destruct v; cbn in H; try discriminate H.
  - destruct (dateutil_parse E s) as [t | e]; cbn in H; [| discriminate H].
    apply Ret_inj in H. exists t. symmetry. exact H.
  - apply Ret_inj in H. exists t. symmetry. exact H.
Qed.

(** A date validator at the two clocks, on a date not after [c]. *)
Lemma date_validator_blind :
  forall v, not_after E c v = true ->
    forall s key advice (k : PyVal -> bool -> PyRes PyVal),
      (d <- standardize_or {| ext := E; now := c; db := s |} key v advice ;;
       late <- in_future {| ext := E; now := c; db := s |} d ;; k d late)
      = (d <- standardize_or {| ext := E; now := ca; db := s |} key v advice ;;
         late <- in_future {| ext := E; now := ca; db := s |} d ;; k d late).
Proof.
  intros v Hv s key advice k. unfold standardize_or, try_except, not_after in *.
  cbn [ext].
  destruct (standardize_datetime E v) as [d | e] eqn:Hstd; [| reflexivity].
  destruct (standardized_is_aware _ _ Hstd) as [t ->].
  cbn [bindR]. unfold in_future, datetime_lt. cbn [now Bool.eqb].
  apply Z.leb_le in Hv.
  replace (c <? t) with false by (symmetry; apply Z.ltb_ge; lia).
  replace (ca <? t) with false by (symmetry; apply Z.ltb_ge; lia).
  reflexivity.
Qed.

Ltac solve_date_guarded :=
  intros name f Hf s self key v Hdate;
  cbn [validator_of Company.cls Contact.cls Opportunity.cls Activity.cls] in Hf;
  repeat match type of Hf with
         | (if String.eqb name ?n then _ else _) = Some _ =>
             let Hn := fresh "Hn" in
             destruct (String.eqb_spec name n) as [Hn | Hn]
         end;
  try discriminate Hf; inversion Hf; subst f; try reflexivity;
  (assert (Hv : not_after E c v = true)
     by (apply Hdate; subst name; cbn; tauto));
  first [ apply (date_validator_blind v Hv) ].

Lemma Company_date_guarded : date_guarded E c ca Company.cls.
Proof.
  solve_date_guarded.
Qed.

Lemma Contact_date_guarded : date_guarded E c ca Contact.cls.
Proof.
  solve_date_guarded.
Qed.

Lemma Opportunity_date_guarded : date_guarded E c ca Opportunity.cls.
Proof.
  solve_date_guarded.
Qed.

Lemma Activity_date_guarded : date_guarded E c ca Activity.cls.
Proof.
  solve_date_guarded.
Qed.

Lemma check_column_blind :
  forall cls s self col,
    date_guarded E c ca cls ->
    (In (col_name col) date_columns ->
     not_after E c (getattr self (col_name col)) = true) ->
    check_column cls {| ext := E; now := c; db := s |} self col
    = check_column cls {| ext := E; now := ca; db := s |} self col.
Proof.
  intros cls s self col Hg Hdate. unfold check_column.
  destruct (validator_of cls (col_name col)) as [f |] eqn:Hf; [| reflexivity].
  rewrite (Hg _ _ Hf s self (col_name col) (getattr self (col_name col)) Hdate).
  reflexivity.
Qed.

Lemma validate_columns_blind :
  forall cls s,
    date_guarded E c ca cls ->
    forall cols self,
      NoDup (map col_name cols) ->
      (forall col, In col cols -> In (col_name col) date_columns ->
                   not_after E c (getattr self (col_name col)) = true) ->
      validate_columns cls {| ext := E; now := c; db := s |} cols self
      = validate_columns cls {| ext := E; now := ca; db := s |} cols self.
Proof.
  intros cls s Hg. induction cols as [| col rest IH]; intros self Hnd Hdates;
    [reflexivity|].
  cbn [map] in Hnd. inversion Hnd as [| ? ? Hnotin Hnd']; subst.
  cbn [validate_columns].
  assert (Hstep : validate_column cls {| ext := E; now := c; db := s |} self col
                  = validate_column cls {| ext := E; now := ca; db := s |} self col).
  { unfold validate_column.
    rewrite (check_column_blind cls s self col Hg (Hdates col (or_introl eq_refl))).
    reflexivity. }
  rewrite <- Hstep.
  destruct (validate_column cls {| ext := E; now := c; db := s |} self col)
    as [s1 | e] eqn:Hc; [| reflexivity].
  cbn [bindR]. apply IH; [exact Hnd'|].
  intros col' Hin Hd.
  rewrite (validate_column_untouched _ _ _ _ _ (col_name col') Hc).
  - apply Hdates; [right; exact Hin | exact Hd].
  - intro Heq. apply Hnotin. rewrite <- Heq. apply in_map, Hin.
Qed.

(** [validate] of a record that carries no date after [c] gives at the clock
    [ca] what it gives at the clock [c]. *)
Lemma validate_blind :
  forall cls s d,
    date_guarded E c ca cls ->
    NoDup (column_names cls) ->
    dates_not_after E c d = true ->
    validate cls {| ext := E; now := c; db := s |} (BaseModel_init cls d)
    = validate cls {| ext := E; now := ca; db := s |} (BaseModel_init cls d).
Proof.
  intros cls s d Hg Hnd Hd. unfold validate.
  rewrite (validate_columns_blind cls s Hg (columns cls) (BaseModel_init cls d) Hnd);
    [reflexivity|].
  intros col Hin Hdate. unfold getattr. cbn [attrs BaseModel_init].
  rewrite field_filter_columns.
  - unfold dates_not_after in Hd. rewrite forallb_forall in Hd. apply Hd, Hdate.
  - unfold mem_str. apply existsb_exists. exists (col_name col).
    split; [apply in_map, Hin | apply String.eqb_refl].
Qed.

Lemma substitute_keeps_field :
  forall m source target name data d,
    name <> source -> name <> target ->
    substitute m source target data = Ret d -> field d name = field data name.
Proof.
  intros m source target name data d Hs Ht H. unfold substitute, dict_pop in H.
  destruct (dict_get data source) as [v |]; [| discriminate].
  cbn [bindR] in H.
  destruct (clean_text v false) as [n | e]; [| discriminate].
  cbn [bindR] in H.
  destruct (idmap_get m n) as [id | e]; [| discriminate].
  cbn [bindR] in H. apply Ret_inj in H. subst d.
  unfold field. rewrite dict_get_set_other by congruence.
  rewrite dict_get_remove_other by congruence. reflexivity.
Qed.

Lemma substitute_keeps_dates :
  forall m source target data d,
    ~ In source date_columns -> ~ In target date_columns ->
    substitute m source target data = Ret d ->
    dates_not_after E c d = dates_not_after E c data.
Proof.
  intros m source target data d Hs Ht H. unfold dates_not_after.
  induction date_columns as [| name rest IH]; [reflexivity|].
  cbn [forallb].
  rewrite (substitute_keeps_field m source target name data d);
    [| intro Heq; apply Hs; left; exact Heq
     | intro Heq; apply Ht; left; exact Heq | exact H].
  rewrite IH; [reflexivity | |]; intro Hin; [apply Hs | apply Ht]; right; exact Hin.
Qed.

Lemma blind_ret : forall (A : Type) (a : A), clock_blind F c ca (ret a).
Proof.
  intros A a w wa r w' Hsim H. unfold ret in *. injection H as <- <-.
  exists wa. split; [reflexivity | exact Hsim].
Qed.

Lemma blind_lift : forall (A : Type) (x : PyRes A), clock_blind F c ca (lift x).
Proof.
  intros A x w wa r w' Hsim H. unfold lift in *. injection H as <- <-.
  exists wa. split; [reflexivity | exact Hsim].
Qed.

Lemma blind_bind :
  forall (A B : Type) (m : M A) (k : A -> M B),
    clock_blind F c ca m -> (forall a, clock_blind F c ca (k a)) ->
    clock_blind F c ca (bind m k).
Proof.
  intros A B m k Hm Hk w wa r w' Hsim H. unfold bind in *.
  destruct (m w) as [[a | e] w1] eqn:Hmw.
  - destruct (Hm _ _ _ _ Hsim Hmw) as [wa1 [Hma Hsim1]]. rewrite Hma.
    exact (Hk a _ _ _ _ Hsim1 H).
  - destruct (Hm _ _ _ _ Hsim Hmw) as [wa1 [Hma Hsim1]]. rewrite Hma.
    injection H as <- <-. exists wa1. split; [reflexivity | exact Hsim1].
Qed.

(** What follows a read of the world: it may use the store, the log and the
    files of the world it is handed, which the two worlds share. *)
Lemma blind_get_world :
  forall (B : Type) (k : World -> M B),
    (forall w wa r w',
        same_but_clock F c ca w wa -> k w w = (r, w') ->
        exists wa', k wa wa = (r, wa') /\ same_but_clock F c ca w' wa') ->
    clock_blind F c ca (bind get_world k).
Proof.
  intros B k Hk w wa r w' Hsim H. unfold bind, get_world in *.
  exact (Hk _ _ _ _ Hsim H).
Qed.

Lemma blind_for_each :
  forall (A : Type) (l : list A) (body : A -> M unit),
    (forall x, In x l -> clock_blind F c ca (body x)) ->
    clock_blind F c ca (for_each l body).
Proof.
  intros A l body. induction l as [| x l IH]; intro Hbody; cbn [for_each].
  - apply blind_ret.
  - apply blind_bind; [apply Hbody; left; reflexivity|].
    intros _. apply IH. intros y Hy. apply Hbody. right. exact Hy.
Qed.

Lemma blind_fold_m :
  forall (A B : Type) (f : B -> A -> M B) (l : list A) (acc : B),
    (forall b a, In a l -> clock_blind F c ca (f b a)) ->
    clock_blind F c ca (fold_m f l acc).
Proof.
  intros A B f l. induction l as [| x l IH]; intros acc Hf; cbn [fold_m].
  - apply blind_ret.
  - apply blind_bind; [apply Hf; left; reflexivity|].
    intro b. apply IH. intros b' a Ha. apply Hf. right. exact Ha.
Qed.

Lemma blind_bulk_save_objects :
  forall cls objs, clock_blind F c ca (bulk_save_objects cls objs).
Proof.
  intros cls objs w wa r w' Hsim H. unfold bulk_save_objects in *.
  destruct Hsim as [Hs [Hl [Hf [Hfa [Hc Hca]]]]]. rewrite Hs.
  destruct (insert_rows cls (store w (tablename cls)) objs) as [rows | e];
    injection H as <- <-; eexists; (split; [reflexivity|]);
    repeat split; cbn; assumption || (rewrite Hs; reflexivity).
Qed.

Lemma blind_process_sub_entities :
  forall cls entities column,
    clock_blind F c ca (process_sub_entities cls entities column).
Proof.
  intros cls entities column w wa r w' Hsim H.
  rewrite process_sub_entities_unfold in *.
  destruct Hsim as [Hs [Hl [Hf [Hfa [Hc Hca]]]]]. rewrite Hs.
  destruct (has_column entities column);
    [| injection H as <- <-; exists wa; split; [reflexivity | repeat split; assumption]].
  destruct (map_res _ _) as [cleaned | e];
    [| injection H as <- <-; exists wa; split; [reflexivity | repeat split; assumption]].
  cbv zeta in *.
  destruct (insert_rows cls (store w (tablename cls)) _) as [rows | e];
    [| injection H as <- <-; exists wa; split; [reflexivity | repeat split; assumption]].
  injection H as <- <-. eexists. split.
  - reflexivity.
  - repeat split; cbn; assumption || reflexivity.
Qed.

(** One record of a batch: the same at the two clocks when [validate] is. *)
Lemma blind_stage_record :
  forall cls key P to_create data,
    (forall d s, P data = Ret d ->
       validate cls {| ext := E; now := c; db := s |} (BaseModel_init cls d)
       = validate cls {| ext := E; now := ca; db := s |} (BaseModel_init cls d)) ->
    clock_blind F c ca (stage_record E cls key P to_create data).
Proof.
  intros cls key P to_create data Hval w wa r w' Hsim H.
  rewrite stage_record_unfold in *.
  destruct Hsim as [Hs [Hl [Hf [Hfa [Hc Hca]]]]].
  destruct (P data) as [d | e] eqn:HP;
    [| injection H as <- <-; exists wa; split; [reflexivity | repeat split; assumption]].
  unfold ctx_of in *. rewrite Hs, Hca, <- (Hval d (store w) eq_refl). rewrite Hc in H.
  destruct (validate cls _ (BaseModel_init cls d)) as [[is_valid obj'] | e];
    [| injection H as <- <-; exists wa; split; [reflexivity | repeat split; assumption]].
  destruct is_valid;
    [injection H as <- <-; exists wa; split; [reflexivity | repeat split; assumption]|].
  unfold log_keys in *. rewrite Hl.
  destruct (mem_str key _);
    [| injection H as <- <-; exists wa; split; [reflexivity | repeat split; assumption]].
  injection H as <- <-. eexists. split; [reflexivity|].
  repeat split; cbn; assumption.
Qed.

Lemma blind_load_batch :
  forall cls key P batch,
    (forall data d s, In data batch -> P data = Ret d ->
       validate cls {| ext := E; now := c; db := s |} (BaseModel_init cls d)
       = validate cls {| ext := E; now := ca; db := s |} (BaseModel_init cls d)) ->
    clock_blind F c ca (load_batch E cls key P batch).
Proof.
  intros cls key P batch Hval w wa r w' Hsim H.
  rewrite load_batch_unfold in *.
  destruct (records_by_id [] batch) as [entity_map | e] eqn:Hmap;
    [| injection H as <- <-; exists wa; split; [reflexivity | exact Hsim]].
  cbv zeta in *.
  assert (Hs : store wa = store w) by exact (proj1 Hsim). rewrite Hs.
  set (new_entries :=
         filter (fun kv => negb (mem_val (fst kv)
                   (column_values (query_in (store w) (tablename cls) "id"
                                     (map fst entity_map)) "id"))) entity_map) in *.
  assert (Hfold : clock_blind F c ca
                    (fold_m (stage_record E cls key P) (map snd new_entries) [])).
  { apply blind_fold_m. intros b data Hin. apply blind_stage_record.
    intros d s HP. apply (Hval data); [| exact HP].
    apply in_map_iff in Hin. destruct Hin as [[k r0] [Heq Hin]]. cbn in Heq. subst r0.
    apply filter_In in Hin. destruct Hin as [Hin _].
    exact (proj1 (records_by_id_from_batch _ _ _ _ Hmap Hin)). }
  destruct (fold_m (stage_record E cls key P) (map snd new_entries) [] w)
    as [[to_create | e] w1] eqn:Hrun.
  - destruct (Hfold _ _ _ _ Hsim Hrun) as [wa1 [Hruna Hsim1]]. rewrite Hruna.
    exact (blind_bulk_save_objects cls to_create _ _ _ _ Hsim1 H).
  - destruct (Hfold _ _ _ _ Hsim Hrun) as [wa1 [Hruna Hsim1]]. rewrite Hruna.
    injection H as <- <-. exists wa1. split; [reflexivity | exact Hsim1].
Qed.

Lemma dedup_contacts_rows :
  forall batch result r,
    dedup_contacts batch = Ret result -> In r result -> In r batch.
Proof.
  intros batch result r H Hin. unfold dedup_contacts in H.
  destruct (sort_values_desc "last_modified" batch) as [sorted | e] eqn:Hsort;
    [| discriminate H].
  cbn [bindR] in H. unfold drop_duplicates in H.
  destruct (negb (has_column sorted "email")); [discriminate H|].
  apply Ret_inj in H. subst result.
  apply (proj2 (sort_values_desc_spec _ _ Hsort)).
  exact (In_keep_first _ _ _ Hin).
Qed.

Lemma In_read_chunks :
  forall rows chunk data, In chunk (read_chunks rows) -> In data chunk -> In data rows.
Proof. intros rows chunk data. unfold read_chunks. apply In_chunks_of. Qed.

Lemma blind_lift_bind :
  forall (A B : Type) (x : PyRes A) (k : A -> M B),
    (forall a, x = Ret a -> clock_blind F c ca (k a)) ->
    clock_blind F c ca (bind (lift x) k).
Proof.
  intros A B x k Hk w wa r w' Hsim H. unfold bind, lift in *.
  destruct x as [a | e].
  - exact (Hk a eq_refl _ _ _ _ Hsim H).
  - injection H as <- <-. exists wa. split; [reflexivity | exact Hsim].
Qed.

Section ClockBlindFiles.
Variable self : Pipeline.
Hypothesis Hdates : no_future_dates E c (F (data_path self)) = true.

Lemma companies_dates :
  forall data, In data (companies_csv (F (data_path self))) ->
               dates_not_after E c data = true.
Proof.
  unfold no_future_dates in Hdates.
  apply andb_prop in Hdates. destruct Hdates as [H12 _].
  apply andb_prop in H12. destruct H12 as [H1 _].
  rewrite forallb_forall in H1. exact H1.
Qed.

Lemma contacts_dates :
  forall data, In data (contacts_json (F (data_path self))) ->
               dates_not_after E c data = true.
Proof.
  unfold no_future_dates in Hdates.
  apply andb_prop in Hdates. destruct Hdates as [H12 _].
  apply andb_prop in H12. destruct H12 as [_ H2].
  rewrite forallb_forall in H2. exact H2.
Qed.

Lemma opportunities_dates :
  forall data, In data (opportunities_csv (F (data_path self))) ->
               dates_not_after E c data = true.
Proof.
  unfold no_future_dates in Hdates.
  apply andb_prop in Hdates. destruct Hdates as [_ H3].
  rewrite forallb_forall in H3. exact H3.
Qed.

Lemma blind_process_companies : clock_blind F c ca (process_companies E self).
Proof.
  unfold process_companies. apply blind_get_world. intros w wa r w' Hsim H.
  pose proof Hsim as [_ [_ [Hf [Hfa _]]]].
  rewrite Hfa. rewrite Hf in H.
  refine (blind_for_each _ _ _ _ w wa r w' Hsim H).
  intros chunk Hchunk. apply blind_bind; [apply blind_process_sub_entities|].
  intro ids_map. apply blind_load_batch. intros data d s Hin HP.
  apply validate_blind;
    [apply Company_date_guarded | apply Company_columns_NoDup |].
  rewrite (substitute_keeps_dates ids_map "industry" "industry_id" data d
             ltac:(cbn; intuition discriminate) ltac:(cbn; intuition discriminate) HP).
  apply companies_dates. exact (In_read_chunks _ _ _ Hchunk Hin).
Qed.

Lemma blind_process_contacts : clock_blind F c ca (process_contacts E self).
Proof.
  unfold process_contacts. apply blind_get_world. intros w wa r w' Hsim H.
  pose proof Hsim as [_ [_ [Hf [Hfa _]]]].
  rewrite Hfa. rewrite Hf in H.
  refine (blind_lift_bind _ _ _ _ _ w wa r w' Hsim H).
  intros contacts_df Hdedup.
  apply blind_bind; [apply blind_process_sub_entities|].
  intro ids_map. apply blind_load_batch. intros data d s Hin HP.
  apply validate_blind;
    [apply Contact_date_guarded | apply Contact_columns_NoDup |].
  rewrite (substitute_keeps_dates ids_map "status" "status_id" data d
             ltac:(cbn; intuition discriminate) ltac:(cbn; intuition discriminate) HP).
  apply contacts_dates. exact (dedup_contacts_rows _ _ _ Hdedup Hin).
Qed.

Lemma blind_process_opportunities : clock_blind F c ca (process_opportunities E self).
Proof.
  unfold process_opportunities. apply blind_get_world. intros w wa r w' Hsim H.
  pose proof Hsim as [_ [_ [Hf [Hfa _]]]].
  rewrite Hfa. rewrite Hf in H.
  refine (blind_for_each _ _ _ _ w wa r w' Hsim H).
  intros chunk Hchunk.
  apply blind_bind; [apply blind_process_sub_entities|]. intro stages_map.
  apply blind_bind; [apply blind_process_sub_entities|]. intro categories_map.
  apply blind_bind; [apply blind_process_sub_entities|]. intro products_map.
  apply blind_load_batch. intros data d s Hin HP.
  apply validate_blind;
    [apply Opportunity_date_guarded | apply Opportunity_columns_NoDup |].
  destruct (substitute stages_map "stage" "stage_id" data) as [d1 | e] eqn:H1;
    [| discriminate HP].
  cbn [bindR] in HP.
  destruct (substitute categories_map "forecast_category" "forecast_category_id" d1)
    as [d2 | e] eqn:H2; [| discriminate HP].
  cbn [bindR] in HP.
  rewrite (substitute_keeps_dates products_map "product" "product_id" d2 d
             ltac:(cbn; intuition discriminate) ltac:(cbn; intuition discriminate) HP).
  rewrite (substitute_keeps_dates categories_map "forecast_category" "forecast_category_id" d1 d2
             ltac:(cbn; intuition discriminate) ltac:(cbn; intuition discriminate) H2).
  rewrite (substitute_keeps_dates stages_map "stage" "stage_id" data d1
             ltac:(cbn; intuition discriminate) ltac:(cbn; intuition discriminate) H1).
  apply opportunities_dates. exact (In_read_chunks _ _ _ Hchunk Hin).
Qed.

(** No validator of an activity looks at the clock. *)
Lemma blind_process_activities : clock_blind F c ca (process_activities E self).
Proof.
  unfold process_activities. apply blind_get_world. intros w wa r w' Hsim H.
  pose proof Hsim as [_ [_ [Hf [Hfa _]]]].
  rewrite Hfa. rewrite Hf in H.
  refine (blind_load_batch _ _ _ _ _ w wa r w' Hsim H).
  intros data d s Hin HP. unfold validate.
  rewrite (validate_columns_blind Activity.cls s Activity_date_guarded
             (columns Activity.cls) (BaseModel_init Activity.cls d)
             Activity_columns_NoDup); [reflexivity|].
  intros col Hcol Hdate. exfalso. cbn in Hcol, Hdate.
  repeat (destruct Hcol as [<- | Hcol]; [cbn in Hdate; intuition discriminate |]).
  exact Hcol.
Qed.

Lemma blind_log_errors : clock_blind F c ca (log_errors self).
Proof.
  intros w wa r w' Hsim H. unfold log_errors in *.
  destruct Hsim as [Hs [Hl [Hf [Hfa [Hc Hca]]]]]. rewrite Hl.
  destruct (negb (is_nil (class_validation_errors w)));
    injection H as <- <-; eexists; (split; [reflexivity|]);
    repeat split; cbn; assumption.
Qed.

Lemma blind_run : clock_blind F c ca (run E self).
Proof.
  unfold run.
  apply blind_bind; [apply blind_process_companies | intros _].
  apply blind_bind; [apply blind_process_contacts | intros _].
  apply blind_bind; [apply blind_process_opportunities | intros _].
  apply blind_bind; [apply blind_process_activities | intros _].
  apply blind_get_world. intros w wa r w' Hsim H.
  rewrite (proj1 (proj2 Hsim)).
  destruct (any_errors (class_validation_errors w)).
  - exact (blind_log_errors _ _ _ _ Hsim H).
  - exact (blind_ret _ tt _ _ _ _ Hsim H).
Qed.
End ClockBlindFiles.
End ClockBlind.


